(** * evidently-data-structures: object pools and the bucketed spatial grid

  A shallow embedding of [src/FastPool.ts], [src/SlowPool.ts],
  [src/SpatialGrid2D.ts] and [src/Grid2D.ts], and the properties of them
  that the specification states.

  Conventions of the embedding.

  - A JavaScript [number] is an exact rational ([Q]): the code never
    checks that a coordinate is an integer, so fractional coordinates are
    ordinary inputs.  Rounding of the floating point division, [NaN] and
    the infinities are outside the model, except where the code divides by
    a bucket dimension that may be zero: that case is written out.  The
    quotient of a coordinate or of a grid dimension by a bucket dimension
    is exact; its integer part is the one the code computes when the
    bucket dimension is an integer from 1 on, which the constructor checks
    and [resize] does not.
  - [x | 0] is ECMAScript [ToInt32] after truncation, wrap-around included.
  - Objects are compared by reference ([===]).  Pool objects are taken from
    a type with decidable equality; the records of the spatial grid are
    addresses into a heap of mutable cells, so that two array slots holding
    the same record alias each other as they do in the source.
  - A method is a function from the state before the call to an [outcome]:
    a normal return, a thrown error together with the state at the throw, or
    no return at all.  User callbacks act on a state of their own and do
    not call back into the structure that invokes them.
  - Counts handed to [hydrate] are natural numbers. *)

From Stdlib Require Import ZArith QArith Qround Lia Lqa.
From stdpp Require Import base option list gmap.

Set Default Proof Using "Type".

(** ** Outcomes of a method call *)

(** The source throws plain [Error]s told apart by their message only; the
  constructors name them after the taxonomy of the specification.
  [TypeError] is what reading a property of [undefined] raises. *)
Inductive Error : Set :=
| DimensionError
| BoundsError
| NotFoundError
| DuplicateRecordError
| InvalidReleaseError
| TypeError.

#[global] Instance Error_eq_dec : EqDecision Error.
Proof. solve_decision. Defined.

Inductive outcome (S A : Type) : Type :=
| Return (a : A) (s : S)
| Throw (e : Error) (s : S)
| NoReturn.
Arguments Return {S A} a s.
Arguments Throw {S A} e s.
Arguments NoReturn {S A}.

Definition M (S A : Type) : Type := S → outcome S A.

Definition ret {S A} (a : A) : M S A := λ s, Return a s.
Definition throw {S A} (e : Error) : M S A := λ s, Throw e s.
Definition bind {S A B} (m : M S A) (k : A → M S B) : M S B :=
λ s, match m s with
     | Return a s' => k a s'
     | Throw e s' => Throw e s'
     | NoReturn => NoReturn
     end.
Definition gets {S A} (f : S → A) : M S A := λ s, Return (f s) s.
Definition modify {S} (f : S → S) : M S unit := λ s, Return tt (f s).

(** What a caller sees of a call: the value returned ([None] for a call that
    does not return) or the error thrown; and the state the call leaves. *)
Definition result {S A} (m : M S A) (s : S) : option A + Error :=
  match m s with
  | Return a _ => inl (Some a)
  | Throw e _ => inr e
  | NoReturn => inl None
  end.
Definition after {S A} (m : M S A) (s : S) : S :=
  match m s with
  | Return _ s' => s'
  | Throw _ s' => s'
  | NoReturn => s
  end.

Notation "'let!' x ':=' m 'in' k" := (bind m (λ x, k))
(at level 10, x pattern, m at level 100, k at level 200).
Notation "m ';;;' k" := (bind m (λ _, k))
(at level 100, k at level 200, right associativity).

(** ** JavaScript arrays *)

(** An array is an object with integer-keyed properties and a [length];
  reading an absent property gives [undefined] ([None]); writing at an
  index at or past [length] extends the array; a negative key is an
  ordinary property that leaves [length] alone. *)
Module JsArray.
Record t (A : Type) := mk { props : gmap Z A; length : Z }.
Arguments mk {A} props length.
Arguments props {A} _.
Arguments length {A} _.

Definition empty {A} : t A := mk ∅ 0.
Definition get {A} (a : t A) (i : Z) : option A := props a !! i.
Definition set {A} (a : t A) (i : Z) (v : A) : t A :=
  mk (<[i := v]> (props a))
     (if (0 <=? i)%Z then Z.max (length a) (i + 1) else length a).
(** [a.length += n] for a count [n]. *)
Definition grow {A} (a : t A) (n : nat) : t A :=
  mk (props a) (length a + Z.of_nat n).
End JsArray.

(** ** Pools ([src/Pool.ts], [src/FastPool.ts], [src/SlowPool.ts]) *)

Module Pool.
(** The optional fields of the configuration object. *)
Record PoolConfig := { initialSize : option nat; autoHydrateSize : option nat }.

(** The configuration after the constructor applied [?? 10] to each field. *)
Record Config := { cfg_initialSize : nat; cfg_autoHydrateSize : nat }.

Definition withDefaults (config : option PoolConfig) : Config :=
  let config := default {| initialSize := None; autoHydrateSize := None |} config in
  {| cfg_initialSize := default 10%nat (initialSize config);
     cfg_autoHydrateSize := default 10%nat (autoHydrateSize config) |}.
End Pool.
Export Pool.

Module FastPool.
Section FastPool.
Context {TObject W : Type}.

Definition PoolHydrateCallback : Type := W → TObject * W.
Definition PoolReleaseCallback : Type := TObject → W → W.

Record t := mk {
  _indexInPool : Z;
  _pool : JsArray.t TObject;
  _onHydrate : PoolHydrateCallback;
  _onRelease : option PoolReleaseCallback;
  _config : Config
}.

Definition availableObjects (p : t) : Z := _indexInPool p.
Definition totalObjects (p : t) : Z := JsArray.length (_pool p).
Definition usedObjects (p : t) : Z := totalObjects p - availableObjects p.

Definition with_pool (a : JsArray.t TObject) (p : t) : t :=
  mk (_indexInPool p) a (_onHydrate p) (_onRelease p) (_config p).
Definition with_index (i : Z) (p : t) : t :=
  mk i (_pool p) (_onHydrate p) (_onRelease p) (_config p).

(** [this._pool[this._indexInPool++] = object] *)
Definition store (object : TObject) (p : t) : t :=
  with_index (_indexInPool p + 1)
    (with_pool (JsArray.set (_pool p) (_indexInPool p) object) p).

(** [while (objectsToCreate-- > 0) this._pool[this._indexInPool++] = this._onHydrate()] *)
Fixpoint hydrateLoop (objectsToCreate : nat) (p : t) (w : W) : t * W :=
  match objectsToCreate with
  | O => (p, w)
  | S n =>
      let '(object, w) := _onHydrate p w in
      hydrateLoop n (store object p) w
  end.

Definition hydrate (objectsToCreate : nat) (p : t) (w : W) : t * W :=
  hydrateLoop objectsToCreate
    (with_pool (JsArray.grow (_pool p) objectsToCreate) p) w.

Definition new (onHydrate : PoolHydrateCallback)
    (onRelease : option PoolReleaseCallback)
    (config : option PoolConfig) (w : W) : t * W :=
  let config := withDefaults config in
  hydrate (cfg_initialSize config)
    (mk 0 JsArray.empty onHydrate onRelease config) w.

(** The result is [None] when the slot read is [undefined]. *)
Definition getOne (p : t) (w : W) : option TObject * t * W :=
  let '(p, w) :=
    if (_indexInPool p =? 0)%Z
    then hydrate (cfg_autoHydrateSize (_config p)) p w
    else (p, w) in
  let i := (_indexInPool p - 1)%Z in
  (JsArray.get (_pool p) i, with_index i p, w).

Definition release (object : TObject) (p : t) (w : W) : t * W :=
  (store object p,
   match _onRelease p with
   | Some onRelease => onRelease object w
   | None => w
   end).

(** [getOne] called [k] times in a row, the objects dropped. *)
Fixpoint getMany (k : nat) (p : t) (w : W) : t * W :=
  match k with
  | O => (p, w)
  | S k => let '(_, p, w) := getOne p w in getMany k p w
  end.
End FastPool.
Arguments t : clear implicits.
End FastPool.

Module SlowPool.
Section SlowPool.
Context {TObject : Type} `{Countable TObject} {W : Type}.

Definition PoolHydrateCallback : Type := W → TObject * W.
Definition PoolReleaseCallback : Type := TObject → W → W.

(** The keys of [_isAvailableMap] are whatever [getOne] and [hydrate] put
    there: an object, or [undefined] ([None]) when [getOne] read an empty
    slot. *)
Record t := mk {
  _indexInPool : Z;
  _isAvailableMap : gmap (option TObject) bool;
  _pool : JsArray.t TObject;
  _onHydrate : PoolHydrateCallback;
  _onRelease : option PoolReleaseCallback;
  _config : Config
}.

Definition availableObjects (p : t) : Z := _indexInPool p.
Definition totalObjects (p : t) : Z := JsArray.length (_pool p).
Definition usedObjects (p : t) : Z := totalObjects p - availableObjects p.

Definition with_pool (a : JsArray.t TObject) (p : t) : t :=
  mk (_indexInPool p) (_isAvailableMap p) a (_onHydrate p) (_onRelease p) (_config p).
Definition with_index (i : Z) (p : t) : t :=
  mk i (_isAvailableMap p) (_pool p) (_onHydrate p) (_onRelease p) (_config p).
Definition with_map (m : gmap (option TObject) bool) (p : t) : t :=
  mk (_indexInPool p) m (_pool p) (_onHydrate p) (_onRelease p) (_config p).

Definition store (object : TObject) (p : t) : t :=
  with_index (_indexInPool p + 1)
    (with_pool (JsArray.set (_pool p) (_indexInPool p) object) p).

(** [Map.prototype.has] *)
Definition has (m : gmap (option TObject) bool) (k : option TObject) : bool :=
  bool_decide (is_Some (m !! k)).

Fixpoint hydrateLoop (objectsToCreate : nat) : M (t * W) unit :=
  match objectsToCreate with
  | O => ret tt
  | S n => λ '(p, w),
      let '(nextObject, w) := _onHydrate p w in
      if has (_isAvailableMap p) (Some nextObject)
      then Throw DuplicateRecordError (p, w)
      else
        let p := with_map (<[Some nextObject := true]> (_isAvailableMap p)) p in
        hydrateLoop n (store nextObject p, w)
  end.

Definition hydrate (objectsToCreate : nat) : M (t * W) unit :=
  λ '(p, w),
    hydrateLoop objectsToCreate
      (with_pool (JsArray.grow (_pool p) objectsToCreate) p, w).

Definition new (onHydrate : PoolHydrateCallback)
    (onRelease : option PoolReleaseCallback)
    (config : option PoolConfig) (w : W) : outcome (t * W) unit :=
  let config := withDefaults config in
  hydrate (cfg_initialSize config)
    (mk 0 ∅ JsArray.empty onHydrate onRelease config, w).

Definition getOne : M (t * W) (option TObject) :=
  (let! _ := (λ '(p, w),
     if (_indexInPool p =? 0)%Z
     then hydrate (cfg_autoHydrateSize (_config p)) (p, w)
     else Return tt (p, w)) in
   λ '(p, w),
     let i := (_indexInPool p - 1)%Z in
     let object := JsArray.get (_pool p) i in
     let p := with_index i p in
     let p := with_map (<[object := false]> (_isAvailableMap p)) p in
     Return object (p, w)).

Definition release (object : TObject) : M (t * W) unit :=
  λ '(p, w),
    if negb (has (_isAvailableMap p) (Some object))
    then Throw InvalidReleaseError (p, w)
    else if bool_decide (_isAvailableMap p !! Some object = Some true)
    then Throw InvalidReleaseError (p, w)
    else
      Return tt
        (store object p,
         match _onRelease p with
         | Some onRelease => onRelease object w
         | None => w
         end).

(** [getOne] called [k] times in a row, the objects dropped. *)
Fixpoint getMany (k : nat) : M (t * W) unit :=
  match k with
  | O => ret tt
  | S k => let! _ := getOne in getMany k
  end.
End SlowPool.
Arguments t _ {_ _} _.
End SlowPool.

(** A factory observed through the number of times it has been called: the
    callback state is that number, and the [k]-th call returns [factory k]. *)
Definition counting {TObject} (factory : nat → TObject) : nat → TObject * nat :=
  λ k, (factory k, S k).

(** Every object a checked pool knows came out of one of the first [k] calls
    of the factory. *)
Definition tracked_below {TObject} `{Countable TObject} (factory : nat → TObject)
    (p : SlowPool.t TObject nat) (k : nat) : Prop :=
  (∀ o, SlowPool.has (SlowPool._isAvailableMap p) (Some o) = true →
        ∃ j, (j < k)%nat ∧ o = factory j)
  ∧ (∀ i o, JsArray.get (SlowPool._pool p) i = Some o →
        ∃ j, (j < k)%nat ∧ o = factory j).

(** ** Numbers *)

(** JavaScript numbers are modelled as rationals.  [NaN] and the infinities
    are not numbers of the model: in the code [<] and [>=] are both false
    on [NaN], where here the one is the negation of the other. *)

Definition Qltb (a b : Q) : bool := negb (Qle_bool b a).

(** [Number.isInteger] *)
Definition isInteger (q : Q) : bool := Qeq_bool (inject_Z (Qfloor q)) q.

(** Rounding toward zero, the first step of [ToInt32]. *)
Definition truncate (q : Q) : Z := Z.quot (Qnum q) (Z.pos (Qden q)).

(** [ToInt32] of an integer: reduction modulo [2^32] into [[-2^31, 2^31)]. *)
Definition toInt32 (z : Z) : Z := ((z + 2 ^ 31) mod 2 ^ 32 - 2 ^ 31)%Z.

(** [a / b | 0].  A zero divisor makes the quotient an infinity or [NaN],
    which [ToInt32] sends to [0].  The quotient is taken exactly, where the
    code rounds it to a double before it truncates: the two give the same
    index for the bucket dimensions the constructor accepts, the integers
    from 1 on, and can differ for another divisor, which only [resize] lets
    in (the code rounds [6.999999999999999 / 0.7] up to [10]). *)
Definition divToInt32 (a b : Q) : Z :=
  if Qeq_bool b 0 then 0%Z else toInt32 (truncate (a / b)).

(** [Math.ceil(a / b)] used as the bound of a loop [for (i = 0; i < bound; i++)]:
    the number of iterations, or [None] when the bound is [+Infinity] and the
    loop never ends.  ([a / 0] is [+Infinity] for [a > 0], and [NaN] or
    [-Infinity] otherwise, for which the loop body never runs.)  Here too
    the quotient is exact, and is the one of the code when [b] is an
    integer from 1 on ([Math.ceil(7 / 0.7)] is [10] in the code). *)
Definition ceilDiv (a b : Q) : option nat :=
  if Qeq_bool b 0
  then (if Qltb 0 a then None else Some 0%nat)
  else Some (Z.to_nat (Qceiling (a / b))).

(** [array[i]] for a dense array and an integer [i]. *)
Definition index {A} (l : list A) (i : Z) : option A :=
  if (i <? 0)%Z then None else l !! Z.to_nat i.

(** ** Values, items and the heap *)

(** The values a grid stores: any type with decidable reference equality
    that has [undefined] and [null] in it. *)
Class JsValue (V : Type) := {
  js_eq_dec :: EqDecision V;
  undefined : V;
  null : V
}.

Definition addr : Type := nat.

(** [interface Item<TElement> { x: number; y: number; value: TElement }] *)
Record Item (V : Type) := mkItem { item_x : Q; item_y : Q; item_value : V }.
Arguments mkItem {V} _ _ _.
Arguments item_x {V} _.
Arguments item_y {V} _.
Arguments item_value {V} _.

(** The item objects allocated so far, by address; [next] is the first
    address not yet allocated. *)
Record Heap (V : Type) := mkHeap { cells : addr → Item V; next : addr }.
Arguments mkHeap {V} _ _.
Arguments cells {V} _ _.
Arguments next {V} _.

Definition update {V} (a : addr) (f : Item V → Item V) (h : Heap V) : Heap V :=
  mkHeap (λ a', if decide (a' = a) then f (cells h a') else cells h a') (next h).

(** ** The spatial grid ([src/SpatialGrid2D.ts]) *)

Module SpatialGrid2D.
Section SpatialGrid2D.
Context {TElement : Type} `{JsValue TElement}.
(** The state the user callbacks act on. *)
Context {U : Type}.

Definition SpatialGrid2DDestroyCallback : Type := TElement → Q → Q → U → U.
Definition SpatialGrid2DFilterCallback : Type := TElement → Q → Q → U → bool * U.

Record SpatialGrid2DConfig := {
  destructorCallback : option SpatialGrid2DDestroyCallback
}.

Record t := mk {
  _gridWidth : Q;
  _gridHeight : Q;
  _bucketWidth : Q;
  _bucketHeight : Q;
  _size : Z;
  _config : SpatialGrid2DConfig;
  _buckets : list (list (list addr))
}.

(** One grid together with what its methods reach: the heap of item objects,
    the module-level [itemPool] and the state of the user callbacks. *)
Record World := mkWorld {
  heap : Heap TElement;
  itemPool : FastPool.t addr (Heap TElement);
  grid : t;
  user : U
}.

(** [() => { return {x: 0, y: 0, value: undefined}; }] *)
Definition newItem : Heap TElement → addr * Heap TElement :=
  λ h, (next h,
        mkHeap (λ a, if decide (a = next h) then mkItem 0 0 undefined else cells h a)
               (S (next h))).

Definition emptyHeap : Heap TElement := mkHeap (λ _, mkItem 0 0 undefined) 0.

(** [const itemPool = new FastPool(...); itemPool.hydrate(1024);] *)
Definition itemPool_init : FastPool.t addr (Heap TElement) * Heap TElement :=
  let '(p, h) := FastPool.new newItem None None emptyHeap in
  FastPool.hydrate 1024 p h.

(** *** Field updates *)

Definition with_heap (h : Heap TElement) (w : World) : World :=
  mkWorld h (itemPool w) (grid w) (user w).
Definition with_itemPool (p : FastPool.t addr (Heap TElement)) (w : World) : World :=
  mkWorld (heap w) p (grid w) (user w).
Definition with_grid (g : t) (w : World) : World :=
  mkWorld (heap w) (itemPool w) g (user w).
Definition with_user (u : U) (w : World) : World :=
  mkWorld (heap w) (itemPool w) (grid w) u.

Definition with_size (n : Z) (g : t) : t :=
  mk (_gridWidth g) (_gridHeight g) (_bucketWidth g) (_bucketHeight g) n
     (_config g) (_buckets g).
Definition with_buckets (b : list (list (list addr))) (g : t) : t :=
  mk (_gridWidth g) (_gridHeight g) (_bucketWidth g) (_bucketHeight g) (_size g)
     (_config g) b.

Definition item (w : World) (a : addr) : Item TElement := cells (heap w) a.

Definition set_x (a : addr) (x : Q) : M World unit :=
  modify (λ w, with_heap (update a (λ it, mkItem x (item_y it) (item_value it)) (heap w)) w).
Definition set_y (a : addr) (y : Q) : M World unit :=
  modify (λ w, with_heap (update a (λ it, mkItem (item_x it) y (item_value it)) (heap w)) w).
Definition set_value (a : addr) (v : TElement) : M World unit :=
  modify (λ w, with_heap (update a (λ it, mkItem (item_x it) (item_y it) v) (heap w)) w).

(** [itemPool.getOne()] *)
Definition itemPool_getOne : M World (option addr) :=
  λ w, let '(o, p, h) := FastPool.getOne (itemPool w) (heap w) in
       Return o (with_itemPool p (with_heap h w)).

(** [itemPool.release(item)] *)
Definition itemPool_release (a : addr) : M World unit :=
  λ w, let '(p, h) := FastPool.release a (itemPool w) (heap w) in
       Return tt (with_itemPool p (with_heap h w)).

(** [this._size++] and [this._size--] *)
Definition size_incr : M World unit :=
  modify (λ w, with_grid (with_size (_size (grid w) + 1) (grid w)) w).
Definition size_decr : M World unit :=
  modify (λ w, with_grid (with_size (_size (grid w) - 1) (grid w)) w).

(** *** Getters *)

Definition gridWidth (w : World) : Q := _gridWidth (grid w).
Definition gridHeight (w : World) : Q := _gridHeight (grid w).
Definition bucketWidth (w : World) : Q := _bucketWidth (grid w).
Definition bucketHeight (w : World) : Q := _bucketHeight (grid w).
Definition size (w : World) : Z := _size (grid w).

(** *** Constructor *)

(** [n < 1 || !Number.isInteger(n)] *)
Definition badDimension (n : Q) : bool := Qltb n 1 || negb (isInteger n).

(** The nested loops that fill a fresh bucket array. *)
Definition emptyBuckets (bucketsInX bucketsInY : nat) : list (list (list addr)) :=
  replicate bucketsInX (replicate bucketsInY []).

Definition new (gridWidth gridHeight bucketWidth bucketHeight : Q)
    (config : option SpatialGrid2DConfig) : Error + t :=
  if badDimension gridWidth then inl DimensionError
  else if badDimension gridHeight then inl DimensionError
  else if badDimension bucketWidth then inl DimensionError
  else if badDimension bucketHeight then inl DimensionError
  else
    let config := default {| destructorCallback := None |} config in
    let bucketsInX := Z.to_nat (Qceiling (gridWidth / bucketWidth)) in
    let bucketsInY := Z.to_nat (Qceiling (gridHeight / bucketHeight)) in
    inr (mk gridWidth gridHeight bucketWidth bucketHeight 0 config
            (emptyBuckets bucketsInX bucketsInY)).

(** *** Bounds check and bucket addressing *)

(** [x < 0 || x >= this._gridWidth || y < 0 || y >= this._gridHeight] *)
Definition outOfBounds (g : t) (x y : Q) : bool :=
  Qltb x 0 || Qle_bool (_gridWidth g) x || Qltb y 0 || Qle_bool (_gridHeight g) y.

(** [this._buckets[x / this._bucketWidth | 0][y / this._bucketHeight | 0]]:
    the two indices and the bucket found there.  Indexing [undefined], and
    every use the callers make of an [undefined] bucket, raises a
    [TypeError]. *)
Definition bucketOf (x y : Q) : M World (Z * Z * list addr) :=
  λ w,
    let bx := divToInt32 x (_bucketWidth (grid w)) in
    let by_ := divToInt32 y (_bucketHeight (grid w)) in
    match index (_buckets (grid w)) bx with
    | None => Throw TypeError w
    | Some row =>
        match index row by_ with
        | None => Throw TypeError w
        | Some bucket => Return (bx, by_, bucket) w
        end
    end.

(** The bucket at indices [(bx, by_)] after its array was mutated in place. *)
Definition store_bucket (bx by_ : Z) (bucket : list addr) : M World unit :=
  modify (λ w,
    let b := _buckets (grid w) in
    let row := default [] (index b bx) in
    with_grid
      (with_buckets (<[Z.to_nat bx := <[Z.to_nat by_ := bucket]> row]> b) (grid w)) w).

(** [item.x === x && item.y === y] *)
Definition at_position (x y : Q) (it : Item TElement) : bool :=
  Qeq_bool (item_x it) x && Qeq_bool (item_y it) y.

(** [item.x === x && item.y === y && item.value === element] *)
Definition is_element (x y : Q) (element : TElement) (it : Item TElement) : bool :=
  Qeq_bool (item_x it) x && Qeq_bool (item_y it) y
  && bool_decide (item_value it = element).

(** *** get *)

Definition get (x y : Q) (out : option (list TElement)) : M World (list TElement) :=
  let! g := gets grid in
  if outOfBounds g x y then throw BoundsError
  else
    let out := default [] out in
    let! (_, _, bucket) := bucketOf x y in
    let! w := gets id in
    ret (fold_left
           (λ out a, if at_position x y (item w a)
                     then out ++ [item_value (item w a)] else out)
           bucket out).

(** *** insertAt *)

Definition insertAt (x y : Q) (element : TElement) : M World unit :=
  let! g := gets grid in
  if outOfBounds g x y then throw BoundsError
  else
    let! got := itemPool_getOne in
    match got with
    | None => throw TypeError
    | Some a =>
        set_x a x;;;
        set_y a y;;;
        set_value a element;;;
        let! (bx, by_, bucket) := bucketOf x y in
        store_bucket bx by_ (bucket ++ [a]);;;
        size_incr
    end.

(** *** removeAt *)

(** The loop [for (let i = 0; i < bucketLength; i++)].  [remaining] is
    [bucketLength - i]: the test [i < bucketLength] holds exactly when it is
    not zero, a matching record lowers [bucketLength] and leaves [i] in place
    ([i--] then [i++]), any other record advances [i].  The result is the
    array, [bucketLength] and [itemFound] when the loop ends. *)
Fixpoint removeAt_loop (x y : Q) (element : TElement) (remaining : nat)
    (bucket : list addr) (i : nat) (itemFound : bool)
  : M World (list addr * nat * bool) :=
  match remaining with
  | O => ret (bucket, i, itemFound)
  | S remaining =>
      match bucket !! i with
      | None => throw TypeError
      | Some a =>
          let! w := gets id in
          if is_element x y element (item w a)
          then
            let bucketLength := (i + remaining)%nat in
            let bucket :=
              match bucket !! bucketLength with
              | Some last => <[i := last]> bucket
              | None => bucket
              end in
            set_value a undefined;;;
            itemPool_release a;;;
            size_decr;;;
            removeAt_loop x y element remaining bucket i true
          else removeAt_loop x y element remaining bucket (S i) itemFound
      end
  end.

Definition removeAt (x y : Q) (element : TElement) : M World unit :=
  let! g := gets grid in
  if outOfBounds g x y then throw BoundsError
  else
    let! (bx, by_, bucket) := bucketOf x y in
    let! (bucket, bucketLength, itemFound) :=
      removeAt_loop x y element (length bucket) bucket 0 false in
    store_bucket bx by_ (take bucketLength bucket);;;
    if negb itemFound then throw NotFoundError else ret tt.

(** *** removeAllAt *)

Fixpoint removeAllAt_loop (x y : Q) (remaining : nat)
    (bucket : list addr) (i : nat) : M World (list addr * nat) :=
  match remaining with
  | O => ret (bucket, i)
  | S remaining =>
      match bucket !! i with
      | None => throw TypeError
      | Some a =>
          let! w := gets id in
          if at_position x y (item w a)
          then
            let bucketLength := (i + remaining)%nat in
            let bucket :=
              match bucket !! bucketLength with
              | Some last => <[i := last]> bucket
              | None => bucket
              end in
            size_decr;;;
            set_value a null;;;
            itemPool_release a;;;
            removeAllAt_loop x y remaining bucket i
          else removeAllAt_loop x y remaining bucket (S i)
      end
  end.

Definition removeAllAt (x y : Q) : M World unit :=
  let! g := gets grid in
  if outOfBounds g x y then throw BoundsError
  else
    let! (bx, by_, bucket) := bucketOf x y in
    let! (bucket, bucketLength) :=
      removeAllAt_loop x y (length bucket) bucket 0 in
    store_bucket bx by_ (take bucketLength bucket).

(** *** move *)

Definition move (fromX fromY toX toY : Q) (element : TElement) : M World unit :=
  removeAt fromX fromY element;;;
  insertAt toX toY element.

(** *** resize *)

Definition with_dimensions (gridWidth gridHeight bucketWidth bucketHeight : Q)
    (b : list (list (list addr))) (g : t) : t :=
  mk gridWidth gridHeight bucketWidth bucketHeight (_size g) (_config g) b.

(** [newBuckets[ix][iy].push(item)]; [None] when one of the two reads gives
    [undefined]. *)
Definition push_into (newBuckets : list (list (list addr))) (ix iy : Z) (a : addr)
  : option (list (list (list addr))) :=
  match index newBuckets ix with
  | None => None
  | Some row =>
      match index row iy with
      | None => None
      | Some bucket =>
          Some (<[Z.to_nat ix := <[Z.to_nat iy := bucket ++ [a]]> row]> newBuckets)
      end
  end.

(** [this._config.destructorCallback?.(item.value, item.x, item.y)] *)
Definition call_destructor (it : Item TElement) : M World unit :=
  modify (λ w,
    match destructorCallback (_config (grid w)) with
    | Some callback =>
        with_user (callback (item_value it) (item_x it) (item_y it) (user w)) w
    | None => w
    end).

(** The body of the three nested [for ... of] loops, run over the records of
    all buckets in order. *)
Fixpoint resize_loop (gridWidth gridHeight bucketWidth bucketHeight : Q)
    (items : list addr) (newBuckets : list (list (list addr)))
  : M World (list (list (list addr))) :=
  match items with
  | [] => ret newBuckets
  | a :: items =>
      let! w := gets id in
      let it := item w a in
      if Qle_bool gridWidth (item_x it) || Qle_bool gridHeight (item_y it)
      then
        call_destructor it;;;
        set_value a undefined;;;
        itemPool_release a;;;
        size_decr;;;
        resize_loop gridWidth gridHeight bucketWidth bucketHeight items newBuckets
      else
        match push_into newBuckets (divToInt32 (item_x it) bucketWidth)
                (divToInt32 (item_y it) bucketHeight) a with
        | None => throw TypeError
        | Some newBuckets =>
            resize_loop gridWidth gridHeight bucketWidth bucketHeight items newBuckets
        end
  end.

(** The records of all buckets in the order of
    [for (row of _buckets) for (bucket of row) for (item of bucket)]. *)
Definition allItems (w : World) : list addr := concat (concat (_buckets (grid w))).

Definition resize (gridWidth gridHeight bucketWidth bucketHeight : option Q)
  : M World unit :=
  let! g := gets grid in
  let gridWidth := default (_gridWidth g) gridWidth in
  let gridHeight := default (_gridHeight g) gridHeight in
  let bucketWidth := default (_bucketWidth g) bucketWidth in
  let bucketHeight := default (_bucketHeight g) bucketHeight in
  match ceilDiv gridWidth bucketWidth, ceilDiv gridHeight bucketHeight with
  | None, _ => λ _, NoReturn
  | Some (S _), None => λ _, NoReturn
  | Some bucketsInX, bucketsInY =>
      let newBuckets := emptyBuckets bucketsInX (default 0%nat bucketsInY) in
      let! w := gets id in
      let! newBuckets :=
        resize_loop gridWidth gridHeight bucketWidth bucketHeight
          (allItems w) newBuckets in
      modify (λ w,
        with_grid
          (with_dimensions gridWidth gridHeight bucketWidth bucketHeight
             newBuckets (grid w)) w)
  end.

(** *** forEach *)

Definition forEach (callback : SpatialGrid2DDestroyCallback) : M World unit :=
  modify (λ w,
    with_user
      (fold_left
         (λ u a, callback (item_value (item w a)) (item_x (item w a))
                   (item_y (item w a)) u)
         (allItems w) (user w)) w).

(** *** clear *)

Fixpoint clear_bucket (bucket : list addr) : M World unit :=
  match bucket with
  | [] => ret tt
  | a :: bucket =>
      set_value a undefined;;;
      itemPool_release a;;;
      size_decr;;;
      clear_bucket bucket
  end.

(** One row: each bucket is emptied ([bucket.length = 0]) after its records
    were released. *)
Fixpoint clear_row (row : list (list addr)) : M World (list (list addr)) :=
  match row with
  | [] => ret []
  | bucket :: row =>
      clear_bucket bucket;;;
      let! row := clear_row row in
      ret ([] :: row)
  end.

Fixpoint clear_rows (rows : list (list (list addr)))
  : M World (list (list (list addr))) :=
  match rows with
  | [] => ret []
  | row :: rows =>
      let! row := clear_row row in
      let! rows := clear_rows rows in
      ret (row :: rows)
  end.

Definition clear : M World unit :=
  let! g := gets grid in
  let! b := clear_rows (_buckets g) in
  modify (λ w, with_grid (with_buckets b (grid w)) w).

(** *** getAll, getFiltered, getFirst *)

Definition getAll : M World (list TElement) :=
  let! w := gets id in
  ret (fold_left (λ elements a, elements ++ [item_value (item w a)]) (allItems w) []).

(** The records of all buckets in the order of the index loops
    [for (x...) for (y...) for (item of bucket)], each with the loop
    counters [x] and [y] of its bucket. *)
Definition indexedItems (w : World) : list (addr * nat * nat) :=
  concat (imap (λ x row,
            concat (imap (λ y bucket, (λ a, (a, x, y)) <$> bucket) row))
          (_buckets (grid w))).

Definition counter (n : nat) : Q := inject_Z (Z.of_nat n).

Definition getFiltered (callback : SpatialGrid2DFilterCallback)
  : M World (list TElement) :=
  λ w,
    let '(elements, u) :=
      fold_left
        (λ '(elements, u) '(a, x, y),
           let '(keep, u) := callback (item_value (item w a)) (counter x) (counter y) u in
           (if keep then elements ++ [item_value (item w a)] else elements, u))
        (indexedItems w) ([], user w) in
    Return elements (with_user u w).

Fixpoint getFirst_loop (callback : SpatialGrid2DFilterCallback) (w : World)
    (items : list (addr * nat * nat)) (u : U) : option TElement * U :=
  match items with
  | [] => (None, u)
  | (a, x, y) :: items =>
      let '(found, u) := callback (item_value (item w a)) (counter x) (counter y) u in
      if found then (Some (item_value (item w a)), u)
      else getFirst_loop callback w items u
  end.

(** [None] is the [undefined] returned when nothing matches. *)
Definition getFirst (callback : SpatialGrid2DFilterCallback)
  : M World (option TElement) :=
  λ w,
    let '(found, u) := getFirst_loop callback w (indexedItems w) (user w) in
    Return found (with_user u w).

(** *** A grid in a freshly loaded module *)

(** The world right after [new SpatialGrid2D(...)] returned [g] in a module
    whose [itemPool] has just been initialised. *)
Definition fresh (g : t) (u : U) : World :=
  let '(p, h) := itemPool_init in mkWorld h p g u.

End SpatialGrid2D.
Arguments t : clear implicits.
Arguments World : clear implicits.
Arguments SpatialGrid2DConfig : clear implicits.
End SpatialGrid2D.

(** ** Invariants of the spatial grid *)

Section Invariants.
Context {V : Type} `{JsValue V} {U : Type}.
Import SpatialGrid2D.
Implicit Types (w : World V U) (p : FastPool.t addr (Heap V)).

(** The objects the pool can hand out, bottom slot first. *)
Definition available p : list addr :=
  omap (λ i : nat, JsArray.get (FastPool._pool p) (Z.of_nat i))
       (seq 0 (Z.to_nat (FastPool._indexInPool p))).

(** The module-level [itemPool]: its callbacks, and a used prefix of slots
    that all hold an object. *)
Record pool_ok p : Prop := {
  pool_onHydrate : FastPool._onHydrate p = newItem;
  pool_onRelease : FastPool._onRelease p = None;
  pool_autoHydrate : (0 < cfg_autoHydrateSize (FastPool._config p))%nat;
  pool_index : (0 ≤ FastPool._indexInPool p)%Z;
  pool_slots : ∀ i, (0 ≤ i < FastPool._indexInPool p)%Z →
               is_Some (JsArray.get (FastPool._pool p) i)
}.

(** The world after [item.value = cleared; itemPool.release(item); this._size--]. *)
Definition release_one (cleared : V) w (a : addr) : World V U :=
  let h := update a (λ it, mkItem (item_x it) (item_y it) cleared) (heap w) in
  let '(p, h) := FastPool.release a (itemPool w) h in
  mkWorld h p (with_size (_size (grid w) - 1) (grid w)) (user w).

Definition release_all (cleared : V) (removed : list addr) w : World V U :=
  fold_left (release_one cleared) removed w.

(** The loop shared by [removeAt] and [removeAllAt], which differ in the
    test [matches], in the value that clears the record and in the order of
    three independent assignments. *)
Fixpoint swap_loop (matches : Item V → bool) (cleared : V) (remaining : nat)
    (bucket : list addr) (i : nat) (itemFound : bool)
  : M (World V U) (list addr * nat * bool) :=
  match remaining with
  | O => ret (bucket, i, itemFound)
  | S remaining =>
      match bucket !! i with
      | None => throw TypeError
      | Some a =>
          λ w,
            if matches (item w a)
            then
              let bucket :=
                match bucket !! (i + remaining)%nat with
                | Some last => <[i := last]> bucket
                | None => bucket
                end in
              swap_loop matches cleared remaining bucket i true
                (release_one cleared w a)
            else swap_loop matches cleared remaining bucket (S i) itemFound w
      end
  end.

(** The world with the bucket at [(bx, by_)] of row [row] replaced. *)
Definition put_bucket (bx by_ : nat) (row : list (list addr)) (bucket : list addr)
    w : World V U :=
  with_grid
    (with_buckets (<[bx := <[by_ := bucket]> row]> (_buckets (grid w))) (grid w)) w.

(** The world after the branch of [resize] that drops a record. *)
Definition destroy_one w (a : addr) : World V U :=
  let it := item w a in
  let u :=
    match destructorCallback (_config (grid w)) with
    | Some callback => callback (item_value it) (item_x it) (item_y it) (user w)
    | None => user w
    end in
  release_one undefined (with_user u w) a.

Definition destroy_all (destroyed : list addr) w : World V U :=
  fold_left destroy_one destroyed w.

(** The test of [resize] for dropping a record:
    [item.x >= gridWidth || item.y >= gridHeight]. *)
Definition outside (gridWidth gridHeight : Q) (it : Item V) : bool :=
  Qle_bool gridWidth (item_x it) || Qle_bool gridHeight (item_y it).

(** What the destructor callback does to the user state when it is called
    once for each of [records], in order. *)
Definition destructor_calls (g : t V U) (records : list (Item V)) (u : U) : U :=
  match destructorCallback (_config g) with
  | Some callback =>
      fold_left (λ u it, callback (item_value it) (item_x it) (item_y it) u) records u
  | None => u
  end.

(** Two bucket arrays of the same shape. *)
Definition same_shape (nb nb' : list (list (list addr))) : Prop :=
  length <$> nb = length <$> nb'.

(** The arguments of [resize] after [??]. *)
Definition resized w (gridWidth gridHeight bucketWidth bucketHeight : option Q)
  : Q * Q * Q * Q :=
  (default (_gridWidth (grid w)) gridWidth,
   default (_gridHeight (grid w)) gridHeight,
   default (_bucketWidth (grid w)) bucketWidth,
   default (_bucketHeight (grid w)) bucketHeight).

(** The bucket array after every bucket was emptied. *)
Definition emptied (b : list (list (list addr))) : list (list (list addr)) :=
  (λ row : list (list addr), (λ _ : list addr, @nil addr) <$> row) <$> b.

(** A record lies inside a grid of the given extent. *)
Definition inside (gridWidth gridHeight : Q) (it : Item V) : Prop :=
  (0 <= item_x it)%Q ∧ (item_x it < gridWidth)%Q
  ∧ (0 <= item_y it)%Q ∧ (item_y it < gridHeight)%Q.

(** The bucket array has the shape the constructor gives it, and [resize]
    when the bucket dimensions are integers, and its two lengths are within
    reach of [| 0]. *)
Record shape_ok (g : t V U) : Prop := {
  shape_bucketWidth : (0 < _bucketWidth g)%Q;
  shape_bucketHeight : (0 < _bucketHeight g)%Q;
  shape_rows :
    length (_buckets g) = Z.to_nat (Qceiling (_gridWidth g / _bucketWidth g));
  shape_cols :
    Forall (λ row : list (list addr),
              length row = Z.to_nat (Qceiling (_gridHeight g / _bucketHeight g)))
           (_buckets g);
  shape_rows_int32 : (Qceiling (_gridWidth g / _bucketWidth g) ≤ 2 ^ 31)%Z;
  shape_cols_int32 : (Qceiling (_gridHeight g / _bucketHeight g) ≤ 2 ^ 31)%Z
}.

(** The invariant of a grid and the pool it draws from. *)
Record wf w : Prop := {
  wf_pool : pool_ok (itemPool w);
  wf_shape : shape_ok (grid w);
  (** no record object is in two places at once *)
  wf_nodup : NoDup (allItems w ++ available (itemPool w));
  (** every record object has been allocated *)
  wf_alloc : ∀ a, a ∈ allItems w ++ available (itemPool w) → (a < next (heap w))%nat;
  (** every stored record is inside the grid and in the bucket of its
      coordinate *)
  wf_placed : ∀ bx by_ row bucket a,
    _buckets (grid w) !! bx = Some row → row !! by_ = Some bucket → a ∈ bucket →
    inside (gridWidth w) (gridHeight w) (item w a)
    ∧ divToInt32 (item_x (item w a)) (bucketWidth w) = Z.of_nat bx
    ∧ divToInt32 (item_y (item w a)) (bucketHeight w) = Z.of_nat by_;
  wf_size : size w = Z.of_nat (length (allItems w))
}.

(** The values of the records of [bucket] that sit at [(x, y)]. *)
Definition values_at w (x y : Q) (bucket : list addr) : list V :=
  (λ a, item_value (item w a)) <$> filter (λ a, at_position x y (item w a) = true) bucket.

(** The records of the grid, in traversal order. *)
Definition records w : list (Item V) := item w <$> allItems w.

(** [size] is the number of records in the buckets. *)
Definition counted w : Prop := size w = Z.of_nat (length (allItems w)).

(** The mutating methods, as data. *)
Inductive Op : Type :=
| InsertAt (x y : Q) (element : V)
| RemoveAt (x y : Q) (element : V)
| RemoveAllAt (x y : Q)
| Move (fromX fromY toX toY : Q) (element : V)
| Resize (gridWidth gridHeight bucketWidth bucketHeight : option Q)
| Clear.

Definition run (o : Op) : M (World V U) unit :=
  match o with
  | InsertAt x y element => insertAt x y element
  | RemoveAt x y element => removeAt x y element
  | RemoveAllAt x y => removeAllAt x y
  | Move fromX fromY toX toY element => move fromX fromY toX toY element
  | Resize gridWidth gridHeight bucketWidth bucketHeight =>
      resize gridWidth gridHeight bucketWidth bucketHeight
  | Clear => clear
  end.

(** The grids one gets from the constructor by calls that return normally.
    The heap, the pool and the callback state at construction are arbitrary. *)
Inductive reachable : World V U → Prop :=
| reachable_new gridWidth gridHeight bucketWidth bucketHeight config g h p u :
    new gridWidth gridHeight bucketWidth bucketHeight config = inr g →
    reachable (mkWorld h p g u)
| reachable_step w o w' :
    reachable w → run o w = Return tt w' → reachable w'.

End Invariants.

(** ** Callbacks that record their calls *)

(** The callback state is the list of the argument triples received so
    far. *)
Definition recorder {V} : V → Q → Q → list (V * Q * Q) → list (V * Q * Q) :=
  λ v x y calls, calls ++ [(v, x, y)].

(** A filter that records its calls and answers [keep]. *)
Definition recording_filter {V} (keep : V → Q → Q → bool)
  : V → Q → Q → list (V * Q * Q) → bool * list (V * Q * Q) :=
  λ v x y calls, (keep v x y, calls ++ [(v, x, y)]).

(** The calls up to and including the first one that [keep] accepts. *)
Fixpoint calls_until {V} (keep : V → Q → Q → bool) (calls : list (V * Q * Q))
  : list (V * Q * Q) :=
  match calls with
  | [] => []
  | (v, x, y) :: calls =>
      (v, x, y) :: if keep v x y then [] else calls_until keep calls
  end.

(** ** A concrete grid *)

Module Example.
Import SpatialGrid2D.

(** Values: [undefined], [null], and objects told apart by an identity. *)
Inductive value : Set := Undefined | Null | Obj (id : nat).

#[global] Instance value_eq_dec : EqDecision value.
Proof. solve_decision. Defined.

#[global] Instance value_JsValue : JsValue value :=
  {| undefined := Undefined; null := Null |}.

(** The state of a callback that records the arguments of its calls. *)
Definition calls : Type := list (value * Q * Q).

Definition config : SpatialGrid2DConfig value calls :=
  {| destructorCallback := Some recorder |}.

(** [new SpatialGrid2D(9, 7, 3, 4, {destructorCallback: record})] *)
Definition grid0 : SpatialGrid2D.t value calls :=
  mk 9 7 3 4 0 config (emptyBuckets 3 2).

Definition w0 : World value calls := fresh grid0 [].

(** One value at [(1, 1)]. *)
Definition w1 : World value calls := after (insertAt 1 1 (Obj 1)) w0.
(** Two values at [(1, 1)]. *)
Definition w2 : World value calls := after (insertAt 1 1 (Obj 2)) w1.
(** The same value twice at [(1, 1)]. *)
Definition w_twice : World value calls := after (insertAt 1 1 (Obj 1)) w1.
(** A value at [(7, 5)], in the bucket with indices [(2, 1)]. *)
Definition w_far : World value calls := after (insertAt 7 5 (Obj 3)) w2.
(** A value at [(1, 1)] and another at [(0, 5)], in the next bucket of the
    same row. *)
Definition w_pair : World value calls := after (insertAt 0 5 (Obj 2)) w1.
(** The empty grid after [resize(undefined, undefined, -1)]: it has no
    bucket left. *)
Definition w_unchecked : World value calls :=
  after (resize None None (Some (-1)%Q) None) w0.
End Example.

(** ** Dimensions *)

(** The numbers the constructors accept as a dimension: the integers from 1
    on. *)
Definition positiveInteger (q : Q) : Prop := ∃ k : Z, (1 ≤ k)%Z ∧ q == inject_Z k.

(** ** Pools: runs of calls, and the unchecked pool inside the checked one *)

Module PoolRuns.
Section PoolRuns.
Context {TObject W : Type}.

(** [getOne] called [k] times in a row on the unchecked pool; the results in
    the order of the calls. *)
Fixpoint getOnes (k : nat) (p : FastPool.t TObject W) (w : W)
  : list (option TObject) * FastPool.t TObject W * W :=
  match k with
  | O => ([], p, w)
  | S k =>
      let '(o, p, w) := FastPool.getOne p w in
      let '(os, p, w) := getOnes k p w in
      (o :: os, p, w)
  end.

(** [release] called on each of [objects], in order. *)
Definition releases (objects : list TObject) (p : FastPool.t TObject W) (w : W)
  : FastPool.t TObject W * W :=
  fold_left (λ '(p, w) o, FastPool.release o p w) objects (p, w).

(** The checked pool without its [_isAvailableMap]. *)
Definition unchecked `{Countable TObject} (p : SlowPool.t TObject W)
  : FastPool.t TObject W :=
  FastPool.mk (SlowPool._indexInPool p) (SlowPool._pool p) (SlowPool._onHydrate p)
    (SlowPool._onRelease p) (SlowPool._config p).

(** The objects that [getOne] of the checked pool has handed out at some
    time are those its map marks [false]. *)
Definition handedOut `{Countable TObject} (p : SlowPool.t TObject W)
    (handed : gset TObject) : Prop :=
  ∀ o, SlowPool._isAvailableMap p !! Some o = Some false ↔ o ∈ handed.
End PoolRuns.
End PoolRuns.

(** ** The records of the spatial grid and of its pool *)

Section Conservation.
Context {V : Type} `{JsValue V} {U : Type}.
Import SpatialGrid2D.
Implicit Types (w : World V U).

(** Every record object created so far is in one place: stored once in the
    grid, or available once in the pool. *)
Definition conserved w : Prop :=
  allItems w ++ available (itemPool w) ≡ₚ seq 0 (next (heap w)).

(** The bucket dimensions are integers from 1 on.  The constructor demands
    it; [resize] checks nothing. *)
Definition integerBuckets w : Prop :=
  positiveInteger (bucketWidth w) ∧ positiveInteger (bucketHeight w).

(** A grid that satisfies the invariant and whose bucket dimensions are such
    integers. *)
Definition checked w : Prop := wf w ∧ integerBuckets w.

(** A call of [resize] is given bucket dimensions that are integers from 1
    on, or none, and asks for no more buckets than [| 0] can index; the
    other calls are not restricted. *)
Definition integral w (o : Op (V := V)) : Prop :=
  match o with
  | Resize gridWidth gridHeight bucketWidth bucketHeight =>
      let '(gw, gh, bw, bh) := resized w gridWidth gridHeight bucketWidth bucketHeight in
      positiveInteger bw ∧ positiveInteger bh
      ∧ (Qceiling (gw / bw) ≤ 2 ^ 31)%Z ∧ (Qceiling (gh / bh) ≤ 2 ^ 31)%Z
  | _ => True
  end.

(** In the words of the specification: a record matches [removeAt(x, y, v)]
    when it has the coordinate [(x, y)] and its value is [v] itself. *)
Definition holds_at (x y : Q) (v : V) (it : Item V) : Prop :=
  item_x it == x ∧ item_y it == y ∧ item_value it = v.

#[global] Instance holds_at_dec x y v it : Decision (holds_at x y v it).
Proof using Type*.
  unfold holds_at.
  destruct (Qeq_dec (item_x it) x), (Qeq_dec (item_y it) y),
    (decide (item_value it = v)); first [left; done | right; tauto].
Defined.

#[global] Instance inside_dec gridWidth gridHeight (it : Item V) :
  Decision (inside gridWidth gridHeight it).
Proof.
  unfold inside.
  destruct (Qlt_le_dec (item_x it) 0), (Qlt_le_dec (item_x it) gridWidth),
    (Qlt_le_dec (item_y it) 0), (Qlt_le_dec (item_y it) gridHeight);
    first [left; done | right; intros (? & ? & ? & ?); lra].
Defined.
End Conservation.

(** ** Counted loops *)

(** [for (const a of l) body(a)] *)
Fixpoint for_each {S A} (l : list A) (body : A → M S unit) : M S unit :=
  match l with
  | [] => ret tt
  | a :: l => body a;;; for_each l body
  end.

(** The values that [i] takes in [for (let i = 0; i < bound; i++)]. *)
Definition upto (bound : Q) : list nat := seq 0 (Z.to_nat (Qceiling bound)).

(** ** The dense grid ([src/Grid2D.ts]) *)

Module Grid2D.

(** A column [_squares[x]]: an array, together with the properties that are
    not array elements, which [set] gives it when [y] is not an integer. *)
Record Column (A : Type) := mkColumn {
  elements : JsArray.t A;
  others : list (Q * A)
}.
Arguments mkColumn {A} _ _.
Arguments elements {A} _.
Arguments others {A} _.

Section Grid2D.
Context {TElement : Type} `{JsValue TElement}.
(** The state the user callbacks act on: a callback is a function of its
    arguments and of this state, and does not reach the grid that calls
    it. *)
Context {U : Type}.

Definition Grid2DValueProvider : Type := Q → Q → U → TElement * U.
Definition Grid2DIterateCallback : Type := TElement → Q → Q → U → U.

Record Grid2DConfig := {
  defaultValueProvider : Grid2DValueProvider;
  destructorCallback : option Grid2DIterateCallback
}.

Record t := mk {
  _width : Q;
  _height : Q;
  _config : Grid2DConfig;
  _squares : JsArray.t (Column TElement)
}.

(** One grid and the state of the user callbacks. *)
Record World := mkWorld { grid : t; user : U }.

Definition with_grid (g : t) (w : World) : World := mkWorld g (user w).
Definition with_user (u : U) (w : World) : World := mkWorld (grid w) u.
Definition with_squares (sq : JsArray.t (Column TElement)) (w : World) : World :=
  mkWorld (mk (_width (grid w)) (_height (grid w)) (_config (grid w)) sq) (user w).
Definition with_dimensions (width height : Q) (w : World) : World :=
  mkWorld (mk width height (_config (grid w)) (_squares (grid w))) (user w).

(** *** Properties named by a number *)

Definition emptyColumn : Column TElement := mkColumn JsArray.empty [].

(** [column[y]]: an integer names an array element, any other number an
    ordinary property; a missing property reads as [None]. *)
Definition column_get (c : Column TElement) (y : Q) : option TElement :=
  if isInteger y then JsArray.get (elements c) (Qfloor y)
  else snd <$> find (λ kv : Q * TElement, Qeq_bool kv.1 y) (others c).

(** [column[y] = v] *)
Definition column_set (c : Column TElement) (y : Q) (v : TElement) : Column TElement :=
  if isInteger y then mkColumn (JsArray.set (elements c) (Qfloor y) v) (others c)
  else mkColumn (elements c) ((y, v) :: others c).

(** [column.length = n], for a length [n]: the elements from [n] on are
    deleted. *)
Definition column_truncate (c : Column TElement) (n : Q) : Column TElement :=
  mkColumn
    (JsArray.mk
       (filter (λ kv : Z * TElement, (kv.1 < Qfloor n)%Z) (JsArray.props (elements c)))
       (Qfloor n))
    (others c).

(** [_squares[x]].  The code writes [_squares] at loop counters only, so that
    it has no property named by a number that is not an integer. *)
Definition squares_get (sq : JsArray.t (Column TElement)) (x : Q)
  : option (Column TElement) :=
  if isInteger x then JsArray.get sq (Qfloor x) else None.

(** The array [_squares] after the column object it holds at index [i] was
    changed in place. *)
Definition put_column (sq : JsArray.t (Column TElement)) (i : Z) (c : Column TElement)
  : JsArray.t (Column TElement) :=
  JsArray.mk (<[i := c]> (JsArray.props sq)) (JsArray.length sq).

(** [this._squares[x][y]]; indexing [undefined] raises a [TypeError]. *)
Definition read (x y : Q) : M World TElement :=
  λ w,
    match squares_get (_squares (grid w)) x with
    | None => Throw TypeError w
    | Some c => Return (default undefined (column_get c y)) w
    end.

(** [this._squares[x][y] = element] *)
Definition write (x y : Q) (element : TElement) : M World unit :=
  λ w,
    match squares_get (_squares (grid w)) x with
    | None => Throw TypeError w
    | Some c =>
        Return tt
          (with_squares (put_column (_squares (grid w)) (Qfloor x) (column_set c y element)) w)
    end.

(** [this._squares[x] = []] *)
Definition new_column (x : nat) : M World unit :=
  modify (λ w,
    with_squares (JsArray.set (_squares (grid w)) (Z.of_nat x) emptyColumn) w).

(** [this._squares[x].length = n] *)
Definition truncate_column (x : nat) (n : Q) : M World unit :=
  λ w,
    match JsArray.get (_squares (grid w)) (Z.of_nat x) with
    | None => Throw TypeError w
    | Some c =>
        Return tt
          (with_squares (put_column (_squares (grid w)) (Z.of_nat x) (column_truncate c n)) w)
    end.

(** *** Callbacks *)

Definition counter (n : nat) : Q := inject_Z (Z.of_nat n).

(** [provider(x, y)] *)
Definition call_provider (provider : Grid2DValueProvider) (x y : nat) : M World TElement :=
  λ w,
    let '(v, u) := provider (counter x) (counter y) (user w) in
    Return v (with_user u w).

(** [callback(element, x, y)] *)
Definition call_iterate (callback : Grid2DIterateCallback) (element : TElement)
    (x y : nat) : M World unit :=
  modify (λ w, with_user (callback element (counter x) (counter y) (user w)) w).

(** *** Getters *)

Definition width (w : World) : Q := _width (grid w).
Definition height (w : World) : Q := _height (grid w).

(** *** Constructor *)

(** [n < 1 || !Number.isInteger(n)] *)
Definition badDimension (n : Q) : bool := Qltb n 1 || negb (isInteger n).

(** A constructor body run on the object under construction. *)
Definition constructing (g : t) (body : M World unit) : M U t :=
  λ u,
    match body (mkWorld g u) with
    | Return _ w => Return (grid w) (user w)
    | Throw e w => Throw e (user w)
    | NoReturn => NoReturn
    end.

Definition new (width height : Q) (config : Grid2DConfig + Grid2DValueProvider)
  : M U t :=
  if badDimension width then throw DimensionError
  else if badDimension height then throw DimensionError
  else
    let config :=
      match config with
      | inl config => config
      | inr provider =>
          {| defaultValueProvider := provider; destructorCallback := None |}
      end in
    constructing (mk width height config JsArray.empty)
      (for_each (upto width) (λ x,
         new_column x;;;
         for_each (upto height) (λ y,
           let! v := call_provider (defaultValueProvider config) x y in
           write (counter x) (counter y) v))).

(** *** get, set, isValidPosition *)

(** [x < 0 || y < 0 || x >= this._width || y >= this._height] *)
Definition outOfBounds (g : t) (x y : Q) : bool :=
  Qltb x 0 || Qltb y 0 || Qle_bool (_width g) x || Qle_bool (_height g) y.

Definition get (x y : Q) : M World TElement :=
  let! g := gets grid in
  if outOfBounds g x y then throw BoundsError else read x y.

Definition set (x y : Q) (element : TElement) : M World unit :=
  let! g := gets grid in
  if outOfBounds g x y then throw BoundsError else write x y element.

Definition isValidPosition (x y : Q) : M World bool :=
  let! g := gets grid in
  ret (Qle_bool 0 x && Qle_bool 0 y && Qltb x (_width g) && Qltb y (_height g)).

(** *** resize *)

(** [Math.max(a, b)] *)
Definition Math_max (a b : Q) : Q := if Qle_bool a b then b else a.

(** The body of the inner loop of [resize] at the square [(x, y)].  The
    optional call [destructorCallback?.(...)] evaluates its arguments only
    when there is a callback. *)
Definition resize_square (g : t) (newWidth newHeight : Q) (x y : nat) : M World unit :=
  if Qle_bool newWidth (counter x) || Qle_bool newHeight (counter y)
  then
    if Qltb (counter x) (_width g) && Qltb (counter y) (_height g)
    then
      match destructorCallback (_config g) with
      | Some callback =>
          let! v := read (counter x) (counter y) in
          call_iterate callback v x y
      | None => ret tt
      end
    else ret tt
  else if Qle_bool (_width g) (counter x) || Qle_bool (_height g) (counter y)
  then
    if Qltb (counter x) newWidth && Qltb (counter y) newHeight
    then
      let! v := call_provider (defaultValueProvider (_config g)) x y in
      write (counter x) (counter y) v
    else ret tt
  else ret tt.

Definition resize (newWidth newHeight : Q) : M World unit :=
  if badDimension newWidth then throw DimensionError
  else if badDimension newHeight then throw DimensionError
  else
    let! g := gets grid in
    let maxWidth := Math_max newWidth (_width g) in
    let maxHeight := Math_max newHeight (_height g) in
    for_each (upto maxWidth) (λ x,
      (if Qle_bool (_width g) (counter x) then new_column x else ret tt);;;
      for_each (upto maxHeight) (λ y, resize_square g newWidth newHeight x y);;;
      if Qltb newHeight (_height g) then truncate_column x newHeight else ret tt);;;
    modify (with_dimensions newWidth newHeight).

(** *** setAll, setAllCallback, forEach *)

Definition setAll (value : TElement) : M World unit :=
  let! g := gets grid in
  for_each (upto (_width g)) (λ x,
    for_each (upto (_height g)) (λ y,
      write (counter x) (counter y) value)).

Definition setAllCallback (callback : Grid2DValueProvider) : M World unit :=
  let! g := gets grid in
  for_each (upto (_width g)) (λ x,
    for_each (upto (_height g)) (λ y,
      let! v := call_provider callback x y in
      write (counter x) (counter y) v)).

Definition forEach (callback : Grid2DIterateCallback) : M World unit :=
  let! g := gets grid in
  for_each (upto (_width g)) (λ x,
    for_each (upto (_height g)) (λ y,
      let! v := read (counter x) (counter y) in
      call_iterate callback v x y)).

(** *** toArray *)

(** [column.concat()]: a new array with the elements of the column. *)
Definition copyColumn (c : Column TElement) : JsArray.t TElement :=
  JsArray.mk
    (filter (λ kv : Z * TElement, (0 ≤ kv.1 < JsArray.length (elements c))%Z)
            (JsArray.props (elements c)))
    (JsArray.length (elements c)).

(** [[...this._squares.map(x => x.concat())]]: the result is a dense array,
    here the list of its elements, in which a hole of [_squares] has become
    [undefined] ([None]). *)
Definition toArray : M World (list (option (JsArray.t TElement))) :=
  let! g := gets grid in
  ret ((λ i : nat, copyColumn <$> JsArray.get (_squares g) (Z.of_nat i))
       <$> seq 0 (Z.to_nat (JsArray.length (_squares g)))).

End Grid2D.
Arguments t : clear implicits.
Arguments World : clear implicits.
Arguments Grid2DConfig : clear implicits.
End Grid2D.

(** ** The dense grid: its squares *)

Section Grid2DSquares.
Context {V : Type} `{JsValue V} {U : Type}.
Import Grid2D.

(** The array element at index [y] of the column at index [x], if both
    exist. *)
Definition cell (g : Grid2D.t V U) (x y : nat) : option V :=
  c ← JsArray.get (_squares g) (Z.of_nat x); JsArray.get (elements c) (Z.of_nat y).

(** The element of the square [(x, y)], as a read of [_squares[x][y]] gives
    it. *)
Definition square (g : Grid2D.t V U) (x y : nat) : V := default undefined (cell g x y).

(** A grid of [W] columns of [H] squares each: the dimensions are these
    integers, [_squares] has at least [W] elements, and each of the first
    [W] is an array of length [H] with an element at every index below
    [H]. *)
Record grid_ok (g : Grid2D.t V U) (W H : nat) : Prop := {
  ok_width : _width g == counter W;
  ok_height : _height g == counter H;
  ok_columns_pos : (0 < W)%nat;
  ok_rows_pos : (0 < H)%nat;
  ok_length : (Z.of_nat W ≤ JsArray.length (_squares g))%Z;
  ok_columns : ∀ x, (x < W)%nat →
    ∃ c, JsArray.get (_squares g) (Z.of_nat x) = Some c
         ∧ JsArray.length (elements c) = Z.of_nat H
         ∧ ∀ y, (y < H)%nat → is_Some (JsArray.get (elements c) (Z.of_nat y))
}.

(** The squares of a grid of [W] by [H] in the order of the loops
    [for (x...) for (y...)]: column after column. *)
Definition squaresOf (W H : nat) : list (nat * nat) :=
  x ← seq 0 W; (λ y, (x, y)) <$> seq 0 H.

(** A value provider called for each of [coords] in order: the values it
    returns and the state it leaves. *)
Fixpoint provided (provider : Grid2DValueProvider (TElement := V) (U := U))
    (coords : list (nat * nat)) (u : U) : list V * U :=
  match coords with
  | [] => ([], u)
  | (x, y) :: coords =>
      let '(v, u) := provider (counter x) (counter y) u in
      let '(vs, u) := provided provider coords u in
      (v :: vs, u)
  end.

(** What [resize] from [W] by [H] to [W'] by [H'] does at one square of the
    bounding box: a square of the old grid that is outside the new one is
    handed to the destructor callback, and for a square of the new grid that
    is outside the old one the value provider is called; [created] collects
    the values provided. *)
Definition resize_visit (g : Grid2D.t V U) (W H W' H' : nat)
    (acc : list (nat * nat * V) * U) (xy : nat * nat) : list (nat * nat * V) * U :=
  let '(created, u) := acc in
  let '(x, y) := xy in
  if (W' <=? x)%nat || (H' <=? y)%nat
  then
    if (x <? W)%nat && (y <? H)%nat
    then
      (created,
       match destructorCallback (_config g) with
       | Some callback => callback (square g x y) (counter x) (counter y) u
       | None => u
       end)
    else (created, u)
  else if (W <=? x)%nat || (H <=? y)%nat
  then
    let '(v, u) := defaultValueProvider (_config g) (counter x) (counter y) u in
    (created ++ [(x, y, v)], u)
  else (created, u).

(** The squares of the bounding box are visited column after column. *)
Definition resize_visits (g : Grid2D.t V U) (W H W' H' : nat) (u : U)
  : list (nat * nat * V) * U :=
  fold_left (resize_visit g W H W' H') (squaresOf (Nat.max W' W) (Nat.max H' H)) ([], u).
End Grid2DSquares.

Section Grid2DFrame.
Context {V : Type} `{JsValue V} {U : Type}.
Import Grid2D.

(** Two states of a grid that differ at most in the array of columns and in
    the state of the callbacks. *)
Definition same_frame (s s' : Grid2D.World V U) : Prop :=
  _width (grid s') = _width (grid s) ∧ _height (grid s') = _height (grid s)
  ∧ _config (grid s') = _config (grid s).
End Grid2DFrame.

(** ** A concrete dense grid *)

Module DenseExample.
Import Grid2D Example.

(** The state of the callbacks: the number of values provided so far, and
    the calls recorded. *)
Definition state : Type := nat * calls.

(** A value provider that returns a new object at every call. *)
Definition numbered : Grid2DValueProvider (TElement := value) (U := state) :=
  λ _ _ u, (Obj u.1, (S u.1, u.2)).

(** A callback that records the arguments of its calls. *)
Definition recording : Grid2DIterateCallback (TElement := value) (U := state) :=
  λ v x y u, (u.1, u.2 ++ [(v, x, y)]).

Definition dense_config : Grid2DConfig value state :=
  {| defaultValueProvider := numbered; destructorCallback := Some recording |}.

(** [new Grid2D(2, 3, {defaultValueProvider: numbered, destructorCallback: recording})] *)
Definition constructed : outcome state (Grid2D.t value state) :=
  new 2 3 (inl dense_config) (0%nat, []).

Definition d0 : World value state :=
  match constructed with
  | Return g u => mkWorld g u
  | _ => mkWorld (mk 2 3 dense_config JsArray.empty) (0%nat, [])
  end.
End DenseExample.

(** * Lemmas *)

(** ** Facts about numbers *)

Section Numbers.
Local Open Scope Q_scope.

Lemma Qltb_lt a b : Qltb a b = true ↔ a < b.
Proof.
  unfold Qltb. rewrite negb_true_iff, <- not_true_iff_false, Qle_bool_iff.
  split; [apply Qnot_le_lt | apply Qlt_not_le].
Qed.

Lemma Qltb_ge a b : Qltb a b = false ↔ b <= a.
Proof.
  unfold Qltb. rewrite negb_false_iff. apply Qle_bool_iff.
Qed.

Lemma Qle_bool_gt a b : Qle_bool a b = false ↔ b < a.
Proof.
  rewrite <- not_true_iff_false, Qle_bool_iff.
  split; [apply Qnot_le_lt | apply Qlt_not_le].
Qed.

Lemma toInt32_small z : (- 2 ^ 31 ≤ z < 2 ^ 31)%Z → toInt32 z = z.
Proof.
  intros Hz. unfold toInt32. rewrite Z.mod_small; lia.
Qed.

Lemma truncate_nonneg q : 0 <= q → truncate q = Qfloor q.
Proof.
  destruct q as [n d]. unfold Qle, truncate, Qfloor. cbn. intros Hn.
  apply Z.quot_div_nonneg; lia.
Qed.

(** An in-range coordinate is sent to an index of the bucket array. *)
Lemma divToInt32_range x g b :
  0 < b → 0 <= x → x < g → (Qceiling (g / b) ≤ 2 ^ 31)%Z →
  (0 ≤ divToInt32 x b < Qceiling (g / b))%Z.
Proof.
  intros Hb Hx Hxg Hmax. unfold divToInt32.
  destruct (Qeq_bool b 0) eqn:Hb0.
  { apply Qeq_bool_eq in Hb0. rewrite Hb0 in Hb. by apply Qlt_irrefl in Hb. }
  assert (0 <= x / b) as Hq.
  { apply Qle_shift_div_l; [done|]. by rewrite Qmult_0_l. }
  assert (x / b < g / b) as Hqg.
  { apply Qlt_shift_div_l; [done|].
    unfold Qdiv. rewrite <- Qmult_assoc, (Qmult_comm (/ b)), Qmult_inv_r, Qmult_1_r.
    - done.
    - intros Hz. rewrite Hz in Hb. by apply Qlt_irrefl in Hb. }
  rewrite truncate_nonneg by done.
  assert (0 ≤ Qfloor (x / b))%Z as Hlo.
  { change 0%Z with (Qfloor 0). by apply Qfloor_resp_le. }
  assert (Qfloor (x / b) < Qceiling (g / b))%Z as Hhi.
  { rewrite Zlt_Qlt.
    eapply Qle_lt_trans; [apply Qfloor_le|].
    eapply Qlt_le_trans; [exact Hqg | apply Qle_ceiling]. }
  rewrite toInt32_small; lia.
Qed.

Lemma truncate_neg q : q <= 0 → truncate q = Qceiling q.
Proof.
  destruct q as [n d]. unfold Qle, truncate, Qceiling, Qfloor. cbn. intros Hn.
  rewrite Z.mul_1_r in Hn.
  rewrite <- (Z.opp_involutive n) at 1. rewrite Z.quot_opp_l by done.
  rewrite Z.quot_div_nonneg by lia. done.
Qed.

Lemma truncate_comp q q' : q == q' → truncate q = truncate q'.
Proof.
  intros Heq. destruct (Qlt_le_dec q 0) as [Hneg|Hpos].
  - rewrite !truncate_neg.
    + by apply Qceiling_comp.
    + rewrite <- Heq. by apply Qlt_le_weak.
    + by apply Qlt_le_weak.
  - rewrite !truncate_nonneg.
    + by apply Qfloor_comp.
    + by rewrite <- Heq.
    + done.
Qed.

(** Equal numbers are sent to the same bucket index. *)
Lemma divToInt32_comp x x' b : x == x' → divToInt32 x b = divToInt32 x' b.
Proof.
  intros Heq. unfold divToInt32. destruct (Qeq_bool b 0); [done|].
  f_equal. apply truncate_comp. by rewrite Heq.
Qed.
End Numbers.


(** ** Pools: calling the factory *)


Module FastPoolFacts.
Section Facts.
Context {TObject W : Type}.
Implicit Types (p : FastPool.t TObject W) (w : W).
Import FastPool.

Lemma hydrateLoop_fields n p w :
  let r := hydrateLoop n p w in
  _indexInPool r.1 = (_indexInPool p + Z.of_nat n)%Z
  ∧ _onHydrate r.1 = _onHydrate p
  ∧ _onRelease r.1 = _onRelease p
  ∧ _config r.1 = _config p.
Proof.
  revert p w. induction n as [|n IH]; intros p w; cbn.
  { repeat split; lia. }
  destruct (_onHydrate p w) as [o w'].
  specialize (IH (store o p) w'). cbn in IH.
  destruct IH as (Hi & Hh & Hr & Hc).
  rewrite Hi, Hh, Hr, Hc. cbn.
  repeat split; lia.
Qed.

Lemma hydrate_fields n p w :
  _indexInPool (hydrate n p w).1 = (_indexInPool p + Z.of_nat n)%Z
  ∧ _onHydrate (hydrate n p w).1 = _onHydrate p
  ∧ _onRelease (hydrate n p w).1 = _onRelease p
  ∧ _config (hydrate n p w).1 = _config p.
Proof.
  unfold hydrate.
  pose proof (hydrateLoop_fields n
    (with_pool (JsArray.grow (_pool p) n) p) w) as H.
  cbn in H. tauto.
Qed.
End Facts.

Section Counting.
Context {TObject : Type} (factory : nat → TObject).
Implicit Types (p : FastPool.t TObject nat).
Import FastPool.

Lemma hydrateLoop_calls n p k :
  _onHydrate p = counting factory →
  (hydrateLoop n p k).2 = (k + n)%nat.
Proof.
  revert p k. induction n as [|n IH]; intros p k Hf; cbn.
  { lia. }
  rewrite Hf. cbn. rewrite IH by (cbn; done). lia.
Qed.

Lemma hydrate_calls n p k :
  _onHydrate p = counting factory → (hydrate n p k).2 = (k + n)%nat.
Proof. intros Hf. unfold hydrate. by rewrite hydrateLoop_calls. Qed.

Lemma getMany_available j p k :
  _onHydrate p = counting factory →
  (Z.of_nat j <= _indexInPool p)%Z →
  let r := getMany j p k in
  r.2 = k ∧ _indexInPool r.1 = (_indexInPool p - Z.of_nat j)%Z
  ∧ _onHydrate r.1 = _onHydrate p ∧ _config r.1 = _config p.
Proof.
  revert p k. induction j as [|j IH]; intros p k Hf Hj; cbn.
  { repeat split; lia. }
  unfold getOne.
  destruct (Z.eqb_spec (_indexInPool p) 0) as [Hz|Hz]; [lia|].
  specialize (IH (with_index (_indexInPool p - 1) p) k). cbn in IH.
  destruct IH as (Hk & Hi & Hh & Hc); [done | lia |].
  repeat split; try done. lia.
Qed.
End Counting.
End FastPoolFacts.

Module SlowPoolFacts.
Section Facts.
Context {TObject : Type} `{Countable TObject} {W : Type}.
Import SlowPool.

Lemma has_insert (m : gmap (option TObject) bool) k k' b :
  has (<[k := b]> m) k' = true ↔ k = k' ∨ has m k' = true.
Proof.
  unfold has. rewrite !bool_decide_eq_true, lookup_insert_is_Some.
  destruct (decide (k = k')) as [->|Hne]; [tauto|].
  split; [intros [?|[_ ?]]; tauto | intros [?|?]; [done | tauto]].
Qed.

Lemma has_lookup (m : gmap (option TObject) bool) k :
  has m k = true ↔ is_Some (m !! k).
Proof. unfold has. by rewrite bool_decide_eq_true. Qed.

(** [hydrate] stops at the first object the map already has. *)
Lemma hydrate_duplicate n (p : t TObject W) w o w' :
  _onHydrate p w = (o, w') →
  has (_isAvailableMap p) (Some o) = true →
  hydrate (S n) (p, w)
  = Throw DuplicateRecordError (with_pool (JsArray.grow (_pool p) (S n)) p, w').
Proof. intros Hf Hhas. unfold hydrate. cbn. rewrite Hf. cbn. by rewrite Hhas. Qed.

(** [release] refuses an object the map does not have. *)
Lemma release_untracked (p : t TObject W) w o :
  _isAvailableMap p !! Some o = None →
  release o (p, w) = Throw InvalidReleaseError (p, w).
Proof.
  intros Hm. unfold release.
  destruct (has (_isAvailableMap p) (Some o)) eqn:Hhas; [|done].
  apply has_lookup in Hhas as [b Hb]. congruence.
Qed.

(** [release] refuses an object the map marks available. *)
Lemma release_available (p : t TObject W) w o :
  _isAvailableMap p !! Some o = Some true →
  release o (p, w) = Throw InvalidReleaseError (p, w).
Proof.
  intros Hm. unfold release.
  destruct (has (_isAvailableMap p) (Some o)) eqn:Hhas; [|done]. cbn.
  by rewrite bool_decide_eq_true_2.
Qed.

(** [release] leaves [_isAvailableMap] as it is, so whatever it accepted once
    it accepts again. *)
Lemma release_map (p p' : t TObject W) w w' o :
  release o (p, w) = Return tt (p', w') →
  _isAvailableMap p' = _isAvailableMap p ∧ _onRelease p' = _onRelease p
  ∧ _indexInPool p' = (_indexInPool p + 1)%Z.
Proof.
  unfold release. repeat case_match; try done; by intros [= <- <-].
Qed.

Lemma release_twice (p p' : t TObject W) w w' o :
  release o (p, w) = Return tt (p', w') →
  ∃ p'' w'', release o (p', w') = Return tt (p'', w'')
             ∧ _indexInPool p'' = (_indexInPool p + 2)%Z.
Proof.
  intros Hrun. destruct (release_map _ _ _ _ _ Hrun) as (Hm & Hr & Hi).
  revert Hrun. unfold release. rewrite Hm.
  repeat case_match; try done; intros _.
  all: eexists _, _; split; [reflexivity|]; cbn; lia.
Qed.
End Facts.

Section Counting.
Context {TObject : Type} `{Countable TObject} (factory : nat → TObject).
Implicit Types (p : SlowPool.t TObject nat) (k : nat).
Import SlowPool.

Lemma tracked_below_mono p k k' :
  (k ≤ k')%nat → tracked_below factory p k → tracked_below factory p k'.
Proof.
  intros Hk [Hm Hp]. split.
  - intros o Ho. destruct (Hm o Ho) as (j & ? & ?). exists j. split; [lia|done].
  - intros i o Ho. destruct (Hp i o Ho) as (j & ? & ?). exists j. split; [lia|done].
Qed.

Lemma hydrateLoop_fresh n p k :
  Inj (=) (=) factory →
  _onHydrate p = counting factory →
  tracked_below factory p k →
  ∃ p', hydrateLoop n (p, k) = Return tt (p', (k + n)%nat)
        ∧ _indexInPool p' = (_indexInPool p + Z.of_nat n)%Z
        ∧ _onHydrate p' = _onHydrate p
        ∧ _config p' = _config p
        ∧ tracked_below factory p' (k + n).
Proof.
  intros Hinj. revert p k. induction n as [|n IH]; intros p k Hf Ht; cbn.
  { exists p. rewrite Nat.add_0_r, Z.add_0_r. done. }
  rewrite Hf. cbn.
  destruct (has (_isAvailableMap p) (Some (factory k))) eqn:Hhas.
  { destruct Ht as [Hm _]. destruct (Hm _ Hhas) as (j & Hj & Heq).
    apply Hinj in Heq. lia. }
  edestruct (IH (store (factory k)
               (with_map (<[Some (factory k) := true]> (_isAvailableMap p)) p))
               (S k)) as (p' & Hrun & Hi & Hh & Hc & Ht').
  { done. }
  { destruct Ht as [Hm Hp]. split; cbn.
    - intros o Ho. apply has_insert in Ho as [Ho|Ho].
      + exists k. split; [lia|congruence].
      + destruct (Hm o Ho) as (j & ? & ?). exists j. split; [lia|done].
    - intros i o. unfold JsArray.get, JsArray.set. cbn.
      rewrite lookup_insert. case_decide.
      + intros [= <-]. exists k. split; [lia|done].
      + intros Ho. destruct (Hp i o Ho) as (j & ? & ?). exists j. split; [lia|done]. }
  exists p'. rewrite Hrun, Hi, Hh, Hc. cbn.
  replace (k + S n)%nat with (S k + n)%nat by lia.
  repeat split; try done; try lia. apply Ht'. apply Ht'.
Qed.

Lemma hydrate_fresh n p k :
  Inj (=) (=) factory →
  _onHydrate p = counting factory →
  tracked_below factory p k →
  ∃ p', hydrate n (p, k) = Return tt (p', (k + n)%nat)
        ∧ _indexInPool p' = (_indexInPool p + Z.of_nat n)%Z
        ∧ _onHydrate p' = _onHydrate p
        ∧ _config p' = _config p
        ∧ tracked_below factory p' (k + n).
Proof.
  intros Hinj Hf Ht. unfold hydrate.
  apply (hydrateLoop_fresh n (with_pool (JsArray.grow (_pool p) n) p) k Hinj Hf Ht).
Qed.

Lemma getOne_available p k :
  (0 < _indexInPool p)%Z →
  tracked_below factory p k →
  ∃ o p', getOne (p, k) = Return o (p', k)
          ∧ _indexInPool p' = (_indexInPool p - 1)%Z
          ∧ _onHydrate p' = _onHydrate p
          ∧ _config p' = _config p
          ∧ tracked_below factory p' k.
Proof.
  intros Hi [Hm Hp]. unfold getOne, bind.
  destruct (Z.eqb_spec (_indexInPool p) 0) as [?|_]; [lia|].
  eexists _, _. split; [reflexivity|]. cbn. repeat split; try done.
  intros o Ho. apply has_insert in Ho as [Ho|Ho]; [|by apply Hm].
  by apply (Hp (_indexInPool p - 1)%Z).
Qed.

Lemma getMany_tracked j p k :
  (Z.of_nat j <= _indexInPool p)%Z →
  tracked_below factory p k →
  ∃ p', getMany j (p, k) = Return tt (p', k)
        ∧ _indexInPool p' = (_indexInPool p - Z.of_nat j)%Z
        ∧ _onHydrate p' = _onHydrate p
        ∧ _config p' = _config p
        ∧ tracked_below factory p' k.
Proof.
  revert p. induction j as [|j IH]; intros p Hj Ht; cbn.
  { exists p. repeat split; try done; try apply Ht. lia. }
  destruct (getOne_available p k) as (o & p1 & Hrun & Hi & Hh & Hc & Ht1);
    [lia|done|].
  destruct (IH p1) as (p' & Hrun' & Hi' & Hh' & Hc' & Ht'); [lia|done|].
  exists p'. unfold bind. rewrite Hrun, Hrun'.
  repeat split; try congruence; try apply Ht'. lia.
Qed.
End Counting.
End SlowPoolFacts.

(** ** Facts about outcomes *)

Lemma result_Return {S A} (m : M S A) s a :
  result m s = inl (Some a) → m s = Return a (after m s).
Proof. unfold result, after. destruct (m s); congruence. Qed.

Lemma result_Throw {S A} (m : M S A) s e :
  result m s = inr e → m s = Throw e (after m s).
Proof. unfold result, after. destruct (m s); congruence. Qed.

(** ** Facts about the heap *)

Lemma cells_update_eq {V} a (f : Item V → Item V) h :
  cells (update a f h) a = f (cells h a).
Proof. unfold update. cbn. by rewrite decide_True. Qed.

Lemma cells_update_ne {V} a a' (f : Item V → Item V) h :
  a' ≠ a → cells (update a f h) a' = cells h a'.
Proof. intros Hne. unfold update. cbn. by rewrite decide_False. Qed.

Lemma next_update {V} a (f : Item V → Item V) h : next (update a f h) = next h.
Proof. done. Qed.

#[global] Arguments update : simpl never.

(** ** Facts about lists *)

Lemma filter_ext_in {A} (P1 P2 : A → Prop) `{∀ x, Decision (P1 x)}
    `{∀ x, Decision (P2 x)} (l : list A) :
  (∀ x, x ∈ l → P1 x ↔ P2 x) → filter P1 l = filter P2 l.
Proof.
  induction l as [|a l IH]; intros Hext; [done|].
  rewrite !filter_cons.
  rewrite IH by (intros x Hx; apply Hext; by right).
  destruct (decide (P1 a)) as [H1|H1], (decide (P2 a)) as [H2|H2]; try done.
  - apply Hext in H1; [done | by left].
  - apply Hext in H2; [done | by left].
Qed.

Lemma elem_of_concat {A} (x : A) (ls : list (list A)) :
  x ∈ concat ls ↔ ∃ l, x ∈ l ∧ l ∈ ls.
Proof.
  induction ls as [|l ls IH]; cbn.
  - split; [by intros ?%not_elem_of_nil | by intros (l & _ & ?%not_elem_of_nil)].
  - rewrite elem_of_app, IH. split.
    + intros [Hx|(l' & Hx & Hl')].
      * exists l. split; [done|by left].
      * exists l'. split; [done|by right].
    + intros (l' & Hx & [->|Hl']%elem_of_cons); [by left|].
      right. by exists l'.
Qed.

(** Permutations that differ in the place of single elements only. *)
Ltac perm_front :=
  rewrite <- ?app_assoc; cbn [app]; rewrite <- ?Permutation_middle; done.

Lemma filter_complement_bool {A} (f : A → bool) (l : list A) :
  filter (λ x, f x = false) l ++ filter (λ x, f x = true) l ≡ₚ l.
Proof.
  induction l as [|x l IH]; [done|].
  rewrite !filter_cons. destruct (f x).
  - rewrite decide_False, decide_True by done.
    rewrite <- Permutation_middle. by f_equiv.
  - rewrite decide_True, decide_False by done. cbn. by f_equiv.
Qed.

Lemma omap_ext_in {A B} (f g : A → option B) (l : list A) :
  (∀ x, x ∈ l → f x = g x) → omap f l = omap g l.
Proof.
  induction l as [|a l IH]; intros Hext; [done|]. cbn.
  rewrite (Hext a) by (by left).
  rewrite IH by (intros x Hx; apply Hext; by right). done.
Qed.

(** ** The item pool of the spatial grid *)

Section ItemPool.
Context {V : Type} `{JsValue V}.
Implicit Types (p : FastPool.t addr (Heap V)) (h : Heap V) (a : addr).
Import FastPool.

Lemma available_length p :
  pool_ok p → Z.of_nat (length (available p)) = _indexInPool p.
Proof.
  intros Hok. unfold available.
  assert (∀ n, (Z.of_nat n ≤ _indexInPool p)%Z →
    length (omap (λ i : nat, JsArray.get (_pool p) (Z.of_nat i)) (seq 0 n)) = n)
    as Hlen.
  { induction n as [|n IH]; intros Hn; [done|].
    rewrite seq_S, omap_app, length_app, IH by lia. cbn.
    destruct (pool_slots p Hok (Z.of_nat n)) as [a ->]; [lia|]. cbn. lia. }
  rewrite Hlen; pose proof (pool_index p Hok); lia.
Qed.

Lemma available_store p a :
  pool_ok p → available (store a p) = available p ++ [a].
Proof.
  intros Hok. pose proof (pool_index p Hok) as Hi.
  unfold available, store. cbn.
  replace (Z.to_nat (_indexInPool p + 1)) with (S (Z.to_nat (_indexInPool p))) by lia.
  rewrite seq_S, omap_app. cbn. unfold JsArray.get, JsArray.set. cbn.
  rewrite Z2Nat.id by done. rewrite lookup_insert_eq. cbn. f_equal.
  apply omap_ext_in. intros i Hin. apply elem_of_seq in Hin.
  rewrite lookup_insert_ne by lia. done.
Qed.

Lemma pool_ok_store p a : pool_ok p → pool_ok (store a p).
Proof.
  intros [Hh Hr Ha Hi Hs]. split; cbn; try done; try lia.
  intros i Hrange. unfold JsArray.get, JsArray.set. cbn.
  rewrite lookup_insert. case_decide; [by eexists|]. apply Hs. lia.
Qed.

Lemma release_ok p h a :
  pool_ok p → release a p h = (store a p, h).
Proof. intros Hok. unfold release. by rewrite (pool_onRelease p Hok). Qed.

Lemma available_grow p n :
  available (with_pool (JsArray.grow (_pool p) n) p) = available p.
Proof. done. Qed.

Lemma pool_ok_grow p n :
  pool_ok p → pool_ok (with_pool (JsArray.grow (_pool p) n) p).
Proof. intros [Hh Hr Ha Hi Hs]. split; done. Qed.

(** Hydrating appends freshly allocated items and leaves the cells that
    existed alone. *)
Lemma hydrateLoop_ok n p h :
  pool_ok p →
  ∃ p' h', hydrateLoop n p h = (p', h')
    ∧ pool_ok p'
    ∧ available p' = available p ++ seq (next h) n
    ∧ next h' = (next h + n)%nat
    ∧ (∀ a, (a < next h)%nat → cells h' a = cells h a)
    ∧ _config p' = _config p.
Proof.
  revert p h. induction n as [|n IH]; intros p h Hok; cbn.
  { exists p, h. rewrite app_nil_r, Nat.add_0_r. done. }
  rewrite (pool_onHydrate p Hok). cbn.
  edestruct (IH (store (next h) p)) as (p' & h' & Hrun & Hok' & Hav & Hnext & Hcells & Hcfg);
    [by apply pool_ok_store|].
  exists p', h'. rewrite Hrun. split; [done|]. split; [done|].
  rewrite Hav, available_store by done. cbn in *.
  rewrite <- app_assoc. cbn. repeat split; try done; try lia.
  intros a Ha. rewrite Hcells by lia. by rewrite decide_False by lia.
Qed.

Lemma hydrate_ok n p h :
  pool_ok p →
  ∃ p' h', hydrate n p h = (p', h')
    ∧ pool_ok p'
    ∧ available p' = available p ++ seq (next h) n
    ∧ next h' = (next h + n)%nat
    ∧ (∀ a, (a < next h)%nat → cells h' a = cells h a)
    ∧ _config p' = _config p.
Proof.
  intros Hok. unfold hydrate.
  apply (hydrateLoop_ok n (with_pool (JsArray.grow (_pool p) n) p) h).
  by apply pool_ok_grow.
Qed.

Lemma pool_ok_pop p :
  pool_ok p → (0 < _indexInPool p)%Z →
  ∃ a, JsArray.get (_pool p) (_indexInPool p - 1) = Some a
       ∧ pool_ok (with_index (_indexInPool p - 1) p)
       ∧ available p = available (with_index (_indexInPool p - 1) p) ++ [a].
Proof.
  intros Hok Hpos. destruct (pool_slots p Hok (_indexInPool p - 1)%Z) as [a Ha]; [lia|].
  exists a. split; [done|]. split.
  - destruct Hok as [Hh Hr Hau Hi Hs]. split; cbn; try done; try lia.
    intros i Hrange. apply Hs. lia.
  - unfold available. cbn.
    replace (Z.to_nat (_indexInPool p)) with (S (Z.to_nat (_indexInPool p - 1))) by lia.
    rewrite seq_S, omap_app. cbn.
    rewrite Z2Nat.id by lia. by rewrite Ha.
Qed.

(** [getOne] always hands out an item: one that was available, or the last
    of a freshly allocated batch. *)
Lemma getOne_ok p h :
  pool_ok p →
  ∃ a p' h' k, getOne p h = (Some a, p', h')
    ∧ pool_ok p'
    ∧ available p' ++ [a] = available p ++ seq (next h) k
    ∧ next h' = (next h + k)%nat
    ∧ (∀ a', (a' < next h)%nat → cells h' a' = cells h a').
Proof.
  intros Hok. unfold getOne.
  destruct (Z.eqb_spec (_indexInPool p) 0) as [Hz|Hz].
  - destruct (hydrate_ok (cfg_autoHydrateSize (_config p)) p h Hok)
      as (p1 & h1 & -> & Hok1 & Hav & Hnext & Hcells & Hcfg).
    pose proof (pool_autoHydrate p Hok) as Hauto.
    pose proof (available_length p1 Hok1) as Hlen.
    rewrite Hav, length_app, length_seq in Hlen.
    destruct (pool_ok_pop p1 Hok1) as (a & Ha & Hok2 & Hav2); [lia|].
    exists a, (with_index (_indexInPool p1 - 1) p1), h1, (cfg_autoHydrateSize (_config p)).
    rewrite Ha. split; [done|]. split; [done|]. split.
    { rewrite <- Hav2, Hav. done. }
    split; [lia|done].
  - pose proof (pool_index p Hok).
    destruct (pool_ok_pop p Hok) as (a & Ha & Hok2 & Hav2); [lia|].
    exists a, (with_index (_indexInPool p - 1) p), h, 0%nat.
    rewrite Ha. cbn. rewrite app_nil_r, Nat.add_0_r. done.
Qed.

(** The pool right after the module was loaded. *)
Lemma itemPool_init_ok :
  pool_ok (SpatialGrid2D.itemPool_init (TElement := V)).1
  ∧ available (SpatialGrid2D.itemPool_init (TElement := V)).1 = seq 0 1034
  ∧ next (SpatialGrid2D.itemPool_init (TElement := V)).2 = 1034%nat.
Proof.
  unfold SpatialGrid2D.itemPool_init, new.
  set (p0 := mk 0 JsArray.empty SpatialGrid2D.newItem None (withDefaults None)).
  assert (pool_ok p0) as Hok0.
  { split; cbn; try done; try lia. }
  destruct (hydrate_ok (cfg_initialSize (withDefaults None)) p0
              (SpatialGrid2D.emptyHeap (TElement := V)) Hok0)
    as (p1 & h1 & -> & Hok1 & Hav1 & Hnext1 & _ & _).
  destruct (hydrate_ok 1024 p1 h1 Hok1) as (p2 & h2 & -> & Hok2 & Hav2 & Hnext2 & _ & _).
  cbn [fst snd]. split; [done|]. rewrite Hav2, Hav1, Hnext2, Hnext1.
  change (available p0) with (@nil addr).
  split; [|done].
  symmetry. apply (seq_app 10 1024 0).
Qed.
End ItemPool.

(** ** The spatial grid: addressing and [get] *)

Section GridBasics.
Context {V : Type} `{JsValue V} {U : Type}.
Import SpatialGrid2D.
Implicit Types (w : World V U) (g : SpatialGrid2D.t V U) (a : addr).

Lemma world_eta w : mkWorld (heap w) (itemPool w) (grid w) (user w) = w.
Proof. by destruct w. Qed.

Lemma grid_eta g :
  mk (_gridWidth g) (_gridHeight g) (_bucketWidth g) (_bucketHeight g)
     (_size g) (_config g) (_buckets g) = g.
Proof. by destruct g. Qed.

Lemma outOfBounds_false g x y :
  outOfBounds g x y = false ↔
  (0 <= x)%Q ∧ (x < _gridWidth g)%Q ∧ (0 <= y)%Q ∧ (y < _gridHeight g)%Q.
Proof.
  unfold outOfBounds. rewrite !orb_false_iff, !Qltb_ge, !Qle_bool_gt. tauto.
Qed.

Lemma index_Some {A} (l : list A) (i : nat) x :
  l !! i = Some x → index l (Z.of_nat i) = Some x.
Proof.
  intros Hl. unfold index.
  destruct (Z.ltb_spec (Z.of_nat i) 0); [lia|]. by rewrite Nat2Z.id.
Qed.

Lemma index_inv {A} (l : list A) (i : Z) x :
  index l i = Some x → (0 ≤ i)%Z ∧ l !! Z.to_nat i = Some x.
Proof.
  unfold index. destruct (Z.ltb_spec i 0); [done|]. intros Hl. split; [lia|done].
Qed.

(** In a grid of the right shape every in-range coordinate has a bucket. *)
Lemma bucketOf_ok w x y :
  shape_ok (grid w) → outOfBounds (grid w) x y = false →
  ∃ bx by_ row bucket,
    bucketOf x y w = Return (Z.of_nat bx, Z.of_nat by_, bucket) w
    ∧ _buckets (grid w) !! bx = Some row
    ∧ row !! by_ = Some bucket
    ∧ divToInt32 x (bucketWidth w) = Z.of_nat bx
    ∧ divToInt32 y (bucketHeight w) = Z.of_nat by_.
Proof.
  intros [Hbw Hbh Hrows Hcols Hr32 Hc32] (Hx0 & Hx1 & Hy0 & Hy1)%outOfBounds_false.
  pose proof (divToInt32_range x _ _ Hbw Hx0 Hx1 Hr32) as Hbx.
  pose proof (divToInt32_range y _ _ Hbh Hy0 Hy1 Hc32) as Hby.
  destruct (lookup_lt_is_Some_2 (_buckets (grid w))
              (Z.to_nat (divToInt32 x (_bucketWidth (grid w))))) as [row Hrow]; [lia|].
  assert (length row = Z.to_nat (Qceiling (_gridHeight (grid w) / _bucketHeight (grid w))))
    as Hlen.
  { by eapply (Forall_lookup_1 _ _ _ _ Hcols). }
  destruct (lookup_lt_is_Some_2 row
              (Z.to_nat (divToInt32 y (_bucketHeight (grid w))))) as [bucket Hbucket]; [lia|].
  exists (Z.to_nat (divToInt32 x (_bucketWidth (grid w)))),
         (Z.to_nat (divToInt32 y (_bucketHeight (grid w)))), row, bucket.
  unfold bucketOf, bucketWidth, bucketHeight. rewrite !Z2Nat.id by lia.
  unfold index.
  destruct (Z.ltb_spec (divToInt32 x (_bucketWidth (grid w))) 0); [lia|].
  destruct (Z.ltb_spec (divToInt32 y (_bucketHeight (grid w))) 0); [lia|].
  rewrite Hrow, Hbucket. done.
Qed.

Lemma bucketOf_inv w x y bx by_ bucket w' :
  bucketOf x y w = Return (bx, by_, bucket) w' →
  w' = w
  ∧ bx = divToInt32 x (bucketWidth w) ∧ by_ = divToInt32 y (bucketHeight w)
  ∧ (0 ≤ bx)%Z ∧ (0 ≤ by_)%Z
  ∧ ∃ row, _buckets (grid w) !! Z.to_nat bx = Some row
           ∧ row !! Z.to_nat by_ = Some bucket.
Proof.
  unfold bucketOf, bucketWidth, bucketHeight.
  destruct (index (_buckets (grid w)) _) as [row|] eqn:Hrow; [|done].
  destruct (index row _) as [b|] eqn:Hb; [|done].
  intros [= <- <- <- <-].
  apply index_inv in Hrow as [? Hrow]. apply index_inv in Hb as [? Hb].
  repeat split; try done. by exists row.
Qed.

Lemma bucketOf_throw w x y e w' :
  bucketOf x y w = Throw e w' → e = TypeError ∧ w' = w.
Proof.
  unfold bucketOf.
  destruct (index (_buckets (grid w)) _) as [row|]; [|by intros [= <- <-]].
  destruct (index row _) as [b|]; [done|by intros [= <- <-]].
Qed.

Lemma bucketOf_NoReturn w x y : bucketOf x y w ≠ NoReturn.
Proof.
  unfold bucketOf.
  destruct (index (_buckets (grid w)) _) as [row|]; [|done].
  by destruct (index row _).
Qed.

Lemma get_fold w x y bucket out :
  fold_left
    (λ out a, if at_position x y (item w a)
              then out ++ [item_value (item w a)] else out)
    bucket out
  = out ++ values_at w x y bucket.
Proof.
  unfold values_at. revert out. induction bucket as [|a bucket IH]; intros out.
  { cbn. by rewrite app_nil_r. }
  cbn [fold_left]. rewrite IH, filter_cons.
  destruct (at_position x y (item w a)) eqn:Hat.
  - rewrite decide_True by done. rewrite fmap_cons, <- app_assoc. done.
  - rewrite decide_False by congruence. done.
Qed.

Lemma get_ok w x y out bx by_ bucket :
  outOfBounds (grid w) x y = false →
  bucketOf x y w = Return (bx, by_, bucket) w →
  get x y out w = Return (default [] out ++ values_at w x y bucket) w.
Proof.
  intros Hin Hb. unfold get, bind, gets, ret. rewrite Hin, Hb. cbn.
  by rewrite get_fold.
Qed.

Lemma get_out_of_bounds w x y out :
  outOfBounds (grid w) x y = true → get x y out w = Throw BoundsError w.
Proof. intros Hout. unfold get, bind, gets, throw. by rewrite Hout. Qed.

Lemma elem_of_values_at w x y bucket v :
  v ∈ values_at w x y bucket ↔
  ∃ a, a ∈ bucket ∧ at_position x y (item w a) = true ∧ item_value (item w a) = v.
Proof.
  unfold values_at. rewrite list_elem_of_fmap. split.
  - intros (a & -> & (Hat & Hin)%list_elem_of_filter). by exists a.
  - intros (a & Hin & Hat & <-). exists a. split; [done|].
    by apply list_elem_of_filter.
Qed.
End GridBasics.

(** ** The spatial grid: [insertAt] *)

Section InsertAt.
Context {V : Type} `{JsValue V} {U : Type}.
Import SpatialGrid2D.
Implicit Types (w : World V U) (g : SpatialGrid2D.t V U) (a : addr).

Lemma insertAt_out_of_bounds w x y v :
  outOfBounds (grid w) x y = true → insertAt x y v w = Throw BoundsError w.
Proof. intros Hout. unfold insertAt, bind, gets, throw. by rewrite Hout. Qed.

(** What a call of [insertAt] inside the bounds does: it takes an item [a]
    out of the pool, stamps it and appends it to the bucket of [(x, y)]. *)
Lemma insertAt_ok w x y v :
  pool_ok (itemPool w) → shape_ok (grid w) → outOfBounds (grid w) x y = false →
  ∃ a k bx by_ row bucket w',
    insertAt x y v w = Return tt w'
    ∧ pool_ok (itemPool w')
    ∧ available (itemPool w') ++ [a] = available (itemPool w) ++ seq (next (heap w)) k
    ∧ next (heap w') = (next (heap w) + k)%nat
    ∧ item w' a = mkItem x y v
    ∧ (∀ a', a' ≠ a → (a' < next (heap w))%nat → item w' a' = item w a')
    ∧ _buckets (grid w) !! bx = Some row
    ∧ row !! by_ = Some bucket
    ∧ divToInt32 x (bucketWidth w) = Z.of_nat bx
    ∧ divToInt32 y (bucketHeight w) = Z.of_nat by_
    ∧ grid w' =
        with_size (_size (grid w) + 1)
          (with_buckets (<[bx := <[by_ := bucket ++ [a]]> row]> (_buckets (grid w)))
             (grid w))
    ∧ user w' = user w.
Proof.
  intros Hpool Hshape Hin.
  destruct (getOne_ok (itemPool w) (heap w) Hpool)
    as (a & p' & h' & k & Hget & Hpool' & Hav & Hnext & Hcells).
  destruct (bucketOf_ok w x y Hshape Hin) as (bx & by_ & row & bucket & Hb & Hrow & Hbucket & Hbx & Hby).
  exists a, k, bx, by_, row, bucket.
  unfold insertAt, bind, gets, itemPool_getOne. rewrite Hin, Hget. cbn.
  unfold bucketOf in *. cbn. unfold bucketWidth, bucketHeight in *.
  rewrite Hbx, Hby in *. rewrite (index_Some _ _ _ Hrow) in *.
  rewrite (index_Some _ _ _ Hbucket) in *. cbn.
  rewrite (index_Some _ _ _ Hrow). rewrite !Nat2Z.id.
  eexists. split; [reflexivity|]. cbn.
  split_and!; try done.
  - unfold item. cbn. by rewrite !cells_update_eq.
  - intros a' Hne Hlt. unfold item. cbn. rewrite !cells_update_ne by done. by apply Hcells.
Qed.
End InsertAt.

(** ** Arrays of rows of buckets *)

Section Buckets.
Context {A : Type}.
Implicit Types (B : list (list (list A))) (row : list (list A)) (b : list A).

(** Replacing one bucket replaces one segment of the list of all records. *)
Lemma concat_insert2 B bx by_ row b :
  B !! bx = Some row → row !! by_ = Some b →
  ∃ pre post,
    concat (concat B) = pre ++ b ++ post
    ∧ ∀ b', concat (concat (<[bx := <[by_ := b']> row]> B)) = pre ++ b' ++ post.
Proof.
  intros Hrow Hb.
  exists (concat (concat (take bx B)) ++ concat (take by_ row)),
         (concat (drop (S by_) row) ++ concat (concat (drop (S bx) B))).
  assert (∀ b', concat (concat (<[bx := <[by_ := b']> row]> B))
                = (concat (concat (take bx B)) ++ concat (take by_ row)) ++ b'
                  ++ concat (drop (S by_) row) ++ concat (concat (drop (S bx) B)))
    as Hgen.
  { intros b'.
    rewrite (insert_take_drop B) by (by eapply lookup_lt_Some).
    rewrite (insert_take_drop row) by (by eapply lookup_lt_Some).
    repeat (rewrite concat_app || rewrite concat_cons).
    by rewrite <- !app_assoc. }
  split; [|done].
  rewrite <- (Hgen b).
  by rewrite (list_insert_id row), (list_insert_id B).
Qed.

Lemma lookup_insert2 B bx by_ row b' i j r c :
  B !! bx = Some row → (by_ < length row)%nat →
  <[bx := <[by_ := b']> row]> B !! i = Some r → r !! j = Some c →
  (i = bx ∧ j = by_ ∧ c = b')
  ∨ (¬ (i = bx ∧ j = by_) ∧ ∃ r0, B !! i = Some r0 ∧ r0 !! j = Some c).
Proof.
  intros Hrow Hby Hr Hc.
  destruct (decide (i = bx)) as [->|Hi].
  - rewrite list_lookup_insert_eq in Hr by (by eapply lookup_lt_Some).
    injection Hr as <-.
    destruct (decide (j = by_)) as [->|Hj].
    + rewrite list_lookup_insert_eq in Hc by done. injection Hc as <-. by left.
    + rewrite list_lookup_insert_ne in Hc by done. right. split; [tauto|by exists row].
  - rewrite list_lookup_insert_ne in Hr by done. right. split; [tauto|by exists r].
Qed.

Lemma lookup_insert2_eq B bx by_ row b' :
  B !! bx = Some row → (by_ < length row)%nat →
  ∃ row', <[bx := <[by_ := b']> row]> B !! bx = Some row' ∧ row' !! by_ = Some b'.
Proof.
  intros Hrow Hby. exists (<[by_ := b']> row).
  rewrite !list_lookup_insert_eq; [done|done|by eapply lookup_lt_Some].
Qed.

Lemma Forall_length_insert2 B bx by_ row b' n :
  B !! bx = Some row →
  Forall (λ r, length r = n) B →
  Forall (λ r, length r = n) (<[bx := <[by_ := b']> row]> B).
Proof.
  intros Hrow Hall. apply Forall_insert; [done|].
  rewrite length_insert. by eapply (Forall_lookup_1 _ _ _ _ Hall).
Qed.

Lemma elem_of_concat2 B (x : A) :
  x ∈ concat (concat B) ↔
  ∃ i j r b, B !! i = Some r ∧ r !! j = Some b ∧ x ∈ b.
Proof.
  split.
  - intros (b & Hx & Hb)%elem_of_concat.
    apply elem_of_concat in Hb as (r & Hb & Hr).
    apply list_elem_of_lookup in Hr as [i Hi].
    apply list_elem_of_lookup in Hb as [j Hj].
    by exists i, j, r, b.
  - intros (i & j & r & b & Hi & Hj & Hx).
    apply elem_of_concat. exists b. split; [done|].
    apply elem_of_concat. exists r.
    split; eapply list_elem_of_lookup_2; done.
Qed.
End Buckets.

(** ** The invariant: construction and [insertAt] *)

Section WfInsert.
Context {V : Type} `{JsValue V} {U : Type}.
Import SpatialGrid2D.
Implicit Types (w : World V U) (g : SpatialGrid2D.t V U) (a : addr).

Lemma badDimension_false n : badDimension n = false → (1 <= n)%Q.
Proof.
  unfold badDimension. intros [Hn _]%orb_false_iff. by apply Qltb_ge.
Qed.

Lemma new_inv gridWidth gridHeight bucketWidth bucketHeight config g :
  new gridWidth gridHeight bucketWidth bucketHeight config = inr g →
  (1 <= bucketWidth)%Q ∧ (1 <= bucketHeight)%Q
  ∧ g = mk gridWidth gridHeight bucketWidth bucketHeight 0
          (default {| destructorCallback := None |} config)
          (emptyBuckets (Z.to_nat (Qceiling (gridWidth / bucketWidth)))
                        (Z.to_nat (Qceiling (gridHeight / bucketHeight)))).
Proof.
  unfold new.
  destruct (badDimension gridWidth); [done|].
  destruct (badDimension gridHeight); [done|].
  destruct (badDimension bucketWidth) eqn:Hbw; [done|].
  destruct (badDimension bucketHeight) eqn:Hbh; [done|].
  intros [= <-]. auto using badDimension_false.
Qed.

Lemma allItems_emptyBuckets n m :
  concat (concat (emptyBuckets n m)) = @nil addr.
Proof.
  unfold emptyBuckets. induction n as [|n IH]; [done|].
  cbn. rewrite concat_app, IH, app_nil_r.
  clear IH. induction m as [|m IH]; [done|]. done.
Qed.

Lemma emptyBuckets_lookup n m i j row (bucket : list addr) :
  emptyBuckets n m !! i = Some row → row !! j = Some bucket → bucket = [].
Proof.
  unfold emptyBuckets.
  intros [-> _]%lookup_replicate [-> _]%lookup_replicate. done.
Qed.

Lemma shape_ok_new gridWidth gridHeight bucketWidth bucketHeight config g :
  new gridWidth gridHeight bucketWidth bucketHeight config = inr g →
  (Qceiling (gridWidth / bucketWidth) ≤ 2 ^ 31)%Z →
  (Qceiling (gridHeight / bucketHeight) ≤ 2 ^ 31)%Z →
  shape_ok g.
Proof.
  intros (Hbw & Hbh & ->)%new_inv Hr Hc. split; cbn; try done.
  - eapply Qlt_le_trans; [|exact Hbw]. done.
  - eapply Qlt_le_trans; [|exact Hbh]. done.
  - unfold emptyBuckets. by rewrite length_replicate.
  - unfold emptyBuckets. apply Forall_replicate. by rewrite length_replicate.
Qed.

(** A grid that the constructor returned, put next to any pool in good
    order whose items it does not hold, satisfies the invariant. *)
Lemma wf_new gridWidth gridHeight bucketWidth bucketHeight config g h p u :
  new gridWidth gridHeight bucketWidth bucketHeight config = inr g →
  (Qceiling (gridWidth / bucketWidth) ≤ 2 ^ 31)%Z →
  (Qceiling (gridHeight / bucketHeight) ≤ 2 ^ 31)%Z →
  pool_ok p → NoDup (available p) →
  (∀ a, a ∈ available p → (a < next h)%nat) →
  wf (mkWorld h p g u).
Proof.
  intros Hnew Hr Hc Hpool Hnd Halloc.
  pose proof (shape_ok_new _ _ _ _ _ _ Hnew Hr Hc) as Hshape.
  apply new_inv in Hnew as (_ & _ & ->).
  split; unfold allItems; cbn in *; try done.
  - by rewrite allItems_emptyBuckets.
  - by rewrite allItems_emptyBuckets.
  - intros bx by_ row bucket a Hrow Hbucket Ha.
    rewrite (emptyBuckets_lookup _ _ _ _ _ _ Hrow Hbucket) in Ha.
    by apply not_elem_of_nil in Ha.
  - unfold size. cbn. by rewrite allItems_emptyBuckets.
Qed.

Lemma wf_fresh gridWidth gridHeight bucketWidth bucketHeight config g u :
  new gridWidth gridHeight bucketWidth bucketHeight config = inr g →
  (Qceiling (gridWidth / bucketWidth) ≤ 2 ^ 31)%Z →
  (Qceiling (gridHeight / bucketHeight) ≤ 2 ^ 31)%Z →
  wf (fresh g u).
Proof.
  intros Hnew Hr Hc. unfold fresh.
  destruct (itemPool_init_ok (V := V)) as (Hok & Hav & Hnext).
  destruct itemPool_init as [p h]. cbn [fst snd] in *.
  eapply wf_new; try done.
  - rewrite Hav. apply NoDup_seq.
  - intros a. rewrite Hav, Hnext, elem_of_seq. lia.
Qed.

Lemma insertAt_return_inv w x y v w' :
  insertAt x y v w = Return tt w' → outOfBounds (grid w) x y = false.
Proof.
  destruct (outOfBounds (grid w) x y) eqn:Hout; [|done].
  by rewrite insertAt_out_of_bounds.
Qed.

(** [insertAt] keeps the invariant. *)
Lemma wf_insertAt w x y v w' :
  wf w → insertAt x y v w = Return tt w' → wf w'.
Proof.
  intros Hwf Hrun. pose proof (insertAt_return_inv _ _ _ _ _ Hrun) as Hin.
  destruct Hwf as [Hpool Hshape Hnd Halloc Hplaced Hsize].
  destruct (insertAt_ok w x y v Hpool Hshape Hin)
    as (a & k & bx & by_ & row & bucket & w'' & Hrun' & Hpool' & Hav & Hnext
        & Ha & Hother & Hrow & Hbucket & Hbx & Hby & Hgrid & Huser).
  rewrite Hrun in Hrun'. injection Hrun' as <-.
  destruct (concat_insert2 _ _ _ _ _ Hrow Hbucket) as (pre & post & Hall & Hall').
  assert (allItems w' = pre ++ (bucket ++ [a]) ++ post) as Hitems.
  { unfold allItems. rewrite Hgrid. cbn. apply Hall'. }
  unfold allItems in Hnd, Halloc, Hsize. rewrite Hall in Hnd, Halloc, Hsize.
  assert (NoDup ((pre ++ bucket ++ post) ++ available (itemPool w') ++ [a])) as Hbig.
  { rewrite Hav. rewrite app_assoc. apply NoDup_app. split; [done|].
    split; [|apply NoDup_seq].
    intros a' Ha' [Hge _]%elem_of_seq. apply Halloc in Ha'. lia. }
  rewrite app_assoc in Hbig. apply NoDup_app in Hbig as (Hnd' & Hdisj & _).
  assert (a ∉ (pre ++ bucket ++ post) ++ available (itemPool w')) as Hfresh.
  { intros Hin'. apply (Hdisj a); [done | by left]. }
  assert (∀ a', a' ∈ pre ++ bucket ++ post → (a' < next (heap w'))%nat) as Hold.
  { intros a' Hin'. rewrite Hnext.
    assert (a' < next (heap w))%nat; [|lia]. apply Halloc, elem_of_app. by left. }
  assert (∀ a', a' ∈ available (itemPool w') ++ [a] → (a' < next (heap w'))%nat)
    as Hnew.
  { intros a'. rewrite Hav, Hnext, elem_of_app, elem_of_seq.
    intros [Hin'|?]; [|lia].
    assert (a' < next (heap w))%nat; [|lia]. apply Halloc, elem_of_app. by right. }
  split.
  - done.
  - destruct Hshape as [Hbw Hbh Hrows Hcols Hr32 Hc32].
    rewrite Hgrid. split; cbn; try done.
    + by rewrite length_insert.
    + by apply Forall_length_insert2.
  - rewrite Hitems.
    assert ((pre ++ (bucket ++ [a]) ++ post) ++ available (itemPool w')
            ≡ₚ a :: (pre ++ bucket ++ post) ++ available (itemPool w')) as ->.
    { perm_front. }
    by apply NoDup_cons.
  - intros a'. rewrite Hitems. intros Hin'.
    rewrite !elem_of_app in Hin'.
    destruct Hin' as [[?|[[?|?]|?]]|?].
    + apply Hold. rewrite !elem_of_app. auto.
    + apply Hold. rewrite !elem_of_app. auto.
    + apply Hnew. rewrite elem_of_app. auto.
    + apply Hold. rewrite !elem_of_app. auto.
    + apply Hnew. rewrite elem_of_app. auto.
  - intros i j r b a' Hr Hb Ha'.
    unfold gridWidth, gridHeight, bucketWidth, bucketHeight in *.
    rewrite Hgrid in Hr |- *. cbn in Hr |- *.
    assert (a' = a ∧ i = bx ∧ j = by_ ∨
            a' ≠ a ∧ ∃ r0 b0, _buckets (grid w) !! i = Some r0 ∧ r0 !! j = Some b0
                              ∧ a' ∈ b0) as [(-> & -> & ->)|(Hne & r0 & b0 & Hr0 & Hb0 & Hin0)].
    { assert (∀ r0 b0, _buckets (grid w) !! i = Some r0 → r0 !! j = Some b0 →
                       a' ∈ b0 → a' ≠ a) as Hne.
      { intros r0 b0 Hr0 Hb0 Hin0 ->. apply Hfresh, elem_of_app. left.
        rewrite <- Hall. apply elem_of_concat2. by exists i, j, r0, b0. }
      destruct (lookup_insert2 _ _ _ _ _ _ _ _ _ Hrow
                  (lookup_lt_Some _ _ _ Hbucket) Hr Hb)
        as [(-> & -> & ->)|(_ & r0 & Hr0 & Hb0)].
      - apply elem_of_app in Ha' as [Ha' | ->%list_elem_of_singleton]; [|by left].
        right. split; [by eapply Hne|]. by exists row, bucket.
      - right. split; [by eapply Hne|]. by exists r0, b. }
    + rewrite Ha. cbn. apply outOfBounds_false in Hin. split; [done|]. done.
    + rewrite Hother; [by eapply Hplaced|done|].
      apply Halloc. rewrite <- Hall. apply elem_of_app. left.
      apply elem_of_concat2. by exists i, j, r0, b0.
  - unfold size. rewrite Hitems, Hgrid. cbn. unfold size in Hsize.
    rewrite Hsize. rewrite !length_app. cbn. lia.
Qed.
End WfInsert.

(** ** The swap-remove loop *)

Section SwapLoop.
Context {V : Type} `{JsValue V} {U : Type}.
Import SpatialGrid2D.
Implicit Types (w : World V U) (a : addr) (bucket : list addr).

Lemma removeAt_loop_swap x y element remaining bucket i itemFound w :
  removeAt_loop x y element remaining bucket i itemFound w
  = swap_loop (is_element x y element) undefined remaining bucket i itemFound w.
Proof.
  revert bucket i itemFound w.
  induction remaining as [|r IH]; intros bucket i itemFound w; [done|].
  cbn. destruct (bucket !! i) as [a|]; [|done].
  unfold bind, gets. cbn.
  destruct (is_element x y element (item w a)); [|apply IH].
  unfold set_value, itemPool_release, size_decr, modify. cbn.
  rewrite IH. unfold release_one. cbn.
  by destruct (FastPool._onRelease (itemPool w)).
Qed.

Lemma removeAllAt_loop_swap x y remaining bucket i w :
  removeAllAt_loop x y remaining bucket i w
  = match swap_loop (at_position x y) null remaining bucket i false w with
    | Return (bucket, bucketLength, _) w' => Return (bucket, bucketLength) w'
    | Throw e w' => Throw e w'
    | NoReturn => NoReturn
    end.
Proof.
  assert (∀ itemFound,
    removeAllAt_loop x y remaining bucket i w
    = match swap_loop (at_position x y) null remaining bucket i itemFound w with
      | Return (bucket, bucketLength, _) w' => Return (bucket, bucketLength) w'
      | Throw e w' => Throw e w'
      | NoReturn => NoReturn
      end) as Hgen; [|apply Hgen].
  revert bucket i w.
  induction remaining as [|r IH]; intros bucket i w itemFound; [done|].
  cbn. destruct (bucket !! i) as [a|]; [|done].
  unfold bind, gets. cbn.
  destruct (at_position x y (item w a)); [|apply IH].
  unfold set_value, itemPool_release, size_decr, modify. cbn.
  rewrite (IH _ _ _ true). unfold release_one. cbn.
  by destruct (FastPool._onRelease (itemPool w)).
Qed.

(** *** Releasing records *)

Lemma release_one_grid c w a :
  grid (release_one c w a) = with_size (_size (grid w) - 1) (grid w).
Proof. unfold release_one. by destruct (FastPool.release _ _ _). Qed.

Lemma release_one_user c w a : user (release_one c w a) = user w.
Proof. unfold release_one. by destruct (FastPool.release _ _ _). Qed.

Lemma release_one_pool c w a :
  pool_ok (itemPool w) →
  pool_ok (itemPool (release_one c w a))
  ∧ available (itemPool (release_one c w a)) = available (itemPool w) ++ [a]
  ∧ next (heap (release_one c w a)) = next (heap w)
  ∧ item (release_one c w a) a
    = mkItem (item_x (item w a)) (item_y (item w a)) c
  ∧ ∀ a', a' ≠ a → item (release_one c w a) a' = item w a'.
Proof.
  intros Hok. unfold release_one. rewrite release_ok by done. cbn.
  split_and!.
  - by apply pool_ok_store.
  - by apply available_store.
  - done.
  - unfold item. cbn. by rewrite cells_update_eq.
  - intros a' Hne. unfold item. cbn. by rewrite cells_update_ne.
Qed.

Lemma release_all_nil c w : release_all c [] w = w.
Proof. done. Qed.

Lemma release_all_cons c a removed w :
  release_all c (a :: removed) w = release_all c removed (release_one c w a).
Proof. done. Qed.

Lemma release_all_app c l1 l2 w :
  release_all c (l1 ++ l2) w = release_all c l2 (release_all c l1 w).
Proof. unfold release_all. apply fold_left_app. Qed.

Lemma release_all_grid c removed w :
  grid (release_all c removed w)
  = with_size (_size (grid w) - Z.of_nat (length removed)) (grid w).
Proof.
  revert w. induction removed as [|a removed IH]; intros w.
  - cbn. rewrite Z.sub_0_r. by destruct (grid w).
  - rewrite release_all_cons, IH, release_one_grid. unfold with_size. cbn.
    f_equal. lia.
Qed.

Lemma release_all_user c removed w : user (release_all c removed w) = user w.
Proof.
  revert w. induction removed as [|a removed IH]; intros w; [done|].
  by rewrite release_all_cons, IH, release_one_user.
Qed.

Lemma release_all_pool c removed w :
  pool_ok (itemPool w) →
  pool_ok (itemPool (release_all c removed w))
  ∧ available (itemPool (release_all c removed w)) = available (itemPool w) ++ removed
  ∧ next (heap (release_all c removed w)) = next (heap w)
  ∧ ∀ a', a' ∉ removed → item (release_all c removed w) a' = item w a'.
Proof.
  revert w. induction removed as [|a removed IH]; intros w Hok.
  { cbn. by rewrite app_nil_r. }
  rewrite release_all_cons.
  destruct (release_one_pool c w a Hok) as (Hok1 & Hav1 & Hnext1 & _ & Hitem1).
  destruct (IH _ Hok1) as (Hok2 & Hav2 & Hnext2 & Hitem2).
  split_and!; try done.
  - rewrite Hav2, Hav1, <- app_assoc. done.
  - congruence.
  - intros a' Hnot. rewrite Hitem2, Hitem1; try done.
    + intros ->. apply Hnot. by left.
    + intros Hin. apply Hnot. by right.
Qed.

(** The coordinates of a record survive its release. *)
Lemma release_all_position c removed w a :
  pool_ok (itemPool w) →
  item_x (item (release_all c removed w) a) = item_x (item w a)
  ∧ item_y (item (release_all c removed w) a) = item_y (item w a).
Proof.
  revert w. induction removed as [|a0 removed IH]; intros w Hok; [done|].
  rewrite release_all_cons.
  destruct (release_one_pool c w a0 Hok) as (Hok1 & _ & _ & Hsame & Hother).
  destruct (IH _ Hok1) as [-> ->].
  destruct (decide (a = a0)) as [->|Hne].
  - by rewrite Hsame.
  - by rewrite Hother.
Qed.
End SwapLoop.

Section SwapStep.
Context {A : Type}.
Implicit Types (bucket : list A).

(** Overwriting slot [i] with the last live slot and shortening the live
    part by one removes exactly the record of slot [i] from the part of the
    array not yet examined. *)
Lemma swap_step bucket i r a last :
  bucket !! i = Some a → bucket !! (i + r)%nat = Some last →
  take i (<[i := last]> bucket) = take i bucket
  ∧ a :: drop i (take (i + r) (<[i := last]> bucket))
    ≡ₚ drop i (take (i + S r) bucket).
Proof.
  intros Ha Hlast. split; [by apply take_insert_ge|].
  pose proof (lookup_lt_Some _ _ _ Hlast) as Hlen.
  replace (i + S r)%nat with (S (i + r)) by lia.
  rewrite (take_S_r _ _ _ Hlast).
  rewrite drop_app_le by (rewrite length_take; lia).
  destruct r as [|r].
  - rewrite Nat.add_0_r in *.
    assert (last = a) as -> by congruence.
    rewrite !drop_ge by (rewrite length_take, ?length_insert; lia). done.
  - rewrite take_insert_lt by lia.
    rewrite drop_insert_ge by lia. rewrite Nat.sub_diag.
    assert (take (i + S r) bucket !! i = Some a) as Hai.
    { rewrite lookup_take_lt by lia. done. }
    rewrite (drop_S _ _ _ Hai). cbn.
    constructor. apply Permutation_cons_append.
Qed.

Lemma unexamined_cons bucket i r a :
  bucket !! i = Some a → (i + S r ≤ length bucket)%nat →
  drop i (take (i + S r) bucket) = a :: drop (S i) (take (S i + r) bucket).
Proof.
  intros Ha Hlen.
  replace (S i + r)%nat with (i + S r)%nat by lia.
  apply drop_S. rewrite lookup_take_lt by lia. done.
Qed.
End SwapStep.

Section SwapLoopSpec.
Context {V : Type} `{JsValue V} {U : Type}.
Import SpatialGrid2D.
Implicit Types (w : World V U) (a : addr) (bucket : list addr).

(** The loop always ends normally; it releases the records it removes, in
    order, and changes nothing else in the world.  When no slot holds a
    record twice, the live part of the array afterwards consists of the
    records that did not match and the removed ones are those that did. *)
Lemma swap_loop_spec (matches : Item V → bool) c r bucket i itemFound w :
  (i + r ≤ length bucket)%nat →
  ∃ bucket' bucketLength removed,
    swap_loop matches c r bucket i itemFound w
    = Return (bucket', bucketLength, itemFound || negb (bool_decide (removed = [])))
             (release_all c removed w)
    ∧ length bucket' = length bucket
    ∧ (bucketLength + length removed = i + r)%nat
    ∧ (removed = [] → bucket' = bucket)
    ∧ (pool_ok (itemPool w) → NoDup (drop i (take (i + r) bucket)) →
       take bucketLength bucket'
       ≡ₚ take i bucket
          ++ filter (λ a, matches (item w a) = false) (drop i (take (i + r) bucket))
       ∧ removed ≡ₚ filter (λ a, matches (item w a) = true) (drop i (take (i + r) bucket))).
Proof.
  revert bucket i itemFound w.
  induction r as [|r IH]; intros bucket i itemFound w Hlen.
  { exists bucket, i, []. cbn. rewrite orb_false_r, Nat.add_0_r.
    split_and!; try done.
    intros _ _. rewrite drop_ge by (rewrite length_take; lia).
    by rewrite app_nil_r. }
  destruct (lookup_lt_is_Some_2 bucket i) as [a Ha]; [lia|].
  destruct (lookup_lt_is_Some_2 bucket (i + r)) as [last Hlast]; [lia|].
  cbn [swap_loop]. rewrite Ha, Hlast.
  rewrite (unexamined_cons bucket i r a Ha Hlen).
  destruct (matches (item w a)) eqn:Hmatch.
  - destruct (IH (<[i := last]> bucket) i true (release_one c w a))
      as (bucket' & bl & removed & Hrun & Hlen' & Hcount & _ & Hperm).
    { rewrite length_insert. lia. }
    exists bucket', bl, (a :: removed).
    rewrite Hrun. rewrite length_insert in Hlen'. cbn [length].
    rewrite orb_true_r. split_and!; try done; try lia.
    intros Hok Hnd.
    destruct (swap_step bucket i r a last Ha Hlast) as [Htake Hswap].
    rewrite <- (unexamined_cons bucket i r a Ha Hlen) in Hnd.
    rewrite <- Hswap in Hnd. apply NoDup_cons in Hnd as [Hnotin Hnd].
    destruct (release_one_pool c w a Hok) as (Hok1 & _ & _ & _ & Hother).
    destruct (Hperm Hok1 Hnd) as [Hkept Hremoved].
    assert (∀ b (a' : addr),
              a' ∈ drop i (take (i + r) (<[i:=last]> bucket)) →
              matches (item (release_one c w a) a') = b ↔ matches (item w a') = b)
      as Hstable.
    { intros b a' Hin. rewrite Hother; [done|]. by intros ->. }
    rewrite (filter_ext_in _ (λ a, matches (item w a) = false)) in Hkept
      by (intros; by apply Hstable).
    rewrite (filter_ext_in _ (λ a, matches (item w a) = true)) in Hremoved
      by (intros; by apply Hstable).
    rewrite (unexamined_cons bucket i r a Ha Hlen) in Hswap.
    assert (drop (S i) (take (S i + r) bucket)
            ≡ₚ drop i (take (i + r) (<[i:=last]> bucket))) as Hrest.
    { by apply (Permutation_cons_inv (a := a)). }
    rewrite (filter_cons_False (λ a, matches (item w a) = false)) by congruence.
    rewrite (filter_cons_True (λ a, matches (item w a) = true)) by congruence.
    rewrite Hkept, Hremoved, Htake, Hrest. done.
  - destruct (IH bucket (S i) itemFound w)
      as (bucket' & bl & removed & Hrun & Hlen' & Hcount & Hsame & Hperm); [lia|].
    exists bucket', bl, removed.
    rewrite Hrun. split_and!; try done; try lia.
    intros Hok Hnd. apply NoDup_cons in Hnd as [Hnotin Hnd].
    destruct (Hperm Hok Hnd) as [Hkept Hremoved].
    rewrite (filter_cons_True (λ a, matches (item w a) = false)) by congruence.
    rewrite (filter_cons_False (λ a, matches (item w a) = true)) by congruence.
    rewrite Hkept, Hremoved, (take_S_r _ _ _ Ha), <- app_assoc. done.
Qed.
End SwapLoopSpec.

(** ** The spatial grid: [removeAt] and [removeAllAt] *)

Section Remove.
Context {V : Type} `{JsValue V} {U : Type}.
Import SpatialGrid2D.
Implicit Types (w : World V U) (a : addr) (bucket : list addr).

Lemma removeAt_out_of_bounds w x y v :
  outOfBounds (grid w) x y = true → removeAt x y v w = Throw BoundsError w.
Proof. intros Hout. unfold removeAt, bind, gets, throw. by rewrite Hout. Qed.

Lemma removeAllAt_out_of_bounds w x y :
  outOfBounds (grid w) x y = true → removeAllAt x y w = Throw BoundsError w.
Proof. intros Hout. unfold removeAllAt, bind, gets, throw. by rewrite Hout. Qed.

Lemma store_bucket_ok w bx by_ row bucket :
  _buckets (grid w) !! bx = Some row →
  store_bucket (Z.of_nat bx) (Z.of_nat by_) bucket w
  = Return tt (put_bucket bx by_ row bucket w).
Proof.
  intros Hrow. unfold store_bucket, modify, put_bucket.
  by rewrite (index_Some _ _ _ Hrow), !Nat2Z.id.
Qed.

Lemma put_bucket_same w bx by_ row bucket :
  _buckets (grid w) !! bx = Some row → row !! by_ = Some bucket →
  put_bucket bx by_ row bucket w = w.
Proof.
  intros Hrow Hbucket. unfold put_bucket, with_grid, with_buckets.
  rewrite (list_insert_id row), (list_insert_id (_buckets (grid w))) by done.
  by rewrite grid_eta, world_eta.
Qed.

(** [removeAt] inside the bounds, on a bucket that exists: the records
    [removed] are released, the bucket keeps the records [kept], and the
    call throws exactly when nothing was removed. *)
Lemma removeAt_spec w x y v bx by_ row bucket :
  outOfBounds (grid w) x y = false →
  bucketOf x y w = Return (Z.of_nat bx, Z.of_nat by_, bucket) w →
  _buckets (grid w) !! bx = Some row →
  ∃ kept removed,
    removeAt x y v w
    = (if bool_decide (removed = []) then Throw NotFoundError else Return tt)
        (put_bucket bx by_ row kept (release_all undefined removed w))
    ∧ (length kept + length removed = length bucket)%nat
    ∧ (removed = [] → kept = bucket)
    ∧ (pool_ok (itemPool w) → NoDup bucket →
       kept ≡ₚ filter (λ a, is_element x y v (item w a) = false) bucket
       ∧ removed ≡ₚ filter (λ a, is_element x y v (item w a) = true) bucket).
Proof.
  intros Hin Hb Hrow.
  destruct (swap_loop_spec (U := U) (is_element x y v) undefined (length bucket) bucket 0
              false w) as (bucket' & bl & removed & Hrun & Hlen & Hcount & Hsame & Hperm);
    [cbn; lia|].
  exists (take bl bucket'), removed.
  unfold removeAt, bind, gets. rewrite Hin, Hb. cbn -[store_bucket].
  rewrite removeAt_loop_swap, Hrun. cbn -[store_bucket release_all].
  erewrite store_bucket_ok by (by rewrite release_all_grid).
  split_and!.
  - unfold throw, ret. by destruct (bool_decide (removed = [])).
  - rewrite length_take. lia.
  - intros Hnil. rewrite Hsame by done. subst removed. cbn in Hcount.
    rewrite take_ge; [done | lia].
  - intros Hok Hnd. cbn in Hperm. rewrite firstn_all in Hperm. by apply Hperm.
Qed.

Lemma removeAllAt_spec w x y bx by_ row bucket :
  outOfBounds (grid w) x y = false →
  bucketOf x y w = Return (Z.of_nat bx, Z.of_nat by_, bucket) w →
  _buckets (grid w) !! bx = Some row →
  ∃ kept removed,
    removeAllAt x y w
    = Return tt (put_bucket bx by_ row kept (release_all null removed w))
    ∧ (length kept + length removed = length bucket)%nat
    ∧ (pool_ok (itemPool w) → NoDup bucket →
       kept ≡ₚ filter (λ a, at_position x y (item w a) = false) bucket
       ∧ removed ≡ₚ filter (λ a, at_position x y (item w a) = true) bucket).
Proof.
  intros Hin Hb Hrow.
  destruct (swap_loop_spec (U := U) (at_position x y) null (length bucket) bucket 0
              false w) as (bucket' & bl & removed & Hrun & Hlen & Hcount & Hsame & Hperm);
    [cbn; lia|].
  exists (take bl bucket'), removed.
  unfold removeAllAt, bind, gets. rewrite Hin, Hb. cbn -[store_bucket].
  rewrite removeAllAt_loop_swap, Hrun. cbn -[store_bucket release_all].
  erewrite store_bucket_ok by (by rewrite release_all_grid).
  split_and!.
  - done.
  - rewrite length_take. lia.
  - intros Hok Hnd. cbn in Hperm. rewrite firstn_all in Hperm. by apply Hperm.
Qed.
End Remove.

(** ** The spatial grid: [resize] and [clear] *)

Section Resize.
Context {V : Type} `{JsValue V} {U : Type}.
Import SpatialGrid2D.
Implicit Types (w : World V U) (a : addr) (nb : list (list (list addr))).

Lemma destroy_one_grid w a :
  grid (destroy_one w a) = with_size (_size (grid w) - 1) (grid w).
Proof. unfold destroy_one. by rewrite release_one_grid. Qed.

Lemma destroy_one_user w a :
  user (destroy_one w a) = destructor_calls (grid w) [item w a] (user w).
Proof.
  unfold destroy_one, destructor_calls. rewrite release_one_user. cbn.
  by destruct (destructorCallback (_config (grid w))).
Qed.

Lemma destroy_one_pool w a :
  pool_ok (itemPool w) →
  pool_ok (itemPool (destroy_one w a))
  ∧ available (itemPool (destroy_one w a)) = available (itemPool w) ++ [a]
  ∧ next (heap (destroy_one w a)) = next (heap w)
  ∧ item (destroy_one w a) a
    = mkItem (item_x (item w a)) (item_y (item w a)) undefined
  ∧ ∀ a', a' ≠ a → item (destroy_one w a) a' = item w a'.
Proof. intros Hok. unfold destroy_one. by apply (release_one_pool undefined (with_user _ w)). Qed.

Lemma destroy_all_cons a destroyed w :
  destroy_all (a :: destroyed) w = destroy_all destroyed (destroy_one w a).
Proof. done. Qed.

Lemma destroy_all_grid destroyed w :
  grid (destroy_all destroyed w)
  = with_size (_size (grid w) - Z.of_nat (length destroyed)) (grid w).
Proof.
  revert w. induction destroyed as [|a destroyed IH]; intros w.
  - cbn. rewrite Z.sub_0_r. by destruct (grid w).
  - rewrite destroy_all_cons, IH, destroy_one_grid. unfold with_size. cbn.
    f_equal. lia.
Qed.

Lemma destroy_all_pool destroyed w :
  pool_ok (itemPool w) →
  pool_ok (itemPool (destroy_all destroyed w))
  ∧ available (itemPool (destroy_all destroyed w)) = available (itemPool w) ++ destroyed
  ∧ next (heap (destroy_all destroyed w)) = next (heap w)
  ∧ (∀ a, item_x (item (destroy_all destroyed w) a) = item_x (item w a)
          ∧ item_y (item (destroy_all destroyed w) a) = item_y (item w a))
  ∧ ∀ a, a ∉ destroyed → item (destroy_all destroyed w) a = item w a.
Proof.
  revert w. induction destroyed as [|a0 destroyed IH]; intros w Hok.
  { cbn. by rewrite app_nil_r. }
  rewrite destroy_all_cons.
  destruct (destroy_one_pool w a0 Hok) as (Hok1 & Hav1 & Hnext1 & Hsame & Hother).
  destruct (IH _ Hok1) as (Hok2 & Hav2 & Hnext2 & Hpos & Hitem2).
  split_and!; try done.
  - rewrite Hav2, Hav1, <- app_assoc. done.
  - congruence.
  - intros a. destruct (Hpos a) as [-> ->].
    destruct (decide (a = a0)) as [->|Hne]; [by rewrite Hsame | by rewrite Hother].
  - intros a Hnot. rewrite Hitem2, Hother; try done.
    + intros ->. apply Hnot. by left.
    + intros Hin. apply Hnot. by right.
Qed.

(** Each dropped record is handed to the destructor once, with the value
    and the coordinates it had before the call. *)
Lemma destroy_all_user destroyed w :
  pool_ok (itemPool w) → NoDup destroyed →
  user (destroy_all destroyed w)
  = destructor_calls (grid w) (item w <$> destroyed) (user w).
Proof.
  revert w. induction destroyed as [|a0 destroyed IH]; intros w Hok Hnd.
  { unfold destructor_calls. cbn. by destruct (destructorCallback _). }
  apply NoDup_cons in Hnd as [Hnotin Hnd].
  destruct (destroy_one_pool w a0 Hok) as (Hok1 & _ & _ & _ & Hother).
  rewrite destroy_all_cons, IH, destroy_one_user, destroy_one_grid by done.
  assert (item (destroy_one w a0) <$> destroyed = item w <$> destroyed) as ->.
  { apply list_fmap_ext. intros i a Hi. apply Hother. intros ->.
    apply Hnotin. by eapply list_elem_of_lookup_2. }
  unfold destructor_calls. cbn.
  by destruct (destructorCallback (_config (grid w))).
Qed.

Lemma push_into_inv nb ix iy a nb' :
  push_into nb ix iy a = Some nb' →
  ∃ row bucket,
    (0 ≤ ix)%Z ∧ (0 ≤ iy)%Z
    ∧ nb !! Z.to_nat ix = Some row ∧ row !! Z.to_nat iy = Some bucket
    ∧ nb' = <[Z.to_nat ix := <[Z.to_nat iy := bucket ++ [a]]> row]> nb.
Proof.
  unfold push_into.
  destruct (index nb ix) as [row|] eqn:Hrow; [|done].
  destruct (index row iy) as [bucket|] eqn:Hbucket; [|done].
  intros [= <-]. apply index_inv in Hrow as [? Hrow].
  apply index_inv in Hbucket as [? Hbucket]. by exists row, bucket.
Qed.

Lemma same_shape_insert2 nb bx by_ row b' :
  nb !! bx = Some row → same_shape nb (<[bx := <[by_ := b']> row]> nb).
Proof.
  intros Hrow. unfold same_shape.
  rewrite list_fmap_insert, length_insert.
  symmetry. apply list_insert_id. by rewrite list_lookup_fmap, Hrow.
Qed.

Lemma same_shape_length nb nb' : same_shape nb nb' → length nb' = length nb.
Proof.
  unfold same_shape. intros Heq.
  by rewrite <- (length_fmap length nb'), <- Heq, length_fmap.
Qed.

Lemma same_shape_Forall nb nb' n :
  same_shape nb nb' →
  Forall (λ r : list (list addr), length r = n) nb →
  Forall (λ r : list (list addr), length r = n) nb'.
Proof.
  unfold same_shape. intros Heq Hall.
  apply (proj1 (Forall_fmap length (λ m, m = n) nb')). rewrite <- Heq.
  by apply Forall_fmap.
Qed.

Lemma resize_drop_branch {A} w a (k : M (World V U) A) :
  (call_destructor (item w a);;;
   set_value a undefined;;;
   itemPool_release a;;;
   size_decr;;;
   k) w
  = k (destroy_one w a).
Proof.
  unfold bind, call_destructor, set_value, itemPool_release, size_decr, modify.
  unfold destroy_one, release_one. cbn.
  destruct (destructorCallback (_config (grid w))); cbn;
    by destruct (FastPool._onRelease (itemPool w)).
Qed.

(** The loop of [resize] when it ends normally: the records it dropped, in
    order, and the records it filed into the new buckets. *)
Lemma resize_loop_spec gridWidth gridHeight bucketWidth bucketHeight items nb w nb' w' :
  resize_loop gridWidth gridHeight bucketWidth bucketHeight items nb w = Return nb' w' →
  ∃ destroyed kept,
    w' = destroy_all destroyed w
    ∧ (length destroyed + length kept = length items)%nat
    ∧ same_shape nb nb'
    ∧ concat (concat nb') ≡ₚ concat (concat nb) ++ kept
    ∧ (pool_ok (itemPool w) →
       destroyed = filter (λ a, outside gridWidth gridHeight (item w a) = true) items
       ∧ kept = filter (λ a, outside gridWidth gridHeight (item w a) = false) items
       ∧ ∀ i j r b a, nb' !! i = Some r → r !! j = Some b → a ∈ b →
           (∃ r0 b0, nb !! i = Some r0 ∧ r0 !! j = Some b0 ∧ a ∈ b0)
           ∨ (a ∈ kept
              ∧ divToInt32 (item_x (item w a)) bucketWidth = Z.of_nat i
              ∧ divToInt32 (item_y (item w a)) bucketHeight = Z.of_nat j)).
Proof.
  revert nb w. induction items as [|a items IH]; intros nb w.
  { cbn. intros [= <- <-]. exists [], []. cbn. rewrite app_nil_r.
    split_and!; try done.
    intros _. split_and!; try done. intros i j r b a Hr Hb Ha. left. by exists r, b. }
  cbn [resize_loop]. unfold bind at 1, gets at 1. cbn -[resize_loop bind].
  fold (outside gridWidth gridHeight (item w a)).
  destruct (outside gridWidth gridHeight (item w a)) eqn:Hout.
  - rewrite resize_drop_branch. intros Hrun.
    destruct (IH _ _ Hrun) as (destroyed & kept & -> & Hcount & Hshape & Hperm & Hcontent).
    exists (a :: destroyed), kept. cbn [length].
    split_and!; try done; try lia.
    intros Hok.
    destruct (destroy_one_pool w a Hok) as (Hok1 & _ & _ & Hsame & Hother).
    destruct (Hcontent Hok1) as (Hd & Hk & Hplaced).
    assert (∀ a', outside gridWidth gridHeight (item (destroy_one w a) a')
                  = outside gridWidth gridHeight (item w a')) as Hstable.
    { intros a'. unfold outside.
      destruct (decide (a' = a)) as [->|Hne]; [by rewrite Hsame | by rewrite Hother]. }
    assert (∀ a', item_x (item (destroy_one w a) a') = item_x (item w a')
                  ∧ item_y (item (destroy_one w a) a') = item_y (item w a')) as Hpos.
    { intros a'.
      destruct (decide (a' = a)) as [->|Hne]; [by rewrite Hsame | by rewrite Hother]. }
    rewrite (decide_True (P := true = true)) by done.
    rewrite (decide_False (P := true = false)) by done.
    split_and!.
    + rewrite Hd. f_equal. apply filter_ext_in. intros a' _. by rewrite Hstable.
    + rewrite Hk. apply filter_ext_in. intros a' _. by rewrite Hstable.
    + intros i j r b a' Hr Hb Ha'.
      destruct (Hplaced i j r b a' Hr Hb Ha') as [?|(Hin & Hx & Hy)]; [by left|].
      right. destruct (Hpos a') as [Hx' Hy']. rewrite <- Hx', <- Hy'. done.
  - destruct (push_into nb _ _ a) as [nb1|] eqn:Hpush; [|done].
    intros Hrun.
    apply push_into_inv in Hpush as (row & bucket & Hix & Hiy & Hrow & Hbucket & ->).
    destruct (IH _ _ Hrun) as (destroyed & kept & -> & Hcount & Hshape & Hperm & Hcontent).
    destruct (concat_insert2 _ _ _ _ _ Hrow Hbucket) as (pre & post & Hall & Hall').
    exists destroyed, (a :: kept). cbn [length].
    split_and!; try done; try lia.
    + unfold same_shape in *. rewrite <- Hshape.
      by apply same_shape_insert2.
    + rewrite Hperm, Hall', Hall. perm_front.
    + intros Hok. destruct (Hcontent Hok) as (Hd & Hk & Hplaced).
      rewrite (decide_False (P := false = true)) by done.
      rewrite (decide_True (P := false = false)) by done.
      split_and!; [done | by f_equal |].
      intros i j r b a' Hr Hb Ha'.
      destruct (Hplaced i j r b a' Hr Hb Ha') as [(r0 & b0 & Hr0 & Hb0 & Hin0)|(Hin & Hx & Hy)].
      * destruct (lookup_insert2 _ _ _ _ _ _ _ _ _ Hrow
                    (lookup_lt_Some _ _ _ Hbucket) Hr0 Hb0)
          as [(-> & -> & ->)|(_ & r1 & Hr1 & Hb1)].
        -- apply elem_of_app in Hin0 as [Hin0 | ->%list_elem_of_singleton].
           ++ left. by exists row, bucket.
           ++ right. rewrite !Z2Nat.id by done. split; [by left|done].
        -- left. by exists r1, b0.
      * right. split; [by right|done].
Qed.

Lemma ceilDiv_positive (n d : Q) :
  (0 < d)%Q → ceilDiv n d = Some (Z.to_nat (Qceiling (n / d))).
Proof.
  intros Hd. unfold ceilDiv.
  destruct (Qeq_bool d 0) eqn:Hd0; [|done].
  apply Qeq_bool_eq in Hd0. rewrite Hd0 in Hd. by apply Qlt_irrefl in Hd.
Qed.

(** [resize] when it returns: the new bucket array [nb'] has the shape of a
    fresh one and holds the records that were not dropped. *)
Lemma resize_spec w gridWidth gridHeight bucketWidth bucketHeight w' :
  resize gridWidth gridHeight bucketWidth bucketHeight w = Return tt w' →
  let '(gw, gh, bw, bh) := resized w gridWidth gridHeight bucketWidth bucketHeight in
  ∃ bucketsInX bucketsInY nb' destroyed kept,
    ceilDiv gw bw = Some bucketsInX
    ∧ w' = with_grid (with_dimensions gw gh bw bh nb' (grid (destroy_all destroyed w)))
             (destroy_all destroyed w)
    ∧ (length destroyed + length kept = length (allItems w))%nat
    ∧ same_shape (emptyBuckets bucketsInX bucketsInY) nb'
    ∧ (bucketsInX ≠ 0%nat → ceilDiv gh bh = Some bucketsInY)
    ∧ concat (concat nb') ≡ₚ kept
    ∧ (pool_ok (itemPool w) →
       destroyed = filter (λ a, outside gw gh (item w a) = true) (allItems w)
       ∧ kept = filter (λ a, outside gw gh (item w a) = false) (allItems w)
       ∧ ∀ i j r b a, nb' !! i = Some r → r !! j = Some b → a ∈ b →
           a ∈ kept
           ∧ divToInt32 (item_x (item w a)) bw = Z.of_nat i
           ∧ divToInt32 (item_y (item w a)) bh = Z.of_nat j).
Proof.
  unfold resized, resize, bind, gets. cbn -[resize_loop].
  set (gw := default (_gridWidth (grid w)) gridWidth).
  set (gh := default (_gridHeight (grid w)) gridHeight).
  set (bw := default (_bucketWidth (grid w)) bucketWidth).
  set (bh := default (_bucketHeight (grid w)) bucketHeight).
  destruct (ceilDiv gw bw) as [nx|] eqn:Hnx; [|by destruct (ceilDiv gh bh)].
  assert (∀ ny, (nx ≠ 0%nat → ceilDiv gh bh = Some ny) →
    match resize_loop gw gh bw bh (allItems w) (emptyBuckets nx ny) w with
    | Return a s' =>
        modify (λ w0, with_grid (with_dimensions gw gh bw bh a (grid w0)) w0) s'
    | Throw e s' => Throw e s'
    | NoReturn => NoReturn
    end = Return tt w' →
    ∃ bucketsInX bucketsInY nb' destroyed kept,
      Some nx = Some bucketsInX
      ∧ w' = with_grid (with_dimensions gw gh bw bh nb' (grid (destroy_all destroyed w)))
               (destroy_all destroyed w)
      ∧ (length destroyed + length kept = length (allItems w))%nat
      ∧ same_shape (emptyBuckets bucketsInX bucketsInY) nb'
      ∧ (bucketsInX ≠ 0%nat → ceilDiv gh bh = Some bucketsInY)
      ∧ concat (concat nb') ≡ₚ kept
      ∧ (pool_ok (itemPool w) →
         destroyed = filter (λ a, outside gw gh (item w a) = true) (allItems w)
         ∧ kept = filter (λ a, outside gw gh (item w a) = false) (allItems w)
         ∧ ∀ i j r b a, nb' !! i = Some r → r !! j = Some b → a ∈ b →
             a ∈ kept
             ∧ divToInt32 (item_x (item w a)) bw = Z.of_nat i
             ∧ divToInt32 (item_y (item w a)) bh = Z.of_nat j)) as Hmain.
  { intros ny Hny.
    destruct (resize_loop gw gh bw bh (allItems w) (emptyBuckets nx ny) w)
      as [nb' w1| |] eqn:Hloop; [|done|done].
    unfold modify. intros [= <-].
    destruct (resize_loop_spec _ _ _ _ _ _ _ _ _ Hloop)
      as (destroyed & kept & -> & Hcount & Hshape & Hperm & Hcontent).
    exists nx, ny, nb', destroyed, kept.
    rewrite allItems_emptyBuckets in Hperm. cbn in Hperm.
    split_and!; try done.
    intros Hok. destruct (Hcontent Hok) as (Hd & Hk & Hplaced).
    split_and!; try done.
    intros i j r b a Hr Hb Ha.
    destruct (Hplaced i j r b a Hr Hb Ha) as [(r0 & b0 & Hr0 & Hb0 & Hin0)|?]; [|done].
    rewrite (emptyBuckets_lookup _ _ _ _ _ _ Hr0 Hb0) in Hin0.
    by apply not_elem_of_nil in Hin0. }
  destruct nx as [|nx].
  - destruct (ceilDiv gh bh) as [ny|]; cbn -[resize_loop].
    + apply (Hmain ny). done.
    + apply (Hmain 0%nat). done.
  - destruct (ceilDiv gh bh) as [ny|]; [|done]. cbn -[resize_loop].
    apply (Hmain ny). done.
Qed.

(** With item coordinates that are not negative and bucket dimensions that
    are positive, the loop of [resize] finds a bucket for every record it
    keeps. *)
Lemma resize_loop_total gw gh bw bh items nb w :
  (0 < bw)%Q → (0 < bh)%Q →
  (Qceiling (gw / bw) ≤ 2 ^ 31)%Z → (Qceiling (gh / bh) ≤ 2 ^ 31)%Z →
  pool_ok (itemPool w) →
  (∀ a, a ∈ items → (0 <= item_x (item w a))%Q ∧ (0 <= item_y (item w a))%Q) →
  same_shape (emptyBuckets (Z.to_nat (Qceiling (gw / bw))) (Z.to_nat (Qceiling (gh / bh)))) nb →
  ∃ nb' w', resize_loop gw gh bw bh items nb w = Return nb' w'.
Proof.
  intros Hbw Hbh Hr32 Hc32. revert nb w.
  induction items as [|a items IH]; intros nb w Hok Hpos Hshape.
  { by exists nb, w. }
  cbn [resize_loop]. unfold bind at 1, gets at 1. cbn -[resize_loop bind].
  fold (outside gw gh (item w a)).
  destruct (outside gw gh (item w a)) eqn:Hout.
  - rewrite resize_drop_branch.
    destruct (destroy_one_pool w a Hok) as (Hok1 & _ & _ & Hsame & Hother).
    apply IH; try done.
    intros a' Hin.
    destruct (decide (a' = a)) as [->|Hne].
    + rewrite Hsame. cbn. apply Hpos. by left.
    + rewrite Hother by done. apply Hpos. by right.
  - apply orb_false_iff in Hout as [Hx Hy].
    apply Qle_bool_gt in Hx, Hy.
    destruct (Hpos a) as [Hx0 Hy0]; [by left|].
    pose proof (divToInt32_range _ _ _ Hbw Hx0 Hx Hr32) as Hix.
    pose proof (divToInt32_range _ _ _ Hbh Hy0 Hy Hc32) as Hiy.
    pose proof (same_shape_length _ _ Hshape) as Hlen.
    unfold emptyBuckets in Hlen. rewrite length_replicate in Hlen.
    destruct (lookup_lt_is_Some_2 nb (Z.to_nat (divToInt32 (item_x (item w a)) bw)))
      as [row Hrow]; [lia|].
    assert (length row = Z.to_nat (Qceiling (gh / bh))) as Hrowlen.
    { eapply (Forall_lookup_1 _ _ _ _ (same_shape_Forall _ _ _ Hshape _) Hrow).
      Unshelve. unfold emptyBuckets. apply Forall_replicate.
      by rewrite length_replicate. }
    destruct (lookup_lt_is_Some_2 row (Z.to_nat (divToInt32 (item_y (item w a)) bh)))
      as [bucket Hbucket]; [lia|].
    unfold push_into, index.
    destruct (Z.ltb_spec (divToInt32 (item_x (item w a)) bw) 0); [lia|].
    destruct (Z.ltb_spec (divToInt32 (item_y (item w a)) bh) 0); [lia|].
    rewrite Hrow, Hbucket. apply IH; try done.
    + intros a' Hin. apply Hpos. by right.
    + unfold same_shape in *. rewrite Hshape. by apply same_shape_insert2.
Qed.

End Resize.

Section Clear.
Context {V : Type} `{JsValue V} {U : Type}.
Import SpatialGrid2D.
Implicit Types (w : World V U) (a : addr).

Lemma release_branch {A} c w a (k : M (World V U) A) :
  (set_value a c;;; itemPool_release a;;; size_decr;;; k) w
  = k (release_one c w a).
Proof.
  unfold bind, set_value, itemPool_release, size_decr, modify.
  unfold release_one. cbn.
  by destruct (FastPool._onRelease (itemPool w)).
Qed.

Lemma clear_bucket_spec bucket w :
  clear_bucket bucket w = Return tt (release_all undefined bucket w).
Proof.
  revert w. induction bucket as [|a bucket IH]; intros w; [done|].
  cbn [clear_bucket]. by rewrite release_branch, IH.
Qed.

Lemma clear_row_spec (row : list (list addr)) w :
  clear_row row w
  = Return ((λ _, []) <$> row) (release_all undefined (concat row) w).
Proof.
  revert w. induction row as [|bucket row IH]; intros w; [done|].
  cbn [clear_row]. unfold bind. rewrite clear_bucket_spec, IH.
  cbn [concat fmap list_fmap]. by rewrite release_all_app.
Qed.

Lemma clear_rows_spec (rows : list (list (list addr))) w :
  clear_rows rows w
  = Return (emptied rows) (release_all undefined (concat (concat rows)) w).
Proof.
  revert w. induction rows as [|row rows IH]; intros w; [done|].
  cbn [clear_rows]. unfold bind. rewrite clear_row_spec, IH.
  cbn [concat]. by rewrite concat_app, release_all_app.
Qed.

Lemma clear_spec w :
  clear w
  = Return tt
      (with_grid
         (with_buckets (emptied (_buckets (grid w)))
            (grid (release_all undefined (allItems w) w)))
         (release_all undefined (allItems w) w)).
Proof.
  unfold clear, bind, gets. by rewrite clear_rows_spec.
Qed.

Lemma concat_emptied (b : list (list (list addr))) :
  concat (concat (emptied b)) = [].
Proof.
  unfold emptied. induction b as [|row b IH]; [done|].
  cbn. rewrite concat_app, IH, app_nil_r.
  clear. induction row as [|bucket row IH]; [done|]. done.
Qed.

Lemma emptied_lookup (b : list (list (list addr))) i j row bucket :
  emptied b !! i = Some row → row !! j = Some bucket → bucket = [].
Proof.
  unfold emptied. rewrite list_lookup_fmap.
  destruct (b !! i) as [row0|]; [|done]. cbn. intros [= <-].
  rewrite list_lookup_fmap. destruct (row0 !! j); [|done]. cbn. by intros [= <-].
Qed.

Lemma same_shape_emptied (b : list (list (list addr))) : same_shape b (emptied b).
Proof.
  unfold same_shape, emptied. rewrite <- list_fmap_compose.
  apply list_fmap_ext. intros i row _. cbn. by rewrite length_fmap.
Qed.
End Clear.

(** ** The invariant: removal, [resize] and [clear] *)

Section WfRemove.
Context {V : Type} `{JsValue V} {U : Type}.
Import SpatialGrid2D.
Implicit Types (w : World V U) (a : addr).

Lemma wf_bucket_NoDup w bx by_ row bucket :
  wf w → _buckets (grid w) !! bx = Some row → row !! by_ = Some bucket →
  NoDup bucket.
Proof.
  intros Hwf Hrow Hbucket.
  destruct (concat_insert2 _ _ _ _ _ Hrow Hbucket) as (pre & post & Hall & _).
  pose proof (wf_nodup w Hwf) as Hnd. unfold allItems in Hnd. rewrite Hall in Hnd.
  apply NoDup_app in Hnd as (Hnd & _). apply NoDup_app in Hnd as (_ & _ & Hnd).
  by apply NoDup_app in Hnd as (Hnd & _).
Qed.

(** Releasing part of a bucket and keeping the rest preserves the
    invariant. *)
Lemma wf_put_release w c bx by_ row bucket kept removed :
  wf w → _buckets (grid w) !! bx = Some row → row !! by_ = Some bucket →
  kept ++ removed ≡ₚ bucket →
  wf (put_bucket bx by_ row kept (release_all c removed w)).
Proof.
  intros [Hpool Hshape Hnd Halloc Hplaced Hsize] Hrow Hbucket Hperm.
  destruct (release_all_pool c removed w Hpool) as (Hpool' & Hav & Hnext & Hitem).
  destruct (concat_insert2 _ _ _ _ _ Hrow Hbucket) as (pre & post & Hall & Hall').
  set (w1 := release_all c removed w) in *.
  assert (grid w1 = with_size (_size (grid w) - Z.of_nat (length removed)) (grid w))
    as Hgrid by apply release_all_grid.
  assert (allItems (put_bucket bx by_ row kept w1) = pre ++ kept ++ post) as Hitems.
  { unfold allItems, put_bucket. cbn. rewrite Hgrid. cbn. apply Hall'. }
  unfold allItems in Hnd, Halloc, Hsize. rewrite Hall in Hnd, Halloc, Hsize.
  assert ((pre ++ kept ++ post) ++ available (itemPool w) ++ removed
          ≡ₚ (pre ++ bucket ++ post) ++ available (itemPool w)) as Hsame.
  { rewrite <- Hperm. rewrite <- !app_assoc.
    apply Permutation_app_head, Permutation_app_head.
    rewrite (app_assoc post). apply Permutation_app_comm. }
  assert (∀ a, a ∈ pre ++ kept ++ post → a ∉ removed) as Hdisj.
  { rewrite <- Hsame in Hnd. apply NoDup_app in Hnd as (_ & Hd & _).
    intros a Hin Hrem. apply (Hd a Hin). apply elem_of_app. by right. }
  split.
  - done.
  - destruct Hshape as [Hbw Hbh Hrows Hcols Hr32 Hc32].
    unfold put_bucket. cbn. rewrite Hgrid. split; cbn; try done.
    + by rewrite length_insert.
    + by apply Forall_length_insert2.
  - rewrite Hitems. cbn. rewrite Hav, Hsame. done.
  - intros a. rewrite Hitems. cbn. rewrite Hav, Hnext, Hsame. apply Halloc.
  - intros i j r b a Hr Hb Ha.
    unfold put_bucket in Hr. cbn in Hr. rewrite Hgrid in Hr. cbn in Hr.
    assert (a ∈ pre ++ kept ++ post) as Hin.
    { rewrite <- Hall'. apply elem_of_concat2. by exists i, j, r, b. }
    assert (∃ r0 b0, _buckets (grid w) !! i = Some r0 ∧ r0 !! j = Some b0 ∧ a ∈ b0)
      as (r0 & b0 & Hr0 & Hb0 & Hin0).
    { destruct (lookup_insert2 _ _ _ _ _ _ _ _ _ Hrow
                  (lookup_lt_Some _ _ _ Hbucket) Hr Hb)
        as [(-> & -> & ->)|(_ & r0 & Hr0 & Hb0)].
      - exists row, bucket. split_and!; try done.
        rewrite <- Hperm. apply elem_of_app. by left.
      - by exists r0, b. }
    unfold gridWidth, gridHeight, bucketWidth, bucketHeight, put_bucket, item. cbn.
    rewrite Hgrid. cbn. fold (item w1 a). rewrite Hitem by (by apply Hdisj).
    by eapply Hplaced.
  - unfold size. rewrite Hitems. unfold put_bucket. cbn. rewrite Hgrid. cbn.
    unfold size in Hsize. rewrite Hsize.
    rewrite !length_app, <- Hperm, !length_app. lia.
Qed.

Lemma removeAt_return_inv w x y v w' :
  removeAt x y v w = Return tt w' → outOfBounds (grid w) x y = false.
Proof.
  destruct (outOfBounds (grid w) x y) eqn:Hout; [|done].
  by rewrite removeAt_out_of_bounds.
Qed.

Lemma removeAllAt_return_inv w x y w' :
  removeAllAt x y w = Return tt w' → outOfBounds (grid w) x y = false.
Proof.
  destruct (outOfBounds (grid w) x y) eqn:Hout; [|done].
  by rewrite removeAllAt_out_of_bounds.
Qed.

(** [removeAt] keeps the invariant. *)
Lemma wf_removeAt w x y v w' :
  wf w → removeAt x y v w = Return tt w' → wf w'.
Proof.
  intros Hwf Hrun. pose proof (removeAt_return_inv _ _ _ _ _ Hrun) as Hin.
  destruct (bucketOf_ok w x y (wf_shape w Hwf) Hin)
    as (bx & by_ & row & bucket & Hb & Hrow & Hbucket & _).
  destruct (removeAt_spec w x y v bx by_ row bucket Hin Hb Hrow)
    as (kept & removed & Hrun' & _ & _ & Hperm).
  destruct (Hperm (wf_pool w Hwf) (wf_bucket_NoDup _ _ _ _ _ Hwf Hrow Hbucket))
    as [Hkept Hremoved].
  rewrite Hrun in Hrun'. destruct (bool_decide (removed = [])); [done|].
  injection Hrun' as ->.
  eapply wf_put_release; try done.
  rewrite Hkept, Hremoved. apply filter_complement_bool.
Qed.

(** [removeAllAt] keeps the invariant. *)
Lemma wf_removeAllAt w x y w' :
  wf w → removeAllAt x y w = Return tt w' → wf w'.
Proof.
  intros Hwf Hrun. pose proof (removeAllAt_return_inv _ _ _ _ Hrun) as Hin.
  destruct (bucketOf_ok w x y (wf_shape w Hwf) Hin)
    as (bx & by_ & row & bucket & Hb & Hrow & Hbucket & _).
  destruct (removeAllAt_spec w x y bx by_ row bucket Hin Hb Hrow)
    as (kept & removed & Hrun' & _ & Hperm).
  destruct (Hperm (wf_pool w Hwf) (wf_bucket_NoDup _ _ _ _ _ Hwf Hrow Hbucket))
    as [Hkept Hremoved].
  rewrite Hrun in Hrun'. injection Hrun' as ->.
  eapply wf_put_release; try done.
  rewrite Hkept, Hremoved. apply filter_complement_bool.
Qed.

(** [move] keeps the invariant. *)
Lemma wf_move w fromX fromY toX toY v w' :
  wf w → move fromX fromY toX toY v w = Return tt w' → wf w'.
Proof.
  intros Hwf. unfold move, bind.
  destruct (removeAt fromX fromY v w) as [[] w1| |] eqn:Hrem; [|done|done].
  intros Hins. eapply wf_insertAt; [|done]. by eapply wf_removeAt.
Qed.

(** [clear] keeps the invariant. *)
Lemma wf_clear w w' : wf w → clear w = Return tt w' → wf w'.
Proof.
  intros [Hpool Hshape Hnd Halloc Hplaced Hsize]. rewrite clear_spec.
  intros [= <-].
  destruct (release_all_pool undefined (allItems w) w Hpool)
    as (Hpool' & Hav & Hnext & Hitem).
  set (w1 := release_all undefined (allItems w) w) in *.
  assert (grid w1 = with_size (_size (grid w) - Z.of_nat (length (allItems w))) (grid w))
    as Hgrid by apply release_all_grid.
  set (w' := with_grid (with_buckets (emptied (_buckets (grid w))) (grid w1)) w1).
  assert (allItems w' = []) as Hitems.
  { unfold allItems, w'. cbn. apply concat_emptied. }
  assert (grid w' = with_size (_size (grid w) - Z.of_nat (length (allItems w)))
                      (with_buckets (emptied (_buckets (grid w))) (grid w))) as Hgrid'.
  { unfold w'. cbn. by rewrite Hgrid. }
  split; rewrite ?Hitems.
  - done.
  - destruct Hshape as [Hbw Hbh Hrows Hcols Hr32 Hc32]. rewrite Hgrid'.
    split; cbn; try done.
    + by rewrite (same_shape_length _ _ (same_shape_emptied _)).
    + by eapply same_shape_Forall; [apply same_shape_emptied|].
  - cbn. rewrite Hav. by rewrite Permutation_app_comm.
  - intros a. cbn. rewrite Hav, Hnext.
    rewrite elem_of_app. intros Hin. apply Halloc. rewrite elem_of_app. tauto.
  - intros i j r b a Hr Hb Ha. rewrite Hgrid' in Hr. cbn in Hr.
    rewrite (emptied_lookup _ _ _ _ _ Hr Hb) in Ha. by apply not_elem_of_nil in Ha.
  - unfold size. rewrite Hgrid'. cbn. unfold size in Hsize. lia.
Qed.
End WfRemove.

Section WfResize.
Context {V : Type} `{JsValue V} {U : Type}.
Import SpatialGrid2D.
Implicit Types (w : World V U) (a : addr).

Lemma wf_inside w a :
  wf w → a ∈ allItems w → inside (gridWidth w) (gridHeight w) (item w a).
Proof.
  intros Hwf (i & j & r & b & Hr & Hb & Ha)%elem_of_concat2.
  by eapply (wf_placed w Hwf).
Qed.

Lemma wf_allItems_NoDup w : wf w → NoDup (allItems w).
Proof. intros Hwf. by destruct (proj1 (NoDup_app _ _) (wf_nodup w Hwf)). Qed.

(** [resize] returns when the new bucket dimensions are positive and the
    new bucket array stays within reach of [| 0]. *)
Lemma resize_total w gridWidth gridHeight bucketWidth bucketHeight :
  wf w →
  let '(gw, gh, bw, bh) := resized w gridWidth gridHeight bucketWidth bucketHeight in
  (0 < bw)%Q → (0 < bh)%Q →
  (Qceiling (gw / bw) ≤ 2 ^ 31)%Z → (Qceiling (gh / bh) ≤ 2 ^ 31)%Z →
  ∃ w', resize gridWidth gridHeight bucketWidth bucketHeight w = Return tt w'.
Proof.
  intros Hwf. unfold resized, resize, bind, gets. cbn -[resize_loop].
  set (gw := default (_gridWidth (grid w)) gridWidth).
  set (gh := default (_gridHeight (grid w)) gridHeight).
  set (bw := default (_bucketWidth (grid w)) bucketWidth).
  set (bh := default (_bucketHeight (grid w)) bucketHeight).
  intros Hbw Hbh Hr32 Hc32.
  rewrite (ceilDiv_positive gw bw Hbw), (ceilDiv_positive gh bh Hbh).
  destruct (resize_loop_total gw gh bw bh (allItems w)
              (emptyBuckets (Z.to_nat (Qceiling (gw / bw))) (Z.to_nat (Qceiling (gh / bh))))
              w Hbw Hbh Hr32 Hc32 (wf_pool w Hwf)) as (nb' & w1 & Hloop).
  { intros a Hin. destruct (wf_inside w a Hwf Hin) as (? & _ & ? & _). done. }
  { done. }
  destruct (Z.to_nat (Qceiling (gw / bw))); cbn -[resize_loop emptyBuckets];
    rewrite Hloop; by eexists.
Qed.

(** [resize] to positive bucket dimensions keeps the invariant, the
    quotients being the exact ones. *)
Lemma wf_resize w gridWidth gridHeight bucketWidth bucketHeight w' :
  wf w →
  resize gridWidth gridHeight bucketWidth bucketHeight w = Return tt w' →
  let '(gw, gh, bw, bh) := resized w gridWidth gridHeight bucketWidth bucketHeight in
  (0 < bw)%Q → (0 < bh)%Q →
  (Qceiling (gw / bw) ≤ 2 ^ 31)%Z → (Qceiling (gh / bh) ≤ 2 ^ 31)%Z →
  wf w'.
Proof.
  intros Hwf Hrun. pose proof (resize_spec _ _ _ _ _ _ Hrun) as Hspec.
  unfold resized in *.
  set (gw := default (_gridWidth (grid w)) gridWidth) in *.
  set (gh := default (_gridHeight (grid w)) gridHeight) in *.
  set (bw := default (_bucketWidth (grid w)) bucketWidth) in *.
  set (bh := default (_bucketHeight (grid w)) bucketHeight) in *.
  intros Hbw Hbh Hr32 Hc32.
  destruct Hspec as (nx & ny & nb' & destroyed & kept & Hnx & -> & Hcount & Hshape
                     & Hny & Hperm & Hcontent).
  rewrite (ceilDiv_positive gw bw Hbw) in Hnx. injection Hnx as <-.
  rewrite (ceilDiv_positive gh bh Hbh) in Hny.
  destruct (Hcontent (wf_pool w Hwf)) as (Hd & Hk & Hplaced).
  destruct (destroy_all_pool destroyed w (wf_pool w Hwf))
    as (Hpool' & Hav & Hnext & Hpos & Hitem).
  pose proof (wf_allItems_NoDup w Hwf) as Hnd.
  assert (kept ++ destroyed ≡ₚ allItems w) as Hsplit.
  { rewrite Hk, Hd. apply filter_complement_bool. }
  assert (∀ a, a ∈ kept → a ∉ destroyed) as Hdisj.
  { rewrite <- Hsplit in Hnd. by apply NoDup_app in Hnd as (_ & ? & _). }
  set (w1 := destroy_all destroyed w) in *.
  set (w' := with_grid (with_dimensions gw gh bw bh nb' (grid w1)) w1).
  assert (allItems w' = concat (concat nb')) as Hitems by done.
  split; rewrite ?Hitems.
  - done.
  - split; cbn; try done.
    + rewrite (same_shape_length _ _ Hshape). unfold emptyBuckets.
      by rewrite length_replicate.
    + destruct (decide (Z.to_nat (Qceiling (gw / bw)) = 0%nat)) as [Hz|Hnz].
      * pose proof (same_shape_length _ _ Hshape) as Hlen.
        unfold emptyBuckets in Hlen. rewrite length_replicate, Hz in Hlen.
        destruct nb'; [constructor | done].
      * specialize (Hny Hnz). injection Hny as <-.
        eapply same_shape_Forall; [exact Hshape|].
        unfold emptyBuckets. apply Forall_replicate. by rewrite length_replicate.
  - cbn. rewrite Hav, Hperm.
    rewrite (Permutation_app_comm (available _)), app_assoc, Hsplit.
    apply (wf_nodup w Hwf).
  - intros a. cbn. rewrite Hav, Hnext, Hperm.
    rewrite (Permutation_app_comm (available _)), app_assoc, Hsplit.
    apply (wf_alloc w Hwf).
  - intros i j r b a Hr Hb Ha.
    destruct (Hplaced i j r b a Hr Hb Ha) as (Hin & Hx & Hy).
    unfold SpatialGrid2D.gridWidth, SpatialGrid2D.gridHeight,
      SpatialGrid2D.bucketWidth, SpatialGrid2D.bucketHeight, item. cbn.
    fold (item w1 a). rewrite Hitem by (by apply Hdisj).
    split; [|done].
    assert (a ∈ allItems w) as Hold.
    { rewrite <- Hsplit. apply elem_of_app. by left. }
    destruct (wf_inside w a Hwf Hold) as (Hx0 & _ & Hy0 & _).
    rewrite Hk in Hin. apply list_elem_of_filter in Hin as [Hout _].
    apply orb_false_iff in Hout as [Hx1 Hy1]. apply Qle_bool_gt in Hx1, Hy1.
    done.
  - unfold size. cbn. unfold w1. rewrite destroy_all_grid. cbn.
    rewrite Hperm. pose proof (wf_size w Hwf) as Hsize. unfold size in Hsize.
    rewrite Hsize, <- Hsplit, length_app. lia.
Qed.
End WfResize.

(** ** [insertAt] followed by [get] *)

Section InsertGet.
Context {V : Type} `{JsValue V} {U : Type}.
Import SpatialGrid2D.
Implicit Types (w : World V U) (a : addr).

Lemma at_position_refl x y (v : V) : at_position x y (mkItem x y v) = true.
Proof. unfold at_position. cbn. by rewrite !Qeq_bool_refl. Qed.

Lemma bucketOf_put w x y bx by_ row bucket n :
  _buckets (grid w) !! bx = Some row → (by_ < length row)%nat →
  divToInt32 x (bucketWidth w) = Z.of_nat bx →
  divToInt32 y (bucketHeight w) = Z.of_nat by_ →
  let w' := with_grid (with_size n
              (with_buckets (<[bx := <[by_ := bucket]> row]> (_buckets (grid w))) (grid w))) w in
  ∀ w'', grid w'' = grid w' →
  bucketOf x y w'' = Return (Z.of_nat bx, Z.of_nat by_, bucket) w''.
Proof.
  intros Hrow Hby Hbx Hby' w' w'' Hgrid. unfold bucketOf.
  unfold bucketWidth, bucketHeight in *. rewrite Hgrid. cbn. rewrite Hbx, Hby'.
  destruct (lookup_insert2_eq (_buckets (grid w)) bx by_ row bucket Hrow Hby)
    as (row' & Hrow' & Hbucket').
  by rewrite (index_Some _ _ _ Hrow'), (index_Some _ _ _ Hbucket').
Qed.

(** After [insertAt(x, y, v)], [get(x, y)] reports [v]. *)
Lemma insertAt_get w x y v :
  pool_ok (itemPool w) → shape_ok (grid w) → outOfBounds (grid w) x y = false →
  ∃ w', insertAt x y v w = Return tt w'
        ∧ ∀ out, ∃ result, get x y out w' = Return result w' ∧ v ∈ result.
Proof.
  intros Hpool Hshape Hin.
  destruct (insertAt_ok w x y v Hpool Hshape Hin)
    as (a & k & bx & by_ & row & bucket & w' & Hrun & _ & _ & _
        & Ha & _ & Hrow & Hbucket & Hbx & Hby & Hgrid & _).
  exists w'. split; [done|]. intros out.
  assert (bucketOf x y w' = Return (Z.of_nat bx, Z.of_nat by_, bucket ++ [a]) w') as Hb.
  { eapply (bucketOf_put w); try done; [by eapply lookup_lt_Some|]. by rewrite Hgrid. }
  assert (outOfBounds (grid w') x y = false) as Hin'.
  { by rewrite Hgrid. }
  eexists. split; [by eapply get_ok|].
  apply elem_of_app. right. apply elem_of_values_at.
  exists a. rewrite Ha. split_and!; [|apply at_position_refl|done].
  apply elem_of_app. right. by left.
Qed.
End InsertGet.

(** ** [removeAt]: what is removed and what is left *)

Section RemoveAtFacts.
Context {V : Type} `{JsValue V} {U : Type}.
Import SpatialGrid2D.
Implicit Types (w : World V U) (a : addr).

Lemma is_element_at_position x y v (it : Item V) :
  is_element x y v it = true ↔ at_position x y it = true ∧ item_value it = v.
Proof.
  unfold is_element, at_position.
  rewrite !andb_true_iff, bool_decide_eq_true. tauto.
Qed.

Lemma put_bucket_item w bx by_ row bucket a :
  item (put_bucket bx by_ row bucket w) a = item w a.
Proof. done. Qed.

(** The detailed effect of [removeAt] on a grid that satisfies the
    invariant. *)
Lemma removeAt_wf_spec w x y v :
  wf w → outOfBounds (grid w) x y = false →
  ∃ bx by_ row bucket kept removed,
    bucketOf x y w = Return (Z.of_nat bx, Z.of_nat by_, bucket) w
    ∧ _buckets (grid w) !! bx = Some row
    ∧ row !! by_ = Some bucket
    ∧ kept ≡ₚ filter (λ a, is_element x y v (item w a) = false) bucket
    ∧ removed ≡ₚ filter (λ a, is_element x y v (item w a) = true) bucket
    ∧ removeAt x y v w
      = (if bool_decide (removed = []) then Throw NotFoundError else Return tt)
          (put_bucket bx by_ row kept (release_all undefined removed w))
    ∧ (removed = [] → put_bucket bx by_ row kept (release_all undefined removed w) = w)
    ∧ bucketOf x y (put_bucket bx by_ row kept (release_all undefined removed w))
      = Return (Z.of_nat bx, Z.of_nat by_, kept)
          (put_bucket bx by_ row kept (release_all undefined removed w))
    ∧ (∀ a, a ∈ kept →
         item (put_bucket bx by_ row kept (release_all undefined removed w)) a
         = item w a).
Proof.
  intros Hwf Hin.
  destruct (bucketOf_ok w x y (wf_shape w Hwf) Hin)
    as (bx & by_ & row & bucket & Hb & Hrow & Hbucket & Hbx & Hby).
  destruct (removeAt_spec w x y v bx by_ row bucket Hin Hb Hrow)
    as (kept & removed & Hrun & _ & Hsame & Hperm).
  pose proof (wf_bucket_NoDup _ _ _ _ _ Hwf Hrow Hbucket) as Hnd.
  destruct (Hperm (wf_pool w Hwf) Hnd) as [Hkept Hremoved].
  exists bx, by_, row, bucket, kept, removed.
  destruct (release_all_pool undefined removed w (wf_pool w Hwf))
    as (_ & _ & _ & Hitem).
  split_and!; try done.
  - intros ->. rewrite (Hsame eq_refl). by apply put_bucket_same.
  - eapply (bucketOf_put w _ _ _ _ _ _ (_size (grid w) - Z.of_nat (length removed)));
      try done; [by eapply lookup_lt_Some|].
    unfold put_bucket. cbn. by rewrite release_all_grid.
  - intros a Ha. rewrite put_bucket_item. apply Hitem.
    intros Hrem. rewrite Hkept in Ha. rewrite Hremoved in Hrem.
    apply list_elem_of_filter in Ha as [Ha _].
    apply list_elem_of_filter in Hrem as [Hrem _]. congruence.
Qed.
End RemoveAtFacts.

(** ** Which errors a method throws, and in which state *)

Section Throws.
Context {V : Type} `{JsValue V} {U : Type}.
Import SpatialGrid2D.
Implicit Types (w : World V U) (a : addr).

Lemma get_throw w x y out e w' :
  get x y out w = Throw e w' →
  w' = w ∧ (e = BoundsError ∧ outOfBounds (grid w) x y = true ∨ e = TypeError).
Proof.
  unfold get, bind, gets, throw, ret.
  destruct (outOfBounds (grid w) x y); [intros [= <- <-]; auto|].
  destruct (bucketOf x y w) as [[[bx by_] bucket] w1|e1 w1|] eqn:Hb; cbn; try done.
  intros [= <- <-]. apply bucketOf_throw in Hb as [-> ->]. auto.
Qed.

Lemma insertAt_throw w x y v e w' :
  insertAt x y v w = Throw e w' →
  e = BoundsError ∧ outOfBounds (grid w) x y = true ∧ w' = w ∨ e = TypeError.
Proof.
  unfold insertAt, bind, gets, throw, itemPool_getOne.
  destruct (outOfBounds (grid w) x y); [intros [= <- <-]; auto|].
  destruct (FastPool.getOne (itemPool w) (heap w)) as [[[a|] p] h]; cbn;
    [|intros [= <- <-]; auto].
  match goal with |- context [bucketOf x y ?w1] =>
    destruct (bucketOf x y w1) as [[[bx by_] bucket] w2|e1 w2|] eqn:Hb end;
    cbn; try done.
  intros [= <- <-]. apply bucketOf_throw in Hb as [-> _]. auto.
Qed.

Lemma removeAt_throw w x y v e w' :
  removeAt x y v w = Throw e w' →
  e = BoundsError ∧ outOfBounds (grid w) x y = true ∧ w' = w
  ∨ e = NotFoundError ∧ outOfBounds (grid w) x y = false ∧ w' = w
  ∨ e = TypeError.
Proof.
  destruct (outOfBounds (grid w) x y) eqn:Hin.
  { rewrite removeAt_out_of_bounds by done. intros [= <- <-]. auto. }
  destruct (bucketOf x y w) as [[[bx by_] bucket] w1|e1 w1|] eqn:Hb.
  - apply bucketOf_inv in Hb as Hinv.
    destruct Hinv as (-> & _ & _ & Hbx & Hby & row & Hrow & Hbucket).
    rewrite <- (Z2Nat.id bx), <- (Z2Nat.id by_) in Hb by done.
    destruct (removeAt_spec w x y v _ _ row bucket Hin Hb Hrow)
      as (kept & removed & -> & _ & Hsame & _).
    destruct (bool_decide (removed = [])) eqn:Hnil; [|done].
    apply bool_decide_eq_true in Hnil. intros [= <- <-].
    right. left. split_and!; try done. subst removed. rewrite (Hsame eq_refl).
    by apply put_bucket_same.
  - unfold removeAt, bind, gets. rewrite Hin, Hb. intros [= <- <-].
    apply bucketOf_throw in Hb as [-> ->]. auto.
  - by apply bucketOf_NoReturn in Hb.
Qed.

Lemma removeAllAt_throw w x y e w' :
  removeAllAt x y w = Throw e w' →
  e = BoundsError ∧ outOfBounds (grid w) x y = true ∧ w' = w ∨ e = TypeError.
Proof.
  destruct (outOfBounds (grid w) x y) eqn:Hin.
  { rewrite removeAllAt_out_of_bounds by done. intros [= <- <-]. auto. }
  destruct (bucketOf x y w) as [[[bx by_] bucket] w1|e1 w1|] eqn:Hb.
  - apply bucketOf_inv in Hb as Hinv.
    destruct Hinv as (-> & _ & _ & Hbx & Hby & row & Hrow & Hbucket).
    rewrite <- (Z2Nat.id bx), <- (Z2Nat.id by_) in Hb by done.
    by destruct (removeAllAt_spec w x y _ _ row bucket Hin Hb Hrow)
      as (kept & removed & -> & _).
  - unfold removeAllAt, bind, gets. rewrite Hin, Hb. intros [= <- <-].
    apply bucketOf_throw in Hb as [-> ->]. auto.
  - by apply bucketOf_NoReturn in Hb.
Qed.

Lemma get_return w x y out r w' : get x y out w = Return r w' → w' = w.
Proof.
  unfold get, bind, gets, throw, ret.
  destruct (outOfBounds (grid w) x y); [done|].
  destruct (bucketOf x y w) as [[[bx by_] bucket] w1|e1 w1|] eqn:Hb; cbn; try done.
  intros [= _ <-]. by apply bucketOf_inv in Hb as [-> _].
Qed.

Lemma get_result w x y out r :
  result (get x y out) w = inl (Some r) → get x y out w = Return r w.
Proof.
  intros Hres. apply result_Return in Hres as Hrun.
  pose proof (get_return _ _ _ _ _ _ Hrun) as Hsame.
  by rewrite Hsame in Hrun.
Qed.

Lemma resize_loop_throw gw gh bw bh items nb w e w' :
  resize_loop gw gh bw bh items nb w = Throw e w' → e = TypeError.
Proof.
  revert nb w. induction items as [|a items IH]; intros nb w; [done|].
  cbn [resize_loop]. unfold bind at 1, gets at 1. cbn -[resize_loop bind].
  destruct (_ || _).
  - rewrite resize_drop_branch. apply IH.
  - destruct (push_into _ _ _ _); [apply IH|]. by intros [= <- <-].
Qed.

Lemma resize_throw w gw gh bw bh e w' :
  resize gw gh bw bh w = Throw e w' → e = TypeError.
Proof.
  unfold resize, bind, gets. cbn -[resize_loop].
  destruct (ceilDiv _ _) as [[|nx]|]; [| |done];
    (destruct (ceilDiv _ _) as [ny|]; cbn -[resize_loop]; try done);
    (destruct (resize_loop _ _ _ _ _ _ w) as [nb' w1|e1 w1|] eqn:Hloop; try done);
    intros [= <- <-]; by eapply resize_loop_throw.
Qed.
End Throws.

(** ** [move] *)

Section MoveFacts.
Context {V : Type} `{JsValue V} {U : Type}.
Import SpatialGrid2D.
Implicit Types (w : World V U) (a : addr).

Lemma values_at_ext w w' x y (bucket : list addr) :
  (∀ a, a ∈ bucket → item w' a = item w a) →
  values_at w' x y bucket = values_at w x y bucket.
Proof.
  intros Hsame. unfold values_at.
  rewrite (filter_ext_in _ (λ a, at_position x y (item w a) = true)).
  - apply list_fmap_ext. intros i a Hi. rewrite Hsame; [done|].
    eapply list_elem_of_lookup_2 in Hi.
    by apply list_elem_of_filter in Hi as [_ ?].
  - intros a Ha. by rewrite Hsame.
Qed.

Lemma values_at_app w x y (l1 l2 : list addr) :
  values_at w x y (l1 ++ l2) = values_at w x y l1 ++ values_at w x y l2.
Proof. unfold values_at. by rewrite filter_app, fmap_app. Qed.

Lemma values_at_Permutation w x y (l1 l2 : list addr) :
  l1 ≡ₚ l2 → values_at w x y l1 ≡ₚ values_at w x y l2.
Proof. intros Hperm. unfold values_at. by rewrite Hperm. Qed.

(** The values left at [(x, y)] once the records holding [v] there are
    gone, and the number of those records. *)
Lemma values_at_others w x y v (bucket : list addr) :
  values_at w x y (filter (λ a, is_element x y v (item w a) = false) bucket)
  = filter (λ v', v' ≠ v) (values_at w x y bucket)
  ∧ length (filter (λ a, is_element x y v (item w a) = true) bucket)
    = length (filter (λ v', v' = v) (values_at w x y bucket)).
Proof.
  unfold values_at. induction bucket as [|a bucket [IH1 IH2]]; [done|].
  assert (is_element x y v (item w a)
          = at_position x y (item w a) && bool_decide (item_value (item w a) = v))
    as Hel by done.
  rewrite !(filter_cons _ a). rewrite Hel.
  destruct (at_position x y (item w a)) eqn:Hat; cbn [andb].
  - rewrite !(decide_True (P := true = true)) by done.
    rewrite fmap_cons, !(filter_cons _ (item_value (item w a))).
    destruct (decide (item_value (item w a) = v)) as [Hv|Hv].
    + rewrite bool_decide_eq_true_2 by done.
      rewrite !(decide_False (P := true = false)), !(decide_True (P := true = true)),
        !(decide_False (P := item_value (item w a) ≠ v)) by auto.
      cbn [length]. by rewrite IH1, IH2.
    + rewrite bool_decide_eq_false_2 by done.
      rewrite !(decide_True (P := false = false)), !(decide_False (P := false = true)),
        !(decide_True (P := item_value (item w a) ≠ v)) by auto.
      rewrite filter_cons, Hat, !(decide_True (P := true = true)), fmap_cons by done.
      by rewrite IH1, IH2.
  - rewrite !(decide_False (P := false = true)), !(decide_True (P := false = false)) by done.
    rewrite filter_cons, Hat, !(decide_False (P := false = true)) by done.
    by rewrite IH1, IH2.
Qed.

(** [insertAt] on a grid that satisfies the invariant: the record it files
    is new to the grid, and the records of the grid are left alone. *)
Lemma insertAt_wf_spec w x y v :
  wf w → outOfBounds (grid w) x y = false →
  ∃ a bx by_ row bucket w',
    insertAt x y v w = Return tt w'
    ∧ (a ∉ allItems w)
    ∧ item w' a = mkItem x y v
    ∧ (∀ a', a' ∈ allItems w → item w' a' = item w a')
    ∧ _buckets (grid w) !! bx = Some row
    ∧ row !! by_ = Some bucket
    ∧ divToInt32 x (bucketWidth w) = Z.of_nat bx
    ∧ divToInt32 y (bucketHeight w) = Z.of_nat by_
    ∧ grid w' =
        with_size (_size (grid w) + 1)
          (with_buckets (<[bx := <[by_ := bucket ++ [a]]> row]> (_buckets (grid w)))
             (grid w)).
Proof.
  intros Hwf Hin.
  destruct (insertAt_ok w x y v (wf_pool w Hwf) (wf_shape w Hwf) Hin)
    as (a & k & bx & by_ & row & bucket & w' & Hrun & _ & Hav & _
        & Ha & Hother & Hrow & Hbucket & Hbx & Hby & Hgrid & _).
  exists a, bx, by_, row, bucket, w'.
  assert (a ∉ allItems w) as Hfresh.
  { intros Hold.
    assert (a ∈ available (itemPool w) ++ seq (next (heap w)) k) as Hnew.
    { rewrite <- Hav. apply elem_of_app. right. by left. }
    apply elem_of_app in Hnew as [Hnew|Hnew].
    - pose proof (wf_nodup w Hwf) as Hnd. apply NoDup_app in Hnd as (_ & Hd & _).
      by apply (Hd a).
    - apply elem_of_seq in Hnew as [Hge _].
      assert (a < next (heap w))%nat; [|lia].
      apply (wf_alloc w Hwf). apply elem_of_app. by left. }
  split_and!; try done.
  intros a' Hold. apply Hother.
  - by intros ->.
  - apply (wf_alloc w Hwf). apply elem_of_app. by left.
Qed.
End MoveFacts.

(** ** [size] counts the records *)

Section Counted.
Context {V : Type} `{JsValue V} {U : Type}.
Import SpatialGrid2D.
Implicit Types (w : World V U) (a : addr).

Lemma insertAt_return w x y v w' :
  insertAt x y v w = Return tt w' →
  ∃ a bx by_ row bucket,
    _buckets (grid w) !! bx = Some row
    ∧ row !! by_ = Some bucket
    ∧ grid w' =
        with_size (_size (grid w) + 1)
          (with_buckets (<[bx := <[by_ := bucket ++ [a]]> row]> (_buckets (grid w)))
             (grid w)).
Proof.
  unfold insertAt, bind, gets, throw, itemPool_getOne.
  destruct (outOfBounds (grid w) x y); [done|].
  destruct (FastPool.getOne (itemPool w) (heap w)) as [[[a|] p] h]; cbn; [|done].
  match goal with |- context [bucketOf x y ?w1] =>
    destruct (bucketOf x y w1) as [[[bx by_] bucket] w2|e1 w2|] eqn:Hb end;
    cbn; try done.
  apply bucketOf_inv in Hb as (-> & _ & _ & Hbx & Hby & row & Hrow & Hbucket).
  cbn in Hrow. unfold with_heap, with_itemPool. cbn [grid heap itemPool user].
  unfold index. destruct (Z.ltb_spec bx 0); [lia|]. rewrite Hrow.
  intros [= <-]. cbn. by exists a, (Z.to_nat bx), (Z.to_nat by_), row, bucket.
Qed.

Lemma counted_insertAt w x y v w' :
  counted w → insertAt x y v w = Return tt w' → counted w'.
Proof.
  unfold counted, size, allItems.
  intros Hc (a & bx & by_ & row & bucket & Hrow & Hbucket & Hgrid)%insertAt_return.
  destruct (concat_insert2 _ _ _ _ _ Hrow Hbucket) as (pre & post & Hall & Hall').
  rewrite Hgrid. cbn. rewrite Hall', Hc, Hall, !length_app. cbn. lia.
Qed.

Lemma counted_put_release w c bx by_ row bucket kept removed :
  counted w →
  _buckets (grid w) !! bx = Some row → row !! by_ = Some bucket →
  (length kept + length removed = length bucket)%nat →
  counted (put_bucket bx by_ row kept (release_all c removed w)).
Proof.
  unfold counted, size, allItems, put_bucket. intros Hc Hrow Hbucket Hlen. cbn.
  rewrite release_all_grid. cbn.
  destruct (concat_insert2 _ _ _ _ _ Hrow Hbucket) as (pre & post & Hall & Hall').
  rewrite Hall', Hc, Hall, !length_app. lia.
Qed.

Lemma counted_removeAt w x y v w' :
  counted w → removeAt x y v w = Return tt w' → counted w'.
Proof.
  intros Hc Hrun. pose proof (removeAt_return_inv _ _ _ _ _ Hrun) as Hin.
  destruct (bucketOf x y w) as [[[bx by_] bucket] w1|e1 w1|] eqn:Hb.
  - apply bucketOf_inv in Hb as Hinv.
    destruct Hinv as (-> & _ & _ & Hbx & Hby & row & Hrow & Hbucket).
    rewrite <- (Z2Nat.id bx), <- (Z2Nat.id by_) in Hb by done.
    destruct (removeAt_spec w x y v _ _ row bucket Hin Hb Hrow)
      as (kept & removed & Hrun' & Hlen & _).
    rewrite Hrun in Hrun'. destruct (bool_decide (removed = [])); [done|].
    injection Hrun' as ->. by eapply counted_put_release.
  - unfold removeAt, bind, gets in Hrun. by rewrite Hin, Hb in Hrun.
  - by apply bucketOf_NoReturn in Hb.
Qed.

Lemma counted_removeAllAt w x y w' :
  counted w → removeAllAt x y w = Return tt w' → counted w'.
Proof.
  intros Hc Hrun. pose proof (removeAllAt_return_inv _ _ _ _ Hrun) as Hin.
  destruct (bucketOf x y w) as [[[bx by_] bucket] w1|e1 w1|] eqn:Hb.
  - apply bucketOf_inv in Hb as Hinv.
    destruct Hinv as (-> & _ & _ & Hbx & Hby & row & Hrow & Hbucket).
    rewrite <- (Z2Nat.id bx), <- (Z2Nat.id by_) in Hb by done.
    destruct (removeAllAt_spec w x y _ _ row bucket Hin Hb Hrow)
      as (kept & removed & Hrun' & Hlen & _).
    rewrite Hrun in Hrun'. injection Hrun' as ->. by eapply counted_put_release.
  - unfold removeAllAt, bind, gets in Hrun. by rewrite Hin, Hb in Hrun.
  - by apply bucketOf_NoReturn in Hb.
Qed.

Lemma counted_resize w gw gh bw bh w' :
  counted w → resize gw gh bw bh w = Return tt w' → counted w'.
Proof.
  intros Hc Hrun. apply resize_spec in Hrun. unfold resized in Hrun.
  destruct Hrun as (nx & ny & nb' & destroyed & kept & _ & -> & Hlen & _ & _ & Hperm & _).
  unfold counted, size, allItems in *. cbn. rewrite destroy_all_grid. cbn.
  rewrite Hperm, Hc. lia.
Qed.

Lemma counted_clear w w' : counted w → clear w = Return tt w' → counted w'.
Proof.
  intros Hc. rewrite clear_spec. intros [= <-].
  unfold counted, size, allItems in *. cbn. rewrite release_all_grid. cbn.
  rewrite concat_emptied, Hc. cbn. lia.
Qed.

Lemma counted_run w o w' : counted w → run o w = Return tt w' → counted w'.
Proof.
  destruct o; cbn.
  - apply counted_insertAt.
  - apply counted_removeAt.
  - apply counted_removeAllAt.
  - intros Hc. unfold move, bind.
    destruct (removeAt fromX fromY element w) as [[] w1| |] eqn:Hrem; [|done|done].
    intros Hins. eapply counted_insertAt; [|done]. by eapply counted_removeAt.
  - apply counted_resize.
  - apply counted_clear.
Qed.

Lemma reachable_counted w : reachable w → counted w.
Proof.
  induction 1 as [gw gh bw bh config g h p u Hnew|w o w' _ IH Hrun].
  - apply new_inv in Hnew as (_ & _ & ->).
    unfold counted, size, allItems. cbn. by rewrite allItems_emptyBuckets.
  - by eapply counted_run.
Qed.

Lemma forEach_records (callback : V → Q → Q → U → U) w :
  forEach callback w
  = Return tt
      (with_user
         (fold_left (λ u it, callback (item_value it) (item_x it) (item_y it) u)
            (records w) (user w)) w).
Proof.
  unfold forEach, modify, records. f_equal. f_equal.
  generalize (user w). induction (allItems w) as [|a l IH]; intros u; [done|].
  cbn. apply IH.
Qed.
End Counted.

(** ** What the traversals hand to their callbacks *)

Section Traversals.
Context {V : Type} `{JsValue V}.
Import SpatialGrid2D.
Implicit Types (w : World V (list (V * Q * Q))) (a : addr).

Lemma indexed_row (gx : nat) (hy : nat → nat) (row : list (list addr)) :
  (λ t : addr * nat * nat, t.1.1)
    <$> concat (imap (λ y bucket, (λ a, (a, gx, hy y)) <$> bucket) row)
  = concat row.
Proof.
  revert hy. induction row as [|bucket row IH]; intros hy; [done|].
  cbn [imap concat]. rewrite fmap_app. f_equal; [|exact (IH (hy ∘ S))].
  rewrite <- list_fmap_compose. by rewrite <- (list_fmap_id bucket) at 2.
Qed.

Lemma indexed_rows (hx : nat → nat) (rows : list (list (list addr))) :
  (λ t : addr * nat * nat, t.1.1)
    <$> concat (imap (λ x row,
                  concat (imap (λ y bucket, (λ a, (a, hx x, y)) <$> bucket) row)) rows)
  = concat (concat rows).
Proof.
  revert hx. induction rows as [|row rows IH]; intros hx; [done|].
  cbn [imap concat]. rewrite fmap_app, concat_app.
  f_equal; [|exact (IH (hx ∘ S))].
  apply (indexed_row (hx 0%nat) id).
Qed.

(** The index loops visit the records that the [for ... of] loops visit,
    in the same order. *)
Lemma indexedItems_allItems w :
  (λ t : addr * nat * nat, t.1.1) <$> indexedItems w = allItems w.
Proof. apply (indexed_rows id). Qed.

Lemma forEach_calls w :
  user (after (forEach recorder) w)
  = user w ++ ((λ a, (item_value (item w a), item_x (item w a), item_y (item w a)))
               <$> allItems w).
Proof.
  unfold after, forEach, modify. cbn.
  generalize (user w). induction (allItems w) as [|a l IH]; intros u.
  { cbn. by rewrite app_nil_r. }
  cbn [fold_left]. rewrite IH. unfold recorder. by rewrite <- app_assoc.
Qed.

Lemma getFiltered_calls w keep :
  user (after (getFiltered (recording_filter keep)) w)
  = user w ++ ((λ '(a, x, y), (item_value (item w a), counter x, counter y))
               <$> indexedItems w).
Proof.
  unfold after, getFiltered.
  assert (∀ l elements u,
    (fold_left
       (λ '(elements, u) '(a, x, y),
          let '(keep, u) :=
            recording_filter keep (item_value (item w a)) (counter x) (counter y) u in
          (if keep then elements ++ [item_value (item w a)] else elements, u))
       l (elements, u)).2
    = u ++ ((λ '(a, x, y), (item_value (item w a), counter x, counter y)) <$> l))
    as Hfold.
  { induction l as [|[[a x] y] l IH]; intros elements u.
    { cbn. by rewrite app_nil_r. }
    cbn [fold_left]. unfold recording_filter at 2. rewrite IH.
    by rewrite fmap_cons, <- app_assoc. }
  specialize (Hfold (indexedItems w) [] (user w)).
  destruct (fold_left _ _ _) as [elements u]. cbn in *. done.
Qed.

Lemma getFirst_calls w keep :
  user (after (getFirst (recording_filter keep)) w)
  = user w ++ calls_until keep
               ((λ '(a, x, y), (item_value (item w a), counter x, counter y))
                <$> indexedItems w).
Proof.
  unfold after, getFirst.
  assert (∀ l u,
    (getFirst_loop (recording_filter keep) w l u).2
    = u ++ calls_until keep
             ((λ '(a, x, y), (item_value (item w a), counter x, counter y)) <$> l))
    as Hloop.
  { induction l as [|[[a x] y] l IH]; intros u.
    { cbn. by rewrite app_nil_r. }
    cbn [getFirst_loop fmap list_fmap calls_until]. unfold recording_filter at 1.
    destruct (keep _ _ _); [done|].
    rewrite IH. by rewrite <- app_assoc. }
  specialize (Hloop (indexedItems w) (user w)).
  destruct (getFirst_loop _ _ _ _) as [found u]. cbn in *. done.
Qed.
End Traversals.

(** ** The concrete grid *)

(** A call on a concrete world is run by evaluating what the caller sees of
    it; the world it leaves is not unfolded. *)
Ltac run_call :=
  lazymatch goal with
  | |- ?m ?w = Return ?a _ =>
      exact (result_Return m w a ltac:(vm_compute; reflexivity))
  | |- ?m ?w = Throw ?e _ =>
      exact (result_Throw m w e ltac:(vm_compute; reflexivity))
  end.

Module ExampleFacts.
Import SpatialGrid2D Example.

Lemma new_grid0 : new 9 7 3 4 (Some config) = inr grid0.
Proof. vm_compute. reflexivity. Qed.

Lemma wf_w0 : wf w0.
Proof. apply (wf_fresh _ _ _ _ _ _ _ new_grid0); vm_compute; congruence. Qed.

Lemma run_w1 : insertAt 1 1 (Obj 1) w0 = Return tt w1.
Proof. run_call. Qed.

Lemma wf_w1 : wf w1.
Proof. exact (wf_insertAt _ _ _ _ _ wf_w0 run_w1). Qed.

Lemma run_w2 : insertAt 1 1 (Obj 2) w1 = Return tt w2.
Proof. run_call. Qed.

Lemma wf_w2 : wf w2.
Proof. exact (wf_insertAt _ _ _ _ _ wf_w1 run_w2). Qed.

Lemma run_w_twice : insertAt 1 1 (Obj 1) w1 = Return tt w_twice.
Proof. run_call. Qed.

Lemma wf_w_twice : wf w_twice.
Proof. exact (wf_insertAt _ _ _ _ _ wf_w1 run_w_twice). Qed.

Lemma run_w_far : insertAt 7 5 (Obj 3) w2 = Return tt w_far.
Proof. run_call. Qed.

Lemma wf_w_far : wf w_far.
Proof. exact (wf_insertAt _ _ _ _ _ wf_w2 run_w_far). Qed.
End ExampleFacts.

(** * The claims of the specification *)


Section ClaimErrors.
Context {V : Type} `{JsValue V} {U : Type}.
Import SpatialGrid2D.
Implicit Types (w : World V U) (a : addr).

(** C2, amended.  When [get], [insertAt], [removeAt] or [removeAllAt]
    throws the bounds error or the not-found error, the whole state (the
    grid, the item pool, the items) is what it was before the call, and
    [resize], [clear], [forEach], [getAll], [getFiltered] and [getFirst]
    never throw either error.  [move] leaves the state as it was when its
    removal at the source throws; when the removal went through and the
    destination is out of bounds, it throws the bounds error in the state
    the removal left. *)
Theorem errors_leave_state_unchanged w e w' :
  e = BoundsError ∨ e = NotFoundError →
  (∀ x y out, get x y out w = Throw e w' → w' = w)
  ∧ (∀ x y v, insertAt x y v w = Throw e w' → w' = w)
  ∧ (∀ x y v, removeAt x y v w = Throw e w' → w' = w)
  ∧ (∀ x y, removeAllAt x y w = Throw e w' → w' = w)
  ∧ (∀ fromX fromY toX toY v,
       move fromX fromY toX toY v w = Throw e w' →
       removeAt fromX fromY v w = Throw e w' ∧ w' = w
       ∨ removeAt fromX fromY v w = Return tt w'
         ∧ e = BoundsError ∧ outOfBounds (grid w') toX toY = true)
  ∧ (∀ gridWidth gridHeight bucketWidth bucketHeight,
       resize gridWidth gridHeight bucketWidth bucketHeight w ≠ Throw e w')
  ∧ clear w ≠ Throw e w'
  ∧ (∀ callback, forEach callback w ≠ Throw e w')
  ∧ getAll w ≠ Throw e w'
  ∧ (∀ callback, getFiltered callback w ≠ Throw e w')
  ∧ (∀ callback, getFirst callback w ≠ Throw e w').
Proof.
  intros He.
  assert (e ≠ TypeError) as Hne by (destruct He; congruence).
  split_and!.
  - intros x y out Hrun. by apply get_throw in Hrun as [-> _].
  - intros x y v Hrun. by apply insertAt_throw in Hrun as [(_ & _ & ->)|?].
  - intros x y v Hrun.
    by apply removeAt_throw in Hrun as [(_ & _ & ->)|[(_ & _ & ->)|?]].
  - intros x y Hrun. by apply removeAllAt_throw in Hrun as [(_ & _ & ->)|?].
  - intros fromX fromY toX toY v. unfold move, bind.
    destruct (removeAt fromX fromY v w) as [[] w1|e1 w1|] eqn:Hrem; [| |done].
    + intros Hins. right.
      apply insertAt_throw in Hins as [(-> & Hout & ->)|?]; done.
    + intros [= <- <-]. left. split; [done|].
      by apply removeAt_throw in Hrem as [(_ & _ & ->)|[(_ & _ & ->)|?]].
  - intros gw gh bw bh Hrun. by apply resize_throw in Hrun.
  - by rewrite clear_spec.
  - done.
  - done.
  - intros callback. unfold getFiltered. by destruct (fold_left _ _ _).
  - intros callback. unfold getFirst. by destruct (getFirst_loop _ _ _ _).
Qed.
End ClaimErrors.

Lemma errors_leave_state_unchanged_witness :
  (NotFoundError = BoundsError ∨ NotFoundError = NotFoundError)
  ∧ ∀ w', SpatialGrid2D.removeAt 1 1 (Example.Obj 9) Example.w2 = Throw NotFoundError w' →
          w' = Example.w2.
Proof.
  split; [right; reflexivity|].
  intros w' Hrun.
  exact (proj1 (proj2 (proj2
    (errors_leave_state_unchanged Example.w2 NotFoundError w' (or_intror eq_refl))))
    1%Q 1%Q (Example.Obj 9) Hrun).
Defined.

(** C2 as stated fails for [move]: with [Obj 1] stored at [(1, 1)], moving it
    to [(-1, 1)] throws the bounds error after the value was removed. *)
Lemma move_out_of_bounds_loses_element :
  ∃ w', SpatialGrid2D.move 1 1 (-1) 1 (Example.Obj 1) Example.w1 = Throw BoundsError w'
        ∧ SpatialGrid2D.size Example.w1 = 1%Z
        ∧ SpatialGrid2D.size w' = 0%Z
        ∧ result (SpatialGrid2D.get 1 1 None) Example.w1 = inl (Some [Example.Obj 1])
        ∧ result (SpatialGrid2D.get 1 1 None) w' = inl (Some []).
Proof.
  exists (after (SpatialGrid2D.move 1 1 (-1) 1 (Example.Obj 1)) Example.w1).
  split; [run_call|]. vm_compute. done.
Qed.




Section ClaimSize.
Context {V : Type} `{JsValue V} {U : Type}.
Import SpatialGrid2D.
Implicit Types (w : World V U) (a : addr).

Lemma reachable_fresh gridWidth gridHeight bucketWidth bucketHeight config g (u : U) :
  new gridWidth gridHeight bucketWidth bucketHeight config = inr g →
  reachable (fresh (TElement := V) g u).
Proof.
  intros Hnew. unfold fresh. destruct itemPool_init as [p h].
  by eapply reachable_new.
Qed.

(** C1.  For every grid obtained from the constructor by [insertAt],
    [removeAt], [removeAllAt], [move], [resize] and [clear] calls that
    returned normally: [size] is the number of records in the buckets, that
    is the sum of the bucket lengths, and [forEach] invokes its callback
    exactly once for each of these records, in order, on the record's value
    and coordinate. *)
Theorem size_is_number_of_records_visited w :
  reachable w →
  size w = Z.of_nat (length (records w))
  ∧ size w = Z.of_nat (list_sum (length <$> concat (_buckets (grid w))))
  ∧ ∀ callback : V → Q → Q → U → U,
      forEach callback w
      = Return tt
          (with_user
             (fold_left (λ u it, callback (item_value it) (item_x it) (item_y it) u)
                (records w) (user w)) w).
Proof.
  intros Hreach. pose proof (reachable_counted w Hreach) as Hc.
  unfold counted in Hc. split_and!.
  - unfold records. by rewrite length_fmap.
  - rewrite Hc. unfold allItems. by rewrite length_concat.
  - intros callback. apply forEach_records.
Qed.
End ClaimSize.

Lemma size_is_number_of_records_visited_witness :
  SpatialGrid2D.size Example.w2 = Z.of_nat (length (records Example.w2)).
Proof.
  refine (proj1 (size_is_number_of_records_visited Example.w2 _)).
  eapply (reachable_step _ (InsertAt 1 1 (Example.Obj 2))); [|exact ExampleFacts.run_w2].
  eapply (reachable_step _ (InsertAt 1 1 (Example.Obj 1))); [|exact ExampleFacts.run_w1].
  exact (reachable_fresh _ _ _ _ _ _ _ ExampleFacts.new_grid0).
Defined.

(** C9.  The traversals hand different coordinates to their callbacks.
    [forEach] calls its callback once per record with the record's value and
    its stored coordinate [(item.x, item.y)].  [getFiltered] calls its
    predicate once per record, and [getFirst] up to the first record the
    predicate accepts, with the record's value and the indices of the bucket
    being scanned; all three visit the same records in the same order.  In
    the grid of 9 by 7 with buckets of 3 by 4 that holds [Obj 1] and [Obj 2]
    at [(1, 1)] and [Obj 3] at [(7, 5)], [forEach] reports [Obj 3] at
    [(7, 5)] and the two others report it at [(2, 1)]. *)
Theorem traversals_disagree_on_coordinates :
  (∀ (V : Type) (HV : JsValue V) (w : SpatialGrid2D.World V (list (V * Q * Q)))
     (keep : V → Q → Q → bool),
     SpatialGrid2D.user (after (SpatialGrid2D.forEach recorder) w)
     = SpatialGrid2D.user w
       ++ ((λ a, (item_value (SpatialGrid2D.item w a), item_x (SpatialGrid2D.item w a),
                  item_y (SpatialGrid2D.item w a)))
           <$> SpatialGrid2D.allItems w)
     ∧ SpatialGrid2D.user (after (SpatialGrid2D.getFiltered (recording_filter keep)) w)
       = SpatialGrid2D.user w
         ++ ((λ '(a, x, y), (item_value (SpatialGrid2D.item w a),
                             SpatialGrid2D.counter x, SpatialGrid2D.counter y))
             <$> SpatialGrid2D.indexedItems w)
     ∧ SpatialGrid2D.user (after (SpatialGrid2D.getFirst (recording_filter keep)) w)
       = SpatialGrid2D.user w
         ++ calls_until keep
              ((λ '(a, x, y), (item_value (SpatialGrid2D.item w a),
                               SpatialGrid2D.counter x, SpatialGrid2D.counter y))
               <$> SpatialGrid2D.indexedItems w)
     ∧ (λ t : addr * nat * nat, t.1.1) <$> SpatialGrid2D.indexedItems w
       = SpatialGrid2D.allItems w)
  ∧ (wf Example.w_far
     ∧ SpatialGrid2D.bucketWidth Example.w_far = 3%Q
     ∧ SpatialGrid2D.user (after (SpatialGrid2D.forEach recorder) Example.w_far)
       = [(Example.Obj 1, 1%Q, 1%Q); (Example.Obj 2, 1%Q, 1%Q); (Example.Obj 3, 7%Q, 5%Q)]
     ∧ SpatialGrid2D.user
         (after (SpatialGrid2D.getFiltered (recording_filter (λ _ _ _, true))) Example.w_far)
       = [(Example.Obj 1, 0%Q, 0%Q); (Example.Obj 2, 0%Q, 0%Q); (Example.Obj 3, 2%Q, 1%Q)]
     ∧ SpatialGrid2D.user
         (after (SpatialGrid2D.getFirst (recording_filter (λ _ _ _, false))) Example.w_far)
       = [(Example.Obj 1, 0%Q, 0%Q); (Example.Obj 2, 0%Q, 0%Q); (Example.Obj 3, 2%Q, 1%Q)]).
Proof.
  split.
  - intros V HV w keep. split_and!.
    + apply forEach_calls.
    + apply getFiltered_calls.
    + apply getFirst_calls.
    + apply indexedItems_allItems.
  - split; [exact ExampleFacts.wf_w_far|]. vm_compute. done.
Qed.


(** C3.  The checked pool on concrete factories over numbered objects.
    A pool of initial size 5 whose factory hands out the same object every
    time fails in its constructor with [DuplicateRecordError].  A pool of
    initial size 1 whose factory hands out the objects 0, 1, 2, ... refuses
    with [InvalidReleaseError], and unchanged, the release of object 0 while
    it is still available and the release of object 5, which it never
    produced.  After [getOne] handed out object 0, [release] takes it back,
    and a second [release] of the same object returns normally as well, where
    the class promises an error: [release] never marks the object available
    in [_isAvailableMap].  The object is then stored twice: two objects are
    available in a pool that created one, and the next two [getOne] calls
    hand the same object to two holders without calling the factory. *)
Theorem double_release_is_accepted :
  let same := counting (λ _ : nat, 0%nat) in
  let distinct := counting (λ k : nat, k) in
  let size k := Some {| initialSize := Some k; autoHydrateSize := None |} in
  (∃ s, SlowPool.new same None (size 5%nat) 0%nat = Throw DuplicateRecordError s)
  ∧ ∃ s0 s1 s2 s3 s4 s5 : SlowPool.t nat nat * nat,
      SlowPool.new distinct None (size 1%nat) 0%nat = Return tt s0
      ∧ s0.2 = 1%nat
      ∧ SlowPool.release 0%nat s0 = Throw InvalidReleaseError s0
      ∧ SlowPool.release 5%nat s0 = Throw InvalidReleaseError s0
      ∧ SlowPool.getOne s0 = Return (Some 0%nat) s1
      ∧ SlowPool.release 0%nat s1 = Return tt s2
      ∧ SlowPool.release 0%nat s2 = Return tt s3
      ∧ SlowPool.availableObjects s3.1 = 2%Z
      ∧ SlowPool.getOne s3 = Return (Some 0%nat) s4
      ∧ SlowPool.getOne s4 = Return (Some 0%nat) s5
      ∧ s5.2 = 1%nat.
Proof.
  intros same distinct size. split.
  - eexists. vm_compute. reflexivity.
  - do 6 eexists. split_and!; vm_compute; reflexivity.
Qed.

(** * Further properties of the code *)

(** ** Dimensions *)

Lemma isInteger_true q : isInteger q = true ↔ ∃ k : Z, q == inject_Z k.
Proof.
  unfold isInteger. split.
  - intros Heq%Qeq_bool_eq. exists (Qfloor q). by symmetry.
  - intros [k Hk]. apply Qeq_bool_iff.
    rewrite (Qfloor_comp _ _ Hk), Qfloor_Z. by symmetry.
Qed.

Lemma positiveInteger_iff q :
  positiveInteger q ↔ Qltb q 1 = false ∧ isInteger q = true.
Proof.
  unfold positiveInteger. rewrite Qltb_ge, isInteger_true. split.
  - intros (k & Hk & Heq). split; [|by exists k].
    rewrite Heq. change 1%Q with (inject_Z 1). by rewrite <- Zle_Qle.
  - intros [Hle [k Heq]]. exists k. split; [|done].
    rewrite Heq in Hle. change 1%Q with (inject_Z 1) in Hle. by rewrite <- Zle_Qle in Hle.
Qed.

(** ** The spatial grid: construction *)

Section SpatialGridConstruction.
Context {V : Type} `{JsValue V} {U : Type}.
Import SpatialGrid2D.
Implicit Types (w : World V U) (a : addr).

Lemma badDimension_positiveInteger q : badDimension q = false ↔ positiveInteger q.
Proof.
  unfold badDimension. rewrite positiveInteger_iff, orb_false_iff, negb_false_iff. done.
Qed.

(** X1.  The constructor of the spatial grid returns a grid exactly when
    its four dimensions are integers from 1 on, and throws the dimension
    error in every other case; the grid it returns has the dimensions given,
    the configuration given (an empty one by default), size 0 and no
    record. *)
Theorem new_checks_dimensions gridWidth gridHeight bucketWidth bucketHeight
    (config : option (SpatialGrid2DConfig V U)) :
  let valid :=
    positiveInteger gridWidth ∧ positiveInteger gridHeight
    ∧ positiveInteger bucketWidth ∧ positiveInteger bucketHeight in
  (valid ↔ ∃ g, new gridWidth gridHeight bucketWidth bucketHeight config = inr g)
  ∧ (¬ valid ↔ new gridWidth gridHeight bucketWidth bucketHeight config = inl DimensionError)
  ∧ ∀ g, new gridWidth gridHeight bucketWidth bucketHeight config = inr g →
      _gridWidth g = gridWidth ∧ _gridHeight g = gridHeight
      ∧ _bucketWidth g = bucketWidth ∧ _bucketHeight g = bucketHeight
      ∧ _config g = default {| destructorCallback := None |} config
      ∧ _size g = 0%Z
      ∧ concat (concat (_buckets g)) = [].
Proof.
  cbn zeta. rewrite <- !badDimension_positiveInteger. unfold new.
  destruct (badDimension gridWidth), (badDimension gridHeight),
    (badDimension bucketWidth), (badDimension bucketHeight);
    (split_and!;
     [ split; [intros (? & ? & ? & ?); first [done | eauto] | intros [g Hg]; done]
     | split; [intros Hn; first [done | exfalso; by apply Hn]
              | intros Hrun; first [done | intros (? & ? & ? & ?); done]]
     | intros g [= <-]; cbn; split_and!; try done; apply allItems_emptyBuckets ]).
Qed.
End SpatialGridConstruction.

(** ** The spatial grid: reading *)

Section SpatialGridReading.
Context {V : Type} `{JsValue V} {U : Type}.
Import SpatialGrid2D.
Implicit Types (w : World V U) (a : addr).

Lemma get_values w x y :
  wf w → outOfBounds (grid w) x y = false →
  ∃ bx by_ row bucket,
    bucketOf x y w = Return (Z.of_nat bx, Z.of_nat by_, bucket) w
    ∧ _buckets (grid w) !! bx = Some row
    ∧ row !! by_ = Some bucket
    ∧ ∀ out, get x y out w = Return (default [] out ++ values_at w x y bucket) w.
Proof.
  intros Hwf Hin.
  destruct (bucketOf_ok w x y (wf_shape w Hwf) Hin)
    as (bx & by_ & row & bucket & Hb & Hrow & Hbucket & _).
  exists bx, by_, row, bucket. split_and!; try done.
  intros out. by eapply get_ok.
Qed.

Lemma get_return_inv w x y out r w' :
  get x y out w = Return r w' →
  outOfBounds (grid w) x y = false
  ∧ ∃ bx by_ bucket,
      bucketOf x y w = Return (bx, by_, bucket) w
      ∧ r = default [] out ++ values_at w x y bucket.
Proof.
  intros Hrun.
  destruct (outOfBounds (grid w) x y) eqn:Hout.
  { by rewrite get_out_of_bounds in Hrun. }
  split; [done|].
  destruct (bucketOf x y w) as [[[bx by_] bucket] w1|e w1|] eqn:Hb.
  - apply bucketOf_inv in Hb as Hinv. destruct Hinv as (-> & _).
    exists bx, by_, bucket. split; [done|].
    rewrite (get_ok w x y out bx by_ bucket Hout Hb) in Hrun. congruence.
  - exfalso. revert Hrun. unfold get, bind, gets. rewrite Hout. cbn. by rewrite Hb.
  - by apply bucketOf_NoReturn in Hb.
Qed.

(** X2.  On a well-formed grid, [get] at a coordinate inside the bounds
    returns normally and changes nothing; given an output array it returns
    that array with the values found pushed at its end, in the order in
    which [get] without an output array returns them. *)
Theorem get_pushes_onto_out w x y :
  wf w → outOfBounds (grid w) x y = false →
  ∃ found,
    get x y None w = Return found w
    ∧ ∀ out, get x y (Some out) w = Return (out ++ found) w.
Proof.
  intros Hwf Hin.
  destruct (get_values w x y Hwf Hin) as (bx & by_ & row & bucket & _ & _ & _ & Hget).
  exists (values_at w x y bucket). split.
  - apply (Hget None).
  - intros out. apply (Hget (Some out)).
Qed.
End SpatialGridReading.

Lemma get_pushes_onto_out_witness :
  ∃ found,
    SpatialGrid2D.get 1 1 None Example.w2 = Return found Example.w2
    ∧ ∀ out, SpatialGrid2D.get 1 1 (Some out) Example.w2 = Return (out ++ found) Example.w2.
Proof.
  apply (get_pushes_onto_out Example.w2 1 1 ExampleFacts.wf_w2).
  vm_compute. reflexivity.
Defined.

(** ** The spatial grid: what [insertAt] leaves alone *)

Section SpatialGridInsert.
Context {V : Type} `{JsValue V} {U : Type}.
Import SpatialGrid2D.
Implicit Types (w : World V U) (a : addr).

(** The bucket found for a coordinate after one bucket of the array was
    replaced. *)
Lemma bucketOf_replaced w w' x y bx by_ row newBucket bx0 by0 bucket0 :
  _buckets (grid w) !! bx = Some row → (by_ < length row)%nat →
  _bucketWidth (grid w') = _bucketWidth (grid w) →
  _bucketHeight (grid w') = _bucketHeight (grid w) →
  _buckets (grid w') = <[bx := <[by_ := newBucket]> row]> (_buckets (grid w)) →
  bucketOf x y w = Return (bx0, by0, bucket0) w →
  bucketOf x y w'
  = Return (bx0, by0,
            if decide (bx0 = Z.of_nat bx ∧ by0 = Z.of_nat by_) then newBucket else bucket0) w'.
Proof.
  intros Hrow Hby Hbw Hbh Hb Hrun.
  apply bucketOf_inv in Hrun as (_ & -> & -> & Hx & Hy & row0 & Hrow0 & Hbucket0).
  unfold bucketOf, bucketWidth, bucketHeight in *. rewrite Hbw, Hbh, Hb.
  set (ix := divToInt32 x (_bucketWidth (grid w))) in *.
  set (iy := divToInt32 y (_bucketHeight (grid w))) in *.
  unfold index.
  destruct (Z.ltb_spec ix 0); [lia|]. destruct (Z.ltb_spec iy 0); [lia|].
  destruct (decide (Z.to_nat ix = bx)) as [Hix|Hix].
  - subst bx. rewrite list_lookup_insert_eq by (by eapply lookup_lt_Some).
    assert (row0 = row) as -> by congruence.
    destruct (decide (Z.to_nat iy = by_)) as [Hiy|Hiy].
    + subst by_. rewrite list_lookup_insert_eq by done.
      rewrite decide_True by lia. done.
    + rewrite list_lookup_insert_ne, Hbucket0 by done.
      rewrite decide_False by lia. done.
  - rewrite list_lookup_insert_ne, Hrow0, Hbucket0 by done.
    rewrite decide_False by lia. done.
Qed.

Lemma at_position_comp x y x' y' (it : Item V) :
  x == x' → y == y' → at_position x y it = at_position x' y' it.
Proof.
  intros Hx Hy. unfold at_position.
  assert (∀ a b c : Q, b == c → Qeq_bool a b = Qeq_bool a c) as Hcomp.
  { intros a b c Hbc. destruct (Qeq_bool a c) eqn:Hac.
    - apply Qeq_bool_iff. apply Qeq_bool_iff in Hac. by rewrite Hbc.
    - apply not_true_iff_false. intros Hab%Qeq_bool_iff.
      apply not_true_iff_false in Hac. apply Hac, Qeq_bool_iff. by rewrite <- Hbc. }
  by rewrite (Hcomp _ _ _ Hx), (Hcomp _ _ _ Hy).
Qed.

Lemma at_position_other x y x' y' (v : V) :
  ¬ (x' == x ∧ y' == y) → at_position x' y' (mkItem x y v) = false.
Proof.
  intros Hne. unfold at_position. cbn. apply not_true_iff_false.
  intros [Hx%Qeq_bool_iff Hy%Qeq_bool_iff]%andb_true_iff. apply Hne. by split.
Qed.

(** X3.  On a well-formed grid, [insertAt] at a coordinate inside the
    bounds returns normally and raises [size] by one; afterwards [get] at
    that coordinate returns what it returned before followed by the new
    value, [get] at every other coordinate returns exactly what it returned
    before, and no callback has been called. *)
Theorem insertAt_appends_at_its_coordinate w x y v :
  wf w → outOfBounds (grid w) x y = false →
  ∃ w' found,
    insertAt x y v w = Return tt w'
    ∧ get x y None w = Return found w
    ∧ get x y None w' = Return (found ++ [v]) w'
    ∧ size w' = (size w + 1)%Z
    ∧ user w' = user w
    ∧ ∀ x' y' out r, ¬ (x' == x ∧ y' == y) →
        get x' y' out w = Return r w → get x' y' out w' = Return r w'.
Proof.
  intros Hwf Hin.
  destruct (insertAt_wf_spec w x y v Hwf Hin)
    as (a & bx & by_ & row & bucket & w' & Hrun & Hfresh & Ha & Hold & Hrow & Hbucket
        & Hbx & Hby & Hgrid).
  destruct (insertAt_ok w x y v (wf_pool w Hwf) (wf_shape w Hwf) Hin)
    as (a2 & k & bx2 & by2 & row2 & bucket2 & w2 & Hrun2 & _ & _ & _ & _ & _ & _ & _ & _ & _
        & _ & Huser).
  assert (w2 = w') as -> by congruence.
  destruct (get_values w x y Hwf Hin) as (bx' & by' & row' & bucket' & Hb & Hrow' & Hbucket' & Hget).
  assert (bx' = bx ∧ by' = by_) as [-> ->].
  { apply bucketOf_inv in Hb as (_ & Hx & Hy & _).
    unfold bucketWidth, bucketHeight in *. split; lia. }
  assert (row' = row) as -> by congruence.
  assert (bucket' = bucket) as -> by congruence.
  assert (by_ < length row)%nat as Hlt by (by eapply lookup_lt_Some).
  assert (∀ x' y' bx0 by0 bucket0,
            bucketOf x' y' w = Return (bx0, by0, bucket0) w →
            bucketOf x' y' w'
            = Return (bx0, by0,
                      if decide (bx0 = Z.of_nat bx ∧ by0 = Z.of_nat by_)
                      then bucket ++ [a] else bucket0) w') as Hbucket_of.
  { intros x' y' bx0 by0 bucket0 Hb0.
    eapply (bucketOf_replaced w w'); try done; by rewrite Hgrid. }
  assert (∀ x' y' b, b ⊆ allItems w → values_at w' x' y' b = values_at w x' y' b) as Hvals.
  { intros x' y' b Hsub. apply values_at_ext. intros a' Ha'. apply Hold. by apply Hsub. }
  assert (∀ i j r b, _buckets (grid w) !! i = Some r → r !! j = Some b → b ⊆ allItems w)
    as Hsub.
  { intros i j r b Hr Hb' a' Ha'. apply elem_of_concat2. by exists i, j, r, b. }
  assert (outOfBounds (grid w') = outOfBounds (grid w)) as Hbounds by (by rewrite Hgrid).
  exists w', (values_at w x y bucket). split_and!; try done.
  - rewrite (get_ok w' x y None _ _ _ ltac:(by rewrite Hbounds) (Hbucket_of _ _ _ _ _ Hb)).
    rewrite decide_True by done. cbn. rewrite values_at_app, (Hvals _ _ bucket) by eauto.
    do 2 f_equal. unfold values_at. rewrite filter_cons, Ha, at_position_refl.
    rewrite decide_True by done. cbn. by rewrite Ha.
  - unfold size. by rewrite Hgrid.
  - intros x' y' out r Hne Hget'.
    apply get_return_inv in Hget' as (Hin' & bx0 & by0 & bucket0 & Hb0 & ->).
    rewrite (get_ok w' x' y' out _ _ _ ltac:(by rewrite Hbounds) (Hbucket_of _ _ _ _ _ Hb0)).
    apply bucketOf_inv in Hb0 as (_ & _ & _ & _ & _ & row0 & Hrow0 & Hbucket0).
    do 2 f_equal. case_decide as Hsame.
    + destruct Hsame as [-> ->]. rewrite !Nat2Z.id in *.
      assert (row0 = row) as -> by congruence.
      assert (bucket0 = bucket) as -> by congruence.
      rewrite values_at_app, (Hvals _ _ bucket) by eauto.
      unfold values_at at 2. rewrite filter_cons, Ha, at_position_other by done.
      rewrite decide_False by done. cbn. by rewrite app_nil_r.
    + apply Hvals. eauto.
Qed.
End SpatialGridInsert.

Lemma insertAt_appends_at_its_coordinate_witness :
  ∃ w' found,
    SpatialGrid2D.insertAt 1 1 (Example.Obj 4) Example.w2 = Return tt w'
    ∧ SpatialGrid2D.get 1 1 None Example.w2 = Return found Example.w2
    ∧ SpatialGrid2D.get 1 1 None w' = Return (found ++ [Example.Obj 4]) w'
    ∧ SpatialGrid2D.size w' = (SpatialGrid2D.size Example.w2 + 1)%Z.
Proof.
  destruct (insertAt_appends_at_its_coordinate Example.w2 1 1 (Example.Obj 4)
              ExampleFacts.wf_w2)
    as (w' & found & Hrun & Hget & Hget' & Hsize & _).
  - vm_compute. reflexivity.
  - exists w', found. split_and!; [exact Hrun | exact Hget | exact Hget' | exact Hsize].
Defined.

(** ** The spatial grid: [removeAllAt] and [clear] *)

Section SpatialGridRemoveAll.
Context {V : Type} `{JsValue V} {U : Type}.
Import SpatialGrid2D.
Implicit Types (w : World V U) (a : addr).

Lemma values_at_agree w w' x y (b : list addr) :
  (∀ a, a ∈ b → at_position x y (item w' a) = at_position x y (item w a)) →
  (∀ a, a ∈ b → at_position x y (item w a) = true →
        item_value (item w' a) = item_value (item w a)) →
  values_at w' x y b = values_at w x y b.
Proof.
  unfold values_at. induction b as [|a b IH]; intros Hpos Hval; [done|].
  rewrite !filter_cons, (Hpos a) by left.
  destruct (decide (at_position x y (item w a) = true)) as [Hat|Hat]; cbn.
  - rewrite (Hval a) by (done || left). f_equal.
    apply IH; intros a' Ha'; [apply Hpos | apply Hval]; by right.
  - apply IH; intros a' Ha'; [apply Hpos | apply Hval]; by right.
Qed.

Lemma values_at_nil w x y (b : list addr) :
  (∀ a, a ∈ b → at_position x y (item w a) = false) → values_at w x y b = [].
Proof.
  intros Hnone. unfold values_at. induction b as [|a b IH]; [done|].
  rewrite filter_cons, decide_False.
  - apply IH. intros a' Ha'. apply Hnone. by right.
  - rewrite Hnone by left. done.
Qed.

Lemma values_at_filter w x y (P : addr → Prop) `{∀ a, Decision (P a)} (b : list addr) :
  (∀ a, a ∈ b → at_position x y (item w a) = true → P a) →
  values_at w x y (filter P b) = values_at w x y b.
Proof.
  intros HP. unfold values_at. induction b as [|a b IH]; [done|].
  rewrite (filter_cons (λ a, at_position x y (item w a) = true) a b).
  rewrite (filter_cons P a b).
  destruct (decide (at_position x y (item w a) = true)) as [Hat|Hat].
  - rewrite decide_True by (apply HP; [left|done]).
    rewrite filter_cons, decide_True by done. cbn. f_equal.
    apply IH. intros a' Ha'. apply HP. by right.
  - destruct (decide (P a)).
    + rewrite filter_cons, decide_False by done.
      apply IH. intros a' Ha'. apply HP. by right.
    + apply IH. intros a' Ha'. apply HP. by right.
Qed.

Lemma values_at_length w x y (b : list addr) :
  length (values_at w x y b)
  = length (filter (λ a, at_position x y (item w a) = true) b).
Proof. unfold values_at. by rewrite length_fmap. Qed.

Lemma at_position_apart x y x' y' (it : Item V) :
  ¬ (x' == x ∧ y' == y) → at_position x' y' it = true → at_position x y it = false.
Proof.
  intros Hne [Hx%Qeq_bool_iff Hy%Qeq_bool_iff]%andb_true_iff.
  apply not_true_iff_false.
  intros [Hx'%Qeq_bool_iff Hy'%Qeq_bool_iff]%andb_true_iff.
  apply Hne. split.
  - by rewrite <- Hx, Hx'.
  - by rewrite <- Hy, Hy'.
Qed.

(** X4.  On a well-formed grid, [removeAllAt] at a coordinate inside the
    bounds returns normally, whether or not anything is stored there;
    afterwards [get] at that coordinate returns an empty array, [size] has
    dropped by the number of values that [get] returned there before, [get]
    at every other coordinate returns the values it returned before (in some
    order), the destructor callback has not been called, and the grid is
    well-formed again. *)
Theorem removeAllAt_empties_its_coordinate w x y :
  wf w → outOfBounds (grid w) x y = false →
  ∃ w' found,
    get x y None w = Return found w
    ∧ removeAllAt x y w = Return tt w'
    ∧ wf w'
    ∧ get x y None w' = Return [] w'
    ∧ size w' = (size w - Z.of_nat (length found))%Z
    ∧ user w' = user w
    ∧ ∀ x' y' r, ¬ (x' == x ∧ y' == y) →
        get x' y' None w = Return r w →
        ∃ r', get x' y' None w' = Return r' w' ∧ r' ≡ₚ r.
Proof.
  intros Hwf Hin.
  destruct (get_values w x y Hwf Hin)
    as (bx & by_ & row & bucket & Hb & Hrow & Hbucket & Hget).
  destruct (removeAllAt_spec w x y bx by_ row bucket Hin Hb Hrow)
    as (kept & removed & Hrun & _ & Hperm).
  pose proof (wf_bucket_NoDup _ _ _ _ _ Hwf Hrow Hbucket) as Hnd.
  destruct (Hperm (wf_pool w Hwf) Hnd) as [Hkept Hremoved].
  destruct (release_all_pool null removed w (wf_pool w Hwf)) as (_ & _ & _ & Hitem).
  set (w1 := release_all null removed w) in *.
  set (w' := put_bucket bx by_ row kept w1) in *.
  assert (∀ a, item w' a = item w1 a) as Hput by (intros a; apply put_bucket_item).
  assert (∀ x' y' a, at_position x' y' (item w' a) = at_position x' y' (item w a)) as Hpos.
  { intros x' y' a. rewrite Hput. unfold at_position.
    destruct (release_all_position null removed w a (wf_pool w Hwf)) as [Hx Hy].
    fold w1 in Hx, Hy. by rewrite Hx, Hy. }
  assert (grid w' = with_size (_size (grid w) - Z.of_nat (length removed))
                      (with_buckets (<[bx := <[by_ := kept]> row]> (_buckets (grid w)))
                         (grid w))) as Hgrid.
  { unfold w', put_bucket, w1. cbn. by rewrite release_all_grid. }
  assert (outOfBounds (grid w') = outOfBounds (grid w)) as Hbounds by (by rewrite Hgrid).
  assert (by_ < length row)%nat as Hlt by (by eapply lookup_lt_Some).
  assert (∀ x' y' bx0 by0 bucket0,
            bucketOf x' y' w = Return (bx0, by0, bucket0) w →
            bucketOf x' y' w'
            = Return (bx0, by0,
                      if decide (bx0 = Z.of_nat bx ∧ by0 = Z.of_nat by_)
                      then kept else bucket0) w') as Hbucket_of.
  { intros x' y' bx0 by0 bucket0 Hb0.
    eapply (bucketOf_replaced w w'); try done; by rewrite Hgrid. }
  exists w', (values_at w x y bucket). split_and!.
  - apply (Hget None).
  - done.
  - by eapply wf_removeAllAt.
  - rewrite (get_ok w' x y None _ _ _ ltac:(by rewrite Hbounds) (Hbucket_of _ _ _ _ _ Hb)).
    rewrite decide_True by done. cbn. f_equal. apply values_at_nil.
    intros a Ha. rewrite Hpos. rewrite Hkept in Ha.
    by apply list_elem_of_filter in Ha as [Ha _].
  - unfold size. rewrite Hgrid. cbn. by rewrite values_at_length, <- Hremoved.
  - unfold w', put_bucket, w1. cbn. apply release_all_user.
  - intros x' y' r Hne Hget'.
    apply get_return_inv in Hget' as (Hin' & bx0 & by0 & bucket0 & Hb0 & ->).
    eexists. split.
    { apply (get_ok w' x' y' None _ _ _ ltac:(by rewrite Hbounds) (Hbucket_of _ _ _ _ _ Hb0)). }
    cbn.
    assert (∀ b, values_at w' x' y' b = values_at w x' y' b) as Hvals.
    { intros b. apply values_at_agree; [by intros; apply Hpos|].
      intros a _ Hat. rewrite Hput. f_equal. apply Hitem.
      rewrite Hremoved. intros [Hthere _]%list_elem_of_filter.
      by rewrite (at_position_apart x y x' y' _ Hne Hat) in Hthere. }
    rewrite Hvals. case_decide as Hsame; [|done].
    destruct Hsame as [-> ->].
    apply bucketOf_inv in Hb0 as (_ & _ & _ & _ & _ & row0 & Hrow0 & Hbucket0).
    rewrite !Nat2Z.id in *.
    assert (row0 = row) as -> by congruence.
    assert (bucket0 = bucket) as -> by congruence.
    rewrite (values_at_Permutation _ _ _ _ _ Hkept).
    rewrite values_at_filter; [done|].
    intros a _ Hat. by apply (at_position_apart x y x' y').
Qed.

(** X5.  On a well-formed grid, [clear] returns normally and leaves a
    well-formed grid of the same dimensions with size 0 in which [getAll]
    returns an empty array and [get] at every coordinate inside the bounds
    finds nothing; every record went back to the item pool, and, unlike
    [resize], [clear] does not call the destructor callback. *)
Theorem clear_removes_everything_silently w :
  wf w →
  ∃ w',
    clear w = Return tt w'
    ∧ wf w'
    ∧ size w' = 0%Z
    ∧ getAll w' = Return [] w'
    ∧ (∀ x y out, outOfBounds (grid w) x y = false →
         get x y out w' = Return (default [] out) w')
    ∧ gridWidth w' = gridWidth w ∧ gridHeight w' = gridHeight w
    ∧ bucketWidth w' = bucketWidth w ∧ bucketHeight w' = bucketHeight w
    ∧ available (itemPool w') = available (itemPool w) ++ allItems w
    ∧ user w' = user w.
Proof.
  intros Hwf. pose proof (clear_spec w) as Hrun.
  destruct (release_all_pool undefined (allItems w) w (wf_pool w Hwf))
    as (_ & Hav & _ & _).
  set (w1 := release_all undefined (allItems w) w) in *.
  set (w' := with_grid (with_buckets (emptied (_buckets (grid w))) (grid w1)) w1) in *.
  assert (grid w1 = with_size (_size (grid w) - Z.of_nat (length (allItems w))) (grid w))
    as Hgrid1 by apply release_all_grid.
  assert (grid w' = with_size (_size (grid w) - Z.of_nat (length (allItems w)))
                      (with_buckets (emptied (_buckets (grid w))) (grid w))) as Hgrid.
  { unfold w'. cbn. by rewrite Hgrid1. }
  assert (allItems w' = []) as Hitems.
  { unfold allItems. rewrite Hgrid. cbn. apply concat_emptied. }
  pose proof (wf_clear w w' Hwf Hrun) as Hwf'.
  exists w'. split_and!; try done.
  - unfold size. rewrite Hgrid. cbn. pose proof (wf_size w Hwf) as Hsize.
    unfold size in Hsize. lia.
  - unfold getAll, bind, gets, ret. cbn [id]. by rewrite Hitems.
  - intros x y out Hin.
    destruct (get_values w' x y Hwf' ltac:(by rewrite Hgrid))
      as (bx & by_ & row & bucket & _ & Hrow & Hbucket & Hget).
    rewrite Hget. f_equal. rewrite Hgrid in Hrow. cbn in Hrow.
    rewrite (emptied_lookup _ _ _ _ _ Hrow Hbucket). unfold values_at. cbn.
    by rewrite app_nil_r.
  - unfold gridWidth. by rewrite Hgrid.
  - unfold gridHeight. by rewrite Hgrid.
  - unfold bucketWidth. by rewrite Hgrid.
  - unfold bucketHeight. by rewrite Hgrid.
  - unfold w', w1. cbn. apply release_all_user.
Qed.
End SpatialGridRemoveAll.

Lemma removeAllAt_empties_its_coordinate_witness :
  ∃ w' found,
    SpatialGrid2D.get 1 1 None Example.w_far = Return found Example.w_far
    ∧ SpatialGrid2D.removeAllAt 1 1 Example.w_far = Return tt w'
    ∧ SpatialGrid2D.get 1 1 None w' = Return [] w'
    ∧ SpatialGrid2D.size w' = (SpatialGrid2D.size Example.w_far - Z.of_nat (length found))%Z.
Proof.
  destruct (removeAllAt_empties_its_coordinate Example.w_far 1 1 ExampleFacts.wf_w_far)
    as (w' & found & Hget & Hrun & _ & Hget' & Hsize & _).
  - vm_compute. reflexivity.
  - exists w', found. split_and!; [exact Hget | exact Hrun | exact Hget' | exact Hsize].
Defined.

Lemma clear_removes_everything_silently_witness :
  ∃ w',
    SpatialGrid2D.clear Example.w_far = Return tt w'
    ∧ SpatialGrid2D.size w' = 0%Z
    ∧ SpatialGrid2D.user w' = SpatialGrid2D.user Example.w_far.
Proof.
  destruct (clear_removes_everything_silently Example.w_far ExampleFacts.wf_w_far)
    as (w' & Hrun & _ & Hsize & _ & _ & _ & _ & _ & _ & _ & Huser).
  exists w'. split_and!; [exact Hrun | exact Hsize | exact Huser].
Defined.

(** ** The spatial grid: [getAll], [getFiltered] and [getFirst] *)

Section SpatialGridQueries.
Context {V : Type} `{JsValue V} {U : Type}.
Import SpatialGrid2D.
Implicit Types (w : World V U) (a : addr).

Lemma getAll_fold w (l : list addr) (elements : list V) :
  fold_left (λ elements a, elements ++ [item_value (item w a)]) l elements
  = elements ++ ((λ a, item_value (item w a)) <$> l).
Proof.
  revert elements. induction l as [|a l IH]; intros elements; cbn.
  - by rewrite app_nil_r.
  - by rewrite IH, <- app_assoc.
Qed.

Lemma getAll_values w :
  getAll w = Return ((λ a, item_value (item w a)) <$> allItems w) w.
Proof. unfold getAll, bind, gets, ret. cbn [id]. by rewrite getAll_fold. Qed.

(** X6.  [getAll] changes nothing and returns the values of all records in
    the order in which [forEach] visits them; on a well-formed grid their
    number is [size], and every value that [get] returns at some coordinate
    is among them. *)
Theorem getAll_returns_every_value w :
  wf w →
  ∃ values,
    getAll w = Return values w
    ∧ values = item_value <$> records w
    ∧ Z.of_nat (length values) = size w
    ∧ ∀ x y found v, get x y None w = Return found w → v ∈ found → v ∈ values.
Proof.
  intros Hwf. exists ((λ a, item_value (item w a)) <$> allItems w). split_and!.
  - apply getAll_values.
  - unfold records. by rewrite <- list_fmap_compose.
  - rewrite length_fmap. symmetry. apply (wf_size w Hwf).
  - intros x y found v Hget Hv.
    apply get_return_inv in Hget as (_ & bx & by_ & bucket & Hb & ->).
    apply bucketOf_inv in Hb as (_ & _ & _ & _ & _ & row & Hrow & Hbucket).
    cbn in Hv. apply elem_of_values_at in Hv as (a & Ha & _ & <-).
    apply (list_elem_of_fmap_2 (λ a, item_value (item w a))).
    apply elem_of_concat2. by exists (Z.to_nat bx), (Z.to_nat by_), row, bucket.
Qed.

Lemma getFiltered_fold w (keep : V → Q → Q → bool) (l : list (addr * nat * nat))
    (elements : list V) (u : U) :
  fold_left
    (λ '(elements, u) '(a, x, y),
       let '(keep, u) :=
         (λ v x y (u : U), (keep v x y, u)) (item_value (item w a)) (counter x) (counter y) u in
       (if keep then elements ++ [item_value (item w a)] else elements, u))
    l (elements, u)
  = (elements
     ++ ((λ t : addr * nat * nat, item_value (item w t.1.1))
         <$> filter (λ t : addr * nat * nat,
                       keep (item_value (item w t.1.1)) (counter t.1.2) (counter t.2) = true) l),
     u).
Proof.
  revert elements. induction l as [|[[a x] y] l IH]; intros elements.
  - cbn. by rewrite app_nil_r.
  - rewrite filter_cons. cbn [fold_left fst snd].
    destruct (keep (item_value (item w a)) (counter x) (counter y)) eqn:Hkeep.
    + rewrite IH, decide_True by done. cbn. by rewrite <- app_assoc.
    + rewrite IH, decide_False by done. done.
Qed.

Lemma getFirst_loop_head w (keep : V → Q → Q → bool) (l : list (addr * nat * nat)) (u : U) :
  getFirst_loop (λ v x y (u : U), (keep v x y, u)) w l u
  = (head ((λ t : addr * nat * nat, item_value (item w t.1.1))
           <$> filter (λ t : addr * nat * nat,
                         keep (item_value (item w t.1.1)) (counter t.1.2) (counter t.2) = true) l),
     u).
Proof.
  induction l as [|[[a x] y] l IH]; [done|].
  rewrite filter_cons. cbn [getFirst_loop fst snd].
  destruct (keep (item_value (item w a)) (counter x) (counter y)) eqn:Hkeep.
  - by rewrite decide_True by done.
  - by rewrite decide_False by done.
Qed.

(** X7.  For a predicate that only inspects its arguments, [getFiltered]
    and [getFirst] change nothing; [getFiltered] returns, in traversal order,
    the values of the records whose value and bucket indices the predicate
    accepts, and [getFirst] returns the first element of that array, or
    [undefined] when it is empty.  With a predicate that accepts everything
    [getFiltered] returns what [getAll] returns. *)
Theorem getFirst_is_head_of_getFiltered (keep : V → Q → Q → bool) w :
  let callback := λ v x y (u : U), (keep v x y, u) in
  let accepted :=
    (λ t : addr * nat * nat, item_value (item w t.1.1))
    <$> filter (λ t : addr * nat * nat,
                  keep (item_value (item w t.1.1)) (counter t.1.2) (counter t.2) = true)
               (indexedItems w) in
  getFiltered callback w = Return accepted w
  ∧ getFirst callback w = Return (head accepted) w
  ∧ ∀ values, getAll w = Return values w →
      getFiltered (λ _ _ _ (u : U), (true, u)) w = Return values w.
Proof.
  cbn zeta. split_and!.
  - unfold getFiltered. rewrite (getFiltered_fold w keep). by destruct w.
  - unfold getFirst. rewrite (getFirst_loop_head w keep). by destruct w.
  - intros values. rewrite getAll_values. intros [= <-].
    unfold getFiltered. rewrite (getFiltered_fold w (λ _ _ _, true)).
    unfold with_user. rewrite world_eta. cbn [app]. f_equal.
    assert (∀ l : list (addr * nat * nat),
              filter (λ _ : addr * nat * nat, true = true) l = l) as ->.
    { induction l as [|t l IH]; [done|]. by rewrite filter_cons_True, IH. }
    unfold allItems. rewrite <- (indexed_rows id (_buckets (grid w))).
    by rewrite <- list_fmap_compose.
Qed.
End SpatialGridQueries.

Lemma getAll_returns_every_value_witness :
  ∃ values,
    SpatialGrid2D.getAll Example.w_far = Return values Example.w_far
    ∧ Z.of_nat (length values) = SpatialGrid2D.size Example.w_far.
Proof.
  destruct (getAll_returns_every_value Example.w_far ExampleFacts.wf_w_far)
    as (values & Hrun & _ & Hsize & _).
  exists values. split; [exact Hrun | exact Hsize].
Defined.

(** ** The spatial grid: [insertAt] undone by [removeAt] *)

Section SpatialGridRoundTrip.
Context {V : Type} `{JsValue V} {U : Type}.
Import SpatialGrid2D.
Implicit Types (w : World V U) (a : addr).

Lemma swap_loop_step (matches : Item V → bool) c r (bucket : list addr) i itemFound w a :
  bucket !! i = Some a →
  swap_loop matches c (S r) bucket i itemFound w
  = if matches (item w a)
    then
      swap_loop matches c r
        (match bucket !! (i + r)%nat with
         | Some last => <[i := last]> bucket
         | None => bucket
         end) i true (release_one c w a)
    else swap_loop matches c r bucket (S i) itemFound w.
Proof. intros Hlookup. cbn [swap_loop]. by rewrite Hlookup. Qed.

(** The loop on a bucket whose only matching record is the last one: the
    array is left as it is and the live part loses its last slot. *)
Lemma swap_loop_last (matches : Item V → bool) c (pre : list addr) a d i itemFound w :
  (i + d = length pre)%nat →
  (∀ a', a' ∈ pre → matches (item w a') = false) →
  matches (item w a) = true →
  swap_loop matches c (S d) (pre ++ [a]) i itemFound w
  = Return (pre ++ [a], length pre, true) (release_one c w a).
Proof.
  intros Hlen Hpre Ha. revert i itemFound Hlen.
  induction d as [|d IH]; intros i itemFound Hlen.
  - assert (i = length pre) as -> by lia.
    assert ((pre ++ [a]) !! length pre = Some a) as Hlast
      by (by rewrite lookup_app_r, Nat.sub_diag).
    rewrite (swap_loop_step _ _ _ _ _ _ _ a Hlast), Ha, Nat.add_0_r, Hlast.
    by rewrite list_insert_id.
  - destruct (lookup_lt_is_Some_2 pre i) as [a' Ha']; [lia|].
    rewrite (swap_loop_step _ _ _ _ _ _ _ a') by (by rewrite lookup_app_l by lia).
    rewrite (Hpre a') by (by eapply list_elem_of_lookup_2).
    apply IH. lia.
Qed.

(** X8.  On a well-formed grid, inserting a value at a coordinate inside
    the bounds where it is not stored yet and removing it again with
    [removeAt] restores the grid: both calls return normally, the bucket
    array and [size] are exactly what they were, the records of the grid
    are unchanged, so that every [get] returns exactly what it returned
    before, and no callback has been called. *)
Theorem insertAt_then_removeAt_restores w x y v found :
  wf w → outOfBounds (grid w) x y = false →
  get x y None w = Return found w → v ∉ found →
  ∃ w1 w2,
    insertAt x y v w = Return tt w1
    ∧ removeAt x y v w1 = Return tt w2
    ∧ grid w2 = grid w
    ∧ user w2 = user w
    ∧ (∀ a, a ∈ allItems w → item w2 a = item w a)
    ∧ ∀ x' y' out r, get x' y' out w = Return r w → get x' y' out w2 = Return r w2.
Proof.
  intros Hwf Hin Hget Hv.
  destruct (insertAt_wf_spec w x y v Hwf Hin)
    as (a & bx & by_ & row & bucket & w1 & Hrun & Hfresh & Ha & Hold & Hrow & Hbucket
        & Hbx & Hby & Hgrid1).
  destruct (insertAt_ok w x y v (wf_pool w Hwf) (wf_shape w Hwf) Hin)
    as (a2 & k & bx2 & by2 & row2 & bucket2 & w1' & Hrun2 & Hpool1 & _ & _ & _ & _ & _ & _ & _
        & _ & _ & Huser1).
  assert (w1' = w1) as -> by congruence. clear a2 k bx2 by2 row2 bucket2 Hrun2.
  assert (by_ < length row)%nat as Hlt by (by eapply lookup_lt_Some).
  assert (bx < length (_buckets (grid w)))%nat as Hltx by (by eapply lookup_lt_Some).
  apply get_return_inv in Hget as (_ & bx' & by' & bucket' & Hb & ->).
  assert (bucket' = bucket ∧ bx' = Z.of_nat bx ∧ by' = Z.of_nat by_) as (-> & -> & ->).
  { apply bucketOf_inv in Hb as (_ & -> & -> & _ & _ & row' & Hrow' & Hbucket').
    unfold bucketWidth, bucketHeight in *. rewrite Hbx, Hby, !Nat2Z.id in *.
    split; [congruence|done]. }
  cbn in Hv.
  assert (bucketOf x y w1 = Return (Z.of_nat bx, Z.of_nat by_, bucket ++ [a]) w1) as Hb1.
  { rewrite (bucketOf_replaced w w1 x y bx by_ row (bucket ++ [a]) _ _ _ Hrow Hlt
               ltac:(by rewrite Hgrid1) ltac:(by rewrite Hgrid1) ltac:(by rewrite Hgrid1) Hb).
    by rewrite decide_True. }
  assert (∀ a', a' ∈ bucket → is_element x y v (item w1 a') = false) as Hnone.
  { intros a' Ha'. apply not_true_iff_false.
    intros [Hat Hval]%is_element_at_position. apply Hv.
    rewrite Hold in Hat, Hval by (apply elem_of_concat2; by exists bx, by_, row, bucket).
    apply elem_of_values_at. by exists a'. }
  assert (is_element x y v (item w1 a) = true) as Hthis.
  { rewrite Ha. apply is_element_at_position. split; [apply at_position_refl|done]. }
  set (row1 := <[by_ := bucket ++ [a]]> row).
  assert (_buckets (grid w1) !! bx = Some row1) as Hrow1.
  { rewrite Hgrid1. cbn. by apply list_lookup_insert_eq. }
  set (w2 := put_bucket bx by_ row1 bucket (release_one undefined w1 a)).
  assert (removeAt x y v w1 = Return tt w2) as Hrun'.
  { unfold removeAt, bind, gets.
    replace (outOfBounds (grid w1) x y) with false by (by rewrite Hgrid1).
    rewrite Hb1. cbn -[store_bucket removeAt_loop].
    rewrite removeAt_loop_swap, length_app, Nat.add_1_r.
    rewrite (swap_loop_last _ _ bucket a (length bucket) 0) by done.
    cbn -[store_bucket release_one]. rewrite take_app_length.
    erewrite store_bucket_ok by (rewrite release_one_grid; exact Hrow1).
    done. }
  assert (grid w2 = grid w) as Hgrid2.
  { unfold w2, put_bucket. cbn -[release_one]. rewrite release_one_grid, Hgrid1.
    unfold with_size, with_buckets. cbn.
    unfold row1. rewrite list_insert_insert_eq, list_insert_insert_eq.
    rewrite (list_insert_id row), (list_insert_id (_buckets (grid w))) by done.
    replace (_size (grid w) + 1 - 1)%Z with (_size (grid w)) by lia.
    apply grid_eta. }
  assert (∀ a', a' ∈ allItems w → item w2 a' = item w a') as Hitems.
  { intros a' Ha'. unfold w2. rewrite put_bucket_item.
    destruct (release_one_pool undefined w1 a Hpool1) as (_ & _ & _ & _ & Hothers).
    rewrite Hothers; [by apply Hold|].
    intros ->. done. }
  exists w1, w2. split_and!; try done.
  - intros x' y' out r Hget'.
    apply get_return_inv in Hget' as (Hin' & bx0 & by0 & bucket0 & Hb0 & ->).
    assert (bucketOf x' y' w2 = Return (bx0, by0, bucket0) w2) as Hb2.
    { revert Hb0. unfold bucketOf, bucketWidth, bucketHeight. rewrite Hgrid2.
      destruct (index _ _) as [r0|]; [|done].
      destruct (index _ _) as [b0|]; [|done]. by intros [= -> -> ->]. }
    rewrite (get_ok w2 x' y' out _ _ _ ltac:(by rewrite Hgrid2) Hb2).
    do 2 f_equal. apply values_at_ext. intros a' Ha'. apply Hitems.
    apply bucketOf_inv in Hb0 as (_ & _ & _ & _ & _ & row0 & Hrow0 & Hbucket0).
    apply elem_of_concat2. by exists (Z.to_nat bx0), (Z.to_nat by0), row0, bucket0.
Qed.
End SpatialGridRoundTrip.

Lemma insertAt_then_removeAt_restores_witness :
  ∃ w1 w2,
    SpatialGrid2D.insertAt 1 1 (Example.Obj 4) Example.w2 = Return tt w1
    ∧ SpatialGrid2D.removeAt 1 1 (Example.Obj 4) w1 = Return tt w2
    ∧ SpatialGrid2D.grid w2 = SpatialGrid2D.grid Example.w2.
Proof.
  destruct (insertAt_then_removeAt_restores Example.w2 1 1 (Example.Obj 4)
              [Example.Obj 1; Example.Obj 2] ExampleFacts.wf_w2)
    as (w1 & w2 & Hrun1 & Hrun2 & Hgrid & _).
  - vm_compute. reflexivity.
  - apply get_result. vm_compute. reflexivity.
  - intros Hin. apply elem_of_cons in Hin as [Hin|Hin]; [discriminate|].
    apply elem_of_cons in Hin as [Hin|Hin]; [discriminate|].
    by apply not_elem_of_nil in Hin.
  - exists w1, w2. split_and!; [exact Hrun1 | exact Hrun2 | exact Hgrid].
Defined.

(** ** The checked pool and the unchecked pool *)

Section PoolRefinement.
Context {TObject : Type} `{Countable TObject} {W : Type}.
Import PoolRuns.
Implicit Types (p : SlowPool.t TObject W) (w : W).

Lemma unchecked_hydrateLoop n p w p' w' :
  SlowPool.hydrateLoop n (p, w) = Return tt (p', w') →
  FastPool.hydrateLoop n (unchecked p) w = (unchecked p', w').
Proof.
  revert p w. induction n as [|n IH]; intros p w; cbn.
  { by intros [= <- <-]. }
  change (FastPool._onHydrate (unchecked p) w) with (SlowPool._onHydrate p w).
  destruct (SlowPool._onHydrate p w) as [o w1].
  destruct (SlowPool.has _ _); [done|].
  intros Hrun. apply IH in Hrun. exact Hrun.
Qed.

Lemma unchecked_hydrate n p w p' w' :
  SlowPool.hydrate n (p, w) = Return tt (p', w') →
  FastPool.hydrate n (unchecked p) w = (unchecked p', w').
Proof. unfold SlowPool.hydrate, FastPool.hydrate. apply unchecked_hydrateLoop. Qed.

Lemma hydrateLoop_outcome n p w :
  (∃ p' w', SlowPool.hydrateLoop n (p, w) = Return tt (p', w'))
  ∨ (∃ p' w', SlowPool.hydrateLoop n (p, w) = Throw DuplicateRecordError (p', w')).
Proof.
  revert p w. induction n as [|n IH]; intros p w; cbn.
  { left. by eexists _, _. }
  destruct (SlowPool._onHydrate p w) as [o w1].
  destruct (SlowPool.has _ _).
  - right. by eexists _, _.
  - apply IH.
Qed.

(** X9.  The checked pool is the unchecked pool with checks added: whenever
    its constructor, [hydrate], [getOne] or [release] returns normally, the
    unchecked pool, started in the same state without the map, returns the
    same result and ends in the same state without the map, after the same
    callback calls.  The checks are the only difference: [hydrate], [getOne]
    and the constructor otherwise throw the duplicate-record error, and
    [release] otherwise throws the invalid-release error and changes
    nothing. *)
Theorem checked_pool_refines_unchecked p w :
  (∀ n,
     (∃ p' w', SlowPool.hydrate n (p, w) = Return tt (p', w')
               ∧ FastPool.hydrate n (unchecked p) w = (unchecked p', w'))
     ∨ (∃ s, SlowPool.hydrate n (p, w) = Throw DuplicateRecordError s))
  ∧ ((∃ o p' w', SlowPool.getOne (p, w) = Return o (p', w')
                 ∧ FastPool.getOne (unchecked p) w = (o, unchecked p', w'))
     ∨ (∃ s, SlowPool.getOne (p, w) = Throw DuplicateRecordError s))
  ∧ (∀ o,
       (∃ p' w', SlowPool.release o (p, w) = Return tt (p', w')
                 ∧ FastPool.release o (unchecked p) w = (unchecked p', w'))
       ∨ SlowPool.release o (p, w) = Throw InvalidReleaseError (p, w))
  ∧ (∀ onHydrate onRelease config,
       (∃ p' w', SlowPool.new onHydrate onRelease config w = Return tt (p', w')
                 ∧ FastPool.new onHydrate onRelease config w = (unchecked p', w'))
       ∨ (∃ s, SlowPool.new onHydrate onRelease config w = Throw DuplicateRecordError s)).
Proof.
  assert (∀ n p w,
    (∃ p' w', SlowPool.hydrate n (p, w) = Return tt (p', w')
              ∧ FastPool.hydrate n (unchecked p) w = (unchecked p', w'))
    ∨ (∃ s, SlowPool.hydrate n (p, w) = Throw DuplicateRecordError s)) as Hhydrate.
  { intros n p0 w0. unfold SlowPool.hydrate.
    destruct (hydrateLoop_outcome n
                (SlowPool.with_pool (JsArray.grow (SlowPool._pool p0) n) p0) w0)
      as [(p' & w' & Hrun)|(p' & w' & Hrun)].
    - left. exists p', w'. split; [done|]. by apply unchecked_hydrateLoop in Hrun.
    - right. by exists (p', w'). }
  split_and!.
  - intros n. apply Hhydrate.
  - unfold SlowPool.getOne, FastPool.getOne, bind.
    change (FastPool._indexInPool (unchecked p)) with (SlowPool._indexInPool p).
    change (FastPool._config (unchecked p)) with (SlowPool._config p).
    destruct (SlowPool._indexInPool p =? 0)%Z.
    + destruct (Hhydrate (cfg_autoHydrateSize (SlowPool._config p)) p w)
        as [(p' & w' & -> & ->)|[s ->]]; [left|right; by exists s].
      by eexists _, _, _.
    + left. by eexists _, _, _.
  - intros o. unfold SlowPool.release, FastPool.release.
    destruct (negb _); [by right|]. destruct (bool_decide _); [by right|].
    left. by eexists _, _.
  - intros onHydrate onRelease config. unfold SlowPool.new, FastPool.new.
    apply (Hhydrate _ (SlowPool.mk 0 ∅ JsArray.empty onHydrate onRelease (withDefaults config))).
Qed.
End PoolRefinement.

(** ** The checked pool: which releases it accepts *)

Section PoolHandedOut.
Context {TObject : Type} `{Countable TObject} {W : Type}.
Import PoolRuns SlowPool.
Implicit Types (p : SlowPool.t TObject W) (w : W) (handed : gset TObject).

Lemma handedOut_hydrateLoop n p w handed r p' w' :
  handedOut p handed →
  hydrateLoop n (p, w) = r →
  r = Return tt (p', w') ∨ (∃ e, r = Throw e (p', w')) →
  handedOut p' handed.
Proof.
  revert p w. induction n as [|n IH]; intros p w Hh; cbn.
  { intros <- [[= <- <-]|[e [=]]]. done. }
  destruct (_onHydrate p w) as [o w1].
  destruct (has (_isAvailableMap p) (Some o)) eqn:Hhas.
  { intros <- [[=]|[e [= _ <- <-]]]. done. }
  apply IH. intros o'. cbn. rewrite lookup_insert.
  destruct (decide (Some o = Some o')) as [[= <-]|Hne]; [|apply Hh].
  split; [done|]. intros Hin. apply Hh in Hin.
  assert (has (_isAvailableMap p) (Some o) = true) as Hhas'
    by (apply SlowPoolFacts.has_lookup; by rewrite Hin).
  congruence.
Qed.

Lemma handedOut_hydrate n p w handed p' w' :
  handedOut p handed →
  hydrate n (p, w) = Return tt (p', w') ∨ (∃ e, hydrate n (p, w) = Throw e (p', w')) →
  handedOut p' handed.
Proof.
  intros Hh Hrun. unfold hydrate in Hrun.
  eapply (handedOut_hydrateLoop n (with_pool (JsArray.grow (_pool p) n) p) w); [done..].
Qed.

(** X10.  In a checked pool whose map marks [false] exactly the objects
    [handed]: [release] of an object of [handed] returns normally, stores the
    object, calls the release callback once and leaves the marks as they
    are; [release] of any other object throws the invalid-release error and
    changes nothing; [getOne] marks the object it returns, so that the
    object joins [handed]; and [hydrate] leaves [handed] as it is, whether
    it returns or throws.  A pool fresh from its constructor has nothing
    marked.  So the checked pool accepts the release of exactly the objects
    it has handed out at some time since its construction, whether or not
    they were released since. *)
Theorem release_accepts_what_was_handed_out p w handed :
  handedOut p handed →
  (∀ o, o ∈ handed →
     ∃ p', release o (p, w)
           = Return tt (p', match _onRelease p with
                            | Some onRelease => onRelease o w
                            | None => w
                            end)
           ∧ _indexInPool p' = (_indexInPool p + 1)%Z
           ∧ JsArray.get (_pool p') (_indexInPool p) = Some o
           ∧ handedOut p' handed)
  ∧ (∀ o, o ∉ handed → release o (p, w) = Throw InvalidReleaseError (p, w))
  ∧ (∀ o p' w', getOne (p, w) = Return o (p', w') →
       handedOut p' (match o with Some o => handed ∪ {[o]} | None => handed end))
  ∧ (∀ n p' w',
       hydrate n (p, w) = Return tt (p', w') ∨ (∃ e, hydrate n (p, w) = Throw e (p', w')) →
       handedOut p' handed)
  ∧ (∀ onHydrate onRelease config p' w',
       new onHydrate onRelease config w = Return tt (p', w') → handedOut p' ∅).
Proof.
  intros Hh. split_and!.
  - intros o Ho. apply Hh in Ho. unfold release.
    assert (has (_isAvailableMap p) (Some o) = true) as ->
      by (apply SlowPoolFacts.has_lookup; by rewrite Ho).
    cbn. rewrite bool_decide_eq_false_2 by (by rewrite Ho).
    eexists. split; [reflexivity|]. cbn. split_and!; try done.
    unfold JsArray.get, JsArray.set. cbn. by rewrite lookup_insert_eq.
  - intros o Ho. unfold release.
    destruct (has (_isAvailableMap p) (Some o)) eqn:Hhas; [|done]. cbn.
    apply SlowPoolFacts.has_lookup in Hhas as [b Hb].
    destruct b; [by rewrite bool_decide_eq_true_2|].
    exfalso. apply Ho, Hh, Hb.
  - intros o p' w'. unfold getOne, bind.
    assert (∀ p1 w1, handedOut p1 handed →
              (let i := (_indexInPool p1 - 1)%Z in
               let object := JsArray.get (_pool p1) i in
               let p2 := with_index i p1 in
               let p3 := with_map (<[object := false]> (_isAvailableMap p2)) p2 in
               Return (S := t TObject W * W) object (p3, w1)) = Return o (p', w') →
              handedOut p' (match o with Some o => handed ∪ {[o]} | None => handed end))
      as Htake.
    { intros p1 w1 Hh1. cbn zeta. intros [= <- <- <-]. intros o'. cbn.
      destruct (JsArray.get (_pool p1) (_indexInPool p1 - 1)) as [o|].
      - rewrite lookup_insert. destruct (decide (Some o = Some o')) as [[= <-]|Hne].
        + split; [|done]. intros _. apply elem_of_union. right.
          by apply elem_of_singleton.
        + pose proof (Hh1 o') as Ho'. rewrite elem_of_union, elem_of_singleton.
          split; [intros Hf; left; by apply Ho'|].
          intros [Hin| ->]; [by apply Ho'|done].
      - rewrite lookup_insert_ne by done. apply Hh1. }
    destruct (_indexInPool p =? 0)%Z.
    + destruct (hydrate _ (p, w)) as [[] [p1 w1]|e s|] eqn:Hrun; [|done..].
      apply Htake. eapply handedOut_hydrate; [done|]. left. exact Hrun.
    + by apply Htake.
  - intros n p' w'. by apply handedOut_hydrate.
  - intros onHydrate onRelease config p' w' Hrun. unfold new in Hrun.
    eapply (handedOut_hydrate _
              (mk 0 ∅ JsArray.empty onHydrate onRelease (withDefaults config)) w ∅);
      [|left; exact Hrun].
    intros o. cbn. rewrite lookup_empty. set_solver.
Qed.
End PoolHandedOut.

Lemma release_accepts_what_was_handed_out_witness :
  let p := SlowPool.mk 0 {[Some 0%nat := false]} (JsArray.mk {[0%Z := 0%nat]} 1)
             (counting (λ k : nat, k)) None (withDefaults None) in
  SlowPool.release 5%nat (p, 1%nat) = Throw InvalidReleaseError (p, 1%nat)
  ∧ ∃ p', SlowPool.release 0%nat (p, 1%nat) = Return tt (p', 1%nat).
Proof.
  intros p.
  destruct (release_accepts_what_was_handed_out p 1%nat {[0%nat]})
    as (Haccept & Hrefuse & _).
  - intros o. rewrite elem_of_singleton. cbn.
    destruct (decide (o = 0%nat)) as [->|Hne].
    + by rewrite lookup_singleton_eq.
    + rewrite lookup_singleton_ne by congruence. done.
  - split.
    + apply Hrefuse. rewrite elem_of_singleton. discriminate.
    + destruct (Haccept 0%nat) as (p' & Hrun & _); [by apply elem_of_singleton|].
      exists p'. exact Hrun.
Defined.

(** ** The unchecked pool: which objects [getOne] hands out *)

Section FastPoolOrder.
Context {TObject : Type} (factory : nat → TObject).
Import PoolRuns FastPool.
Implicit Types (p : FastPool.t TObject nat) (k : nat).

Lemma hydrateLoop_slots n p k :
  _onHydrate p = counting factory →
  (0 ≤ _indexInPool p)%Z →
  (∀ i : nat, (i < n)%nat →
     JsArray.get (_pool (hydrateLoop n p k).1) (_indexInPool p + Z.of_nat i)
     = Some (factory (k + i)%nat))
  ∧ (∀ z, (z < _indexInPool p)%Z →
       JsArray.get (_pool (hydrateLoop n p k).1) z = JsArray.get (_pool p) z)
  ∧ ((_indexInPool p + Z.of_nat n ≤ JsArray.length (_pool p))%Z →
     JsArray.length (_pool (hydrateLoop n p k).1) = JsArray.length (_pool p)).
Proof.
  revert p k. induction n as [|n IH]; intros p k Hf Hi.
  { cbn. split_and!; [lia|done..]. }
  cbn [hydrateLoop]. rewrite Hf. cbn [counting].
  destruct (IH (store (factory k) p) (S k) Hf) as (Hnew & Hold & Hlen); [cbn; lia|].
  cbn [store with_index with_pool _indexInPool _pool] in Hnew, Hold, Hlen.
  split_and!.
  - intros [|i] Hlt.
    + rewrite Z.add_0_r, Nat.add_0_r, Hold by lia.
      unfold JsArray.get, JsArray.set. cbn. by rewrite lookup_insert_eq.
    + replace (_indexInPool p + Z.of_nat (S i))%Z
        with (_indexInPool p + 1 + Z.of_nat i)%Z by lia.
      rewrite Hnew by lia. f_equal. f_equal. lia.
  - intros z Hz. rewrite Hold by lia.
    unfold JsArray.get, JsArray.set. cbn. rewrite lookup_insert_ne by lia. done.
  - intros Hfit. rewrite Hlen.
    + unfold JsArray.set. cbn. destruct (Z.leb_spec 0 (_indexInPool p)); lia.
    + unfold JsArray.set. cbn. destruct (Z.leb_spec 0 (_indexInPool p)); lia.
Qed.

Lemma hydrate_slots n p k :
  _onHydrate p = counting factory →
  (0 ≤ _indexInPool p)%Z →
  (∀ i : nat, (i < n)%nat →
     JsArray.get (_pool (hydrate n p k).1) (_indexInPool p + Z.of_nat i)
     = Some (factory (k + i)%nat))
  ∧ (∀ z, (z < _indexInPool p)%Z →
       JsArray.get (_pool (hydrate n p k).1) z = JsArray.get (_pool p) z)
  ∧ ((_indexInPool p ≤ JsArray.length (_pool p))%Z →
     JsArray.length (_pool (hydrate n p k).1)
     = (JsArray.length (_pool p) + Z.of_nat n)%Z).
Proof.
  intros Hf Hi. unfold hydrate.
  destruct (hydrateLoop_slots n (with_pool (JsArray.grow (_pool p) n) p) k Hf Hi)
    as (Hnew & Hold & Hlen).
  split; [exact Hnew|]. split; [exact Hold|].
  intros Hfit. cbn in Hlen. rewrite Hlen by lia. done.
Qed.

(** As long as objects are available, [getOne] takes them from the top
    slot down and nothing else changes. *)
Lemma getOnes_available {W} j (p : FastPool.t TObject W) (w : W) :
  (Z.of_nat j ≤ _indexInPool p)%Z →
  getOnes j p w
  = ((λ i : nat, JsArray.get (_pool p) (_indexInPool p - 1 - Z.of_nat i)) <$> seq 0 j,
     with_index (_indexInPool p - Z.of_nat j) p, w).
Proof.
  revert p. induction j as [|j IH]; intros p Hj.
  { cbn. rewrite Z.sub_0_r. by destruct p. }
  cbn [getOnes]. unfold getOne.
  destruct (Z.eqb_spec (_indexInPool p) 0) as [?|_]; [lia|].
  rewrite IH by (cbn; lia). cbn [with_index _indexInPool _pool seq fmap list_fmap].
  rewrite Z.sub_0_r.
  assert (((λ i : nat, JsArray.get (_pool p) (_indexInPool p - 1 - 1 - Z.of_nat i))
             <$> seq 0 j)
          = (λ i : nat, JsArray.get (_pool p) (_indexInPool p - 1 - Z.of_nat i))
              <$> seq 1 j) as ->.
  { rewrite <- fmap_S_seq, <- list_fmap_compose.
    apply list_fmap_ext. intros _ i _. cbn. f_equal. lia. }
  unfold with_index. cbn.
  by replace (_indexInPool p - 1 - Z.of_nat j)%Z
    with (_indexInPool p - Z.pos (Pos.of_succ_nat j))%Z by lia.
Qed.

(** X11.  A pool fresh from its constructor, built on a factory whose calls
    are counted, hands out the objects the constructor made, the last made
    first: for [j] up to the initial size [n], the [j] first [getOne] calls
    return the objects of the factory calls number [k0 + n - 1] down to
    [k0 + n - j], without calling the factory; afterwards [availableObjects]
    is [n - j], [usedObjects] is [j] and [totalObjects] is [n]. *)
Theorem getOne_hands_out_last_made_first (config : option PoolConfig) (k0 : nat)
    (onRelease : option (@PoolReleaseCallback TObject nat)) (j : nat) :
  let n := cfg_initialSize (withDefaults config) in
  (j ≤ n)%nat →
  ∃ p p',
    new (counting factory) onRelease config k0 = (p, (k0 + n)%nat)
    ∧ getOnes j p (k0 + n)%nat
      = ((λ i : nat, Some (factory (k0 + n - 1 - i)%nat)) <$> seq 0 j, p', (k0 + n)%nat)
    ∧ availableObjects p' = (Z.of_nat n - Z.of_nat j)%Z
    ∧ usedObjects p' = Z.of_nat j
    ∧ totalObjects p' = Z.of_nat n.
Proof.
  intros n Hj. subst n. unfold new. revert Hj.
  generalize (withDefaults config). intros c.
  generalize (cfg_initialSize c). intros n Hj.
  set (p0 := mk 0 JsArray.empty (counting factory) onRelease c).
  pose proof (FastPoolFacts.hydrate_calls factory n p0 k0 eq_refl) as Hk.
  destruct (FastPoolFacts.hydrate_fields n p0 k0) as (Hi & _).
  destruct (hydrate_slots n p0 k0 eq_refl ltac:(done)) as (Hnew & _ & Hlen).
  destruct (hydrate n p0 k0) as [p k]. cbn [fst snd] in *. subst k.
  subst p0. cbn in Hi, Hnew, Hlen. specialize (Hlen ltac:(lia)).
  assert (∀ i : nat, (i < n)%nat →
            JsArray.get (_pool p) (Z.of_nat i) = Some (factory (k0 + i)%nat)) as Hslots.
  { intros i Hlt. rewrite <- (Hnew i Hlt). f_equal. }
  exists p, (with_index (_indexInPool p - Z.of_nat j) p).
  split; [done|].
  rewrite (getOnes_available j p) by lia.
  split_and!.
  - f_equal. f_equal. apply list_fmap_ext. intros pos i [-> Hi']%lookup_seq.
    cbn [Nat.add].
    replace (_indexInPool p - 1 - Z.of_nat pos)%Z with (Z.of_nat (n - 1 - pos)) by lia.
    rewrite Hslots by lia. f_equal. f_equal. lia.
  - unfold availableObjects. cbn. lia.
  - unfold usedObjects, totalObjects, availableObjects. cbn. lia.
  - unfold totalObjects. cbn. lia.
Qed.

(** Whatever number of [getOne] calls: the objects come from distinct
    factory calls. *)
Lemma getOnes_distinct j p k base :
  _onHydrate p = counting factory →
  (0 < cfg_autoHydrateSize (_config p))%nat →
  (0 ≤ _indexInPool p)%Z →
  (∀ i : nat, (Z.of_nat i < _indexInPool p)%Z →
     JsArray.get (_pool p) (Z.of_nat i) = Some (factory (base + i)%nat)) →
  (Z.of_nat base + _indexInPool p ≤ Z.of_nat k)%Z →
  ∃ ids p' k',
    getOnes j p k = ((λ id, Some (factory id)) <$> ids, p', k')
    ∧ length ids = j
    ∧ NoDup ids
    ∧ (k ≤ k')%nat
    ∧ ∀ id, id ∈ ids →
        (Z.of_nat base ≤ Z.of_nat id < Z.of_nat base + _indexInPool p)%Z
        ∨ (k ≤ id < k')%nat.
Proof.
  revert p k base. induction j as [|j IH]; intros p k base Hf Hm Hi Hslots Hk.
  { exists [], p, k. split_and!; [done|done|constructor|done|].
    intros id Hin. by apply not_elem_of_nil in Hin. }
  cbn [getOnes]. unfold getOne.
  destruct (Z.eqb_spec (_indexInPool p) 0) as [Hz|Hnz].
  - set (m := cfg_autoHydrateSize (_config p)) in *.
    pose proof (FastPoolFacts.hydrate_calls factory m p k Hf) as Hcalls.
    destruct (FastPoolFacts.hydrate_fields m p k) as (Hi1 & Hf1 & _ & Hc1).
    destruct (hydrate_slots m p k Hf Hi) as (Hnew & _ & _).
    destruct (hydrate m p k) as [p1 k1]. cbn [fst snd] in *. subst k1.
    rewrite Hz in Hi1, Hnew. cbn in Hi1, Hnew.
    assert (∀ i : nat, (i < m)%nat →
              JsArray.get (_pool p1) (Z.of_nat i) = Some (factory (k + i)%nat)) as Hs.
    { intros i Hlt. rewrite <- (Hnew i) by lia. done. }
    assert (∀ i : nat, (Z.of_nat i < _indexInPool p1 - 1)%Z →
              JsArray.get (_pool p1) (Z.of_nat i) = Some (factory (k + i)%nat)) as Hslots1.
    { intros i Hlt. apply Hs. lia. }
    destruct (IH (with_index (_indexInPool p1 - 1) p1) (k + m)%nat k)
      as (ids & p' & k' & Hrun & Hlen & Hnd & Hle & Hrange).
    { cbn. congruence. }
    { cbn. by rewrite Hc1. }
    { cbn. lia. }
    { exact Hslots1. }
    { cbn. lia. }
    rewrite Hrun. exists ((k + m - 1)%nat :: ids), p', k'.
    split_and!.
    + cbn.
      assert (JsArray.get (_pool p1) (_indexInPool p1 - 1)
              = Some (factory (k + m - 1)%nat)) as ->; [|done].
      replace (_indexInPool p1 - 1)%Z with (Z.of_nat (m - 1)) by lia.
      rewrite Hs by lia. do 2 f_equal. lia.
    + cbn. lia.
    + constructor; [|done]. intros Hin. apply Hrange in Hin. cbn in Hin. lia.
    + lia.
    + intros id [->|Hin]%elem_of_cons; [lia|].
      apply Hrange in Hin. cbn in Hin. lia.
  - destruct (IH (with_index (_indexInPool p - 1) p) k base)
      as (ids & p' & k' & Hrun & Hlen & Hnd & Hle & Hrange).
    { done. }
    { done. }
    { cbn. lia. }
    { intros i Hlt. apply Hslots. cbn in Hlt. lia. }
    { cbn. lia. }
    rewrite Hrun.
    exists ((base + Z.to_nat (_indexInPool p - 1))%nat :: ids), p', k'.
    split_and!.
    + cbn.
      assert (JsArray.get (_pool p) (_indexInPool p - 1)
              = Some (factory (base + Z.to_nat (_indexInPool p - 1))%nat)) as ->; [|done].
      rewrite <- (Hslots (Z.to_nat (_indexInPool p - 1))) by lia. f_equal. lia.
    + cbn. lia.
    + constructor; [|done]. intros Hin. apply Hrange in Hin. cbn in Hin. lia.
    + done.
    + intros id [->|Hin]%elem_of_cons; [lia|].
      apply Hrange in Hin. cbn in Hin. lia.
Qed.

(** X12.  A pool fresh from its constructor whose automatic hydration size
    is not zero, built on a factory that returns a different object at each
    call, never hands out an object twice as long as nothing is released:
    any number [j] of [getOne] calls in a row returns [j] objects that are
    pairwise different, each of them made by a factory call of this pool. *)
Theorem getOne_never_repeats (config : option PoolConfig) (k0 : nat)
    (onRelease : option (@PoolReleaseCallback TObject nat)) (j : nat) :
  Inj (=) (=) factory →
  (0 < cfg_autoHydrateSize (withDefaults config))%nat →
  ∃ p objects p' k',
    new (counting factory) onRelease config k0
    = (p, (k0 + cfg_initialSize (withDefaults config))%nat)
    ∧ getOnes j p (k0 + cfg_initialSize (withDefaults config))%nat
      = (Some <$> objects, p', k')
    ∧ length objects = j
    ∧ NoDup objects
    ∧ ∀ o, o ∈ objects → ∃ id, (k0 ≤ id < k')%nat ∧ o = factory id.
Proof.
  intros Hinj Hm. unfold new. revert Hm.
  generalize (withDefaults config). intros c Hm.
  generalize (cfg_initialSize c). intros n.
  set (p0 := mk 0 JsArray.empty (counting factory) onRelease c).
  pose proof (FastPoolFacts.hydrate_calls factory n p0 k0 eq_refl) as Hk.
  destruct (FastPoolFacts.hydrate_fields n p0 k0) as (Hi & Hf & _ & Hc).
  destruct (hydrate_slots n p0 k0 eq_refl ltac:(done)) as (Hnew & _ & _).
  destruct (hydrate n p0 k0) as [p k]. cbn [fst snd] in *. subst k.
  subst p0. cbn in Hi, Hnew, Hf, Hc.
  destruct (getOnes_distinct j p (k0 + n)%nat k0)
    as (ids & p' & k' & Hrun & Hlen & Hnd & Hle & Hrange); try done; try lia.
  { by rewrite Hc. }
  { intros i Hlt. apply Hnew. lia. }
  exists p, (factory <$> ids), p', k'. split_and!.
  - done.
  - rewrite Hrun. by rewrite <- list_fmap_compose.
  - by rewrite length_fmap.
  - by apply (NoDup_fmap_2 factory).
  - intros o (id & -> & Hid)%list_elem_of_fmap. exists id. split; [|done].
    apply Hrange in Hid. lia.
Qed.
End FastPoolOrder.

Lemma getOne_hands_out_last_made_first_witness :
  ∃ p p',
    FastPool.new (counting (λ k : nat, k)) None
      (Some {| initialSize := Some 3%nat; autoHydrateSize := None |}) 0%nat
    = (p, 3%nat)
    ∧ PoolRuns.getOnes 2 p 3%nat = ([Some 2%nat; Some 1%nat], p', 3%nat).
Proof.
  destruct (getOne_hands_out_last_made_first (λ k : nat, k)
              (Some {| initialSize := Some 3%nat; autoHydrateSize := None |})
              0%nat None 2%nat) as (p & p' & Hnew & Hrun & _).
  - cbn. lia.
  - exists p, p'. split; [exact Hnew | exact Hrun].
Defined.

Lemma getOne_never_repeats_witness :
  ∃ p objects p' k',
    FastPool.new (counting (λ k : nat, k)) None
      (Some {| initialSize := Some 1%nat; autoHydrateSize := Some 2%nat |}) 0%nat
    = (p, 1%nat)
    ∧ PoolRuns.getOnes 4 p 1%nat = (Some <$> objects, p', k')
    ∧ NoDup objects.
Proof.
  destruct (getOne_never_repeats (λ k : nat, k)
              (Some {| initialSize := Some 1%nat; autoHydrateSize := Some 2%nat |})
              0%nat None 4%nat) as (p & objects & p' & k' & Hnew & Hrun & _ & Hnd & _).
  - intros a b Hab. exact Hab.
  - cbn. lia.
  - exists p, objects, p', k'. split_and!; [exact Hnew | exact Hrun | exact Hnd].
Defined.

(** ** The unchecked pool: a stack of released objects *)

Section FastPoolStack.
Context {TObject W : Type}.
Import PoolRuns FastPool.
Implicit Types (p : FastPool.t TObject W) (w : W).

Lemma releases_cons o (objects : list TObject) p w :
  releases (o :: objects) p w
  = releases objects (store o p)
      (match _onRelease p with
       | Some onRelease => onRelease o w
       | None => w
       end).
Proof. reflexivity. Qed.

Lemma releases_slots (objects : list TObject) p w :
  (0 ≤ _indexInPool p)%Z →
  _indexInPool (releases objects p w).1 = (_indexInPool p + Z.of_nat (length objects))%Z
  ∧ (∀ i o, objects !! i = Some o →
       JsArray.get (_pool (releases objects p w).1) (_indexInPool p + Z.of_nat i) = Some o)
  ∧ (∀ z, (z < _indexInPool p)%Z →
       JsArray.get (_pool (releases objects p w).1) z = JsArray.get (_pool p) z)
  ∧ (releases objects p w).2
    = match _onRelease p with
      | Some onRelease => fold_left (λ w o, onRelease o w) objects w
      | None => w
      end.
Proof.
  revert p w. induction objects as [|o objects IH]; intros p w Hpos.
  { cbn. split_and!; try done; try lia. by destruct (_onRelease p). }
  rewrite releases_cons.
  destruct (IH (store o p) (match _onRelease p with
                            | Some onRelease => onRelease o w
                            | None => w
                            end)) as (Hi & Hnew & Hold & Hw); [cbn; lia|].
  cbn [store with_index with_pool _indexInPool _pool _onRelease] in Hi, Hnew, Hold, Hw.
  split_and!.
  - rewrite Hi. cbn [length]. lia.
  - intros [|i] o' Hlookup.
    + assert (o' = o) as -> by (by injection Hlookup).
      rewrite Z.add_0_r, Hold by lia.
      unfold JsArray.get, JsArray.set. cbn. by rewrite lookup_insert_eq.
    + replace (_indexInPool p + Z.of_nat (S i))%Z
        with (_indexInPool p + 1 + Z.of_nat i)%Z by lia.
      by apply Hnew.
  - intros z Hz. rewrite Hold by lia.
    unfold JsArray.get, JsArray.set. cbn. rewrite lookup_insert_ne by lia. done.
  - rewrite Hw. by destruct (_onRelease p).
Qed.

(** X13.  The unchecked pool is a stack.  On a pool whose count of
    available objects is not negative, objects released one after the other
    come back from the next [getOne] calls in reverse order, before any
    object that was available earlier and without any call of the factory;
    the release callback has been called once for each of them, in the
    order of the releases; and afterwards as many objects are available as
    before. *)
Theorem released_objects_come_back_reversed (objects : list TObject) p w :
  (0 ≤ _indexInPool p)%Z →
  ∃ p1 p2,
    let w1 :=
      match _onRelease p with
      | Some onRelease => fold_left (λ w o, onRelease o w) objects w
      | None => w
      end in
    releases objects p w = (p1, w1)
    ∧ availableObjects p1 = (availableObjects p + Z.of_nat (length objects))%Z
    ∧ getOnes (length objects) p1 w1 = (Some <$> reverse objects, p2, w1)
    ∧ availableObjects p2 = availableObjects p.
Proof.
  intros Hpos.
  destruct (releases_slots objects p w Hpos) as (Hi & Hnew & _ & Hw).
  destruct (releases objects p w) as [p1 w1] eqn:Hrel. cbn [fst snd] in *.
  exists p1, (with_index (_indexInPool p1 - Z.of_nat (length objects)) p1).
  cbn zeta. rewrite <- Hw. split_and!.
  - done.
  - unfold availableObjects. lia.
  - rewrite getOnes_available by lia. f_equal. f_equal.
    apply list_eq. intros i. rewrite !list_lookup_fmap.
    destruct (decide (i < length objects)%nat) as [Hlt|Hge].
    + rewrite lookup_seq_lt by done. cbn.
      rewrite reverse_lookup by done.
      destruct (lookup_lt_is_Some_2 objects (length objects - S i)) as [o Ho]; [lia|].
      rewrite Ho. cbn. rewrite <- (Hnew _ _ Ho).
      by replace (_indexInPool p1 - 1 - Z.of_nat i)%Z
        with (_indexInPool p + Z.of_nat (length objects - S i))%Z by lia.
    + rewrite lookup_seq_ge by lia. cbn.
      rewrite (lookup_ge_None_2 (reverse objects)); [done|].
      rewrite length_reverse. lia.
  - unfold availableObjects. cbn. lia.
Qed.
End FastPoolStack.

Lemma released_objects_come_back_reversed_witness :
  ∃ p1 p2,
    PoolRuns.releases [7%nat; 8%nat; 9%nat]
      (FastPool.mk 0 JsArray.empty (counting (λ k : nat, k)) None (withDefaults None)) 0%nat
    = (p1, 0%nat)
    ∧ PoolRuns.getOnes 3 p1 0%nat = ([Some 9%nat; Some 8%nat; Some 7%nat], p2, 0%nat).
Proof.
  destruct (released_objects_come_back_reversed [7%nat; 8%nat; 9%nat]
              (FastPool.mk 0 JsArray.empty (counting (λ k : nat, k)) None (withDefaults None))
              0%nat) as (p1 & p2 & Hrel & _ & Hget & _).
  - cbn. lia.
  - exists p1, p2. split; [exact Hrel | exact Hget].
Defined.

(** ** The unchecked pool: automatic hydration switched off *)

Section FastPoolExhausted.
Context {TObject : Type} (factory : nat → TObject).
Import PoolRuns FastPool.

(** X14.  A pool built with an automatic hydration size of zero does not
    grow: once the [n] objects made by its constructor are handed out, the
    next [getOne] calls the factory zero times and returns [undefined];
    [availableObjects] is then [-1] and [usedObjects] exceeds
    [totalObjects]. *)
Theorem exhausted_pool_hands_out_undefined (config : option PoolConfig) (k0 : nat)
    (onRelease : option (@PoolReleaseCallback TObject nat)) :
  cfg_autoHydrateSize (withDefaults config) = 0%nat →
  let n := cfg_initialSize (withDefaults config) in
  ∃ p objects p' p'',
    new (counting factory) onRelease config k0 = (p, (k0 + n)%nat)
    ∧ getOnes n p (k0 + n)%nat = (Some <$> objects, p', (k0 + n)%nat)
    ∧ length objects = n
    ∧ getOne p' (k0 + n)%nat = (None, p'', (k0 + n)%nat)
    ∧ availableObjects p'' = (-1)%Z
    ∧ usedObjects p'' = (Z.of_nat n + 1)%Z
    ∧ totalObjects p'' = Z.of_nat n.
Proof.
  intros Hm n. subst n. unfold new. revert Hm.
  generalize (withDefaults config). intros c Hm.
  generalize (cfg_initialSize c). intros n.
  set (p0 := mk 0 JsArray.empty (counting factory) onRelease c).
  pose proof (FastPoolFacts.hydrate_calls factory n p0 k0 eq_refl) as Hk.
  destruct (FastPoolFacts.hydrate_fields n p0 k0) as (Hi & _ & _ & Hc).
  destruct (hydrate_slots factory n p0 k0 eq_refl ltac:(done)) as (Hnew & Hold & Hlen).
  destruct (hydrate n p0 k0) as [p k]. cbn [fst snd] in *. subst k.
  subst p0. cbn in Hi, Hnew, Hold, Hlen, Hc. specialize (Hlen ltac:(lia)).
  set (p' := with_index (_indexInPool p - Z.of_nat n) p).
  assert (∃ p'', getOne p' (k0 + n)%nat = (None, p'', (k0 + n)%nat)
                 ∧ _indexInPool p'' = (-1)%Z
                 ∧ JsArray.length (_pool p'') = Z.of_nat n) as (p'' & Hone & Hi'' & Hlen'').
  { unfold getOne, p'. cbn [with_index _indexInPool _config _pool].
    destruct (Z.eqb_spec (_indexInPool p - Z.of_nat n) 0) as [Hz|?]; [|lia].
    rewrite Hc, Hm. unfold hydrate. cbn [hydrateLoop with_pool with_index _indexInPool _pool].
    eexists. split; [|split].
    - f_equal. f_equal.
      replace (_indexInPool p - Z.of_nat n - 1)%Z with (-1)%Z by lia.
      change (JsArray.get (JsArray.grow (_pool p) 0) (-1))
        with (JsArray.get (_pool p) (-1)).
      rewrite Hold by lia. unfold JsArray.get. cbn. by rewrite lookup_empty.
    - cbn. lia.
    - cbn. lia. }
  exists p, ((λ i : nat, factory (k0 + n - 1 - i)%nat) <$> seq 0 n), p', p''.
  split; [done|].
  rewrite (getOnes_available n p) by lia. split_and!.
  - fold p'. f_equal. f_equal. rewrite <- list_fmap_compose.
    apply list_fmap_ext. intros pos i [-> Hlt]%lookup_seq. cbn.
    replace (_indexInPool p - 1 - Z.of_nat pos)%Z with (0 + Z.of_nat (n - 1 - pos))%Z by lia.
    rewrite Hnew by lia. do 2 f_equal. lia.
  - by rewrite length_fmap, length_seq.
  - done.
  - done.
  - unfold usedObjects, totalObjects, availableObjects. lia.
  - done.
Qed.
End FastPoolExhausted.

Lemma exhausted_pool_hands_out_undefined_witness :
  ∃ p objects p' p'',
    FastPool.new (counting (λ k : nat, k)) None
      (Some {| initialSize := Some 2%nat; autoHydrateSize := Some 0%nat |}) 0%nat
    = (p, 2%nat)
    ∧ PoolRuns.getOnes 2 p 2%nat = (Some <$> objects, p', 2%nat)
    ∧ FastPool.getOne p' 2%nat = (None, p'', 2%nat)
    ∧ FastPool.availableObjects p'' = (-1)%Z.
Proof.
  destruct (exhausted_pool_hands_out_undefined (λ k : nat, k)
              (Some {| initialSize := Some 2%nat; autoHydrateSize := Some 0%nat |})
              0%nat None) as (p & objects & p' & p'' & Hnew & Hrun & _ & Hone & Hav & _).
  - reflexivity.
  - exists p, objects, p', p''.
    split_and!; [exact Hnew | exact Hrun | exact Hone | exact Hav].
Defined.

(** ** The spatial grid: no record is lost *)

Section SpatialGridConservation.
Context {V : Type} `{JsValue V} {U : Type}.
Import SpatialGrid2D.
Implicit Types (w : World V U) (a : addr).

Lemma conserved_fresh (g : SpatialGrid2D.t V U) (u : U) gridWidth gridHeight
    bucketWidth bucketHeight config :
  new gridWidth gridHeight bucketWidth bucketHeight config = inr g →
  conserved (fresh g u).
Proof.
  intros Hnew. apply new_inv in Hnew as (_ & _ & ->).
  unfold conserved, fresh.
  destruct (itemPool_init_ok (V := V)) as (_ & Hav & Hnext).
  destruct itemPool_init as [p h]. cbn [fst snd] in Hav, Hnext.
  unfold allItems. cbn [grid itemPool heap _buckets].
  by rewrite allItems_emptyBuckets, Hav, Hnext.
Qed.

Lemma conserved_put_release w c bx by_ row bucket kept removed :
  pool_ok (itemPool w) → conserved w →
  _buckets (grid w) !! bx = Some row → row !! by_ = Some bucket →
  kept ++ removed ≡ₚ bucket →
  conserved (put_bucket bx by_ row kept (release_all c removed w)).
Proof.
  intros Hpool Hcons Hrow Hbucket Hsplit.
  destruct (release_all_pool c removed w Hpool) as (_ & Hav & Hnext & _).
  destruct (concat_insert2 _ _ _ _ _ Hrow Hbucket) as (pre & post & Hall & Hall').
  unfold conserved in *. unfold allItems in *.
  unfold put_bucket. cbn. rewrite release_all_grid. cbn.
  rewrite Hall', Hav, Hnext, <- Hcons, Hall, <- Hsplit.
  rewrite <- !app_assoc. apply Permutation_app_head, Permutation_app_head.
  rewrite (app_assoc post). apply Permutation_app_comm.
Qed.

Lemma conserved_insertAt w x y v w' :
  wf w → conserved w → insertAt x y v w = Return tt w' → conserved w'.
Proof.
  intros Hwf Hcons Hrun. pose proof (insertAt_return_inv _ _ _ _ _ Hrun) as Hin.
  destruct (insertAt_ok w x y v (wf_pool w Hwf) (wf_shape w Hwf) Hin)
    as (a & k & bx & by_ & row & bucket & w2 & Hrun2 & _ & Hav & Hnext & _ & _ & Hrow
        & Hbucket & _ & _ & Hgrid & _).
  assert (w2 = w') as -> by congruence.
  destruct (concat_insert2 _ _ _ _ _ Hrow Hbucket) as (pre & post & Hall & Hall').
  unfold conserved in *. unfold allItems in *. rewrite Hgrid. cbn.
  rewrite Hall', Hnext, seq_app, <- Hcons, Hall. cbn [Nat.add].
  rewrite <- (app_assoc _ (available (itemPool w))), <- Hav.
  rewrite <- !app_assoc. cbn [app].
  apply Permutation_app_head, Permutation_app_head.
  by rewrite (app_assoc post), <- Permutation_cons_append.
Qed.

Lemma conserved_removeAt w x y v w' :
  wf w → conserved w → removeAt x y v w = Return tt w' → conserved w'.
Proof.
  intros Hwf Hcons Hrun. pose proof (removeAt_return_inv _ _ _ _ _ Hrun) as Hin.
  destruct (bucketOf_ok w x y (wf_shape w Hwf) Hin)
    as (bx & by_ & row & bucket & Hb & Hrow & Hbucket & _).
  destruct (removeAt_spec w x y v bx by_ row bucket Hin Hb Hrow)
    as (kept & removed & Hrun' & _ & _ & Hperm).
  destruct (Hperm (wf_pool w Hwf) (wf_bucket_NoDup _ _ _ _ _ Hwf Hrow Hbucket))
    as [Hkept Hremoved].
  rewrite Hrun in Hrun'. destruct (bool_decide (removed = [])); [done|].
  injection Hrun' as ->.
  eapply conserved_put_release; try done; [apply (wf_pool w Hwf)|].
  rewrite Hkept, Hremoved. apply filter_complement_bool.
Qed.

Lemma conserved_removeAllAt w x y w' :
  wf w → conserved w → removeAllAt x y w = Return tt w' → conserved w'.
Proof.
  intros Hwf Hcons Hrun. pose proof (removeAllAt_return_inv _ _ _ _ Hrun) as Hin.
  destruct (bucketOf_ok w x y (wf_shape w Hwf) Hin)
    as (bx & by_ & row & bucket & Hb & Hrow & Hbucket & _).
  destruct (removeAllAt_spec w x y bx by_ row bucket Hin Hb Hrow)
    as (kept & removed & Hrun' & _ & Hperm).
  destruct (Hperm (wf_pool w Hwf) (wf_bucket_NoDup _ _ _ _ _ Hwf Hrow Hbucket))
    as [Hkept Hremoved].
  rewrite Hrun in Hrun'. injection Hrun' as ->.
  eapply conserved_put_release; try done; [apply (wf_pool w Hwf)|].
  rewrite Hkept, Hremoved. apply filter_complement_bool.
Qed.

Lemma conserved_clear w w' :
  wf w → conserved w → clear w = Return tt w' → conserved w'.
Proof.
  intros Hwf Hcons. rewrite clear_spec. intros [= <-].
  destruct (release_all_pool undefined (allItems w) w (wf_pool w Hwf))
    as (_ & Hav & Hnext & _).
  unfold conserved in *. unfold allItems at 1. cbn.
  rewrite concat_emptied, Hav, Hnext, <- Hcons. cbn. apply Permutation_app_comm.
Qed.

Lemma conserved_resize w gridWidth gridHeight bucketWidth bucketHeight w' :
  wf w → conserved w →
  resize gridWidth gridHeight bucketWidth bucketHeight w = Return tt w' →
  conserved w'.
Proof.
  intros Hwf Hcons Hrun. pose proof (resize_spec _ _ _ _ _ _ Hrun) as Hspec.
  unfold resized in Hspec.
  destruct Hspec as (nx & ny & nb' & destroyed & kept & _ & -> & _ & _ & _ & Hperm
                     & Hcontent).
  destruct (Hcontent (wf_pool w Hwf)) as (Hd & Hk & _).
  destruct (destroy_all_pool destroyed w (wf_pool w Hwf)) as (_ & Hav & Hnext & _).
  assert (kept ++ destroyed ≡ₚ allItems w) as Hsplit.
  { rewrite Hk, Hd. apply filter_complement_bool. }
  unfold conserved in *. unfold allItems at 1. cbn.
  rewrite Hperm, Hav, Hnext, <- Hcons, <- Hsplit.
  rewrite <- !app_assoc. apply Permutation_app_head, Permutation_app_comm.
Qed.

End SpatialGridConservation.


(** ** The spatial grid: [move] recycles a record *)

Section SpatialGridRecycling.
Context {V : Type} `{JsValue V} {U : Type}.
Import SpatialGrid2D.
Implicit Types (w : World V U) (a : addr).

(** With a record available in the pool, [insertAt] takes it and creates
    none. *)
Lemma insertAt_reuses w x y v w' :
  pool_ok (itemPool w) → (0 < FastPool._indexInPool (itemPool w))%Z →
  insertAt x y v w = Return tt w' →
  next (heap w') = next (heap w)
  ∧ FastPool._indexInPool (itemPool w') = (FastPool._indexInPool (itemPool w) - 1)%Z.
Proof.
  intros Hpool Hidx. unfold insertAt, bind, gets.
  destruct (outOfBounds (grid w) x y); [done|].
  unfold itemPool_getOne, FastPool.getOne.
  destruct (Z.eqb_spec (FastPool._indexInPool (itemPool w)) 0) as [?|_]; [lia|].
  destruct (pool_ok_pop (itemPool w) Hpool Hidx) as (a & -> & _).
  cbn -[bucketOf store_bucket].
  match goal with
  | |- context [bucketOf x y ?w1] =>
      destruct (bucketOf x y w1) as [[[bx by_] bucket] w2|e w2|] eqn:Hb; [|done..]
  end.
  apply bucketOf_inv in Hb as (-> & _).
  unfold store_bucket, size_incr, modify. cbn. by intros [= <-].
Qed.

(** X16.  On a well-formed grid a [move] that returns normally creates no
    record object: the insertion at the destination takes a record that the
    removal at the source has just released to the pool, and the pool has at
    least as many records available afterwards as before. *)
Theorem move_creates_no_record w fromX fromY toX toY v w' :
  wf w → move fromX fromY toX toY v w = Return tt w' →
  next (heap w') = next (heap w)
  ∧ (FastPool.availableObjects (itemPool w) ≤ FastPool.availableObjects (itemPool w'))%Z.
Proof.
  intros Hwf. unfold move, bind.
  destruct (removeAt fromX fromY v w) as [[] w1| |] eqn:Hrem; [|done|done].
  intros Hins.
  pose proof (wf_removeAt _ _ _ _ _ Hwf Hrem) as Hwf1.
  pose proof (removeAt_return_inv _ _ _ _ _ Hrem) as Hin.
  destruct (removeAt_wf_spec w fromX fromY v Hwf Hin)
    as (bx & by_ & row & bucket & kept & removed & _ & _ & _ & _ & _ & Hrun & _).
  rewrite Hrem in Hrun.
  destruct (bool_decide_reflect (removed = [])) as [?|Hne]; [done|].
  injection Hrun as Hw1.
  destruct (release_all_pool undefined removed w (wf_pool w Hwf)) as (_ & Hav & Hnext & _).
  assert (available (itemPool w1) = available (itemPool w) ++ removed) as Hav1.
  { rewrite Hw1. exact Hav. }
  assert (next (heap w1) = next (heap w)) as Hnext1.
  { rewrite Hw1. exact Hnext. }
  pose proof (available_length _ (wf_pool w Hwf)) as Hlen.
  pose proof (available_length _ (wf_pool w1 Hwf1)) as Hlen1.
  rewrite Hav1, length_app in Hlen1.
  assert (0 < length removed)%nat as Hpos by (destruct removed; [done|cbn; lia]).
  destruct (insertAt_reuses w1 toX toY v w' (wf_pool w1 Hwf1) ltac:(lia) Hins)
    as [Hnext' Hidx'].
  split; [congruence|]. unfold FastPool.availableObjects. lia.
Qed.
End SpatialGridRecycling.

Lemma move_creates_no_record_witness :
  ∃ w',
    SpatialGrid2D.move 1 1 7 5 (Example.Obj 1) Example.w2 = Return tt w'
    ∧ next (SpatialGrid2D.heap w') = next (SpatialGrid2D.heap Example.w2).
Proof.
  exists (after (SpatialGrid2D.move 1 1 7 5 (Example.Obj 1)) Example.w2).
  assert (SpatialGrid2D.move 1 1 7 5 (Example.Obj 1) Example.w2
          = Return tt (after (SpatialGrid2D.move 1 1 7 5 (Example.Obj 1)) Example.w2))
    as Hrun by run_call.
  split; [exact Hrun|].
  exact (proj1 (move_creates_no_record Example.w2 1 1 7 5 (Example.Obj 1) _
                  ExampleFacts.wf_w2 Hrun)).
Defined.

(** ** Counted loops *)

Section Counters.
Import Grid2D.

Lemma counter_eq n : counter n = inject_Z (Z.of_nat n).
Proof. reflexivity. Qed.

Lemma isInteger_counter n : isInteger (counter n) = true.
Proof. apply isInteger_true. by exists (Z.of_nat n). Qed.

Lemma Qfloor_counter n : Qfloor (counter n) = Z.of_nat n.
Proof. apply Qfloor_Z. Qed.

Lemma Qle_bool_counter q N x :
  q == counter N → Qle_bool q (counter x) = (N <=? x)%nat.
Proof.
  intros Hq. destruct (Nat.leb_spec N x) as [Hle|Hlt].
  - apply Qle_bool_iff. rewrite Hq. unfold counter. rewrite <- Zle_Qle. lia.
  - apply Qle_bool_gt. rewrite Hq. unfold counter. rewrite <- Zlt_Qlt. lia.
Qed.

Lemma Qltb_counter q N x :
  q == counter N → Qltb (counter x) q = (x <? N)%nat.
Proof.
  intros Hq. unfold Qltb. rewrite (Qle_bool_counter q N x Hq).
  destruct (Nat.leb_spec N x), (Nat.ltb_spec x N); done || lia.
Qed.

Lemma Qltb_counters a A b B :
  a == counter A → b == counter B → Qltb a b = (A <? B)%nat.
Proof.
  intros Ha Hb. destruct (Nat.ltb_spec A B) as [Hlt|Hle].
  - apply Qltb_lt. rewrite Ha, Hb. unfold counter. rewrite <- Zlt_Qlt. lia.
  - apply Qltb_ge. rewrite Ha, Hb. unfold counter. rewrite <- Zle_Qle. lia.
Qed.

Lemma upto_counter q N : q == counter N → upto q = seq 0 N.
Proof.
  intros Hq. unfold upto. rewrite (Qceiling_comp _ _ Hq). unfold counter.
  by rewrite Qceiling_Z, Nat2Z.id.
Qed.

Lemma Math_max_counter a A b B :
  a == counter A → b == counter B → Math_max a b == counter (Nat.max A B).
Proof.
  intros Ha Hb. unfold Math_max.
  destruct (Qle_bool a b) eqn:Hle.
  - apply Qle_bool_iff in Hle. rewrite Ha, Hb in Hle. unfold counter in Hle.
    rewrite <- Zle_Qle in Hle. rewrite Hb. by rewrite Nat.max_r by lia.
  - apply Qle_bool_gt in Hle. rewrite Ha, Hb in Hle. unfold counter in Hle.
    rewrite <- Zlt_Qlt in Hle. rewrite Ha. by rewrite Nat.max_l by lia.
Qed.

Lemma positiveInteger_counter q :
  positiveInteger q ↔ ∃ N, (0 < N)%nat ∧ q == counter N.
Proof.
  split.
  - intros (k & Hk & Hq). exists (Z.to_nat k). split; [lia|].
    unfold counter. by rewrite Z2Nat.id by lia.
  - intros (N & HN & Hq). exists (Z.of_nat N). split; [lia|done].
Qed.

(** A loop over a counter keeps an invariant that each round keeps. *)
Lemma for_each_seq {S} (I : nat → S → Prop) (body : nat → M S unit) (a n : nat) s :
  I a s →
  (∀ i s, (a ≤ i < a + n)%nat → I i s → ∃ s', body i s = Return tt s' ∧ I (Datatypes.S i) s') →
  ∃ s', for_each (seq a n) body s = Return tt s' ∧ I (a + n)%nat s'.
Proof.
  revert a s. induction n as [|n IH]; intros a s Ha Hstep.
  { exists s. rewrite Nat.add_0_r. done. }
  destruct (Hstep a s ltac:(lia) Ha) as (s1 & Hrun1 & H1).
  destruct (IH (Datatypes.S a) s1 H1) as (s' & Hrun & H').
  { intros i s2 Hi. apply Hstep. lia. }
  exists s'. cbn [seq for_each]. unfold bind. rewrite Hrun1, Hrun.
  split; [done|]. by replace (a + Datatypes.S n)%nat with (Datatypes.S a + n)%nat by lia.
Qed.

Lemma squaresOf_S W H :
  squaresOf (Datatypes.S W) H = squaresOf W H ++ ((λ y, (W, y)) <$> seq 0 H).
Proof.
  unfold squaresOf. rewrite seq_S, bind_app. cbn. by rewrite app_nil_r.
Qed.

Lemma elem_of_squaresOf W H x y :
  (x, y) ∈ squaresOf W H ↔ (x < W)%nat ∧ (y < H)%nat.
Proof.
  unfold squaresOf. rewrite list_elem_of_bind. split.
  - intros (x0 & Hy & Hx). apply list_elem_of_fmap in Hy as (y0 & [= -> ->] & Hy).
    apply elem_of_seq in Hx, Hy. lia.
  - intros [Hx Hy]. exists x. split.
    + apply list_elem_of_fmap. exists y. split; [done|]. apply elem_of_seq. lia.
    + apply elem_of_seq. lia.
Qed.
End Counters.

(** ** The dense grid: reading and writing a square *)

Section Grid2DAccess.
Context {V : Type} {HV : JsValue V} {U : Type}.
Import Grid2D.
Implicit Types (w : World V U) (g : Grid2D.t V U).

Lemma squares_get_counter (sq : JsArray.t (Column V)) x :
  squares_get sq (counter x) = JsArray.get sq (Z.of_nat x).
Proof. unfold squares_get. by rewrite isInteger_counter, Qfloor_counter. Qed.

Lemma column_get_counter (c : Column V) y :
  column_get c (counter y) = JsArray.get (elements c) (Z.of_nat y).
Proof. unfold column_get. by rewrite isInteger_counter, Qfloor_counter. Qed.

Lemma read_square w x y c :
  JsArray.get (_squares (grid w)) (Z.of_nat x) = Some c →
  read (counter x) (counter y) w = Return (square (grid w) x y) w.
Proof.
  intros Hc. unfold read, square, cell.
  by rewrite squares_get_counter, Hc, column_get_counter.
Qed.

Lemma write_square w x y v c :
  JsArray.get (_squares (grid w)) (Z.of_nat x) = Some c →
  write (counter x) (counter y) v w
  = Return tt
      (with_squares
         (put_column (_squares (grid w)) (Z.of_nat x)
            (mkColumn (JsArray.set (elements c) (Z.of_nat y) v) (others c))) w).
Proof.
  intros Hc. unfold write, column_set.
  by rewrite squares_get_counter, Hc, isInteger_counter, !Qfloor_counter.
Qed.

Lemma outOfBounds_counter g W H x y :
  grid_ok g W H →
  outOfBounds g (counter x) (counter y) = negb ((x <? W)%nat && (y <? H)%nat).
Proof.
  intros Hok. unfold outOfBounds.
  rewrite (Qle_bool_counter _ W x (ok_width g W H Hok)).
  rewrite (Qle_bool_counter _ H y (ok_height g W H Hok)).
  assert (∀ n, Qltb (counter n) 0 = false) as Hneg.
  { intros n. apply Qltb_ge. unfold counter. change 0%Q with (inject_Z 0).
    rewrite <- Zle_Qle. apply Nat2Z.is_nonneg. }
  rewrite !Hneg. cbn [orb].
  destruct (Nat.leb_spec W x), (Nat.leb_spec H y), (Nat.ltb_spec x W), (Nat.ltb_spec y H);
    done || lia.
Qed.

Lemma outOfBounds_inside g W H x y :
  grid_ok g W H → (x < W)%nat → (y < H)%nat →
  outOfBounds g (counter x) (counter y) = false.
Proof.
  intros Hok Hx Hy. rewrite (outOfBounds_counter g W H) by done.
  destruct (Nat.ltb_spec x W), (Nat.ltb_spec y H); done || lia.
Qed.

Lemma get_square w W H x y :
  grid_ok (grid w) W H → (x < W)%nat → (y < H)%nat →
  get (counter x) (counter y) w = Return (square (grid w) x y) w.
Proof.
  intros Hok Hx Hy. unfold get, bind, gets.
  rewrite (outOfBounds_inside _ W H) by done.
  destruct (ok_columns _ _ _ Hok x Hx) as (c & Hc & _).
  by eapply read_square.
Qed.

Lemma cell_put_column g x c x' y' :
  cell (mk (_width g) (_height g) (_config g) (put_column (_squares g) (Z.of_nat x) c)) x' y'
  = if decide (x' = x) then JsArray.get (elements c) (Z.of_nat y') else cell g x' y'.
Proof.
  unfold cell, put_column, JsArray.get. cbn.
  case_decide as Hx.
  - subst. by rewrite lookup_insert_eq.
  - rewrite lookup_insert_ne by lia. done.
Qed.


(** X18.  In a grid of [W] by [H], [set] at a square inside the grid
    returns normally and calls no callback; afterwards [get] at that square
    returns the element stored, [get] at every other square returns what it
    returned before, and the grid is still a grid of [W] by [H]. *)
Theorem set_then_get w W H x y v :
  grid_ok (grid w) W H → (x < W)%nat → (y < H)%nat →
  ∃ w',
    set (counter x) (counter y) v w = Return tt w'
    ∧ grid_ok (grid w') W H
    ∧ user w' = user w
    ∧ get (counter x) (counter y) w' = Return v w'
    ∧ ∀ x' y', (x' < W)%nat → (y' < H)%nat → (x', y') ≠ (x, y) →
        ∃ v', get (counter x') (counter y') w = Return v' w
              ∧ get (counter x') (counter y') w' = Return v' w'.
Proof.
  intros Hok Hx Hy.
  destruct (ok_columns _ _ _ Hok x Hx) as (c & Hc & Hlen & Hsome).
  set (c' := mkColumn (JsArray.set (elements c) (Z.of_nat y) v) (others c)).
  set (w' := with_squares (put_column (_squares (grid w)) (Z.of_nat x) c') w).
  assert (set (counter x) (counter y) v w = Return tt w') as Hrun.
  { unfold set, bind, gets. rewrite (outOfBounds_inside _ W H) by done.
    by apply write_square. }
  assert (JsArray.length (elements c') = Z.of_nat H) as Hlen'.
  { unfold c', JsArray.set. cbn. destruct (Z.leb_spec 0 (Z.of_nat y)); lia. }
  assert (∀ x' y', cell (grid w') x' y'
            = if decide (x' = x)
              then (if decide (y' = y) then Some v else cell (grid w) x' y')
              else cell (grid w) x' y') as Hcell.
  { intros x' y'. unfold w', with_squares. cbn [grid]. rewrite cell_put_column.
    case_decide as Hx'; [|done]. subst x'.
    unfold c', JsArray.set, JsArray.get. cbn. case_decide as Hy'.
    - subst. by rewrite lookup_insert_eq.
    - rewrite lookup_insert_ne by lia. unfold cell. rewrite Hc. done. }
  assert (grid_ok (grid w') W H) as Hok'.
  { destruct Hok as [Hw Hh HW HH Hlength Hcols]. split; try done.
    intros x0 Hx0. destruct (decide (x0 = x)) as [->|Hne].
    - exists c'. split_and!.
      + unfold w', with_squares, put_column, JsArray.get. cbn. by rewrite lookup_insert_eq.
      + done.
      + intros y0 Hy0. unfold c', JsArray.set, JsArray.get. cbn.
        rewrite lookup_insert. case_decide; [done|]. by apply Hsome.
    - destruct (Hcols x0 Hx0) as (c0 & Hc0 & Hrest). exists c0. split; [|done].
      unfold w', with_squares, put_column, JsArray.get. cbn.
      rewrite lookup_insert_ne by lia. done. }
  exists w'. split_and!; try done.
  - rewrite (get_square w' W H) by done. unfold square.
    by rewrite Hcell, !decide_True.
  - intros x' y' Hx' Hy' Hne. exists (square (grid w) x' y').
    rewrite (get_square w W H), (get_square w' W H) by done. split; [done|].
    unfold square. rewrite Hcell.
    case_decide; [|done]. case_decide; [|done]. congruence.
Qed.
End Grid2DAccess.

(** ** The dense grid: filling columns *)

Section Grid2DFill.
Context {V : Type} {HV : JsValue V} {U : Type}.
Import Grid2D.
Implicit Types (w s : World V U) (g : Grid2D.t V U) (c : Column V)
  (p : Grid2DValueProvider (TElement := V) (U := U)).

Lemma provided_app p l1 l2 u :
  provided p (l1 ++ l2) u
  = ((provided p l1 u).1 ++ (provided p l2 (provided p l1 u).2).1,
     (provided p l2 (provided p l1 u).2).2).
Proof.
  revert u. induction l1 as [|[x y] l1 IH]; intros u; cbn.
  { by destruct (provided p l2 u). }
  destruct (p (counter x) (counter y) u) as [v u1]. rewrite IH.
  destruct (provided p l1 u1) as [vs1 u2]. cbn.
  by destruct (provided p l2 u2).
Qed.

Lemma provided_snoc p l x y u :
  provided p (l ++ [(x, y)]) u
  = ((provided p l u).1 ++ [(p (counter x) (counter y) (provided p l u).2).1],
     (p (counter x) (counter y) (provided p l u).2).2).
Proof.
  rewrite provided_app. cbn.
  by destruct (p (counter x) (counter y) (provided p l u).2).
Qed.

Lemma provided_length p l u : length (provided p l u).1 = length l.
Proof.
  revert u. induction l as [|[x y] l IH]; intros u; cbn; [done|].
  destruct (p (counter x) (counter y) u) as [v u1]. specialize (IH u1).
  destruct (provided p l u1). cbn in *. by rewrite IH.
Qed.

(** The loop [for (y...) this._squares[x][y] = provider(x, y)] on a column
    that exists. *)
Lemma fill_column p x n s c0 :
  JsArray.get (_squares (grid s)) (Z.of_nat x) = Some c0 →
  (0 ≤ JsArray.length (elements c0))%Z →
  ∃ s' c,
    for_each (seq 0 n)
      (λ y, let! v := call_provider p x y in write (counter x) (counter y) v) s
    = Return tt s'
    ∧ same_frame s s'
    ∧ user s' = (provided p ((λ y, (x, y)) <$> seq 0 n) (user s)).2
    ∧ (∀ k, k ≠ Z.of_nat x →
         JsArray.get (_squares (grid s')) k = JsArray.get (_squares (grid s)) k)
    ∧ JsArray.length (_squares (grid s')) = JsArray.length (_squares (grid s))
    ∧ JsArray.get (_squares (grid s')) (Z.of_nat x) = Some c
    ∧ (λ y : nat, JsArray.get (elements c) (Z.of_nat y)) <$> seq 0 n
      = Some <$> (provided p ((λ y, (x, y)) <$> seq 0 n) (user s)).1
    ∧ JsArray.length (elements c) = Z.max (JsArray.length (elements c0)) (Z.of_nat n)
    ∧ (∀ k, (Z.of_nat n ≤ k)%Z →
         JsArray.get (elements c) k = JsArray.get (elements c0) k).
Proof.
  intros Hc0 Hlen0.
  pose (I := λ (y : nat) (s' : World V U),
    same_frame s s'
    ∧ user s' = (provided p ((λ y, (x, y)) <$> seq 0 y) (user s)).2
    ∧ (∀ k, k ≠ Z.of_nat x →
         JsArray.get (_squares (grid s')) k = JsArray.get (_squares (grid s)) k)
    ∧ JsArray.length (_squares (grid s')) = JsArray.length (_squares (grid s))
    ∧ ∃ c, JsArray.get (_squares (grid s')) (Z.of_nat x) = Some c
           ∧ (λ y : nat, JsArray.get (elements c) (Z.of_nat y)) <$> seq 0 y
             = Some <$> (provided p ((λ y, (x, y)) <$> seq 0 y) (user s)).1
           ∧ JsArray.length (elements c) = Z.max (JsArray.length (elements c0)) (Z.of_nat y)
           ∧ (∀ k, (Z.of_nat y ≤ k)%Z →
                JsArray.get (elements c) k = JsArray.get (elements c0) k)).
  destruct (for_each_seq I
              (λ y, let! v := call_provider p x y in write (counter x) (counter y) v)
              0 n s) as (s' & Hrun & HI).
  - unfold I, same_frame. split; [done|]. split; [done|]. split; [done|]. split; [done|].
    exists c0. split_and!; [done|done|lia|done].
  - intros y s1 Hy (Hframe & Huser & Hothers & Hlen & c & Hc & Hcells & Hclen & Hrest).
    unfold bind, call_provider.
    destruct (p (counter x) (counter y) (user s1)) as [v u1] eqn:Hp.
    rewrite (write_square _ x y v c) by done.
    eexists. split; [reflexivity|]. unfold I. cbn -[seq provided].
    split_and!.
    + done.
    + rewrite seq_S, fmap_app. cbn [fmap list_fmap Nat.add]. rewrite provided_snoc.
      cbn [fst snd]. by rewrite <- Huser, Hp.
    + intros k Hk. unfold put_column, JsArray.get. cbn.
      rewrite lookup_insert_ne by done. by apply Hothers.
    + done.
    + eexists. split; [unfold put_column, JsArray.get; cbn; by rewrite lookup_insert_eq|].
      cbn -[seq provided]. split_and!.
      * rewrite !seq_S, !fmap_app. cbn [fmap list_fmap Nat.add]. rewrite provided_snoc.
        cbn [fst snd]. rewrite fmap_app. cbn [fmap list_fmap].
        rewrite <- Huser, Hp. cbn [fst snd]. f_equal.
        -- rewrite <- Hcells. apply list_fmap_ext. intros i y0 [-> Hlt]%lookup_seq.
           unfold JsArray.get, JsArray.set. cbn. rewrite lookup_insert_ne by lia. done.
        -- unfold JsArray.get, JsArray.set. cbn. by rewrite lookup_insert_eq.
      * unfold JsArray.set. cbn. destruct (Z.leb_spec 0 (Z.of_nat y)); lia.
      * intros k Hk. unfold JsArray.get, JsArray.set. cbn.
        rewrite lookup_insert_ne by lia. apply Hrest. lia.
  - destruct HI as (Hframe & Huser & Hothers & Hlen & c & Hc & Hcells & Hclen & Hrest).
    exists s', c. by split_and!.
Qed.
End Grid2DFill.

Section Grid2DFillAll.
Context {V : Type} {HV : JsValue V} {U : Type}.
Import Grid2D.
Implicit Types (w s : World V U) (g : Grid2D.t V U) (c : Column V)
  (p : Grid2DValueProvider (TElement := V) (U := U)).

Lemma fmap_seq_Some {A} (f : nat → option A) n (vs : list A) :
  f <$> seq 0 n = Some <$> vs →
  ∀ y, (y < n)%nat → is_Some (f y) ∧ f y = vs !! y.
Proof.
  intros Heq y Hy.
  assert ((f <$> seq 0 n) !! y = (Some <$> vs) !! y) as Hy' by (by rewrite Heq).
  rewrite !list_lookup_fmap, lookup_seq_lt in Hy' by done. cbn in Hy'.
  destruct (vs !! y) as [v|]; [|done]. cbn in Hy'. injection Hy' as ->. eauto.
Qed.

Lemma same_frame_refl s : same_frame s s.
Proof. by unfold same_frame. Qed.

Lemma same_frame_trans s1 s2 s3 : same_frame s1 s2 → same_frame s2 s3 → same_frame s1 s3.
Proof. unfold same_frame. intros (? & ? & ?) (? & ? & ?). split_and!; congruence. Qed.

(** The nested loops that give every square of [Wn] columns of [Hn] squares
    a value from the provider, each column first prepared by [pre]. *)
Lemma fill_columns (outer pre : nat → M (World V U) unit) p Wn Hn s :
  (∀ x s1,
     outer x s1
     = (pre x;;;
        for_each (seq 0 Hn)
          (λ y, let! v := call_provider p x y in write (counter x) (counter y) v)) s1) →
  (0 ≤ JsArray.length (_squares (grid s)))%Z →
  (∀ x s1, (x < Wn)%nat → same_frame s s1 →
     (∀ k, (Z.of_nat x ≤ k)%Z →
        JsArray.get (_squares (grid s1)) k = JsArray.get (_squares (grid s)) k) →
     (JsArray.length (_squares (grid s)) ≤ JsArray.length (_squares (grid s1)))%Z →
     ∃ s2 c0,
       pre x s1 = Return tt s2
       ∧ same_frame s1 s2 ∧ user s2 = user s1
       ∧ JsArray.get (_squares (grid s2)) (Z.of_nat x) = Some c0
       ∧ (Z.of_nat x < JsArray.length (_squares (grid s2)))%Z
       ∧ (JsArray.length (_squares (grid s1)) ≤ JsArray.length (_squares (grid s2))
          ≤ Z.max (JsArray.length (_squares (grid s1))) (Z.of_nat x + 1))%Z
       ∧ (0 ≤ JsArray.length (elements c0) ≤ Z.of_nat Hn)%Z
       ∧ (∀ k, k ≠ Z.of_nat x →
            JsArray.get (_squares (grid s2)) k = JsArray.get (_squares (grid s1)) k)) →
  ∃ s',
    for_each (seq 0 Wn) outer s = Return tt s'
    ∧ same_frame s s'
    ∧ user s' = (provided p (squaresOf Wn Hn) (user s)).2
    ∧ (λ xy : nat * nat, cell (grid s') xy.1 xy.2) <$> squaresOf Wn Hn
      = Some <$> (provided p (squaresOf Wn Hn) (user s)).1
    ∧ (∀ x, (x < Wn)%nat →
         ∃ c, JsArray.get (_squares (grid s')) (Z.of_nat x) = Some c
              ∧ JsArray.length (elements c) = Z.of_nat Hn
              ∧ ∀ y, (y < Hn)%nat → is_Some (JsArray.get (elements c) (Z.of_nat y)))
    ∧ (∀ k, (Z.of_nat Wn ≤ k)%Z →
         JsArray.get (_squares (grid s')) k = JsArray.get (_squares (grid s)) k)
    ∧ (Z.of_nat Wn ≤ JsArray.length (_squares (grid s')))%Z
    ∧ (JsArray.length (_squares (grid s)) ≤ JsArray.length (_squares (grid s'))
       ≤ Z.max (JsArray.length (_squares (grid s))) (Z.of_nat Wn))%Z.
Proof.
  intros Houter Hnonneg Hpre.
  pose (I := λ (x : nat) (s' : World V U),
    same_frame s s'
    ∧ user s' = (provided p (squaresOf x Hn) (user s)).2
    ∧ (λ xy : nat * nat, cell (grid s') xy.1 xy.2) <$> squaresOf x Hn
      = Some <$> (provided p (squaresOf x Hn) (user s)).1
    ∧ (∀ x0, (x0 < x)%nat →
         ∃ c, JsArray.get (_squares (grid s')) (Z.of_nat x0) = Some c
              ∧ JsArray.length (elements c) = Z.of_nat Hn
              ∧ ∀ y, (y < Hn)%nat → is_Some (JsArray.get (elements c) (Z.of_nat y)))
    ∧ (∀ k, (Z.of_nat x ≤ k)%Z →
         JsArray.get (_squares (grid s')) k = JsArray.get (_squares (grid s)) k)
    ∧ (Z.of_nat x ≤ JsArray.length (_squares (grid s')))%Z
    ∧ (JsArray.length (_squares (grid s)) ≤ JsArray.length (_squares (grid s'))
       ≤ Z.max (JsArray.length (_squares (grid s))) (Z.of_nat x))%Z).
  destruct (for_each_seq I outer 0 Wn s) as (s' & Hrun & HI).
  - unfold I. split_and!; try done; try lia.
  - intros x s1 Hx (Hframe & Huser & Hcells & Hcols & Hrest & Hlong & Hgrow).
    destruct (Hpre x s1 ltac:(lia) Hframe Hrest ltac:(lia))
      as (s2 & c0 & Hrun2 & Hframe2 & Huser2 & Hc0 & Hlong2 & Hgrow2 & Hlen0 & Hothers2).
    destruct (fill_column p x Hn s2 c0 Hc0 ltac:(lia))
      as (s3 & c & Hrun3 & Hframe3 & Huser3 & Hothers3 & Hsame3 & Hc & Hcol & Hclen & _).
    exists s3. split.
    { rewrite Houter. unfold bind at 1. rewrite Hrun2. exact Hrun3. }
    assert (∀ k, k ≠ Z.of_nat x →
              JsArray.get (_squares (grid s3)) k = JsArray.get (_squares (grid s1)) k)
      as Hothers.
    { intros k Hk. by rewrite Hothers3, Hothers2. }
    unfold I. split_and!.
    + eauto using same_frame_trans.
    + rewrite squaresOf_S, provided_app. cbn [snd]. by rewrite Huser3, Huser2, Huser.
    + rewrite squaresOf_S, fmap_app, provided_app. cbn [fst]. rewrite fmap_app.
      f_equal.
      * rewrite <- Hcells. apply list_fmap_ext.
        intros i [x0 y0] Hin%list_elem_of_lookup_2. apply elem_of_squaresOf in Hin.
        unfold cell. cbn. rewrite Hothers by lia. done.
      * rewrite <- Huser, <- Huser2, <- Hcol, <- list_fmap_compose.
        apply list_fmap_ext. intros i y0 _. unfold cell. cbn. by rewrite Hc.
    + intros x0 Hx0. destruct (decide (x0 = x)) as [->|Hne].
      * exists c. split_and!; [done|lia|].
        intros y Hy. by apply (fmap_seq_Some _ _ _ Hcol y Hy).
      * destruct (Hcols x0 ltac:(lia)) as (c1 & Hc1 & Hrest1).
        exists c1. split; [|done]. rewrite Hothers by lia. done.
    + intros k Hk. rewrite Hothers by lia. apply Hrest. lia.
    + lia.
    + lia.
    + lia.
  - destruct HI as (Hframe & Huser & Hcells & Hcols & Hrest & Hlong & Hgrow).
    exists s'. cbn [Nat.add] in *. split_and!; try done; lia.
Qed.
End Grid2DFillAll.

(** ** The dense grid: construction *)

Section Grid2DConstruction.
Context {V : Type} {HV : JsValue V} {U : Type}.
Import Grid2D.
Implicit Types (w s : World V U) (g : Grid2D.t V U) (c : Column V)
  (p : Grid2DValueProvider (TElement := V) (U := U)).

Lemma Grid2D_badDimension q : badDimension q = false ↔ positiveInteger q.
Proof.
  unfold badDimension. rewrite positiveInteger_iff, orb_false_iff, negb_false_iff. done.
Qed.

Lemma squares_of_cells g l (vs : list V) :
  (λ xy : nat * nat, cell g xy.1 xy.2) <$> l = Some <$> vs →
  (λ xy : nat * nat, square g xy.1 xy.2) <$> l = vs.
Proof.
  intros Hcells.
  transitivity (default undefined <$> ((λ xy : nat * nat, cell g xy.1 xy.2) <$> l)).
  { by rewrite <- list_fmap_compose. }
  rewrite Hcells, <- list_fmap_compose. by rewrite list_fmap_id.
Qed.

Lemma for_each_ext {S A} (l : list A) (f f' : A → M S unit) (st : S) :
  (∀ a st, f a st = f' a st) → for_each l f st = for_each l f' st.
Proof.
  intros Hff. revert st. induction l as [|a l IH]; intros st; [done|].
  cbn. unfold bind. rewrite Hff. by destruct (f' a st).
Qed.

Lemma dense_new_spec (width height : Q)
    (config : Grid2DConfig V U + Grid2DValueProvider) (u : U) (W H : nat) :
  width == counter W → height == counter H → (0 < W)%nat → (0 < H)%nat →
  let config' :=
    match config with
    | inl config => config
    | inr provider => {| defaultValueProvider := provider; destructorCallback := None |}
    end in
  let values := (provided (defaultValueProvider config') (squaresOf W H) u).1 in
  ∃ g,
    new width height config u
    = Return g (provided (defaultValueProvider config') (squaresOf W H) u).2
    ∧ grid_ok g W H
    ∧ _width g = width ∧ _height g = height ∧ _config g = config'
    ∧ JsArray.length (_squares g) = Z.of_nat W
    ∧ (λ xy : nat * nat, square g xy.1 xy.2) <$> squaresOf W H = values
    ∧ ∀ x y u', (x < W)%nat → (y < H)%nat →
        get (counter x) (counter y) (mkWorld g u') = Return (square g x y) (mkWorld g u').
Proof.
  intros Hw Hh HW HH config' values.
  assert (badDimension width = false) as Hbw.
  { apply Grid2D_badDimension, positiveInteger_counter. eauto. }
  assert (badDimension height = false) as Hbh.
  { apply Grid2D_badDimension, positiveInteger_counter. eauto. }
  unfold new. rewrite Hbw, Hbh. fold config'.
  rewrite (upto_counter width W Hw), (upto_counter height H Hh).
  set (s0 := mkWorld (mk width height config' JsArray.empty) u).
  destruct (fill_columns
              (λ x, new_column x;;;
                    for_each (seq 0 H)
                      (λ y, let! v := call_provider (defaultValueProvider config') x y in
                            write (counter x) (counter y) v))
              new_column (defaultValueProvider config') W H s0)
    as (s' & Hrun & Hframe & Huser & Hcells & Hcols & Hrest & Hlong & Hbound).
  { intros x s1. reflexivity. }
  { cbn. lia. }
  - intros x s1 Hx Hframe1 Hrest1 _.
    exists (with_squares (JsArray.set (_squares (grid s1)) (Z.of_nat x) emptyColumn) s1),
      emptyColumn.
    unfold new_column, modify, same_frame, JsArray.get, JsArray.set. cbn.
    split_and!; try done; try lia.
    + by rewrite lookup_insert_eq.
    + destruct (Z.leb_spec 0 (Z.of_nat x)); lia.
    + destruct (Z.leb_spec 0 (Z.of_nat x)); lia.
    + destruct (Z.leb_spec 0 (Z.of_nat x)); lia.
    + intros k Hk. by rewrite lookup_insert_ne.
  - assert (grid_ok (grid s') W H) as Hok.
    { destruct Hframe as (Hfw & Hfh & _). split; try done.
      - by rewrite Hfw.
      - by rewrite Hfh. }
    assert (JsArray.length (_squares (grid s')) = Z.of_nat W) as Hexact.
    { cbn in Hbound. lia. }
    exists (grid s'). unfold constructing. fold s0. rewrite Hrun.
    destruct Hframe as (Hfw & Hfh & Hfc).
    split_and!; try done.
    + by rewrite Huser.
    + by apply squares_of_cells.
    + intros x y u' Hx Hy. by apply (get_square (mkWorld (grid s') u') W H).
Qed.

(** X19.  The constructor of the dense grid, given a width [W] and a height
    [H] that are integers from 1 on, returns a grid of these dimensions in
    which every square holds the value the provider returned for it: the
    provider is called once for each square with the coordinates of the
    square, column after column, and [get] at a square returns that value.
    A provider given in place of a configuration is taken as the
    configuration without destructor callback. *)
Theorem new_fills_every_square (width height : Q)
    (config : Grid2DConfig V U + Grid2DValueProvider) (u : U) (W H : nat) :
  width == counter W → height == counter H → (0 < W)%nat → (0 < H)%nat →
  let config' :=
    match config with
    | inl config => config
    | inr provider => {| defaultValueProvider := provider; destructorCallback := None |}
    end in
  let values := (provided (defaultValueProvider config') (squaresOf W H) u).1 in
  ∃ g,
    new width height config u
    = Return g (provided (defaultValueProvider config') (squaresOf W H) u).2
    ∧ grid_ok g W H
    ∧ _width g = width ∧ _height g = height ∧ _config g = config'
    ∧ JsArray.length (_squares g) = Z.of_nat W
    ∧ (λ xy : nat * nat, square g xy.1 xy.2) <$> squaresOf W H = values
    ∧ ∀ x y u', (x < W)%nat → (y < H)%nat →
        get (counter x) (counter y) (mkWorld g u') = Return (square g x y) (mkWorld g u').
Proof. apply dense_new_spec. Qed.
End Grid2DConstruction.

(** ** The dense grid: [setAll] and [setAllCallback] *)

Section Grid2DSetAll.
Context {V : Type} {HV : JsValue V} {U : Type}.
Import Grid2D.
Implicit Types (w s : World V U) (g : Grid2D.t V U) (c : Column V)
  (p : Grid2DValueProvider (TElement := V) (U := U)).

Lemma setAllCallback_spec p s W H :
  grid_ok (grid s) W H →
  ∃ s',
    setAllCallback p s = Return tt s'
    ∧ grid_ok (grid s') W H
    ∧ same_frame s s'
    ∧ JsArray.length (_squares (grid s')) = JsArray.length (_squares (grid s))
    ∧ user s' = (provided p (squaresOf W H) (user s)).2
    ∧ (λ xy : nat * nat, square (grid s') xy.1 xy.2) <$> squaresOf W H
      = (provided p (squaresOf W H) (user s)).1.
Proof.
  intros Hok. destruct Hok as [Hw Hh HW HH Hlength Hcols].
  unfold setAllCallback, bind, gets.
  rewrite (upto_counter _ W Hw), (upto_counter _ H Hh).
  destruct (fill_columns
              (λ x, for_each (seq 0 H)
                      (λ y, let! v := call_provider p x y in
                            write (counter x) (counter y) v))
              (λ _, ret tt) p W H s)
    as (s' & Hrun & Hframe & Huser & Hcells & Hcols' & Hrest & Hlong & Hbound).
  { intros x s1. reflexivity. }
  { lia. }
  { intros x s1 Hx Hframe1 Hrest1 Hlen1.
    destruct (Hcols x Hx) as (c0 & Hc0 & Hlen0 & _).
    exists s1, c0. unfold ret.
    split_and!; try done; try lia; try apply same_frame_refl.
    rewrite Hrest1 by lia. done. }
  exists s'. destruct Hframe as (Hfw & Hfh & Hfc).
  split_and!; try done.
  - split; try done.
    + by rewrite Hfw.
    + by rewrite Hfh.
  - lia.
  - by apply squares_of_cells.
Qed.

(** X20.  In a grid of [W] by [H], [setAllCallback] calls the callback once
    for each square with the coordinates of the square, column after column,
    and stores what it returned in that square; the dimensions and the
    configuration stay as they are. *)
Theorem setAllCallback_fills_every_square p s W H :
  grid_ok (grid s) W H →
  ∃ s',
    setAllCallback p s = Return tt s'
    ∧ grid_ok (grid s') W H
    ∧ same_frame s s'
    ∧ user s' = (provided p (squaresOf W H) (user s)).2
    ∧ (λ xy : nat * nat, square (grid s') xy.1 xy.2) <$> squaresOf W H
      = (provided p (squaresOf W H) (user s)).1.
Proof.
  intros Hok. destruct (setAllCallback_spec p s W H Hok)
    as (s' & Hrun & Hok' & Hframe & _ & Huser & Hcells).
  by exists s'.
Qed.

Lemma provided_const (v : V) l (u : U) :
  provided (λ _ _ u, (v, u)) l u = (replicate (length l) v, u).
Proof.
  induction l as [|[x y] l IH]; cbn; [done|]. by rewrite IH.
Qed.

(** X21.  In a grid of [W] by [H], [setAll] calls no callback and leaves the
    dimensions and the configuration as they are; afterwards [get] returns
    the value given at every square of the grid. *)
Theorem setAll_stores_value_everywhere (v : V) s W H :
  grid_ok (grid s) W H →
  ∃ s',
    setAll v s = Return tt s'
    ∧ grid_ok (grid s') W H
    ∧ same_frame s s'
    ∧ user s' = user s
    ∧ ∀ x y, (x < W)%nat → (y < H)%nat →
        get (counter x) (counter y) s' = Return v s'.
Proof.
  intros Hok.
  destruct (setAllCallback_spec (λ _ _ u, (v, u)) s W H Hok)
    as (s' & Hrun & Hok' & Hframe & _ & Huser & Hcells).
  rewrite provided_const in Huser, Hcells. cbn [fst snd] in Huser, Hcells.
  exists s'. split_and!; try done.
  - rewrite <- Hrun. unfold setAll, setAllCallback, bind, gets.
    apply for_each_ext. intros x st. apply for_each_ext. intros y st'.
    unfold bind, call_provider, with_user. by destruct st'.
  - intros x y Hx Hy. rewrite (get_square s' W H) by done. f_equal.
    assert ((x, y) ∈ squaresOf W H) as Hin by by apply elem_of_squaresOf.
    apply list_elem_of_lookup in Hin as [i Hi].
    apply (f_equal (λ l, l !! i)) in Hcells.
    rewrite list_lookup_fmap, Hi in Hcells. cbn in Hcells.
    symmetry in Hcells. apply lookup_replicate in Hcells as [Hv _]. done.
Qed.
End Grid2DSetAll.

(** ** The dense grid: [forEach] and [toArray] *)

Section Grid2DTraversal.
Context {V : Type} {HV : JsValue V} {U : Type}.
Import Grid2D.
Implicit Types (w s : World V U) (g : Grid2D.t V U) (c : Column V)
  (cb : Grid2DIterateCallback (TElement := V) (U := U)).

(** X22.  In a grid of [W] by [H], [forEach] calls the callback once for
    each square, column after column, with the element of the square and its
    coordinates, and changes nothing in the grid. *)
Theorem forEach_visits_every_square cb s W H :
  grid_ok (grid s) W H →
  forEach cb s
  = Return tt
      (with_user
         (fold_left
            (λ u (xy : nat * nat),
               cb (square (grid s) xy.1 xy.2) (counter xy.1) (counter xy.2) u)
            (squaresOf W H) (user s))
         s).
Proof.
  intros Hok. destruct Hok as [Hw Hh HW HH Hlength Hcols].
  unfold forEach, bind, gets.
  rewrite (upto_counter _ W Hw), (upto_counter _ H Hh).
  set (f := λ u (xy : nat * nat),
              cb (square (grid s) xy.1 xy.2) (counter xy.1) (counter xy.2) u).
  destruct (for_each_seq
              (λ x s1, s1 = with_user (fold_left f (squaresOf x H) (user s)) s)
              (λ x, for_each (seq 0 H)
                      (λ y, let! v := read (counter x) (counter y) in
                            call_iterate cb v x y))
              0 W s) as (s' & Hrun & ->).
  - by destruct s.
  - intros x s1 Hx ->.
    destruct (Hcols x ltac:(lia)) as (c & Hc & _).
    destruct (for_each_seq
                (λ y s2, s2 = with_user
                                (fold_left f ((λ y, (x, y)) <$> seq 0 y)
                                   (fold_left f (squaresOf x H) (user s))) s)
                (λ y, let! v := read (counter x) (counter y) in
                      call_iterate cb v x y)
                0 H (with_user (fold_left f (squaresOf x H) (user s)) s))
      as (s2 & Hrun2 & ->).
    + done.
    + intros y s2 Hy ->. eexists. split.
      * unfold bind. rewrite (read_square _ x y c) by done.
        unfold call_iterate, modify. reflexivity.
      * rewrite seq_S, fmap_app, fold_left_app. done.
    + eexists. split; [exact Hrun2|].
      rewrite squaresOf_S, fold_left_app. done.
  - exact Hrun.
Qed.

Lemma copyColumn_get c (k : Z) :
  JsArray.get (copyColumn c) k
  = if decide (0 ≤ k < JsArray.length (elements c))%Z
    then JsArray.get (elements c) k else None.
Proof.
  unfold copyColumn, JsArray.get. cbn. case_decide as Hk.
  - destruct (JsArray.props (elements c) !! k) as [v|] eqn:Hv.
    + by apply map_lookup_filter_Some.
    + apply map_lookup_filter_None. left. done.
  - apply map_lookup_filter_None. right. intros v _. done.
Qed.

(** X23.  [toArray] changes nothing and returns one array for each element
    of [_squares], so at least [W] of them in a grid of [W] by [H]; the
    array at index [x < W] has length [H], holds at each index [y < H] the
    element of the square [(x, y)], and holds nothing else. *)
Theorem toArray_copies_every_column s W H :
  grid_ok (grid s) W H →
  ∃ arrays,
    toArray s = Return arrays s
    ∧ length arrays = Z.to_nat (JsArray.length (_squares (grid s)))
    ∧ (W ≤ length arrays)%nat
    ∧ ∀ x, (x < W)%nat →
        ∃ a, arrays !! x = Some (Some a)
             ∧ JsArray.length a = Z.of_nat H
             ∧ (∀ y, (y < H)%nat →
                  JsArray.get a (Z.of_nat y) = Some (square (grid s) x y))
             ∧ ∀ k, ¬ (0 ≤ k < Z.of_nat H)%Z → JsArray.get a k = None.
Proof.
  intros Hok. destruct Hok as [Hw Hh HW HH Hlength Hcols].
  eexists. split; [reflexivity|]. rewrite length_fmap, length_seq.
  split; [done|]. split; [lia|].
  intros x Hx. destruct (Hcols x Hx) as (c & Hc & Hlen & Hsome).
  exists (copyColumn c). split_and!.
  - rewrite list_lookup_fmap, lookup_seq_lt by lia. cbn. by rewrite Hc.
  - done.
  - intros y Hy. rewrite copyColumn_get, decide_True by lia.
    destruct (Hsome y Hy) as [v Hv]. unfold square, cell. rewrite Hc. cbn.
    by rewrite Hv.
  - intros k Hk. rewrite copyColumn_get, decide_False by lia. done.
Qed.
End Grid2DTraversal.

(** ** The dense grid: coordinates that are not integers *)

Section Grid2DFractions.
Context {V : Type} {HV : JsValue V} {U : Type}.
Import Grid2D.
Implicit Types (w s : World V U) (g : Grid2D.t V U) (c : Column V).

(** X24.  The bounds check of [get] and [set] lets a coordinate inside the
    grid pass that is not an integer.  With such a [y] and a column [x] of
    the grid, [set] returns normally and changes no square of the grid, and
    [get] at the same coordinates then returns the element stored.  With
    such an [x], [get] and [set] throw a [TypeError] and change nothing. *)
Theorem fractional_coordinates_pass_the_bounds_check w W H (x y : nat) (q : Q) (v : V) :
  grid_ok (grid w) W H → (x < W)%nat → (y < H)%nat →
  (0 <= q)%Q → isInteger q = false →
  ((q < height w)%Q →
     ∃ w',
       set (counter x) q v w = Return tt w'
       ∧ grid_ok (grid w') W H
       ∧ user w' = user w
       ∧ get (counter x) q w' = Return v w'
       ∧ ∀ x' y', cell (grid w') x' y' = cell (grid w) x' y')
  ∧ ((q < width w)%Q →
       get q (counter y) w = Throw TypeError w
       ∧ set q (counter y) v w = Throw TypeError w).
Proof.
  intros Hok Hx Hy Hq Hfrac.
  assert (∀ n, Qltb (counter n) 0 = false) as Hneg.
  { intros n. apply Qltb_ge. unfold counter. change 0%Q with (inject_Z 0).
    rewrite <- Zle_Qle. apply Nat2Z.is_nonneg. }
  pose proof Hok as [Hw Hh HW HH Hlength Hcols].
  split.
  - intros Hin. unfold height in Hin.
    destruct (Hcols x Hx) as (c & Hc & Hlen & Hsome).
    set (c' := mkColumn (elements c) ((q, v) :: others c)).
    set (w' := with_squares (put_column (_squares (grid w)) (Z.of_nat x) c') w).
    assert (outOfBounds (grid w) (counter x) q = false) as Hout.
    { unfold outOfBounds. rewrite Hneg, (Qle_bool_counter _ W x Hw).
      rewrite (proj2 (Qltb_ge q 0) Hq), (proj2 (Qle_bool_gt _ _) Hin). cbn.
      rewrite orb_false_r. apply Nat.leb_gt. lia. }
    exists w'. split_and!.
    + unfold set, bind, gets. rewrite Hout. unfold write.
      rewrite squares_get_counter, Hc, Qfloor_counter. unfold column_set.
      by rewrite Hfrac.
    + split; try done. intros x0 Hx0. destruct (decide (x0 = x)) as [->|Hne].
      * exists c'. unfold w', with_squares, put_column, JsArray.get. cbn.
        by rewrite lookup_insert_eq.
      * destruct (Hcols x0 Hx0) as (c0 & Hc0 & Hrest). exists c0. split; [|done].
        unfold w', with_squares, put_column, JsArray.get. cbn.
        rewrite lookup_insert_ne by lia. done.
    + done.
    + unfold get, bind, gets. change (outOfBounds (grid w') (counter x) q)
        with (outOfBounds (grid w) (counter x) q). rewrite Hout. unfold read.
      rewrite squares_get_counter.
      assert (JsArray.get (_squares (grid w')) (Z.of_nat x) = Some c') as ->.
      { unfold w', with_squares, put_column, JsArray.get. cbn.
        by rewrite lookup_insert_eq. }
      unfold column_get. rewrite Hfrac. cbn.
      by rewrite (proj2 (Qeq_bool_iff q q) (Qeq_refl q)).
    + intros x' y'. unfold w', with_squares. cbn [grid]. rewrite cell_put_column.
      case_decide as Hx'; [|done]. subst x'. unfold cell. by rewrite Hc.
  - intros Hin. unfold width in Hin.
    assert (outOfBounds (grid w) q (counter y) = false) as Hout.
    { unfold outOfBounds. rewrite Hneg, (Qle_bool_counter _ H y Hh).
      rewrite (proj2 (Qltb_ge q 0) Hq), (proj2 (Qle_bool_gt _ _) Hin). cbn.
      apply Nat.leb_gt. lia. }
    unfold get, set, bind, gets, read, write, squares_get.
    by rewrite Hout, Hfrac.
Qed.
End Grid2DFractions.

(** ** The dense grid: [resize] *)

Section Grid2DResize.
Context {V : Type} {HV : JsValue V} {U : Type}.
Import Grid2D.
Implicit Types (w s : World V U) (g : Grid2D.t V U) (c : Column V)
  (created news : list (nat * nat * V)).

(** One round of the inner loop of [resize]. *)
Lemma resize_square_run g (nw nh : Q) W H W' H' x y s2 c created :
  _width g == counter W → _height g == counter H →
  nw == counter W' → nh == counter H' →
  JsArray.get (_squares (grid s2)) (Z.of_nat x) = Some c →
  ((x < W)%nat → (y < H)%nat → JsArray.get (elements c) (Z.of_nat y) = cell g x y) →
  ∃ s3 c' news,
    resize_square g nw nh x y s2 = Return tt s3
    ∧ same_frame s2 s3
    ∧ (∀ k, k ≠ Z.of_nat x →
         JsArray.get (_squares (grid s3)) k = JsArray.get (_squares (grid s2)) k)
    ∧ JsArray.length (_squares (grid s3)) = JsArray.length (_squares (grid s2))
    ∧ JsArray.get (_squares (grid s3)) (Z.of_nat x) = Some c'
    ∧ resize_visit g W H W' H' (created, user s2) (x, y) = (created ++ news, user s3)
    ∧ if (x <? W')%nat && (y <? H')%nat && ((W <=? x)%nat || (H <=? y)%nat)
      then ∃ v, news = [(x, y, v)]
                ∧ elements c' = JsArray.set (elements c) (Z.of_nat y) v
      else news = [] ∧ c' = c.
Proof.
  intros Hw Hh Hnw Hnh Hc Hread.
  unfold resize_square, resize_visit.
  rewrite (Qle_bool_counter nw W' x Hnw), (Qle_bool_counter nh H' y Hnh).
  rewrite (Qle_bool_counter _ W x Hw), (Qle_bool_counter _ H y Hh).
  rewrite (Qltb_counter _ W x Hw), (Qltb_counter _ H y Hh).
  rewrite (Qltb_counter nw W' x Hnw), (Qltb_counter nh H' y Hnh).
  assert (∀ s, same_frame s s) as Hrefl by (intros s; by split_and!).
  destruct (Nat.leb_spec W' x) as [HxW'|HxW'], (Nat.leb_spec H' y) as [HyH'|HyH'],
    (Nat.ltb_spec x W') as [HxW'2|HxW'2], (Nat.ltb_spec y H') as [HyH'2|HyH'2];
    try lia; cbn [orb andb].
  4: {
    destruct (Nat.leb_spec W x) as [HxW|HxW], (Nat.leb_spec H y) as [HyH|HyH];
      cbn [orb].
    4: { exists s2, c, []. rewrite app_nil_r. by split_and!. }
    all: unfold bind, call_provider;
      destruct (defaultValueProvider (_config g) (counter x) (counter y) (user s2))
        as [v u'] eqn:Hp;
      rewrite (write_square _ x y v c) by done;
      eexists _, _, [(x, y, v)]; split; [reflexivity|];
      cbn; split_and!; try done;
      [ intros k Hk; unfold JsArray.get; cbn; by rewrite lookup_insert_ne
      | unfold JsArray.get; cbn; by rewrite lookup_insert_eq
      | by exists v ]. }
  all: destruct (Nat.ltb_spec x W) as [HxW|HxW], (Nat.ltb_spec y H) as [HyH|HyH];
    cbn [andb];
    try (exists s2, c, []; rewrite app_nil_r; by split_and!).
  all: destruct (destructorCallback (_config g)) as [callback|];
    [|exists s2, c, []; rewrite app_nil_r; by split_and!].
  all: unfold bind; rewrite (read_square _ x y c) by done;
    unfold call_iterate, modify;
    eexists _, c, []; split; [reflexivity|];
    rewrite app_nil_r; cbn; split_and!; try done;
    unfold square, cell; rewrite Hc; cbn; rewrite (Hread HxW HyH); done.
Qed.

Lemma resize_new_square W H W' H' x y :
  (x <? W')%nat && (y <? H')%nat && ((W <=? x)%nat || (H <=? y)%nat) = true
  ↔ (x < W')%nat ∧ (y < H')%nat ∧ ((W ≤ x)%nat ∨ (H ≤ y)%nat).
Proof.
  destruct (Nat.ltb_spec x W'), (Nat.ltb_spec y H'), (Nat.leb_spec W x),
    (Nat.leb_spec H y); cbn; split; (done || lia).
Qed.

(** The inner loop of [resize] in the column [x]. *)
Lemma resize_column g (nw nh : Q) W H W' H' x n s1 c0 created :
  _width g == counter W → _height g == counter H →
  nw == counter W' → nh == counter H' →
  JsArray.get (_squares (grid s1)) (Z.of_nat x) = Some c0 →
  (0 ≤ JsArray.length (elements c0))%Z →
  ((x < W)%nat → JsArray.length (elements c0) = Z.of_nat H) →
  ((x < W)%nat → ∀ y, (y < H)%nat →
     JsArray.get (elements c0) (Z.of_nat y) = cell g x y) →
  ∃ s3 c news,
    for_each (seq 0 n) (λ y, resize_square g nw nh x y) s1 = Return tt s3
    ∧ same_frame s1 s3
    ∧ (∀ k, k ≠ Z.of_nat x →
         JsArray.get (_squares (grid s3)) k = JsArray.get (_squares (grid s1)) k)
    ∧ JsArray.length (_squares (grid s3)) = JsArray.length (_squares (grid s1))
    ∧ JsArray.get (_squares (grid s3)) (Z.of_nat x) = Some c
    ∧ fold_left (resize_visit g W H W' H') ((λ y, (x, y)) <$> seq 0 n) (created, user s1)
      = (created ++ news, user s3)
    ∧ (∀ e, e ∈ news →
         ∃ y0 v, e = (x, y0, v) ∧ (y0 < n)%nat ∧ (x < W')%nat ∧ (y0 < H')%nat
                 ∧ JsArray.get (elements c) (Z.of_nat y0) = Some v)
    ∧ (∀ y0, (y0 < n)%nat → (x < W')%nat → (y0 < H')%nat → (W ≤ x)%nat ∨ (H ≤ y0)%nat →
         ∃ v, (x, y0, v) ∈ news)
    ∧ (∀ k : Z,
         (∀ y0, k = Z.of_nat y0 → (y0 < n)%nat → (x < W')%nat → (y0 < H')%nat →
                (W ≤ x)%nat ∨ (H ≤ y0)%nat → False) →
         JsArray.get (elements c) k = JsArray.get (elements c0) k)
    ∧ JsArray.length (elements c)
      = if (x <? W')%nat
        then Z.max (JsArray.length (elements c0)) (Z.min (Z.of_nat n) (Z.of_nat H'))
        else JsArray.length (elements c0).
Proof.
  intros Hw Hh Hnw Hnh Hc0 Hlen0 HlenH Hcells0.
  pose (J := λ (y : nat) (s3 : World V U),
    same_frame s1 s3
    ∧ (∀ k, k ≠ Z.of_nat x →
         JsArray.get (_squares (grid s3)) k = JsArray.get (_squares (grid s1)) k)
    ∧ JsArray.length (_squares (grid s3)) = JsArray.length (_squares (grid s1))
    ∧ ∃ c news,
        JsArray.get (_squares (grid s3)) (Z.of_nat x) = Some c
        ∧ fold_left (resize_visit g W H W' H') ((λ y, (x, y)) <$> seq 0 y)
            (created, user s1)
          = (created ++ news, user s3)
        ∧ (∀ e, e ∈ news →
             ∃ y0 v, e = (x, y0, v) ∧ (y0 < y)%nat ∧ (x < W')%nat ∧ (y0 < H')%nat
                     ∧ JsArray.get (elements c) (Z.of_nat y0) = Some v)
        ∧ (∀ y0, (y0 < y)%nat → (x < W')%nat → (y0 < H')%nat →
             (W ≤ x)%nat ∨ (H ≤ y0)%nat → ∃ v, (x, y0, v) ∈ news)
        ∧ (∀ k : Z,
             (∀ y0, k = Z.of_nat y0 → (y0 < y)%nat → (x < W')%nat → (y0 < H')%nat →
                    (W ≤ x)%nat ∨ (H ≤ y0)%nat → False) →
             JsArray.get (elements c) k = JsArray.get (elements c0) k)
        ∧ JsArray.length (elements c)
          = if (x <? W')%nat
            then Z.max (JsArray.length (elements c0)) (Z.min (Z.of_nat y) (Z.of_nat H'))
            else JsArray.length (elements c0)).
  destruct (for_each_seq J (λ y, resize_square g nw nh x y) 0 n s1) as (s3 & Hrun & HJ).
  - unfold J. split_and!; try done.
    exists c0, []. rewrite app_nil_r. split_and!; try done.
    + intros e He. by apply elem_of_nil in He.
    + intros y0 Hy0. lia.
    + destruct (x <? W')%nat; lia.
  - intros y s2 _ (Hframe & Hothers & Hsame & c & news & Hc & Hfold & Hnews & Hall & Hkept & Hlen).
    destruct (resize_square_run g nw nh W H W' H' x y s2 c (created ++ news))
      as (s3 & c' & news' & Hrun3 & Hframe3 & Hothers3 & Hsame3 & Hc' & Hvisit & Hcase);
      try done.
    { intros HxW HyH. rewrite Hkept; [by apply Hcells0|].
      intros y0 Hy0. lia. }
    exists s3. split; [exact Hrun3|]. unfold J. split_and!.
    + destruct Hframe as (? & ? & ?), Hframe3 as (? & ? & ?). split_and!; congruence.
    + intros k Hk. by rewrite Hothers3, Hothers.
    + congruence.
    + exists c', (news ++ news'). split; [done|]. split.
      { rewrite seq_S, fmap_app, fold_left_app, Hfold.
        cbn [fmap list_fmap fold_left Nat.add]. rewrite Hvisit.
        by rewrite app_assoc. }
      destruct ((x <? W')%nat && (y <? H')%nat && ((W <=? x)%nat || (H <=? y)%nat))
        eqn:Hnew.
      * apply resize_new_square in Hnew as (HxW' & HyH' & Hout).
        destruct Hcase as (v & -> & Hel). split_and!.
        -- intros e [He|He]%elem_of_app.
           ++ destruct (Hnews e He) as (y0 & v0 & -> & Hy0 & ? & ? & Hget).
              exists y0, v0. split_and!; try done; try lia.
              rewrite Hel. unfold JsArray.get, JsArray.set. cbn.
              rewrite lookup_insert_ne by lia. done.
           ++ apply list_elem_of_singleton in He as ->.
              exists y, v. split_and!; try done; try lia.
              rewrite Hel. unfold JsArray.get, JsArray.set. cbn.
              by rewrite lookup_insert_eq.
        -- intros y0 Hy0 Hx' Hy' Hout0. destruct (decide (y0 = y)) as [->|Hne].
           ++ exists v. apply elem_of_app. right. by apply list_elem_of_singleton.
           ++ destruct (Hall y0 ltac:(lia) Hx' Hy' Hout0) as [v0 Hv0].
              exists v0. apply elem_of_app. by left.
        -- intros k Hk. rewrite Hel.
           assert (k ≠ Z.of_nat y) as Hne.
           { intros ->. apply (Hk y); try done. lia. }
           unfold JsArray.get, JsArray.set. cbn. rewrite lookup_insert_ne by done.
           apply Hkept. intros y0 -> Hy0. apply Hk; [done|lia].
        -- rewrite Hel. unfold JsArray.set. cbn [JsArray.length]. rewrite Hlen.
           apply Nat.ltb_lt in HxW'. rewrite HxW'.
           destruct (Z.leb_spec 0 (Z.of_nat y)); lia.
      * destruct Hcase as [-> ->]. rewrite app_nil_r.
        assert (¬ ((x < W')%nat ∧ (y < H')%nat ∧ ((W ≤ x)%nat ∨ (H ≤ y)%nat))) as Hold.
        { rewrite <- resize_new_square, Hnew. done. }
        split_and!.
        -- intros e He. destruct (Hnews e He) as (y0 & v0 & -> & Hy0 & ? & ? & Hget).
           exists y0, v0. split_and!; try done; lia.
        -- intros y0 Hy0 Hx' Hy' Hout0. destruct (decide (y0 = y)) as [->|Hne].
           ++ exfalso. apply Hold. done.
           ++ apply Hall; try done. lia.
        -- intros k Hk. apply Hkept. intros y0 -> Hy0. apply Hk; [done|lia].
        -- rewrite Hlen. destruct (Nat.ltb_spec x W') as [HxW'|HxW']; [|done].
           destruct (decide (y < H')%nat) as [HyH'|HyH']; [|lia].
           assert (x < W ∧ y < H)%nat as [HxW HyH] by lia.
           rewrite (HlenH HxW). lia.
  - destruct HJ as (Hframe & Hothers & Hsame & c & news & Hc & Hfold & Hnews & Hall & Hkept & Hlen).
    exists s3, c, news. cbn [Nat.add] in *. by split_and!.
Qed.

Lemma column_truncate_get c (nh : Q) H' (k : Z) :
  nh == counter H' →
  JsArray.get (elements (column_truncate c nh)) k
  = if decide (k < Z.of_nat H')%Z then JsArray.get (elements c) k else None.
Proof.
  intros Hnh. unfold column_truncate, JsArray.get. cbn.
  rewrite (Qfloor_comp _ _ Hnh), Qfloor_counter. case_decide as Hk.
  - destruct (JsArray.props (elements c) !! k) as [v|] eqn:Hv.
    + by apply map_lookup_filter_Some.
    + apply map_lookup_filter_None. by left.
  - apply map_lookup_filter_None. right. intros v _. done.
Qed.

Lemma column_truncate_length c (nh : Q) H' :
  nh == counter H' → JsArray.length (elements (column_truncate c nh)) = Z.of_nat H'.
Proof.
  intros Hnh. unfold column_truncate. cbn.
  by rewrite (Qfloor_comp _ _ Hnh), Qfloor_counter.
Qed.

Lemma cell_column g x y c :
  JsArray.get (_squares g) (Z.of_nat x) = Some c →
  cell g x y = JsArray.get (elements c) (Z.of_nat y).
Proof. intros Hc. unfold cell. by rewrite Hc. Qed.

Lemma cell_other_column g g' x y :
  JsArray.get (_squares g') (Z.of_nat x) = JsArray.get (_squares g) (Z.of_nat x) →
  cell g' x y = cell g x y.
Proof. intros Hc. unfold cell. by rewrite Hc. Qed.

(** The outer loop of [resize]. *)
Lemma resize_columns (nw nh : Q) s W H W' H' n :
  grid_ok (grid s) W H →
  nw == counter W' → nh == counter H' → (n ≤ Nat.max W' W)%nat →
  ∃ s' created,
    for_each (seq 0 n)
      (λ x,
         (if Qle_bool (_width (grid s)) (counter x) then new_column x else ret tt);;;
         for_each (seq 0 (Nat.max H' H)) (λ y, resize_square (grid s) nw nh x y);;;
         if Qltb nh (_height (grid s)) then truncate_column x nh else ret tt) s
    = Return tt s'
    ∧ same_frame s s'
    ∧ (∀ k, (Z.of_nat n ≤ k)%Z →
         JsArray.get (_squares (grid s')) k = JsArray.get (_squares (grid s)) k)
    ∧ JsArray.length (_squares (grid s'))
      = Z.max (JsArray.length (_squares (grid s))) (Z.of_nat n)
    ∧ (∀ x y, (x < W)%nat → (y < H)%nat → (y < H')%nat →
         cell (grid s') x y = cell (grid s) x y)
    ∧ (∀ x, (x < n)%nat →
         ∃ c, JsArray.get (_squares (grid s')) (Z.of_nat x) = Some c
              ∧ JsArray.length (elements c)
                = if (x <? W')%nat then Z.of_nat H' else Z.min (Z.of_nat H) (Z.of_nat H'))
    ∧ fold_left (resize_visit (grid s) W H W' H') (squaresOf n (Nat.max H' H))
        ([], user s)
      = (created, user s')
    ∧ (∀ e, e ∈ created →
         ∃ x y v, e = (x, y, v) ∧ (x < n)%nat ∧ (x < W')%nat ∧ (y < H')%nat
                  ∧ cell (grid s') x y = Some v)
    ∧ (∀ x y, (x < n)%nat → (x < W')%nat → (y < H')%nat → (W ≤ x)%nat ∨ (H ≤ y)%nat →
         ∃ v, (x, y, v) ∈ created).
Proof.
  intros Hok Hnw Hnh Hn. pose proof Hok as [Hw Hh HW HH Hlength Hcols].
  set (g := grid s) in *.
  set (body := λ x : nat,
         (if Qle_bool (_width g) (counter x) then new_column x else ret tt);;;
         for_each (seq 0 (Nat.max H' H)) (λ y, resize_square g nw nh x y);;;
         if Qltb nh (_height g) then truncate_column x nh else ret tt).
  pose (I := λ (n : nat) (s' : World V U),
    same_frame s s'
    ∧ (∀ k, (Z.of_nat n ≤ k)%Z →
         JsArray.get (_squares (grid s')) k = JsArray.get (_squares g) k)
    ∧ JsArray.length (_squares (grid s'))
      = Z.max (JsArray.length (_squares g)) (Z.of_nat n)
    ∧ (∀ x y, (x < W)%nat → (y < H)%nat → (y < H')%nat →
         cell (grid s') x y = cell g x y)
    ∧ (∀ x, (x < n)%nat →
         ∃ c, JsArray.get (_squares (grid s')) (Z.of_nat x) = Some c
              ∧ JsArray.length (elements c)
                = if (x <? W')%nat then Z.of_nat H' else Z.min (Z.of_nat H) (Z.of_nat H'))
    ∧ ∃ created,
        fold_left (resize_visit g W H W' H') (squaresOf n (Nat.max H' H)) ([], user s)
        = (created, user s')
        ∧ (∀ e, e ∈ created →
             ∃ x y v, e = (x, y, v) ∧ (x < n)%nat ∧ (x < W')%nat ∧ (y < H')%nat
                      ∧ cell (grid s') x y = Some v)
        ∧ (∀ x y, (x < n)%nat → (x < W')%nat → (y < H')%nat →
             (W ≤ x)%nat ∨ (H ≤ y)%nat → ∃ v, (x, y, v) ∈ created)).
  destruct (for_each_seq I body 0 n s) as (s' & Hrun & HI).
  - unfold I. fold g. split_and!; try done.
    + lia.
    + intros x Hx. lia.
    + exists []. split_and!; try done.
      * intros e He. by apply elem_of_nil in He.
      * intros x y Hx. lia.
  - intros x s1 Hxn (Hframe & Hrest & Hlen & Hkeep & Hdone & created & Hfold & Hnews & Hall).
    (* the column the loop works on *)
    assert (∃ s2 c0,
              (if Qle_bool (_width g) (counter x) then new_column x else ret tt) s1
              = Return tt s2
              ∧ same_frame s1 s2 ∧ user s2 = user s1
              ∧ JsArray.get (_squares (grid s2)) (Z.of_nat x) = Some c0
              ∧ (∀ k, k ≠ Z.of_nat x →
                   JsArray.get (_squares (grid s2)) k = JsArray.get (_squares (grid s1)) k)
              ∧ JsArray.length (_squares (grid s2))
                = Z.max (JsArray.length (_squares g)) (Z.of_nat (Datatypes.S x))
              ∧ ((x < W)%nat → JsArray.get (_squares g) (Z.of_nat x) = Some c0
                               ∧ JsArray.length (elements c0) = Z.of_nat H)
              ∧ ((W ≤ x)%nat → JsArray.length (elements c0) = 0%Z))
      as (s2 & c0 & Hrun2 & Hframe2 & Huser2 & Hc0 & Hothers2 & Hlen2 & Hold0 & Hnew0).
    { rewrite (Qle_bool_counter _ W x Hw).
      destruct (Nat.leb_spec W x) as [HxW|HxW].
      - eexists _, emptyColumn. unfold new_column, modify. split; [reflexivity|].
        cbn. split_and!; try done.
        + unfold JsArray.get, JsArray.set. cbn. by rewrite lookup_insert_eq.
        + intros k Hk. unfold JsArray.get, JsArray.set. cbn.
          by rewrite lookup_insert_ne.
        + rewrite Hlen. destruct (Z.leb_spec 0 (Z.of_nat x)); lia.
        + lia.
      - destruct (Hcols x HxW) as (c0 & Hc0 & Hlen0 & _).
        exists s1, c0. unfold ret. split_and!; try done.
        + rewrite Hrest by lia. done.
        + rewrite Hlen. lia.
        + lia. }
    destruct (resize_column g nw nh W H W' H' x (Nat.max H' H) s2 c0 created)
      as (s3 & c & news & Hrun3 & Hframe3 & Hothers3 & Hlen3 & Hc & Hfold3 & Hnews3
          & Hall3 & Hkept3 & Hclen); try done.
    { destruct (Nat.leb_spec W x) as [HxW|HxW].
      - rewrite (Hnew0 HxW). done.
      - destruct (Hold0 HxW) as [_ ->]. lia. }
    { intros HxW. by destruct (Hold0 HxW). }
    { intros HxW y Hy. destruct (Hold0 HxW) as [Hg _]. by rewrite (cell_column g x y c0). }
    (* the column after the truncation *)
    assert (∃ s4 cf,
              (if Qltb nh (_height g) then truncate_column x nh else ret tt) s3
              = Return tt s4
              ∧ same_frame s3 s4 ∧ user s4 = user s3
              ∧ JsArray.get (_squares (grid s4)) (Z.of_nat x) = Some cf
              ∧ (∀ k, k ≠ Z.of_nat x →
                   JsArray.get (_squares (grid s4)) k = JsArray.get (_squares (grid s3)) k)
              ∧ JsArray.length (_squares (grid s4)) = JsArray.length (_squares (grid s3))
              ∧ (∀ y, (y < H')%nat →
                   JsArray.get (elements cf) (Z.of_nat y)
                   = JsArray.get (elements c) (Z.of_nat y))
              ∧ JsArray.length (elements cf)
                = if (x <? W')%nat then Z.of_nat H' else Z.min (Z.of_nat H) (Z.of_nat H'))
      as (s4 & cf & Hrun4 & Hframe4 & Huser4 & Hcf & Hothers4 & Hlen4 & Hcfget & Hcflen).
    { rewrite (Qltb_counters nh H' _ H Hnh Hh).
      destruct (Nat.ltb_spec H' H) as [Hlt|Hle].
      - unfold truncate_column. rewrite Hc.
        eexists _, (column_truncate c nh). split; [reflexivity|].
        split_and!; try done.
        + unfold put_column, JsArray.get. cbn. by rewrite lookup_insert_eq.
        + intros k Hk. unfold put_column, JsArray.get. cbn.
          by rewrite lookup_insert_ne.
        + intros y Hy. rewrite (column_truncate_get c nh H') by done.
          rewrite decide_True by lia. done.
        + rewrite (column_truncate_length c nh H') by done.
          destruct (x <? W')%nat; lia.
      - exists s3, c. unfold ret. split_and!; try done.
        rewrite Hclen. destruct (Nat.ltb_spec x W') as [HxW'|HxW'].
        + destruct (Nat.leb_spec W x) as [HxW|HxW].
          * rewrite (Hnew0 HxW). lia.
          * destruct (Hold0 HxW) as [_ ->]. lia.
        + destruct (Hold0 ltac:(lia)) as [_ ->]. lia. }
    assert (∀ k, k ≠ Z.of_nat x →
              JsArray.get (_squares (grid s4)) k = JsArray.get (_squares (grid s1)) k)
      as Hothers.
    { intros k Hk. by rewrite Hothers4, Hothers3, Hothers2. }
    exists s4. split.
    { unfold body, bind. rewrite Hrun2, Hrun3. exact Hrun4. }
    unfold I. split_and!.
    + destruct Hframe as (? & ? & ?), Hframe2 as (? & ? & ?), Hframe3 as (? & ? & ?),
        Hframe4 as (? & ? & ?). split_and!; congruence.
    + intros k Hk. rewrite Hothers by lia. apply Hrest. lia.
    + congruence.
    + intros x0 y0 Hx0 Hy0 Hy0'. destruct (decide (x0 = x)) as [->|Hne].
      * rewrite (cell_column _ x y0 cf Hcf), (Hcfget y0 Hy0').
        rewrite Hkept3.
        -- destruct (Hold0 Hx0) as [Hg _]. by rewrite (cell_column g x y0 c0).
        -- intros y1 Heq. lia.
      * rewrite <- Hkeep by done. apply cell_other_column. apply Hothers. lia.
    + intros x0 Hx0. destruct (decide (x0 = x)) as [->|Hne].
      * exists cf. split; [done|]. by apply Hcflen.
      * destruct (Hdone x0 ltac:(lia)) as (c1 & Hc1 & Hlen1).
        exists c1. split; [|done]. rewrite Hothers by lia. done.
    + exists (created ++ news). split_and!.
      * rewrite squaresOf_S, fold_left_app, Hfold. rewrite <- Huser2, Hfold3.
        by rewrite Huser4.
      * intros e [He|He]%elem_of_app.
        -- destruct (Hnews e He) as (x0 & y0 & v & -> & Hx0 & Hx0' & Hy0' & Hcell).
           exists x0, y0, v. split_and!; try done; try lia.
           rewrite <- Hcell. apply cell_other_column. apply Hothers. lia.
        -- destruct (Hnews3 e He) as (y0 & v & -> & Hy0 & Hx' & Hy0' & Hget).
           exists x, y0, v. split_and!; try done; try lia.
           by rewrite (cell_column _ x y0 cf Hcf), (Hcfget y0 Hy0').
      * intros x0 y0 Hx0 Hx0' Hy0' Hout. destruct (decide (x0 = x)) as [->|Hne].
        -- destruct (Hall3 y0 ltac:(lia) Hx0' Hy0' Hout) as [v Hv].
           exists v. apply elem_of_app. by right.
        -- destruct (Hall x0 y0 ltac:(lia) Hx0' Hy0' Hout) as [v Hv].
           exists v. apply elem_of_app. by left.
  - destruct HI as (Hframe & Hrest & Hlen & Hkeep & Hdone & created & Hfold & Hnews & Hall).
    exists s', created. cbn [Nat.add] in *. by split_and!.
Qed.

Lemma dense_resize_spec (nw nh : Q) s W H W' H' :
  grid_ok (grid s) W H →
  nw == counter W' → nh == counter H' → (0 < W')%nat → (0 < H')%nat →
  ∃ s',
    resize nw nh s = Return tt s'
    ∧ grid_ok (grid s') W' H'
    ∧ _width (grid s') = nw ∧ _height (grid s') = nh
    ∧ _config (grid s') = _config (grid s)
    ∧ JsArray.length (_squares (grid s'))
      = Z.max (JsArray.length (_squares (grid s))) (Z.of_nat W')
    ∧ user s' = (resize_visits (grid s) W H W' H' (user s)).2
    ∧ (∀ x y, (x < W)%nat → (y < H)%nat → (y < H')%nat →
         cell (grid s') x y = cell (grid s) x y)
    ∧ (∀ x y v, (x, y, v) ∈ (resize_visits (grid s) W H W' H' (user s)).1 →
         (x < W')%nat ∧ (y < H')%nat ∧ cell (grid s') x y = Some v)
    ∧ (∀ x y, (x < W')%nat → (y < H')%nat → (W ≤ x)%nat ∨ (H ≤ y)%nat →
         ∃ v, (x, y, v) ∈ (resize_visits (grid s) W H W' H' (user s)).1)
    ∧ (∀ x, (x < Nat.max W' W)%nat →
         ∃ c, JsArray.get (_squares (grid s')) (Z.of_nat x) = Some c
              ∧ JsArray.length (elements c)
                = if (x <? W')%nat then Z.of_nat H' else Z.min (Z.of_nat H) (Z.of_nat H')).
Proof.
  intros Hok Hnw Hnh HW' HH'. pose proof Hok as [Hw Hh HW HH Hlength Hcols].
  assert (badDimension nw = false) as Hbw.
  { apply Grid2D_badDimension, positiveInteger_counter. eauto. }
  assert (badDimension nh = false) as Hbh.
  { apply Grid2D_badDimension, positiveInteger_counter. eauto. }
  unfold resize. rewrite Hbw, Hbh. unfold bind at 1. unfold gets.
  rewrite (upto_counter _ (Nat.max W' W) (Math_max_counter _ _ _ _ Hnw Hw)).
  rewrite (upto_counter _ (Nat.max H' H) (Math_max_counter _ _ _ _ Hnh Hh)).
  destruct (resize_columns nw nh s W H W' H' (Nat.max W' W) Hok Hnw Hnh ltac:(lia))
    as (s1 & created & Hrun & (Hfw & Hfh & Hfc) & Hrest & Hlen & Hkeep & Hdone
        & Hfold & Hnews & Hall).
  exists (with_dimensions nw nh s1). unfold bind at 1. rewrite Hrun.
  unfold resize_visits. rewrite Hfold. cbn [fst snd].
  split; [done|].
  assert (∀ x y, cell (grid (with_dimensions nw nh s1)) x y = cell (grid s1) x y)
    as Hcell by done.
  split_and!; try done.
  - split; try done.
    + cbn. lia.
    + intros x Hx. destruct (Hdone x ltac:(lia)) as (c & Hc & Hclen).
      exists c. split_and!; try done.
      * apply Nat.ltb_lt in Hx. by rewrite Hx in Hclen.
      * intros y Hy.
        destruct (decide ((W ≤ x)%nat ∨ (H ≤ y)%nat)) as [Hout|Hin].
        -- destruct (Hall x y ltac:(lia) Hx Hy Hout) as [v Hv].
           destruct (Hnews _ Hv) as (x0 & y0 & v0 & [= <- <- <-] & _ & _ & _ & Hget).
           rewrite (cell_column _ x y c Hc) in Hget. by rewrite Hget.
        -- assert (x < W ∧ y < H)%nat as [HxW HyH] by lia.
           rewrite <- (cell_column _ x y c Hc), (Hkeep x y HxW HyH Hy).
           destruct (Hcols x HxW) as (c0 & Hc0 & _ & Hsome).
           rewrite (cell_column _ x y c0 Hc0). by apply Hsome.
  - cbn. lia.
  - intros x y v Hv.
    destruct (Hnews _ Hv) as (x0 & y0 & v0 & [= <- <- <-] & _ & ? & ? & Hget). done.
  - intros x y Hx Hy Hout. apply Hall; try done. lia.
Qed.
End Grid2DResize.

(** ** The dense grid: what [resize] keeps, creates and drops *)

Section Grid2DResized.
Context {V : Type} {HV : JsValue V} {U : Type}.
Import Grid2D.
Implicit Types (w s : World V U) (g : Grid2D.t V U) (c : Column V).

Lemma cell_square g W H x y :
  grid_ok g W H → (x < W)%nat → (y < H)%nat → cell g x y = Some (square g x y).
Proof.
  intros Hok Hx Hy. destruct (ok_columns _ _ _ Hok x Hx) as (c & Hc & _ & Hsome).
  destruct (Hsome y Hy) as [v Hv]. unfold square. rewrite (cell_column g x y c Hc), Hv. done.
Qed.

(** X25.  [resize] of a grid of [W] by [H] to a width [W'] and a height [H']
    that are integers from 1 on returns a grid of [W'] by [H'] with the
    same configuration.  It visits the squares of the bounding box of the
    two grids column after column: a square of the old grid outside the new
    one is handed to the destructor callback, if there is one, with its
    element and its coordinates; for a square of the new grid outside the
    old one the value provider is called, and the square holds the value
    provided.  A square of both grids keeps its element. *)
Theorem dense_resize_keeps_creates_and_drops (nw nh : Q) s W H W' H' :
  grid_ok (grid s) W H →
  nw == counter W' → nh == counter H' → (0 < W')%nat → (0 < H')%nat →
  let visits := resize_visits (grid s) W H W' H' (user s) in
  ∃ s',
    resize nw nh s = Return tt s'
    ∧ grid_ok (grid s') W' H'
    ∧ _width (grid s') = nw ∧ _height (grid s') = nh
    ∧ _config (grid s') = _config (grid s)
    ∧ user s' = visits.2
    ∧ (∀ x y, (x < W)%nat → (y < H)%nat → (x < W')%nat → (y < H')%nat →
         square (grid s') x y = square (grid s) x y)
    ∧ (∀ x y, (x < W')%nat → (y < H')%nat → (W ≤ x)%nat ∨ (H ≤ y)%nat →
         ∃ v, (x, y, v) ∈ visits.1)
    ∧ (∀ x y v, (x, y, v) ∈ visits.1 → square (grid s') x y = v).
Proof.
  intros Hok Hnw Hnh HW' HH' visits.
  destruct (dense_resize_spec nw nh s W H W' H' Hok Hnw Hnh HW' HH')
    as (s' & Hrun & Hok' & Hw' & Hh' & Hc' & _ & Huser & Hkeep & Hnews & Hall & _).
  exists s'. split_and!; try done.
  - intros x y Hx Hy _ Hy'. unfold square. by rewrite Hkeep.
  - intros x y v Hv. destruct (Hnews x y v Hv) as (_ & _ & Hcell).
    unfold square. by rewrite Hcell.
Qed.

(** X26.  [resize] never shortens the array of columns: a column of the
    old grid that is outside the new one stays in it, cut to the new height
    where that is smaller, and [toArray] still returns a copy of it. *)
Theorem resize_leaves_dropped_columns_in_the_array (nw nh : Q) s W H W' H' :
  grid_ok (grid s) W H →
  nw == counter W' → nh == counter H' → (0 < W')%nat → (0 < H')%nat →
  ∃ s' arrays,
    resize nw nh s = Return tt s'
    ∧ toArray s' = Return arrays s'
    ∧ length arrays
      = Z.to_nat (Z.max (JsArray.length (_squares (grid s))) (Z.of_nat W'))
    ∧ ∀ x, (W' ≤ x < W)%nat →
        ∃ a, arrays !! x = Some (Some a)
             ∧ JsArray.length a = Z.min (Z.of_nat H) (Z.of_nat H')
             ∧ ∀ y, (y < H)%nat → (y < H')%nat →
                 JsArray.get a (Z.of_nat y) = Some (square (grid s) x y).
Proof.
  intros Hok Hnw Hnh HW' HH'.
  destruct (dense_resize_spec nw nh s W H W' H' Hok Hnw Hnh HW' HH')
    as (s' & Hrun & Hok' & Hw' & Hh' & Hc' & Hlen & Huser & Hkeep & Hnews & Hall & Hcols).
  pose proof (ok_length _ _ _ Hok) as Hlength.
  eexists s', _. split; [done|]. split; [reflexivity|].
  rewrite length_fmap, length_seq. split; [by rewrite Hlen|].
  intros x [Hx' Hx]. destruct (Hcols x ltac:(lia)) as (c & Hc & Hclen).
  apply Nat.ltb_ge in Hx'. rewrite Hx' in Hclen.
  exists (copyColumn c). split_and!.
  - rewrite list_lookup_fmap, lookup_seq_lt by lia. cbn. by rewrite Hc.
  - done.
  - intros y Hy Hy'. rewrite copyColumn_get, decide_True by lia.
    rewrite <- (cell_column _ x y c Hc), (Hkeep x y Hx Hy Hy').
    by apply (cell_square _ W H).
Qed.

(** X27.  The constructor and [resize] accept exactly the widths and heights
    that are integers from 1 on.  With any other they throw the dimension
    error before anything else is done: no callback is called and the grid
    that is resized stays as it is. *)
Theorem dense_grid_checks_dimensions (width height : Q)
    (config : Grid2DConfig V U + Grid2DValueProvider) (u : U) s W H :
  grid_ok (grid s) W H →
  let valid := positiveInteger width ∧ positiveInteger height in
  (valid ↔ ∃ g u', new width height config u = Return g u')
  ∧ (¬ valid ↔ new width height config u = Throw DimensionError u)
  ∧ (valid ↔ ∃ s', resize width height s = Return tt s')
  ∧ (¬ valid ↔ resize width height s = Throw DimensionError s).
Proof.
  intros Hok valid.
  assert (valid →
          (∃ g u', new width height config u = Return g u')
          ∧ ∃ s', resize width height s = Return tt s') as Hgood.
  { intros [(W' & HW' & Hw)%positiveInteger_counter (H' & HH' & Hh)%positiveInteger_counter].
    split.
    - destruct (dense_new_spec width height config u W' H' Hw Hh HW' HH') as (g & Hrun & _).
      eauto.
    - destruct (dense_resize_spec width height s W H W' H' Hok Hw Hh HW' HH') as (s' & Hrun & _).
      eauto. }
  assert (¬ valid →
          new width height config u = Throw DimensionError u
          ∧ resize width height s = Throw DimensionError s) as Hbad.
  { intros Hn. unfold new, resize.
    destruct (badDimension width) eqn:Hbw; [done|].
    destruct (badDimension height) eqn:Hbh; [done|].
    exfalso. apply Hn. split; by apply Grid2D_badDimension. }
  assert (valid ∨ ¬ valid) as [Hv|Hv].
  { unfold valid. rewrite <- !Grid2D_badDimension.
    destruct (badDimension width), (badDimension height);
      first [left; done | right; intros [? ?]; done]. }
  - destruct (Hgood Hv) as [(g & u' & Hnew) (s' & Hres)].
    split_and!.
    + split; [eauto | done].
    + split; [intros Hn; by destruct Hn | intros Hrun; congruence].
    + split; [eauto | done].
    + split; [intros Hn; by destruct Hn | intros Hrun; congruence].
  - destruct (Hbad Hv) as [Hnew Hres].
    split_and!.
    + split; [done | intros (g & u' & Hrun); congruence].
    + done.
    + split; [done | intros (s' & Hrun); congruence].
    + done.
Qed.
End Grid2DResized.

(** ** The dense grid: a concrete grid *)

Module DenseExampleFacts.
Import Grid2D DenseExample.

Lemma ok_d0 : grid_ok (grid d0) 2 3.
Proof.
  destruct (dense_new_spec 2 3 (inl dense_config) (0%nat, []) 2 3) as (g & Hrun & Hok & _);
    [done | done | lia | lia |].
  unfold d0, constructed. rewrite Hrun. exact Hok.
Qed.
End DenseExampleFacts.

Lemma set_then_get_witness :
  ∃ w',
    Grid2D.set 1 2 (Example.Obj 9) DenseExample.d0 = Return tt w'
    ∧ Grid2D.get 1 2 w' = Return (Example.Obj 9) w'.
Proof.
  destruct (set_then_get DenseExample.d0 2 3 1 2 (Example.Obj 9)
              DenseExampleFacts.ok_d0)
    as (w' & Hrun & _ & _ & Hget & _); [lia | lia |].
  exists w'. split; [exact Hrun | exact Hget].
Defined.

Lemma new_fills_every_square_witness :
  ∃ g,
    Grid2D.new 2 3 (inl DenseExample.dense_config) (0%nat, [])
    = Return g (6%nat, [])
    ∧ (λ xy : nat * nat, square g xy.1 xy.2) <$> squaresOf 2 3
      = Example.Obj <$> [0; 1; 2; 3; 4; 5]%nat.
Proof.
  destruct (new_fills_every_square 2 3 (inl DenseExample.dense_config) (0%nat, []) 2 3)
    as (g & Hrun & _ & _ & _ & _ & _ & Hvals & _); [done | done | lia | lia |].
  exists g. split; [exact Hrun | exact Hvals].
Defined.

Lemma setAllCallback_fills_every_square_witness :
  ∃ s',
    Grid2D.setAllCallback DenseExample.numbered DenseExample.d0 = Return tt s'
    ∧ grid_ok (Grid2D.grid s') 2 3
    ∧ (λ xy : nat * nat, square (Grid2D.grid s') xy.1 xy.2) <$> squaresOf 2 3
      = Example.Obj <$> [6; 7; 8; 9; 10; 11]%nat.
Proof.
  destruct (setAllCallback_fills_every_square DenseExample.numbered DenseExample.d0 2 3
              DenseExampleFacts.ok_d0)
    as (s' & Hrun & Hok & _ & _ & Hvals).
  exists s'. split_and!; [exact Hrun | exact Hok |].
  rewrite Hvals. vm_compute. reflexivity.
Defined.

Lemma setAll_stores_value_everywhere_witness :
  ∃ s',
    Grid2D.setAll Example.Null DenseExample.d0 = Return tt s'
    ∧ Grid2D.get 1 2 s' = Return Example.Null s'.
Proof.
  destruct (setAll_stores_value_everywhere Example.Null DenseExample.d0 2 3
              DenseExampleFacts.ok_d0)
    as (s' & Hrun & _ & _ & _ & Hget).
  exists s'. split; [exact Hrun | apply (Hget 1%nat 2%nat); lia].
Defined.

Lemma forEach_visits_every_square_witness :
  Grid2D.forEach DenseExample.recording DenseExample.d0
  = Return tt
      (Grid2D.with_user
         (6%nat,
          [(Example.Obj 0, 0%Q, 0%Q); (Example.Obj 1, 0%Q, 1%Q);
           (Example.Obj 2, 0%Q, 2%Q); (Example.Obj 3, 1%Q, 0%Q);
           (Example.Obj 4, 1%Q, 1%Q); (Example.Obj 5, 1%Q, 2%Q)])
         DenseExample.d0).
Proof.
  rewrite (forEach_visits_every_square DenseExample.recording DenseExample.d0 2 3
             DenseExampleFacts.ok_d0).
  vm_compute. reflexivity.
Defined.

Lemma toArray_copies_every_column_witness :
  ∃ arrays a,
    Grid2D.toArray DenseExample.d0 = Return arrays DenseExample.d0
    ∧ length arrays = 2%nat
    ∧ arrays !! 1%nat = Some (Some a)
    ∧ JsArray.length a = 3%Z
    ∧ JsArray.get a 2 = Some (Example.Obj 5).
Proof.
  destruct (toArray_copies_every_column DenseExample.d0 2 3 DenseExampleFacts.ok_d0)
    as (arrays & Hrun & Hlen & _ & Hcols).
  destruct (Hcols 1%nat ltac:(lia)) as (a & Ha & Halen & Hget & _).
  exists arrays, a. split_and!; [exact Hrun | | exact Ha | exact Halen |].
  - rewrite Hlen. vm_compute. reflexivity.
  - transitivity (Some (square (Grid2D.grid DenseExample.d0) 1 2)).
    + exact (Hget 2%nat ltac:(lia)).
    + vm_compute. reflexivity.
Defined.

Lemma fractional_coordinates_pass_the_bounds_check_witness :
  (∃ w',
     Grid2D.set 1 (1 # 2) (Example.Obj 9) DenseExample.d0 = Return tt w'
     ∧ Grid2D.get 1 (1 # 2) w' = Return (Example.Obj 9) w'
     ∧ ∀ x y, cell (Grid2D.grid w') x y = cell (Grid2D.grid DenseExample.d0) x y)
  ∧ Grid2D.get (1 # 2) 2 DenseExample.d0 = Throw TypeError DenseExample.d0
  ∧ Grid2D.set (1 # 2) 2 (Example.Obj 9) DenseExample.d0
    = Throw TypeError DenseExample.d0.
Proof.
  destruct (fractional_coordinates_pass_the_bounds_check DenseExample.d0 2 3 1 2 (1 # 2)
              (Example.Obj 9) DenseExampleFacts.ok_d0)
    as [Hrow Hcolumn]; [lia | lia | done | done |].
  split.
  - destruct Hrow as (w' & Hrun & _ & _ & Hget & Hcells); [vm_compute; reflexivity|].
    exists w'. split_and!; [exact Hrun | exact Hget | exact Hcells].
  - apply Hcolumn. vm_compute. reflexivity.
Defined.

Lemma dense_resize_keeps_creates_and_drops_witness :
  ∃ s',
    Grid2D.resize 3 2 DenseExample.d0 = Return tt s'
    ∧ grid_ok (Grid2D.grid s') 3 2
    ∧ Grid2D.user s'
      = (8%nat, [(Example.Obj 2, 0%Q, 2%Q); (Example.Obj 5, 1%Q, 2%Q)])
    ∧ square (Grid2D.grid s') 1 1 = Example.Obj 4
    ∧ square (Grid2D.grid s') 2 0 = Example.Obj 6
    ∧ square (Grid2D.grid s') 2 1 = Example.Obj 7.
Proof.
  destruct (dense_resize_keeps_creates_and_drops 3 2 DenseExample.d0 2 3 3 2
              DenseExampleFacts.ok_d0)
    as (s' & Hrun & Hok & _ & _ & _ & Huser & Hkeep & _ & Hnew);
    [done | done | lia | lia |].
  exists s'. split_and!; [exact Hrun | exact Hok | | | |].
  - rewrite Huser. vm_compute. reflexivity.
  - rewrite (Hkeep 1%nat 1%nat) by lia. vm_compute. reflexivity.
  - apply Hnew. vm_compute. apply list_elem_of_here.
  - apply Hnew. vm_compute. apply list_elem_of_further, list_elem_of_here.
Defined.

Lemma resize_leaves_dropped_columns_in_the_array_witness :
  ∃ s' arrays a,
    Grid2D.resize 1 2 DenseExample.d0 = Return tt s'
    ∧ Grid2D.toArray s' = Return arrays s'
    ∧ length arrays = 2%nat
    ∧ arrays !! 1%nat = Some (Some a)
    ∧ JsArray.length a = 2%Z
    ∧ JsArray.get a 1 = Some (Example.Obj 4).
Proof.
  destruct (resize_leaves_dropped_columns_in_the_array 1 2 DenseExample.d0 2 3 1 2
              DenseExampleFacts.ok_d0)
    as (s' & arrays & Hrun & Harrays & Hlen & Hcols); [done | done | lia | lia |].
  destruct (Hcols 1%nat ltac:(lia)) as (a & Ha & Halen & Hget).
  exists s', arrays, a.
  split_and!; [exact Hrun | exact Harrays | | exact Ha | exact Halen |].
  - rewrite Hlen. vm_compute. reflexivity.
  - transitivity (Some (square (Grid2D.grid DenseExample.d0) 1 1)).
    + apply (Hget 1%nat); lia.
    + vm_compute. reflexivity.
Defined.

Lemma dense_grid_checks_dimensions_witness :
  Grid2D.new 0 3 (inl DenseExample.dense_config) (0%nat, [])
  = Throw DimensionError (0%nat, [])
  ∧ Grid2D.resize 0 3 DenseExample.d0 = Throw DimensionError DenseExample.d0.
Proof.
  destruct (dense_grid_checks_dimensions 0 3 (inl DenseExample.dense_config) (0%nat, [])
              DenseExample.d0 2 3 DenseExampleFacts.ok_d0)
    as (_ & Hnew & _ & Hresize).
  assert (¬ (positiveInteger 0 ∧ positiveInteger 3)) as Hbad.
  { intros [[Hlt _]%positiveInteger_iff _]. done. }
  split; [by apply Hnew | by apply Hresize].
Defined.

(** * The spatial grid with checked bucket dimensions *)

(** ** Checked bucket dimensions *)

Section CheckedGrids.
Context {V : Type} `{JsValue V} {U : Type}.
Import SpatialGrid2D.
Implicit Types (w : World V U) (a : addr).

Lemma positiveInteger_positive q : positiveInteger q → (0 < q)%Q.
Proof.
  intros (k & Hk & ->). change 0%Q with (inject_Z 0). rewrite <- Zlt_Qlt. lia.
Qed.

Lemma integerBuckets_new gridWidth gridHeight bucketWidth bucketHeight config
    (g : SpatialGrid2D.t V U) h p u :
  new gridWidth gridHeight bucketWidth bucketHeight config = inr g →
  integerBuckets (mkWorld h p g u).
Proof.
  intros Hnew. unfold new in Hnew.
  destruct (badDimension gridWidth); [done|].
  destruct (badDimension gridHeight); [done|].
  destruct (badDimension bucketWidth) eqn:Hbw; [done|].
  destruct (badDimension bucketHeight) eqn:Hbh; [done|].
  injection Hnew as <-. split; by apply badDimension_positiveInteger.
Qed.

Lemma is_element_holds_at x y v (it : Item V) :
  is_element x y v it = true ↔ holds_at x y v it.
Proof.
  unfold is_element, holds_at.
  rewrite !andb_true_iff, !Qeq_bool_iff, bool_decide_eq_true. tauto.
Qed.

Lemma is_element_not_holds_at x y v (it : Item V) :
  is_element x y v it = false ↔ ¬ holds_at x y v it.
Proof. by rewrite <- is_element_holds_at, not_true_iff_false. Qed.

(** The calls other than [resize] leave the dimensions as they are. *)
Lemma insertAt_dimensions w x y v w' :
  insertAt x y v w = Return tt w' →
  _gridWidth (grid w') = _gridWidth (grid w)
  ∧ _gridHeight (grid w') = _gridHeight (grid w)
  ∧ _bucketWidth (grid w') = _bucketWidth (grid w)
  ∧ _bucketHeight (grid w') = _bucketHeight (grid w).
Proof.
  intros Hrun.
  destruct (insertAt_return _ _ _ _ _ Hrun) as (a & bx & by_ & row & bucket & _ & _ & ->).
  done.
Qed.

Lemma put_release_dimensions c w bx by_ row kept removed :
  let w' := put_bucket bx by_ row kept (release_all c removed w) in
  _gridWidth (grid w') = _gridWidth (grid w)
  ∧ _gridHeight (grid w') = _gridHeight (grid w)
  ∧ _bucketWidth (grid w') = _bucketWidth (grid w)
  ∧ _bucketHeight (grid w') = _bucketHeight (grid w).
Proof. cbn. unfold put_bucket. cbn. by rewrite release_all_grid. Qed.

Lemma removeAt_dimensions w x y v w' :
  wf w → removeAt x y v w = Return tt w' →
  _gridWidth (grid w') = _gridWidth (grid w)
  ∧ _gridHeight (grid w') = _gridHeight (grid w)
  ∧ _bucketWidth (grid w') = _bucketWidth (grid w)
  ∧ _bucketHeight (grid w') = _bucketHeight (grid w).
Proof.
  intros Hwf Hrun. pose proof (removeAt_return_inv _ _ _ _ _ Hrun) as Hin.
  destruct (removeAt_wf_spec w x y v Hwf Hin)
    as (bx & by_ & row & bucket & kept & removed & _ & _ & _ & _ & _ & Hrun' & _).
  rewrite Hrun in Hrun'. destruct (bool_decide (removed = [])); [done|].
  injection Hrun' as ->. apply put_release_dimensions.
Qed.

Lemma removeAllAt_dimensions w x y w' :
  wf w → removeAllAt x y w = Return tt w' →
  _gridWidth (grid w') = _gridWidth (grid w)
  ∧ _gridHeight (grid w') = _gridHeight (grid w)
  ∧ _bucketWidth (grid w') = _bucketWidth (grid w)
  ∧ _bucketHeight (grid w') = _bucketHeight (grid w).
Proof.
  intros Hwf Hrun. pose proof (removeAllAt_return_inv _ _ _ _ Hrun) as Hin.
  destruct (bucketOf_ok w x y (wf_shape w Hwf) Hin)
    as (bx & by_ & row & bucket & Hb & Hrow & Hbucket & _).
  destruct (removeAllAt_spec w x y bx by_ row bucket Hin Hb Hrow)
    as (kept & removed & Hrun' & _).
  rewrite Hrun in Hrun'. injection Hrun' as ->. apply put_release_dimensions.
Qed.

Lemma clear_dimensions w w' :
  clear w = Return tt w' →
  _gridWidth (grid w') = _gridWidth (grid w)
  ∧ _gridHeight (grid w') = _gridHeight (grid w)
  ∧ _bucketWidth (grid w') = _bucketWidth (grid w)
  ∧ _bucketHeight (grid w') = _bucketHeight (grid w).
Proof.
  rewrite clear_spec. intros [= <-]. cbn. by rewrite release_all_grid.
Qed.

Lemma resize_dimensions w gridWidth gridHeight bucketWidth bucketHeight w' :
  resize gridWidth gridHeight bucketWidth bucketHeight w = Return tt w' →
  (_gridWidth (grid w'), _gridHeight (grid w'), _bucketWidth (grid w'),
   _bucketHeight (grid w'))
  = resized w gridWidth gridHeight bucketWidth bucketHeight.
Proof.
  intros Hrun. pose proof (resize_spec _ _ _ _ _ _ Hrun) as Hspec.
  unfold resized in *.
  destruct Hspec as (nx & ny & nb' & destroyed & kept & _ & -> & _). done.
Qed.

(** The checked grids are those the constructor builds, and the calls keep
    them checked as long as [resize] is given checked bucket dimensions. *)
Lemma checked_fresh gridWidth gridHeight bucketWidth bucketHeight config
    (g : SpatialGrid2D.t V U) u :
  new gridWidth gridHeight bucketWidth bucketHeight config = inr g →
  (Qceiling (gridWidth / bucketWidth) ≤ 2 ^ 31)%Z →
  (Qceiling (gridHeight / bucketHeight) ≤ 2 ^ 31)%Z →
  checked (fresh g u).
Proof.
  intros Hnew Hr Hc. split; [by eapply wf_fresh|].
  unfold fresh. destruct itemPool_init as [p h]. by eapply integerBuckets_new.
Qed.

Lemma checked_run w o w' :
  checked w → integral w o → run o w = Return tt w' → checked w'.
Proof.
  intros [Hwf [Hbw Hbh]] Hint Hrun.
  unfold checked, integerBuckets, bucketWidth, bucketHeight in *.
  destruct o as [x y v|x y v|x y|fromX fromY toX toY v|gw gh bw bh|]; cbn [run] in Hrun.
  - destruct (insertAt_dimensions _ _ _ _ _ Hrun) as (_ & _ & -> & ->).
    split; [by eapply wf_insertAt | done].
  - destruct (removeAt_dimensions _ _ _ _ _ Hwf Hrun) as (_ & _ & -> & ->).
    split; [by eapply wf_removeAt | done].
  - destruct (removeAllAt_dimensions _ _ _ _ Hwf Hrun) as (_ & _ & -> & ->).
    split; [by eapply wf_removeAllAt | done].
  - split; [by eapply wf_move|]. revert Hrun. unfold move, bind.
    destruct (removeAt fromX fromY v w) as [[] w1| |] eqn:Hrem; [|done|done].
    intros Hins.
    destruct (insertAt_dimensions _ _ _ _ _ Hins) as (_ & _ & -> & ->).
    by destruct (removeAt_dimensions _ _ _ _ _ Hwf Hrem) as (_ & _ & -> & ->).
  - pose proof (wf_resize w gw gh bw bh w' Hwf Hrun) as Hres.
    pose proof (resize_dimensions _ _ _ _ _ _ Hrun) as Hdim.
    cbn in Hint. unfold resized in *. destruct Hint as (Hbw' & Hbh' & Hr & Hc).
    injection Hdim as _ _ -> ->.
    split; [|done]. apply Hres; auto using positiveInteger_positive.
  - destruct (clear_dimensions _ _ Hrun) as (_ & _ & -> & ->).
    split; [by eapply wf_clear | done].
Qed.
End CheckedGrids.

Module ExampleChecked.
Import SpatialGrid2D Example ExampleFacts.

Lemma checked_w0 : checked w0.
Proof.
  apply (checked_fresh _ _ _ _ _ _ _ new_grid0); vm_compute; congruence.
Qed.

Lemma checked_w1 : checked w1.
Proof. exact (checked_run w0 (InsertAt 1 1 (Obj 1)) w1 checked_w0 I run_w1). Qed.

Lemma checked_w2 : checked w2.
Proof. exact (checked_run w1 (InsertAt 1 1 (Obj 2)) w2 checked_w1 I run_w2). Qed.

Lemma checked_w_twice : checked w_twice.
Proof. exact (checked_run w1 (InsertAt 1 1 (Obj 1)) w_twice checked_w1 I run_w_twice). Qed.

Lemma checked_w_far : checked w_far.
Proof. exact (checked_run w2 (InsertAt 7 5 (Obj 3)) w_far checked_w2 I run_w_far). Qed.

Lemma run_w_pair : insertAt 0 5 (Obj 2) w1 = Return tt w_pair.
Proof. run_call. Qed.

Lemma checked_w_pair : checked w_pair.
Proof. exact (checked_run w1 (InsertAt 0 5 (Obj 2)) w_pair checked_w1 I run_w_pair). Qed.
End ExampleChecked.

(** ** [insertAt] followed by [get], on a checked grid *)

Section ClaimInsertGet.
Context {V : Type} `{JsValue V} {U : Type}.
Import SpatialGrid2D.
Implicit Types (w : World V U) (a : addr).

(** [insertAt] changes what [get] returns at its own coordinate only. *)
Lemma insertAt_elsewhere w x y v w' x' y' out r :
  wf w → insertAt x y v w = Return tt w' → ¬ (x' == x ∧ y' == y) →
  get x' y' out w = Return r w → get x' y' out w' = Return r w'.
Proof.
  intros Hwf Hrun0 Hne Hget'.
  pose proof (insertAt_return_inv _ _ _ _ _ Hrun0) as Hin.
  destruct (insertAt_wf_spec w x y v Hwf Hin)
    as (a & bx & by_ & row & bucket & w2 & Hrun & Hfresh & Ha & Hold & Hrow & Hbucket
        & Hbx & Hby & Hgrid).
  assert (w2 = w') as -> by congruence.
  assert (by_ < length row)%nat as Hlt by (by eapply lookup_lt_Some).
  assert (∀ b, b ⊆ allItems w → values_at w' x' y' b = values_at w x' y' b) as Hvals.
  { intros b Hsub. apply values_at_ext. intros a' Ha'. apply Hold. by apply Hsub. }
  assert (∀ i j r b, _buckets (grid w) !! i = Some r → r !! j = Some b → b ⊆ allItems w)
    as Hsub.
  { intros i j r0 b Hr Hb' a' Ha'. apply elem_of_concat2. by exists i, j, r0, b. }
  assert (outOfBounds (grid w') = outOfBounds (grid w)) as Hbounds by (by rewrite Hgrid).
  apply get_return_inv in Hget' as (Hin' & bx0 & by0 & bucket0 & Hb0 & ->).
  assert (bucketOf x' y' w'
          = Return (bx0, by0,
                    if decide (bx0 = Z.of_nat bx ∧ by0 = Z.of_nat by_)
                    then bucket ++ [a] else bucket0) w') as Hb0'.
  { eapply (bucketOf_replaced w w'); try done; by rewrite Hgrid. }
  rewrite (get_ok w' x' y' out _ _ _ ltac:(by rewrite Hbounds) Hb0').
  apply bucketOf_inv in Hb0 as (_ & _ & _ & _ & _ & row0 & Hrow0 & Hbucket0).
  do 2 f_equal. case_decide as Hsame.
  - destruct Hsame as [-> ->]. rewrite !Nat2Z.id in *.
    assert (row0 = row) as -> by congruence.
    assert (bucket0 = bucket) as -> by congruence.
    rewrite values_at_app, (Hvals bucket) by eauto.
    unfold values_at at 2. rewrite filter_cons, Ha, at_position_other by done.
    rewrite decide_False by done. cbn. by rewrite app_nil_r.
  - apply Hvals. eauto.
Qed.


End ClaimInsertGet.





(** ** [removeAt] on a checked grid *)

Section ClaimRemoveAt.
Context {V : Type} `{JsValue V} {U : Type}.
Import SpatialGrid2D.
Implicit Types (w : World V U) (a : addr).

Lemma divToInt32_floor x g b :
  (0 < b)%Q → (0 <= x)%Q → (x < g)%Q → (Qceiling (g / b) ≤ 2 ^ 31)%Z →
  divToInt32 x b = Qfloor (x / b).
Proof.
  intros Hb Hx Hxg Hmax.
  pose proof (divToInt32_range x g b Hb Hx Hxg Hmax) as Hrange.
  unfold divToInt32 in *.
  destruct (Qeq_bool b 0) eqn:Hb0.
  { apply Qeq_bool_eq in Hb0. rewrite Hb0 in Hb. by apply Qlt_irrefl in Hb. }
  assert (0 <= x / b)%Q as Hq.
  { apply Qle_shift_div_l; [done|]. by rewrite Qmult_0_l. }
  rewrite truncate_nonneg in * by done.
  assert (0 ≤ Qfloor (x / b))%Z as Hlo.
  { change 0%Z with (Qfloor 0). by apply Qfloor_resp_le. }
  assert (Qfloor (x / b) < 2 ^ 31)%Z as Hhi.
  { assert (Qfloor (x / b) < Qceiling (g / b))%Z; [|lia].
    rewrite Zlt_Qlt. eapply Qle_lt_trans; [apply Qfloor_le|].
    eapply Qlt_le_trans; [|apply Qle_ceiling].
    apply Qlt_shift_div_l; [done|].
    unfold Qdiv. rewrite <- Qmult_assoc, (Qmult_comm (/ b)), Qmult_inv_r, Qmult_1_r.
    - done.
    - intros Hz. rewrite Hz in Hb. by apply Qlt_irrefl in Hb. }
  apply toInt32_small. lia.
Qed.

Lemma filter_ext_elem {A} (P Q : A → Prop) `{∀ x, Decision (P x)} `{∀ x, Decision (Q x)}
    (l : list A) :
  (∀ x, x ∈ l → P x ↔ Q x) → filter P l = filter Q l.
Proof.
  induction l as [|x l IH]; intros Hext; [done|].
  rewrite !filter_cons.
  rewrite IH by (intros x' Hx'; apply Hext; by right).
  destruct (decide (P x)) as [HP|HP], (decide (Q x)) as [HQ|HQ]; try done.
  - exfalso. apply HQ, Hext; [by left | done].
  - exfalso. apply HP, Hext; [by left | done].
Qed.

End ClaimRemoveAt.



(** ** [move] on a checked grid *)

Section ClaimMove.
Context {V : Type} `{JsValue V} {U : Type}.
Import SpatialGrid2D.
Implicit Types (w : World V U) (a : addr).

End ClaimMove.


(** ** [resize] on a checked grid *)

Section ClaimResize.
Context {V : Type} `{JsValue V} {U : Type}.
Import SpatialGrid2D.
Implicit Types (w : World V U) (a : addr).

Lemma inside_not_outside w gw gh a :
  wf w → a ∈ allItems w → inside gw gh (item w a) ↔ outside gw gh (item w a) = false.
Proof.
  intros Hwf Ha. destruct (wf_inside w a Hwf Ha) as (Hx0 & _ & Hy0 & _).
  unfold inside, outside. rewrite orb_false_iff, !Qle_bool_gt. tauto.
Qed.

End ClaimResize.



(** ** No record is lost on a checked grid *)

Section SpatialGridConserved.
Context {V : Type} `{JsValue V} {U : Type}.
Import SpatialGrid2D.
Implicit Types (w : World V U) (a : addr).

End SpatialGridConserved.


(** * The pools: when the factory is called *)

Section ClaimHydration.
Context {TObject : Type} `{Countable TObject} (factory : nat → TObject).

(** C7, amended.  A pool, unchecked ([FastPool]) or checked ([SlowPool]), is
    built on a factory whose calls are counted, [k0] of them made before;
    [n] is the initial size and [m] the automatic hydration size of its
    configuration (10 each where the configuration leaves them out).  For
    the unchecked pool and every factory: the constructor calls the factory
    [n] times, any [j ≤ n] calls of [getOne] that follow leave the count
    where it was, and when the pool is exhausted ([j = n]) one more [getOne]
    calls the factory exactly [m] times.  For the checked pool the same
    holds when the factory returns a different object at each call. *)
Theorem getOne_hydrates_only_when_exhausted
    (config : option PoolConfig) (k0 : nat)
    (onReleaseFast : option (@FastPool.PoolReleaseCallback TObject nat))
    (onReleaseSlow : option (@SlowPool.PoolReleaseCallback TObject nat)) :
  let n := cfg_initialSize (withDefaults config) in
  let m := cfg_autoHydrateSize (withDefaults config) in
  (∃ p, FastPool.new (counting factory) onReleaseFast config k0 = (p, (k0 + n)%nat)
        ∧ ∀ j, (j ≤ n)%nat →
            ∃ p', FastPool.getMany j p (k0 + n)%nat = (p', (k0 + n)%nat)
                  ∧ (j = n → (FastPool.getOne p' (k0 + n)%nat).2 = (k0 + n + m)%nat))
  ∧ (Inj (=) (=) factory →
     ∃ p, SlowPool.new (counting factory) onReleaseSlow config k0
          = Return tt (p, (k0 + n)%nat)
        ∧ ∀ j, (j ≤ n)%nat →
            ∃ p', SlowPool.getMany j (p, (k0 + n)%nat) = Return tt (p', (k0 + n)%nat)
                  ∧ (j = n →
                     ∃ o p'', SlowPool.getOne (p', (k0 + n)%nat)
                              = Return o (p'', (k0 + n + m)%nat))).
Proof.
  intros n m. subst n m. unfold FastPool.new, SlowPool.new.
  generalize (withDefaults config). intros c. split.
  - set (n := cfg_initialSize c).
    set (p0 := FastPool.mk 0 JsArray.empty (counting factory) onReleaseFast c).
    pose proof (FastPoolFacts.hydrate_calls factory n p0 k0 eq_refl) as Hk.
    destruct (FastPoolFacts.hydrate_fields n p0 k0) as (Hi & Hh & _ & Hc).
    destruct (FastPool.hydrate n p0 k0) as [p k]. cbn [fst snd] in *. subst k.
    subst p0. cbn in Hi, Hh, Hc.
    exists p. split; [done|]. intros j Hj.
    pose proof (FastPoolFacts.getMany_available factory j p (k0 + n)%nat) as Hmany.
    cbn zeta in Hmany.
    destruct Hmany as (Hk' & Hi' & Hh' & Hc'); [done | lia |].
    destruct (FastPool.getMany j p (k0 + n)) as [p' k']. cbn [fst snd] in *. subst k'.
    exists p'. split; [done|]. intros ->.
    unfold FastPool.getOne.
    destruct (Z.eqb_spec (FastPool._indexInPool p') 0) as [_|Hne]; [|lia].
    pose proof (FastPoolFacts.hydrate_calls factory
                  (cfg_autoHydrateSize (FastPool._config p')) p' (k0 + n)%nat) as Hcalls.
    destruct (FastPool.hydrate _ p' (k0 + n)) as [p'' k'']. cbn [fst snd] in *.
    rewrite Hcalls by congruence. rewrite Hc', Hc. done.
  - intros Hinj. set (n := cfg_initialSize c).
    set (p0 := SlowPool.mk 0 ∅ JsArray.empty (counting factory) onReleaseSlow c).
    destruct (SlowPoolFacts.hydrate_fresh factory n p0 k0 Hinj eq_refl)
      as (p & Hrun & Hi & Hh & Hc & Ht).
    { split.
      - intros o Ho. apply SlowPoolFacts.has_lookup in Ho as [b Hb].
        cbn in Hb. by rewrite lookup_empty in Hb.
      - intros i o Ho. unfold JsArray.get in Ho. cbn in Ho.
        by rewrite lookup_empty in Ho. }
    subst p0. cbn in Hi, Hh, Hc.
    exists p. split; [done|]. intros j Hj.
    destruct (SlowPoolFacts.getMany_tracked factory j p (k0 + n)%nat)
      as (p' & Hrun' & Hi' & Hh' & Hc' & Ht'); [lia | done |].
    exists p'. split; [done|]. intros ->.
    destruct (SlowPoolFacts.hydrate_fresh factory
                (cfg_autoHydrateSize (SlowPool._config p')) p' (k0 + n)%nat Hinj)
      as (p'' & Hrun'' & _); [congruence | done |].
    unfold SlowPool.getOne, bind.
    destruct (Z.eqb_spec (SlowPool._indexInPool p') 0) as [_|Hne]; [|lia].
    rewrite Hrun''. rewrite Hc', Hc. eexists _, _. reflexivity.
Qed.
End ClaimHydration.

Lemma getOne_hydrates_only_when_exhausted_witness :
  (∃ p, FastPool.new (counting (λ k : nat, k)) None
          (Some {| initialSize := Some 2%nat; autoHydrateSize := Some 3%nat |}) 0%nat
        = (p, 2%nat)
        ∧ ∃ p', FastPool.getMany 2 p 2%nat = (p', 2%nat)
                ∧ (FastPool.getOne p' 2%nat).2 = 5%nat)
  ∧ (∃ p, SlowPool.new (counting (λ k : nat, k)) None
            (Some {| initialSize := Some 2%nat; autoHydrateSize := Some 3%nat |}) 0%nat
          = Return tt (p, 2%nat)
          ∧ ∃ p' o p'', SlowPool.getMany 2 (p, 2%nat) = Return tt (p', 2%nat)
                        ∧ SlowPool.getOne (p', 2%nat) = Return o (p'', 5%nat)).
Proof.
  destruct (getOne_hydrates_only_when_exhausted (λ k : nat, k)
              (Some {| initialSize := Some 2%nat; autoHydrateSize := Some 3%nat |})
              0%nat None None) as [(p & Hnew & Hget) Hslow].
  destruct Hslow as (q & Hnew' & Hget').
  { intros a b Hab. exact Hab. }
  split.
  - exists p. split; [exact Hnew|].
    destruct (Hget 2%nat) as (p' & Hmany & Hone); [cbn; lia|].
    exists p'. split; [exact Hmany|]. exact (Hone eq_refl).
  - exists q. split; [exact Hnew'|].
    destruct (Hget' 2%nat) as (q' & Hmany & Hone); [cbn; lia|].
    destruct (Hone eq_refl) as (o & q'' & Hrun).
    exists q', o, q''. split; [exact Hmany | exact Hrun].
Defined.

(** C7 as stated fails for the checked pool.  Built with initial size 1 and
    automatic hydration size 3 on a factory that hands out the same object
    every time, it returns that object from the first [getOne]; the second
    [getOne], on the exhausted pool, calls the factory once, not three
    times, and throws the duplicate-record error.  The unchecked pool on
    the same factory calls it three times. *)
Lemma checked_pool_stops_at_a_repeated_object :
  let same := counting (λ _ : nat, 0%nat) in
  let config := Some {| initialSize := Some 1%nat; autoHydrateSize := Some 3%nat |} in
  (∃ s0 s1 s2 : SlowPool.t nat nat * nat,
     SlowPool.new same None config 0%nat = Return tt s0
     ∧ s0.2 = 1%nat
     ∧ SlowPool.getOne s0 = Return (Some 0%nat) s1
     ∧ s1.2 = 1%nat
     ∧ SlowPool.getOne s1 = Throw DuplicateRecordError s2
     ∧ s2.2 = 2%nat)
  ∧ (∃ p0 p1 p2 o,
       FastPool.new same None config 0%nat = (p0, 1%nat)
       ∧ FastPool.getOne p0 1%nat = (Some 0%nat, p1, 1%nat)
       ∧ FastPool.getOne p1 1%nat = (o, p2, 4%nat)).
Proof.
  intros same config. split.
  - do 3 eexists. split_and!; vm_compute; reflexivity.
  - do 4 eexists. split_and!; vm_compute; reflexivity.
Qed.
